(** * Standalone denoiser of Cycles: tile scheduling, neighbourhood mapping,
      channel discovery, preprocessing and write-back

    Shallow embedding of [src/blender/blender_viewport.cpp] (the part that
    is [render/denoising.cpp], and the viewport parameters at its head): the
    C++ functions are transcribed as Rocq functions over explicit state,
    [int] arithmetic is 32-bit two's complement written out with
    [Int32.wrap], flat [float] buffers are lists indexed by integers, and
    loops are counting loops over an explicit state. *)

From Stdlib Require Import ZArith List String Ascii Lia Bool QArith.
From Stdlib Require Import Sorted OrderedTypeEx FunInd Recdef.
From stdpp Require Import base list gmap strings pretty.

#[local] Open Scope Z_scope.

(** ** 32-bit signed integers *)

Module Int32.

Definition min_signed : Z := -2147483648.
Definition max_signed : Z := 2147483647.

(** Two's-complement reduction of a mathematical integer to [int]. *)
Definition wrap (z : Z) : Z := (z + 2147483648) mod 4294967296 - 2147483648.

Definition in_range (z : Z) : Prop := min_signed <= z <= max_signed.

Definition add (a b : Z) : Z := wrap (a + b).
Definition sub (a b : Z) : Z := wrap (a - b).
Definition mul (a b : Z) : Z := wrap (a * b).
(** C++ [/] and [%] truncate towards zero. *)
Definition div (a b : Z) : Z := wrap (Z.quot a b).
Definition rem (a b : Z) : Z := Z.rem a b.

Lemma wrap_id z : in_range z -> wrap z = z.
Proof.
  unfold in_range, min_signed, max_signed, wrap. intros Hz.
  rewrite Z.mod_small by lia. lia.
Qed.

Lemma wrap_in_range z : in_range (wrap z).
Proof.
  unfold in_range, min_signed, max_signed, wrap.
  pose proof (Z.mod_pos_bound (z + 2147483648) 4294967296 ltac:(lia)). lia.
Qed.

Lemma add_id a b : in_range (a + b) -> add a b = a + b.
Proof. apply wrap_id. Qed.

Lemma sub_id a b : in_range (a - b) -> sub a b = a - b.
Proof. apply wrap_id. Qed.

Lemma mul_id a b : in_range (a * b) -> mul a b = a * b.
Proof. apply wrap_id. Qed.

End Int32.

Declare Scope int_scope.
Delimit Scope int_scope with int.
Infix "+i" := Int32.add (at level 50, left associativity) : int_scope.
Infix "-i" := Int32.sub (at level 50, left associativity) : int_scope.
Infix "*i" := Int32.mul (at level 40, left associativity) : int_scope.
Infix "/i" := Int32.div (at level 40, left associativity) : int_scope.
Infix "%i" := Int32.rem (at level 40, left associativity) : int_scope.
#[local] Open Scope int_scope.

(** Side conditions "this [int] expression does not wrap". *)
Ltac int_range :=
  unfold Int32.in_range, Int32.min_signed, Int32.max_signed in *; lia.
Ltac int_range_nl :=
  unfold Int32.in_range, Int32.min_signed, Int32.max_signed in *; nia.

(** Modelled from the spec: [clamp] is declared in a utility header that is
    not under src/; the spec uses it as the limitation of [a] to the range
    [mn .. mx], that is [min(max(a, mn), mx)]. *)
Definition clamp (a mn mx : Z) : Z := Z.min (Z.max a mn) mx.

(** Modelled from the spec: [divide_up] is declared in a utility header that
    is not under src/; the spec reads its result as [ceil(W/tw)].  The helper
    works on [size_t], so the sum does not wrap for [int] arguments. *)
Definition divide_up (x y : Z) : Z := (x + y - 1) / y.

(** ** Counting loops

    [for_range lo hi body s] is [for (int i = lo; i < hi; i++) s = body i s].
    The counter needs no wrap-around: it stops at [hi], which is an [int]. *)

Section Loops.
Context {St : Type}.

Fixpoint iter_from (n : nat) (i : Z) (body : Z -> St -> St) (s : St) : St :=
  match n with
  | O => s
  | S n' => iter_from n' (i + 1) body (body i s)
  end.

Definition for_range (lo hi : Z) (body : Z -> St -> St) (s : St) : St :=
  iter_from (Z.to_nat (hi - lo)) lo body s.

Lemma iter_from_inv (P : Z -> St -> Prop) body n :
  forall i s,
    P i s ->
    (forall j t, i <= j < i + Z.of_nat n -> P j t -> P (j + 1) (body j t)) ->
    P (i + Z.of_nat n) (iter_from n i body s).
Proof.
  induction n as [|n IH]; intros i s Hs Hstep; simpl iter_from.
  - replace (i + Z.of_nat 0) with i by lia. exact Hs.
  - replace (i + Z.of_nat (S n)) with ((i + 1) + Z.of_nat n) by lia.
    apply IH.
    + apply Hstep; [lia | exact Hs].
    + intros j t Hj. apply Hstep. lia.
Qed.

(** The loop-invariant rule. *)
Lemma for_range_inv (P : Z -> St -> Prop) lo hi body s :
  lo <= hi ->
  P lo s ->
  (forall j t, lo <= j < hi -> P j t -> P (j + 1) (body j t)) ->
  P hi (for_range lo hi body s).
Proof.
  intros Hle Hs Hstep. unfold for_range.
  replace hi with (lo + Z.of_nat (Z.to_nat (hi - lo))) at 1 by lia.
  apply iter_from_inv; [exact Hs |].
  intros j t Hj. apply Hstep. lia.
Qed.

Lemma for_range_empty lo hi body s : hi <= lo -> for_range lo hi body s = s.
Proof.
  intros Hle. unfold for_range.
  replace (Z.to_nat (hi - lo)) with O by lia. reflexivity.
Qed.

(** An invariant that does not mention the counter. *)
Lemma for_range_preserves (P : St -> Prop) lo hi body s :
  P s ->
  (forall j t, lo <= j < hi -> P t -> P (body j t)) ->
  P (for_range lo hi body s).
Proof.
  intros Hs Hstep. destruct (Z_le_gt_dec lo hi) as [Hle|Hgt].
  - apply (for_range_inv (fun _ => P)); assumption.
  - rewrite for_range_empty by lia. exact Hs.
Qed.

Lemma iter_from_ext body body' n :
  forall i s,
    (forall j t, i <= j < i + Z.of_nat n -> body j t = body' j t) ->
    iter_from n i body s = iter_from n i body' s.
Proof.
  induction n as [|n IH]; intros i s Hext; simpl; [reflexivity|].
  rewrite Hext by lia. apply IH. intros j t Hj. apply Hext. lia.
Qed.

(** Two bodies that agree inside the range give the same loop. *)
Lemma for_range_ext lo hi body body' s :
  (forall j t, lo <= j < hi -> body j t = body' j t) ->
  for_range lo hi body s = for_range lo hi body' s.
Proof.
  intros Hext. unfold for_range. apply iter_from_ext.
  intros j t Hj. apply Hext. lia.
Qed.

Lemma iter_from_foldl body n :
  forall i s,
    iter_from n i body s = foldl (fun t j => body j t) s (seqZ i (Z.of_nat n)).
Proof.
  induction n as [|n IH]; intros i s; [reflexivity|].
  rewrite seqZ_cons by lia. simpl iter_from. simpl foldl.
  rewrite IH. do 2 f_equal; lia.
Qed.

(** A counting loop is a left fold over the integers of its range. *)
Lemma for_range_foldl lo hi body s :
  for_range lo hi body s = foldl (fun t j => body j t) s (seqZ lo (hi - lo)).
Proof.
  unfold for_range. rewrite iter_from_foldl.
  destruct (Z_le_gt_dec lo hi) as [Hle|Hgt].
  - rewrite Z2Nat.id by lia. reflexivity.
  - replace (Z.to_nat (hi - lo)) with O by lia.
    unfold seqZ. replace (Z.to_nat (hi - lo)) with O by lia. reflexivity.
Qed.

End Loops.

(** ** Flat buffers indexed by integers

    A C++ buffer ([array<float>], [vector<int>], [device_vector<float>]) is a
    list; an index is an integer.  Reading or writing out of range is
    undefined in C++: here a read yields the inhabitant and a write does
    nothing, and every theorem below states the range it relies on. *)

Section Buffers.
Context {A : Type} `{!Inhabited A}.

Definition zlookup (l : list A) (i : Z) : option A :=
  if decide (0 <= i) then l !! Z.to_nat i else None.

Definition load (l : list A) (i : Z) : A := default inhabitant (zlookup l i).

Definition store (l : list A) (i : Z) (v : A) : list A :=
  if decide (0 <= i) then <[Z.to_nat i := v]> l else l.

Lemma length_store l i v : length (store l i v) = length l.
Proof. unfold store. case_decide; [apply length_insert | reflexivity]. Qed.

Lemma load_store_eq l i v :
  0 <= i < Z.of_nat (length l) -> load (store l i v) i = v.
Proof.
  intros Hi. unfold load, zlookup, store.
  rewrite !decide_True by lia.
  rewrite list_lookup_insert_eq by lia. reflexivity.
Qed.

Lemma load_store_ne l i j v : i <> j -> load (store l i v) j = load l j.
Proof.
  intros Hne. unfold load, zlookup, store.
  destruct (decide (0 <= i)) as [Hi|Hi]; [|reflexivity].
  destruct (decide (0 <= j)) as [Hj|Hj]; [|reflexivity].
  rewrite list_lookup_insert_ne by lia. reflexivity.
Qed.

Lemma zlookup_load l i :
  0 <= i < Z.of_nat (length l) -> zlookup l i = Some (load l i).
Proof.
  intros Hi. unfold load, zlookup. destruct (decide (0 <= i)); [|lia].
  destruct (lookup_lt_is_Some_2 l (Z.to_nat i) ltac:(lia)) as [v Hv].
  rewrite Hv. reflexivity.
Qed.

Lemma same_length_zlookup l l' i :
  length l = length l' -> load l i = load l' i -> zlookup l i = zlookup l' i.
Proof.
  intros Hlen Hload. unfold load, zlookup in *.
  destruct (decide (0 <= i)) as [Hi|Hi]; [|reflexivity].
  destruct (l !! Z.to_nat i) as [v|] eqn:Hv;
    destruct (l' !! Z.to_nat i) as [v'|] eqn:Hv'; cbn in Hload.
  - congruence.
  - apply lookup_lt_Some in Hv. apply lookup_ge_None in Hv'. lia.
  - apply lookup_lt_Some in Hv'. apply lookup_ge_None in Hv. lia.
  - reflexivity.
Qed.

(** Two buffers of the same length with the same contents are equal. *)
Lemma load_ext l l' :
  length l = length l' -> (forall i, load l i = load l' i) -> l = l'.
Proof.
  intros Hlen Hload. apply list_eq. intros n.
  pose proof (same_length_zlookup l l' (Z.of_nat n) Hlen (Hload _)) as Hz.
  unfold zlookup in Hz. destruct (decide (0 <= Z.of_nat n)); [|lia].
  rewrite Nat2Z.id in Hz. exact Hz.
Qed.

Lemma load_app_l l1 l2 i :
  0 <= i < Z.of_nat (length l1) -> load (l1 ++ l2) i = load l1 i.
Proof.
  intros Hi. unfold load, zlookup. destruct (decide (0 <= i)); [|lia].
  rewrite lookup_app_l by lia. reflexivity.
Qed.

Lemma load_app_length l v : load (l ++ [v]) (Z.of_nat (length l)) = v.
Proof.
  unfold load, zlookup. destruct (decide (0 <= Z.of_nat (length l))); [|lia].
  rewrite Nat2Z.id, list_lookup_middle by reflexivity. reflexivity.
Qed.

End Buffers.

(** ** Raster-ordered writes

    The pixel loops of the denoiser visit rows [y], columns [x] and slots [k]
    in raster order and write [val y x k] to address [addr y x k] of a flat
    buffer.  [written y x k buf] is the loop invariant "everything before
    [(y, x, k)] has been written to [orig], nothing else has changed". *)

Section RasterWrites.
Context {A : Type} `{!Inhabited A}.
Variables (ch cw nk : Z) (addr : Z -> Z -> Z -> Z) (val : Z -> Z -> Z -> A).
Variable orig : list A.

Definition in_rect (y x k : Z) : Prop :=
  0 <= y < ch /\ 0 <= x < cw /\ 0 <= k < nk.

Definition before (y x k y' x' k' : Z) : Prop :=
  0 <= y' /\ 0 <= x' < cw /\ 0 <= k' < nk /\
  (y' < y \/ (y' = y /\ (x' < x \/ (x' = x /\ k' < k)))).

Definition written (y x k : Z) (buf : list A) : Prop :=
  length buf = length orig /\
  (forall y' x' k', before y x k y' x' k' ->
     load buf (addr y' x' k') = val y' x' k') /\
  (forall j, (forall y' x' k', before y x k y' x' k' -> j <> addr y' x' k') ->
     load buf j = load orig j).

Hypothesis addr_bound : forall y x k,
  in_rect y x k -> 0 <= addr y x k < Z.of_nat (length orig).
Hypothesis addr_inj : forall y x k y' x' k',
  in_rect y x k -> in_rect y' x' k' -> addr y x k = addr y' x' k' ->
  y = y' /\ x = x' /\ k = k'.

Lemma written_init : written 0 0 0 orig.
Proof.
  split; [reflexivity|]. split.
  - intros y' x' k' Hb. unfold before in Hb. lia.
  - intros j _. reflexivity.
Qed.

Lemma written_iff y x k y2 x2 k2 buf :
  (forall y' x' k', before y x k y' x' k' <-> before y2 x2 k2 y' x' k') ->
  written y x k buf -> written y2 x2 k2 buf.
Proof.
  intros Hiff (Hlen & Hin & Hout). split; [exact Hlen|]. split.
  - intros y' x' k' Hb. apply Hin, Hiff, Hb.
  - intros j Hj. apply Hout. intros y' x' k' Hb. apply Hj, Hiff, Hb.
Qed.

Lemma written_store y x k buf :
  in_rect y x k -> written y x k buf ->
  written y x (k + 1) (store buf (addr y x k) (val y x k)).
Proof.
  intros Hr (Hlen & Hin & Hout).
  pose proof (addr_bound _ _ _ Hr) as Hb.
  split; [rewrite length_store; exact Hlen|]. split.
  - intros y' x' k' Hbef.
    destruct (Z.eq_dec (addr y x k) (addr y' x' k')) as [Heq|Hne].
    + assert (Hr' : in_rect y' x' k') by (unfold before, in_rect in *; lia).
      destruct (addr_inj _ _ _ _ _ _ Hr Hr' Heq) as (-> & -> & ->).
      apply load_store_eq. lia.
    + rewrite load_store_ne by exact Hne. apply Hin.
      unfold before in *.
      assert (~ (y' = y /\ x' = x /\ k' = k)) by (intros (-> & -> & ->); auto).
      lia.
  - intros j Hj. rewrite load_store_ne.
    + apply Hout. intros y' x' k' Hbef. apply Hj. unfold before in *. lia.
    + intros Heq. apply (Hj y x k); [|congruence].
      unfold before, in_rect in *. lia.
Qed.

Lemma written_next_x y x buf : written y x nk buf -> written y (x + 1) 0 buf.
Proof. apply written_iff. intros y' x' k'. unfold before. lia. Qed.

Lemma written_next_y y buf : written y cw 0 buf -> written (y + 1) 0 0 buf.
Proof. apply written_iff. intros y' x' k'. unfold before. lia. Qed.

Lemma written_final buf :
  written ch 0 0 buf ->
  length buf = length orig /\
  (forall y x k, in_rect y x k -> load buf (addr y x k) = val y x k) /\
  (forall j, (forall y x k, in_rect y x k -> j <> addr y x k) ->
     load buf j = load orig j).
Proof.
  intros (Hlen & Hin & Hout). split; [exact Hlen|]. split.
  - intros y x k Hr. apply Hin. unfold before, in_rect in *. lia.
  - intros j Hj. apply Hout. intros y x k Hb. apply Hj.
    unfold before, in_rect in *. lia.
Qed.

End RasterWrites.

(** ** Data model *)

Inductive tile_task := PATH_TRACE | DENOISE.

(** Device memory handles: the task's input buffer, or the output buffer
    allocated for one centre tile (identified by the tile index under which
    it is registered in [output_pixels]). *)
Inductive device_ptr :=
| null_ptr
| input_pixels_ptr
| output_mem_ptr (tile_index : Z).

Module RenderTile.
Record t := mk {
  x : Z; y : Z; w : Z; h : Z;
  start_sample : Z; num_samples : Z; sample : Z;
  offset : Z; stride : Z;
  tile_index : Z;
  task : tile_task;
  buffer : device_ptr
}.

Definition set_buffer (tl : t) (b : device_ptr) : t :=
  mk (x tl) (y tl) (w tl) (h tl) (start_sample tl) (num_samples tl)
     (sample tl) (offset tl) (stride tl) (tile_index tl) (task tl) b.
Definition set_offset (tl : t) (o : Z) : t :=
  mk (x tl) (y tl) (w tl) (h tl) (start_sample tl) (num_samples tl)
     (sample tl) o (stride tl) (tile_index tl) (task tl) (buffer tl).
Definition set_stride (tl : t) (s : Z) : t :=
  mk (x tl) (y tl) (w tl) (h tl) (start_sample tl) (num_samples tl)
     (sample tl) (offset tl) s (tile_index tl) (task tl) (buffer tl).
End RenderTile.

#[global] Instance RenderTile_inhabited : Inhabited RenderTile.t :=
  populate (RenderTile.mk 0 0 0 0 0 0 0 0 0 0 PATH_TRACE null_ptr).

Module DenoiseImageLayer.
Record t := mk {
  name : string;
  (** All channels belonging to this layer, as "pass.chan". *)
  channels : list string;
  (** Layer to image channel mapping. *)
  layer_to_image_channel : list Z;
  (** Device input/output slot to image channel mapping. *)
  input_to_image_channel : list Z;
  output_to_image_channel : list Z;
  neighbor_input_to_image_channel : list (list Z);
  samples : Z
}.

Definition empty : t := mk "" [] [] [] [] [] 0.
End DenoiseImageLayer.

#[global] Instance DenoiseImageLayer_inhabited : Inhabited DenoiseImageLayer.t :=
  populate DenoiseImageLayer.empty.

(** The part of OpenImageIO's [ImageSpec] the denoiser consumes.  A
    [multiView] attribute is recorded by the array length of its string
    value when it has base type STRING; the other attributes used are
    string-valued. *)
Module ImageSpec.
Record t := mk {
  width : Z;
  height : Z;
  nchannels : Z;
  channelnames : list string;
  multiView : option Z;
  string_attributes : list (string * string)
}.
End ImageSpec.

Module Denoiser.
Record t := mk {
  samples_override : Z;
  tile_size_x : Z;
  tile_size_y : Z;
  (** [params]: the denoising parameters used here. *)
  radius : Z;
  clamp_input : bool;
  neighbor_frames : Z;
  num_frames : Z
}.
End Denoiser.

Module DeviceTask.
Record t := mk {
  denoising_do_filter : bool;
  denoising_write_passes : bool;
  denoising_from_render : bool;
  denoising_frames : list Z;
  pass_stride : Z;
  target_pass_stride : Z;
  pass_denoising_data : Z;
  pass_denoising_clean : Z;
  frame_stride : Z
}.
End DeviceTask.

Definition INPUT_NUM_CHANNELS : Z := 15.
Definition INPUT_DENOISING_DEPTH : Z := 0.
Definition INPUT_DENOISING_NORMAL : Z := 1.
Definition INPUT_DENOISING_SHADOWING : Z := 4.
Definition INPUT_DENOISING_ALBEDO : Z := 5.
Definition INPUT_NOISY_IMAGE : Z := 8.
Definition INPUT_DENOISING_VARIANCE : Z := 11.
Definition INPUT_DENOISING_INTENSITY : Z := 14.
Definition OUTPUT_NUM_CHANNELS : Z := 3.

(** ** Channel names *)

(** Results of operations that report failure through an error string. *)
Inductive result (A : Type) :=
| Ok (a : A)
| Error (error : string).
Arguments Ok {A} a.
Arguments Error {A} error.

(** [string::rfind] of one character: the index of its last occurrence. *)
Fixpoint rfind (c : ascii) (s : string) : option nat :=
  match s with
  | EmptyString => None
  | String a s' =>
      match rfind c s' with
      | Some n => Some (S n)
      | None => if Ascii.eqb a c then Some O else None
      end
  end.

(** Splits [in_] at its last dot: [Some (before, suffix)], or [None] when
    there is no dot. *)
Definition split_last_dot (in_ : string) : option (string * string) :=
  match rfind "." in_ with
  | None => None
  | Some pos =>
      Some (substring 0 pos in_,
            substring (S pos) (String.length in_ - S pos) in_)
  end.

(** Separates a channel name into [(renderlayer, pass, channel)].  With
    views the input is RenderLayer.Pass.View.Channel and the render layer
    becomes "RenderLayer.View". *)
Definition parse_channel_name (name : string) (multiview_channels : bool)
  : option (string * string * string) :=
  match split_last_dot name with
  | None => None
  | Some (name, channel) =>
      match (if multiview_channels then split_last_dot name
             else Some (name, EmptyString)) with
      | None => None
      | Some (name, view) =>
          match split_last_dot name with
          | None => None
          | Some (name, pass) =>
              let renderlayer :=
                if multiview_channels then (name ++ "." ++ view)%string else name in
              Some (renderlayer, pass, channel)
          end
      end
  end.

(** *** Channel mapping *)

Module ChannelMapping.
Record t := mk { channel : Z; name : string }.
End ChannelMapping.

Fixpoint fill_mapping (map : list ChannelMapping.t) (pos : Z) (name : string)
  (channels : string) : list ChannelMapping.t :=
  match channels with
  | EmptyString => map
  | String chan channels' =>
      fill_mapping
        (map ++ [ChannelMapping.mk pos (name ++ "." ++ String chan EmptyString)%string])
        (pos +i 1) name channels'
  end.

Definition input_channels : list ChannelMapping.t :=
  let map := [] in
  let map := fill_mapping map INPUT_DENOISING_DEPTH "Denoising Depth" "Z" in
  let map := fill_mapping map INPUT_DENOISING_NORMAL "Denoising Normal" "XYZ" in
  let map := fill_mapping map INPUT_DENOISING_SHADOWING "Denoising Shadowing" "X" in
  let map := fill_mapping map INPUT_DENOISING_ALBEDO "Denoising Albedo" "RGB" in
  let map := fill_mapping map INPUT_NOISY_IMAGE "Noisy Image" "RGB" in
  let map := fill_mapping map INPUT_DENOISING_VARIANCE "Denoising Variance" "RGB" in
  let map := fill_mapping map INPUT_DENOISING_INTENSITY "Denoising Intensity" "X" in
  map.

Definition output_channels : list ChannelMapping.t :=
  fill_mapping [] 0 "Combined" "RGB".

(** *** Render layer handling *)

(** [std::find] on a vector of strings: the index of the first occurrence. *)
Fixpoint find_channel (channels : list string) (name : string) : option Z :=
  match channels with
  | [] => None
  | c :: channels' =>
      if decide (c = name) then Some 0
      else match find_channel channels' name with
           | Some i => Some (i + 1)
           | None => None
           end
  end.

(** One [foreach] loop of [detect_denoising_channels]: [None] is the early
    [return false]. *)
Fixpoint map_to_image_channels (layer : DenoiseImageLayer.t)
  (mappings : list ChannelMapping.t) (table : list Z) : option (list Z) :=
  match mappings with
  | [] => Some table
  | mapping :: mappings' =>
      match find_channel (DenoiseImageLayer.channels layer)
                         (ChannelMapping.name mapping) with
      | None => None
      | Some layer_channel =>
          map_to_image_channels layer mappings'
            (store table (ChannelMapping.channel mapping)
               (load (DenoiseImageLayer.layer_to_image_channel layer) layer_channel))
      end
  end.

(** [Some layer'] when the layer has the full set of passes, with both
    reshuffle tables filled in. *)
Definition detect_denoising_channels (layer : DenoiseImageLayer.t)
  : option DenoiseImageLayer.t :=
  match map_to_image_channels layer input_channels
          (replicate (Z.to_nat INPUT_NUM_CHANNELS) (-1)) with
  | None => None
  | Some input_to_image_channel =>
      match map_to_image_channels layer output_channels
              (replicate (Z.to_nat OUTPUT_NUM_CHANNELS) (-1)) with
      | None => None
      | Some output_to_image_channel =>
          Some {| DenoiseImageLayer.name := DenoiseImageLayer.name layer;
                  DenoiseImageLayer.channels := DenoiseImageLayer.channels layer;
                  DenoiseImageLayer.layer_to_image_channel :=
                    DenoiseImageLayer.layer_to_image_channel layer;
                  DenoiseImageLayer.input_to_image_channel := input_to_image_channel;
                  DenoiseImageLayer.output_to_image_channel := output_to_image_channel;
                  DenoiseImageLayer.neighbor_input_to_image_channel :=
                    DenoiseImageLayer.neighbor_input_to_image_channel layer;
                  DenoiseImageLayer.samples := DenoiseImageLayer.samples layer |}
      end
  end.

(** *** [map<string, DenoiseImageLayer>]

    The [map] of util_map.h is [std::map], an ordered map ("sort them by
    RenderLayer", as the comment in [parse_channels] has it): an association
    list kept strictly ascending in the byte-wise lexicographic order of its
    keys, which is the order in which a [std::map<string, _>] is iterated. *)

Definition add_channel (layer : DenoiseImageLayer.t) (channel : string) (i : Z)
  : DenoiseImageLayer.t :=
  {| DenoiseImageLayer.name := DenoiseImageLayer.name layer;
     DenoiseImageLayer.channels := DenoiseImageLayer.channels layer ++ [channel];
     DenoiseImageLayer.layer_to_image_channel :=
       DenoiseImageLayer.layer_to_image_channel layer ++ [i];
     DenoiseImageLayer.input_to_image_channel :=
       DenoiseImageLayer.input_to_image_channel layer;
     DenoiseImageLayer.output_to_image_channel :=
       DenoiseImageLayer.output_to_image_channel layer;
     DenoiseImageLayer.neighbor_input_to_image_channel :=
       DenoiseImageLayer.neighbor_input_to_image_channel layer;
     DenoiseImageLayer.samples := DenoiseImageLayer.samples layer |}.

(** [f(m[key])], where [operator[]] inserts a default-constructed layer
    when the key is new. *)
Fixpoint map_update (key : string) (f : DenoiseImageLayer.t -> DenoiseImageLayer.t)
  (m : list (string * DenoiseImageLayer.t)) : list (string * DenoiseImageLayer.t) :=
  match m with
  | [] => [(key, f DenoiseImageLayer.empty)]
  | (k, v) :: m' =>
      match String.compare key k with
      | Lt => (key, f DenoiseImageLayer.empty) :: (k, v) :: m'
      | Eq => (k, f v) :: m'
      | Gt => (k, v) :: map_update key f m'
      end
  end.

(** *** Sample counts in the metadata *)

(** [ImageSpec::get_string_attribute(name, "")]. *)
Fixpoint get_string_attribute (attributes : list (string * string)) (name : string)
  : string :=
  match attributes with
  | [] => EmptyString
  | (k, v) :: attributes' =>
      if decide (k = name) then v else get_string_attribute attributes' name
  end.

(** The C library's [sscanf(s, "%d", &n)]: end of input before a
    conversion (return value EOF), a matching failure (return value 0), or
    one converted [int] (return value 1). *)
Inductive scan_result :=
| ScanEOF
| ScanNoMatch
| ScanInt (n : Z).

Definition isspace (c : ascii) : bool :=
  let n := nat_of_ascii c in
  orb (Nat.eqb n 32) (andb (Nat.leb 9 n) (Nat.leb n 13)).

Definition digit_of (c : ascii) : option Z :=
  let n := Z.of_nat (nat_of_ascii c) in
  if decide (48 <= n <= 57) then Some (n - 48) else None.

Fixpoint skip_space (s : string) : string :=
  match s with
  | String c s' => if isspace c then skip_space s' else s
  | EmptyString => s
  end.

(** The digits at the head of [s], accumulated onto [acc]; [None] when
    [s] does not start with a digit. *)
Fixpoint scan_digits (s : string) (acc : option Z) : option Z :=
  match s with
  | String c s' =>
      match digit_of c with
      | Some d => scan_digits s' (Some (10 * default 0 acc + d))
      | None => acc
      end
  | EmptyString => acc
  end.

(** The conversion goes through [strtol], which saturates at the range of
    [long], and the result is stored into an [int]. *)
Definition store_long_as_int (v : Z) : Z :=
  Int32.wrap (Z.max (-9223372036854775808) (Z.min v 9223372036854775807)).

Definition sscanf_d (s : string) : scan_result :=
  match skip_space s with
  | EmptyString => ScanEOF
  | String c s' =>
      let '(negative, digits) :=
        if Ascii.eqb c "-" then (true, s')
        else if Ascii.eqb c "+" then (false, s')
        else (false, String c s') in
      match scan_digits digits None with
      | None => ScanNoMatch
      | Some v => ScanInt (store_long_as_int (if negative then - v else v))
      end
  end.

(** The [int] that [sscanf] returns. *)
Definition sscanf_return (r : scan_result) : Z :=
  match r with
  | ScanEOF => -1
  | ScanNoMatch => 0
  | ScanInt _ => 1
  end.

(** *** [DenoiseImage::parse_channels] *)

(** First loop: group the channels of the file by render layer. *)
Fixpoint group_channels (channels : list string) (i : Z) (multiview_channels : bool)
  (file_layers : list (string * DenoiseImageLayer.t))
  : list (string * DenoiseImageLayer.t) :=
  match channels with
  | [] => file_layers
  | name :: channels' =>
      let file_layers :=
        match parse_channel_name name multiview_channels with
        | Some (layer, pass, channel) =>
            map_update layer
              (fun l => add_channel l (pass ++ "." ++ channel)%string i) file_layers
        | None => file_layers
        end in
      group_channels channels' (i + 1) multiview_channels file_layers
  end.

Definition set_name_samples (layer : DenoiseImageLayer.t) (name : string)
  (samples : Z) : DenoiseImageLayer.t :=
  {| DenoiseImageLayer.name := name;
     DenoiseImageLayer.channels := DenoiseImageLayer.channels layer;
     DenoiseImageLayer.layer_to_image_channel :=
       DenoiseImageLayer.layer_to_image_channel layer;
     DenoiseImageLayer.input_to_image_channel :=
       DenoiseImageLayer.input_to_image_channel layer;
     DenoiseImageLayer.output_to_image_channel :=
       DenoiseImageLayer.output_to_image_channel layer;
     DenoiseImageLayer.neighbor_input_to_image_channel :=
       DenoiseImageLayer.neighbor_input_to_image_channel layer;
     DenoiseImageLayer.samples := samples |}.

(** "If the sample value isn't set yet, check if there is a layer-specific
    one in the input file": the value of [layer.samples] after the first
    [if], or the parse error. *)
Definition resolve_samples (samples : Z) (in_spec : ImageSpec.t) (name : string)
  : result Z :=
  if decide (samples < 1) then
    let sample_string :=
      get_string_attribute (ImageSpec.string_attributes in_spec)
        ("cycles." ++ name ++ ".samples")%string in
    if decide (sample_string <> EmptyString) then
      let scanned := sscanf_d sample_string in
      if decide (sscanf_return scanned = 0) then
        Error ("Failed to parse samples metadata: " ++ sample_string)%string
      else
        Ok (match scanned with
            | ScanInt n => n
            | _ => samples
            end)
    else Ok samples
  else Ok samples.

(** Second loop: keep the layers with a full pass set, in the iteration
    order of the map. *)
Fixpoint collect_layers (samples : Z) (in_spec : ImageSpec.t)
  (file_layers : list (string * DenoiseImageLayer.t))
  (layers : list DenoiseImageLayer.t) : result (list DenoiseImageLayer.t) :=
  match file_layers with
  | [] => Ok layers
  | (name, layer) :: file_layers' =>
      match detect_denoising_channels layer with
      | None => collect_layers samples in_spec file_layers' layers
      | Some layer =>
          match resolve_samples samples in_spec name with
          | Error e => Error e
          | Ok layer_samples =>
              if decide (layer_samples < 1) then
                Error ("No sample number specified in the file for layer " ++ name
                       ++ " or on the command line")%string
              else
                collect_layers samples in_spec file_layers'
                  (layers ++ [set_name_samples layer name layer_samples])
          end
      end
  end.

Definition multiview_channels_of (in_spec : ImageSpec.t) : bool :=
  match ImageSpec.multiView in_spec with
  | Some arraylen => bool_decide (2 <= arraylen)
  | None => false
  end.

(** [samples] is the member [DenoiseImage::samples]; the result is the new
    value of the member [layers]. *)
Definition parse_channels (samples : Z) (in_spec : ImageSpec.t)
  : result (list DenoiseImageLayer.t) :=
  let file_layers :=
    group_channels (ImageSpec.channelnames in_spec) 0
      (multiview_channels_of in_spec) [] in
  collect_layers samples in_spec file_layers [].

Section Task.
Context {F : Type} `{!Inhabited F}.

(** An open neighbour frame: its spec and what [read_image] delivers
    ([None] when the read fails). *)
Record ImageInput := mkImageInput {
  neighbor_spec : ImageSpec.t;
  read_image : option (list F)
}.

Record DenoiseImage := mkImage {
  width : Z;
  height : Z;
  num_channels : Z;
  (** Samples used for the image (the task-level override). *)
  samples : Z;
  pixels : list F;
  in_spec : ImageSpec.t;
  layers : list DenoiseImageLayer.t;
  in_neighbors : list ImageInput
}.

Definition set_pixels (img : DenoiseImage) (px : list F) : DenoiseImage :=
  mkImage (width img) (height img) (num_channels img) (samples img) px
          (in_spec img) (layers img) (in_neighbors img).

Record DenoiseTask := mkTask {
  frame : Z;
  neighbor_frames : list Z;
  image : DenoiseImage;
  current_layer : Z;
  input_pixels : list F;
  num_tiles : Z;
  tiles : list RenderTile.t;
  (** Device contents of the per-tile output buffers, by tile index. *)
  output_pixels : gmap Z (list F)
}.

(** *** [DenoiseTask::create_task] *)

Definition new_tile (dn : Denoiser.t) (t : DenoiseTask) (tiles_x tx ty : Z)
  : RenderTile.t :=
  let tile_x := tx *i Denoiser.tile_size_x dn in
  let tile_y := ty *i Denoiser.tile_size_y dn in
  {| RenderTile.x := tile_x;
     RenderTile.y := tile_y;
     RenderTile.w := Z.min (width (image t) -i tile_x) (Denoiser.tile_size_x dn);
     RenderTile.h := Z.min (height (image t) -i tile_y) (Denoiser.tile_size_y dn);
     RenderTile.start_sample := 0;
     RenderTile.num_samples :=
       DenoiseImageLayer.samples (load (layers (image t)) (current_layer t));
     RenderTile.sample := 0;
     RenderTile.offset := 0;
     RenderTile.stride := width (image t);
     RenderTile.tile_index := ty *i tiles_x +i tx;
     RenderTile.task := DENOISE;
     RenderTile.buffer := input_pixels_ptr |}.

Definition create_tiles (dn : Denoiser.t) (t : DenoiseTask) : list RenderTile.t :=
  let tiles_x := divide_up (width (image t)) (Denoiser.tile_size_x dn) in
  let tiles_y := divide_up (height (image t)) (Denoiser.tile_size_y dn) in
  for_range 0 tiles_y (fun ty tiles =>
    for_range 0 tiles_x (fun tx tiles =>
      tiles ++ [new_tile dn t tiles_x tx ty]) tiles) [].

Definition create_task (dn : Denoiser.t) (t : DenoiseTask)
  : DeviceTask.t * DenoiseTask :=
  let device_task :=
    {| DeviceTask.denoising_do_filter := true;
       DeviceTask.denoising_write_passes := false;
       DeviceTask.denoising_from_render := false;
       DeviceTask.denoising_frames :=
         map (fun f => f -i frame t) (neighbor_frames t);
       DeviceTask.pass_stride := INPUT_NUM_CHANNELS;
       DeviceTask.target_pass_stride := OUTPUT_NUM_CHANNELS;
       DeviceTask.pass_denoising_data := 0;
       DeviceTask.pass_denoising_clean := -1;
       DeviceTask.frame_stride :=
         width (image t) *i height (image t) *i INPUT_NUM_CHANNELS |} in
  let tiles' := create_tiles dn t in
  (device_task,
   mkTask (frame t) (neighbor_frames t) (image t) (current_layer t)
          (input_pixels t) (Z.of_nat (length tiles')) tiles' ∅).

(** *** [DenoiseTask::map_neighboring_tiles] *)

(** The geometry loop over the 3x3 neighbourhood ([tiles[4]] is the centre
    and is skipped). *)
Definition fill_tile_information (dn : Denoiser.t) (t : DenoiseTask)
  (tiles : list RenderTile.t) : list RenderTile.t :=
  for_range 0 9 (fun i tiles =>
    if decide (i = 4) then tiles
    else
      let dx := (i %i 3) -i 1 in
      let dy := (i /i 3) -i 1 in
      let t4 := load tiles 4 in
      let ti := load tiles i in
      let tx := clamp (RenderTile.x t4 +i dx *i Denoiser.tile_size_x dn)
                      0 (width (image t)) in
      let tw := clamp (RenderTile.x t4 +i (dx +i 1) *i Denoiser.tile_size_x dn)
                      0 (width (image t)) -i tx in
      let ty := clamp (RenderTile.y t4 +i dy *i Denoiser.tile_size_y dn)
                      0 (height (image t)) in
      let th := clamp (RenderTile.y t4 +i (dy +i 1) *i Denoiser.tile_size_y dn)
                      0 (height (image t)) -i ty in
      store tiles i
        {| RenderTile.x := tx; RenderTile.y := ty;
           RenderTile.w := tw; RenderTile.h := th;
           RenderTile.start_sample := RenderTile.start_sample ti;
           RenderTile.num_samples := RenderTile.num_samples ti;
           RenderTile.sample := RenderTile.sample ti;
           RenderTile.offset := RenderTile.offset t4;
           RenderTile.stride := width (image t);
           RenderTile.tile_index := RenderTile.tile_index ti;
           RenderTile.task := RenderTile.task ti;
           RenderTile.buffer := RenderTile.buffer t4 |}) tiles.

(** "Fill output buffer with noisy image": [result] and [in] are the two
    running pointers, kept as offsets into [output_mem] and [image.pixels]. *)
Definition fill_output_buffer (img : DenoiseImage)
  (input_to_image_channel : list Z) (t4 : RenderTile.t)
  (output_mem : list F) : list F :=
  let in0 := num_channels img *i (RenderTile.y t4 *i width img +i RenderTile.x t4) in
  let '(mem, _, _) :=
    for_range 0 (RenderTile.h t4) (fun y '(mem, result, in_) =>
      let '(mem, result) :=
        for_range 0 (RenderTile.w t4) (fun x '(mem, result) =>
          (for_range 0 OUTPUT_NUM_CHANNELS (fun i mem =>
             store mem (result + i)
               (load (pixels img)
                  (in_ + (num_channels img *i x +i
                          load input_to_image_channel (INPUT_NOISY_IMAGE +i i)))))
             mem,
           result + OUTPUT_NUM_CHANNELS)) (mem, result) in
      (mem, result, in_ + num_channels img *i width img))
      (output_mem, 0, in0) in
  mem.

Definition map_neighboring_tiles (dn : Denoiser.t) (t : DenoiseTask)
  (tiles : list RenderTile.t) : list RenderTile.t * DenoiseTask :=
  (* Fill tile information. *)
  let tiles := fill_tile_information dn t tiles in
  (* Allocate output buffer. *)
  let t4 := load tiles 4 in
  let output_mem : list F :=
    replicate (Z.to_nat (OUTPUT_NUM_CHANNELS *i RenderTile.w t4 *i RenderTile.h t4))
              inhabitant in
  (* Fill output buffer with noisy image. *)
  let layer := load (layers (image t)) (current_layer t) in
  let output_mem :=
    fill_output_buffer (image t)
      (DenoiseImageLayer.input_to_image_channel layer) t4 output_mem in
  (* Fill output tile info. *)
  let t9 := RenderTile.set_buffer t4 (output_mem_ptr (RenderTile.tile_index t4)) in
  let t9 := RenderTile.set_stride t9 (RenderTile.w t9) in
  let t9 := RenderTile.set_offset t9
              (RenderTile.offset t9 -i
               (RenderTile.x t9 +i RenderTile.y t9 *i RenderTile.stride t9)) in
  let tiles := store tiles 9 t9 in
  (* [Task.tiles] is the member, which the argument [tiles] hides. *)
  (tiles,
   mkTask (frame t) (neighbor_frames t) (image t) (current_layer t)
          (input_pixels t) (num_tiles t) (Task.tiles t)
          (<[RenderTile.tile_index t9 := output_mem]> (output_pixels t))).

(** *** [DenoiseTask::unmap_neighboring_tiles] *)

(** "Copy denoised pixels from device": [result] and [out] are the running
    pointers into [output_mem] and [image.pixels]. *)
Definition copy_denoised_pixels (img : DenoiseImage)
  (output_to_image_channel : list Z) (t9 : RenderTile.t)
  (output_mem : list F) : list F :=
  let out0 := num_channels img *i (RenderTile.y t9 *i width img +i RenderTile.x t9) in
  let '(px, _, _) :=
    for_range 0 (RenderTile.h t9) (fun y '(px, result, out) =>
      let '(px, result) :=
        for_range 0 (RenderTile.w t9) (fun x '(px, result) =>
          (for_range 0 OUTPUT_NUM_CHANNELS (fun i px =>
             store px
               (out + (num_channels img *i x +i load output_to_image_channel i))
               (load output_mem (result + i))) px,
           result + OUTPUT_NUM_CHANNELS)) (px, result) in
      (px, result, out + num_channels img *i width img))
      (pixels img, 0, out0) in
  px.

(** [None] is the failed assertion that the centre tile has a registered
    output buffer. *)
Definition unmap_neighboring_tiles (t : DenoiseTask) (tiles : list RenderTile.t)
  : option DenoiseTask :=
  let t4 := load tiles 4 in
  let t9 := load tiles 9 in
  match output_pixels t !! RenderTile.tile_index t4,
        output_pixels t !! RenderTile.tile_index t9 with
  | Some _, Some output_mem =>
      let layer := load (layers (image t)) (current_layer t) in
      let px :=
        copy_denoised_pixels (image t)
          (DenoiseImageLayer.output_to_image_channel layer) t9 output_mem in
      Some (mkTask (frame t) (neighbor_frames t) (set_pixels (image t) px)
                   (current_layer t) (input_pixels t) (num_tiles t) (Task.tiles t)
                   (delete (RenderTile.tile_index t4) (output_pixels t)))
  | _, _ => None
  end.

End Task.

Arguments ImageInput : clear implicits.
Arguments DenoiseImage : clear implicits.
Arguments DenoiseTask : clear implicits.

#[global] Instance ImageInput_inhabited {F : Type} : Inhabited (ImageInput F) :=
  populate (@mkImageInput F (ImageSpec.mk 0 0 0 [] None []) None).

(** ** Loading and preprocessing the device input buffer *)

(** The operations on [float] that the preprocessing uses.  The theorems
    about the blur hold for any interpretation of them: they are about
    which samples are added, in which order, and what the sum is divided
    by. *)
Class FloatOps (F : Type) := {
  fzero : F;                 (* the literal 0.0f *)
  fadd : F -> F -> F;        (* + *)
  fdiv : F -> F -> F;        (* / *)
  float_of_int : Z -> F;     (* conversion of an [int] operand *)
  fclamp : F -> F            (* clamp(x, -1e8f, 1e8f) *)
}.

Section Preprocess.
Context {F : Type} `{!Inhabited F} `{!FloatOps F}.

(** *** [DenoiseImage::read_pixels] and [read_neighbor_pixels]

    [buffer_data] is the position of the frame slab in the device input
    buffer. *)
Definition reshuffle_pixels (img : DenoiseImage F) (input_to_image_channel : list Z)
  (source : list F) (input_pixels : list F) (buffer_data : Z) : list F :=
  for_range 0 (width img *i height img) (fun i input_pixels =>
    for_range 0 INPUT_NUM_CHANNELS (fun j input_pixels =>
      let image_channel := load input_to_image_channel j in
      store input_pixels (buffer_data + (i *i INPUT_NUM_CHANNELS +i j))
            (load source (i * num_channels img + image_channel)))
      input_pixels) input_pixels.

Definition read_pixels (img : DenoiseImage F) (layer : DenoiseImageLayer.t)
  (input_pixels : list F) (buffer_data : Z) : list F :=
  reshuffle_pixels img (DenoiseImageLayer.input_to_image_channel layer)
    (pixels img) input_pixels buffer_data.

Definition read_neighbor_pixels (img : DenoiseImage F) (neighbor : Z)
  (layer : DenoiseImageLayer.t) (input_pixels : list F) (buffer_data : Z)
  : option (list F) :=
  match read_image (load (in_neighbors img) neighbor) with
  | None => None
  | Some neighbor_pixels =>
      Some (reshuffle_pixels img
              (load (DenoiseImageLayer.neighbor_input_to_image_channel layer) neighbor)
              neighbor_pixels input_pixels buffer_data)
  end.

(** *** The preprocessing of one frame slab *)

Definition clamp_slab (num_pixels : Z) (buffer_data : Z) (input_pixels : list F)
  : list F :=
  for_range 0 (num_pixels *i INPUT_NUM_CHANNELS) (fun i input_pixels =>
    store input_pixels (buffer_data + i) (fclamp (load input_pixels (buffer_data + i))))
    input_pixels.

(** Horizontal pass: from the intensity channel at [data] into [temp]. *)
Definition box_blur_horizontal (r w h : Z) (input_pixels : list F) (data : Z)
  (temp : list F) : list F :=
  for_range 0 h (fun y temp =>
    for_range 0 w (fun x temp =>
      let '(n, sum) :=
        for_range (Z.max (x -i r) 0) (Z.min (x +i r +i 1) w)
          (fun dx '(n, sum) =>
             (n +i 1,
              fadd sum (load input_pixels
                          (data + INPUT_NUM_CHANNELS *i (y *i w +i dx)))))
          (0, fzero) in
      store temp (y *i w +i x) (fdiv sum (float_of_int n))) temp) temp.

(** Vertical pass: from [temp] back into the intensity channel. *)
Definition box_blur_vertical (r w h : Z) (temp : list F) (data : Z)
  (input_pixels : list F) : list F :=
  for_range 0 h (fun y input_pixels =>
    for_range 0 w (fun x input_pixels =>
      let '(n, sum) :=
        for_range (Z.max (y -i r) 0) (Z.min (y +i r +i 1) h)
          (fun dy '(n, sum) =>
             (n +i 1, fadd sum (load temp (dy *i w +i x))))
          (0, fzero) in
      store input_pixels (data + INPUT_NUM_CHANNELS *i (y *i w +i x))
            (fdiv sum (float_of_int n))) input_pixels) input_pixels.

Definition box_blur (dn : Denoiser.t) (w h : Z) (buffer_data : Z)
  (input_pixels : list F) : list F :=
  let r := 5 *i Denoiser.radius dn in
  let data := buffer_data + 14 in
  let temp : list F := replicate (Z.to_nat (w *i h)) inhabitant in
  let temp := box_blur_horizontal r w h input_pixels data temp in
  box_blur_vertical r w h temp data input_pixels.

Definition preprocess_slab (dn : Denoiser.t) (w h : Z) (buffer_data : Z)
  (input_pixels : list F) : list F :=
  let input_pixels :=
    if Denoiser.clamp_input dn then clamp_slab (w *i h) buffer_data input_pixels
    else input_pixels in
  box_blur dn w h buffer_data input_pixels.

(** *** [DenoiseTask::load_input_pixels] *)

Fixpoint read_neighbors (img : DenoiseImage F) (layer : DenoiseImageLayer.t)
  (count : nat) (i : Z) (frame_stride : Z) (input_pixels : list F) (buffer_data : Z)
  : option (list F) :=
  match count with
  | O => Some input_pixels
  | S count' =>
      match read_neighbor_pixels img i layer input_pixels buffer_data with
      | None => None
      | Some input_pixels =>
          read_neighbors img layer count' (i + 1) frame_stride input_pixels
            (buffer_data + frame_stride)
      end
  end.

Definition set_input_pixels (t : DenoiseTask F) (buf : list F) : DenoiseTask F :=
  mkTask (frame t) (neighbor_frames t) (image t) (current_layer t) buf
         (num_tiles t) (tiles t) (output_pixels t).

Definition load_input_pixels (dn : Denoiser.t) (t : DenoiseTask F) (layer : Z)
  : result (DenoiseTask F) :=
  let w := width (image t) in
  let h := height (image t) in
  let num_pixels := w *i h in
  let frame_stride := num_pixels *i INPUT_NUM_CHANNELS in
  (* Load center image *)
  let image_layer := load (layers (image t)) layer in
  let buf := read_pixels (image t) image_layer (input_pixels t) 0 in
  (* Load neighbor images *)
  match read_neighbors (image t) image_layer (length (in_neighbors (image t))) 0
          frame_stride buf frame_stride with
  | None => Error "Failed to read neighbor frame pixels"
  | Some buf =>
      (* Preprocess *)
      let '(buf, _) :=
        for_range 0 (Z.of_nat (length (in_neighbors (image t))) + 1)
          (fun neighbor '(buf, buffer_data) =>
             (preprocess_slab dn w h buffer_data buf, buffer_data + frame_stride))
          (buf, 0) in
      Ok (set_input_pixels t buf)
  end.

(** *** [DenoiseTask::exec]

    The device is an external collaborator: [device_task] stands for
    [task_add] followed by [task_wait], which drives the tile callbacks and
    leaves the denoised pixels in the image.  The third component of the
    result is a ghost log of the layer cursor at each device task. *)
Section Exec.
Variable device_task : DeviceTask.t -> DenoiseTask F -> list F.

Definition set_current_layer (t : DenoiseTask F) (l : Z) : DenoiseTask F :=
  mkTask (frame t) (neighbor_frames t) (image t) l (input_pixels t)
         (num_tiles t) (tiles t) (output_pixels t).

Definition run_device (dn : Denoiser.t) (t : DenoiseTask F) : DenoiseTask F :=
  let '(device_task_desc, t) := create_task dn t in
  let px := device_task device_task_desc t in
  mkTask (frame t) (neighbor_frames t) (set_pixels (image t) px) (current_layer t)
         (input_pixels t) (num_tiles t) [] (output_pixels t).

Definition exec (dn : Denoiser.t) (t : DenoiseTask F)
  : result (DenoiseTask F) * list Z :=
  let size := Z.of_nat (length (layers (image t))) in
  let '(st, log) :=
    for_range 0 size
      (fun layer '(st, log) =>
         match st with
         | Error e => (Error e, log)
         | Ok t =>
             let t := set_current_layer t layer in
             (* Read pixels for secondary layers, first was already loaded. *)
             let loaded :=
               if decide (layer > 0) then load_input_pixels dn t layer else Ok t in
             match loaded with
             | Error e => (Error e, log)
             | Ok t => (Ok (run_device dn t), log ++ [current_layer t])
             end
         end)
      (Ok t, []) in
  (* The loop variable is the member [current_layer]: a loop that runs to
     its end leaves it at [image.layers.size()]. *)
  (match st with
   | Ok t => Ok (set_current_layer t size)
   | Error e => Error e
   end, log).

End Exec.

(** *** [DenoiseImage::load]

    What the file system holds at a path. *)
Inductive file_status :=
| NotRegular
| CannotOpen
| Opened (spec : ImageSpec.t) (data : option (list F)).

Definition image_load (samples : Z) (in_filepath : string) (file : file_status)
  : result (DenoiseImage F) :=
  match file with
  | NotRegular => Error ("Couldn't find file: " ++ in_filepath)%string
  | CannotOpen => Error ("Couldn't open file: " ++ in_filepath)%string
  | Opened spec data =>
      match parse_channels samples spec with
      | Error e => Error e
      | Ok layers =>
          if decide (length layers = O) then
            Error "Could not find a render layer containing denoising info"
          else
            match data with
            | None => Error ("Failed to read image: " ++ in_filepath)%string
            | Some px =>
                Ok (mkImage (ImageSpec.width spec) (ImageSpec.height spec)
                      (ImageSpec.nchannels spec) samples px spec layers [])
            end
      end
  end.

(** *** [DenoiseImage::save_output]

    The file system maps a path to what it holds: a file opened for writing
    that is not (yet) a complete image, or a written image.  The outcomes of
    the container operations are decided by the environment. *)
Inductive file_content :=
| PartialFile
| ImageFile (spec : ImageSpec.t) (px : list F).

Record save_env := mkSaveEnv {
  unique_path : string;        (* Filesystem::unique_path() *)
  create_ok : bool;            (* ImageOutput::create gives a writer *)
  open_ok : bool;              (* ImageOutput::open succeeds *)
  open_leaves_file : bool;     (* a failed open has created the file *)
  write_ok : bool;             (* write_image succeeds *)
  close_ok : bool;             (* close succeeds *)
  rename_ok : bool;            (* Filesystem::rename succeeds *)
  geterror : string;
  rename_error : string
}.

(** [Filesystem::extension]: the last component of the path from its last
    dot on, or the empty string. *)
Definition extension (path : string) : string :=
  let base :=
    match rfind "/" path with
    | Some pos => substring (S pos) (String.length path - S pos) path
    | None => path
    end in
  match rfind "." base with
  | Some pos => substring pos (String.length base - pos) base
  | None => EmptyString
  end.

Definition has_string_attribute (spec : ImageSpec.t) (name : string) : bool :=
  existsb (fun kv => bool_decide (kv.1 = name)) (ImageSpec.string_attributes spec).

Definition add_string_attribute (spec : ImageSpec.t) (name value : string)
  : ImageSpec.t :=
  ImageSpec.mk (ImageSpec.width spec) (ImageSpec.height spec)
    (ImageSpec.nchannels spec) (ImageSpec.channelnames spec)
    (ImageSpec.multiView spec)
    (ImageSpec.string_attributes spec ++ [(name, value)]).

(** "Ensure that the output frame contains sample information even if the
    input didn't." *)
Definition with_sample_attributes (spec : ImageSpec.t)
  (layers : list DenoiseImageLayer.t) : ImageSpec.t :=
  foldl (fun out_spec layer =>
           let name := ("cycles." ++ DenoiseImageLayer.name layer ++ ".samples")%string in
           if has_string_attribute out_spec name then out_spec
           else add_string_attribute out_spec name
                  (pretty (DenoiseImageLayer.samples layer)))
        spec layers.

Definition close_input (img : DenoiseImage F) : DenoiseImage F :=
  mkImage (width img) (height img) (num_channels img) (samples img) (pixels img)
          (in_spec img) (layers img) [].

Definition tmp_filepath_of (env : save_env) (out_filepath : string) : string :=
  let extension := extension out_filepath in
  let unique_name := (".denoise-tmp-" ++ unique_path env)%string in
  (out_filepath ++ unique_name ++ extension)%string.

Definition save_output (env : save_env) (fs : gmap string file_content)
  (img : DenoiseImage F) (out_filepath : string)
  : result unit * gmap string file_content * DenoiseImage F :=
  (* Save image with identical dimensions, channels and metadata. *)
  let out_spec := with_sample_attributes (in_spec img) (layers img) in
  let img := close_input img in
  (* Write to temporary file path. *)
  let tmp_filepath := tmp_filepath_of env out_filepath in
  if negb (create_ok env) then
    (Error ("Failed to open temporary file " ++ tmp_filepath ++ " for writing"),
     fs, img)
  else if negb (open_ok env) then
    (Error ("Failed to open file " ++ tmp_filepath ++ " for writing: " ++ geterror env),
     (if open_leaves_file env then <[tmp_filepath := PartialFile]> fs else fs),
     img)
  else
    let fs := <[tmp_filepath := PartialFile]> fs in
    let ok : result unit := Ok () in
    let '(ok, fs) :=
      if write_ok env then (ok, <[tmp_filepath := ImageFile out_spec (pixels img)]> fs)
      else (Error ("Failed to write to file " ++ tmp_filepath ++ ": " ++ geterror env),
            fs) in
    let '(ok, fs) :=
      if close_ok env then (ok, fs)
      else (Error ("Failed to save to file " ++ tmp_filepath ++ ": " ++ geterror env),
            <[tmp_filepath := PartialFile]> fs) in
    (* Copy temporary file to output filepath. *)
    let '(ok, fs) :=
      match ok with
      | Ok _ =>
          if rename_ok env then
            (ok, match fs !! tmp_filepath with
                 | Some content => <[out_filepath := content]> (delete tmp_filepath fs)
                 | None => fs
                 end)
          else (Error ("Failed to move denoised image to " ++ out_filepath ++ ": "
                       ++ rename_error env), fs)
      | Error _ => (ok, fs)
      end in
    let fs :=
      match ok with
      | Ok _ => fs
      | Error _ => delete tmp_filepath fs
      end in
    (ok, fs, img).

End Preprocess.

(** ** The tile queue built by [create_task] *)

Lemma divide_up_ceil (a b : Z) :
  1 <= a -> 1 <= b -> (divide_up a b - 1) * b < a <= divide_up a b * b.
Proof.
  intros Ha Hb. unfold divide_up.
  pose proof (Z.div_mod (a + b - 1) b ltac:(lia)) as Hdm.
  pose proof (Z.mod_pos_bound (a + b - 1) b ltac:(lia)) as Hm.
  nia.
Qed.

Lemma divide_up_one (a b : Z) : 1 <= a -> a <= b -> divide_up a b = 1.
Proof.
  intros Ha Hb. unfold divide_up.
  symmetry. apply (Z.div_unique _ _ 1 (a - 1)); lia.
Qed.

Lemma raster_div (n i j : Z) : 0 <= i < n -> (j * n + i) / n = j.
Proof.
  intros Hi. symmetry. apply (Z.div_unique _ _ j i); lia.
Qed.

Lemma raster_mod (n i j : Z) : 0 <= i < n -> (j * n + i) mod n = i.
Proof.
  intros Hi. symmetry. apply (Z.mod_unique _ _ j i); lia.
Qed.

(** Pixel [(px, py)] lies in the rectangle of a tile. *)
Definition in_tile (tl : RenderTile.t) (px py : Z) : Prop :=
  RenderTile.x tl <= px < RenderTile.x tl + RenderTile.w tl /\
  RenderTile.y tl <= py < RenderTile.y tl + RenderTile.h tl.

Section TileQueue.
Context {F : Type} `{!Inhabited F}.
Implicit Types (dn : Denoiser.t) (t : DenoiseTask F).

(** The queue is the table of [new_tile] in raster order. *)
Lemma create_tiles_table dn t :
  let nx := divide_up (width (image t)) (Denoiser.tile_size_x dn) in
  let ny := divide_up (height (image t)) (Denoiser.tile_size_y dn) in
  0 <= nx -> 0 <= ny ->
  Z.of_nat (length (create_tiles dn t)) = ny * nx /\
  forall n, 0 <= n < ny * nx ->
    load (create_tiles dn t) n = new_tile dn t nx (n mod nx) (n / nx).
Proof.
  intros nx ny Hnx Hny. unfold create_tiles. fold nx ny.
  set (tbl := fun n => new_tile dn t nx (n mod nx) (n / nx)).
  set (Inv := fun (k : Z) (ts : list RenderTile.t) =>
                Z.of_nat (length ts) = k /\
                forall n, 0 <= n < k -> load ts n = tbl n).
  assert (Hrows : forall ty ts, 0 <= ty -> Inv (ty * nx) ts ->
            Inv ((ty + 1) * nx)
                (for_range 0 nx (fun tx tiles =>
                   tiles ++ [new_tile dn t nx tx ty]) ts)).
  { intros ty ts Hty Hts.
    replace ((ty + 1) * nx) with (ty * nx + nx) by lia.
    apply (for_range_inv (fun tx ts' => Inv (ty * nx + tx) ts')); [lia | |].
    - replace (ty * nx + 0) with (ty * nx) by lia. exact Hts.
    - intros tx ts' Htx [Hlen Htbl]. split.
      + rewrite length_app. simpl. lia.
      + intros n Hn. destruct (Z.eq_dec n (ty * nx + tx)) as [->|Hne].
        * rewrite <- Hlen, load_app_length. unfold tbl.
          rewrite Hlen, raster_div, raster_mod by lia. reflexivity.
        * rewrite load_app_l by lia. apply Htbl. lia. }
  apply (for_range_inv (fun ty ts => Inv (ty * nx) ts)); [lia | |].
  - split; [reflexivity | intros n Hn; lia].
  - intros ty ts Hty Hts. apply Hrows; [lia | exact Hts].
Qed.

Lemma new_tile_geometry dn t tx ty :
  let W := width (image t) in
  let H := height (image t) in
  let tw := Denoiser.tile_size_x dn in
  let th := Denoiser.tile_size_y dn in
  1 <= W <= Int32.max_signed -> 1 <= H <= Int32.max_signed ->
  1 <= tw <= Int32.max_signed -> 1 <= th <= Int32.max_signed ->
  0 <= tx < divide_up W tw -> 0 <= ty < divide_up H th ->
  let tl := new_tile dn t (divide_up W tw) tx ty in
  RenderTile.x tl = tx * tw /\ RenderTile.y tl = ty * th /\
  RenderTile.w tl = Z.min (W - tx * tw) tw /\
  RenderTile.h tl = Z.min (H - ty * th) th /\
  tx * tw < W /\ ty * th < H.
Proof.
  intros W H tw th HW HH Htw Hth Htx Hty tl.
  pose proof (divide_up_ceil W tw ltac:(lia) ltac:(lia)) as HcW.
  pose proof (divide_up_ceil H th ltac:(lia) ltac:(lia)) as HcH.
  assert (Hx : 0 <= tx * tw < W) by nia.
  assert (Hy : 0 <= ty * th < H) by nia.
  unfold tl, new_tile; cbn [RenderTile.x RenderTile.y RenderTile.w RenderTile.h].
  fold W H tw th.
  unfold Int32.max_signed in *.
  rewrite (Int32.mul_id tx tw), (Int32.mul_id ty th)
    by int_range.
  rewrite !Int32.sub_id
    by int_range.
  repeat split; lia.
Qed.

(** X5: the tile at raster position [n] of the queue carries [n] as its
    tile index, the sample count of the current layer, start sample, sample
    and offset 0, the image width as stride, the denoise tag and the handle
    of the shared device input buffer. *)
Lemma create_task_tile_fields dn t n :
  let W := width (image t) in
  let H := height (image t) in
  let tw := Denoiser.tile_size_x dn in
  let th := Denoiser.tile_size_y dn in
  let tl := load (tiles (create_task dn t).2) n in
  1 <= W -> 1 <= H -> 1 <= tw -> 1 <= th ->
  divide_up W tw * divide_up H th <= Int32.max_signed ->
  0 <= n < divide_up W tw * divide_up H th ->
  RenderTile.tile_index tl = n /\
  RenderTile.num_samples tl
  = DenoiseImageLayer.samples (load (layers (image t)) (current_layer t)) /\
  RenderTile.start_sample tl = 0 /\ RenderTile.sample tl = 0 /\
  RenderTile.offset tl = 0 /\ RenderTile.stride tl = W /\
  RenderTile.task tl = DENOISE /\ RenderTile.buffer tl = input_pixels_ptr.
Proof.
  intros W H tw th tl HW HH Htw Hth Hmax Hn.
  pose proof (divide_up_ceil W tw ltac:(lia) ltac:(lia)) as HcW.
  pose proof (divide_up_ceil H th ltac:(lia) ltac:(lia)) as HcH.
  set (nx := divide_up W tw) in *. set (ny := divide_up H th) in *.
  assert (Hnx : 1 <= nx) by nia. assert (Hny : 1 <= ny) by nia.
  destruct (create_tiles_table dn t ltac:(fold W tw nx; lia) ltac:(fold H th ny; lia))
    as [_ Htbl].
  fold W H tw th nx ny in Htbl.
  unfold tl, create_task. cbn [snd tiles]. rewrite Htbl by lia.
  unfold new_tile. cbn. fold W.
  repeat split.
  pose proof (Z.mod_pos_bound n nx ltac:(lia)) as Hm.
  pose proof (Z.div_mod n nx ltac:(lia)) as Hdm.
  assert (Hd : 0 <= n / nx) by (apply Z.div_pos; lia).
  rewrite (Int32.mul_id (n / nx) nx) by int_range_nl.
  rewrite Int32.add_id by int_range. lia.
Qed.

(** C4: for an image of width [W >= 1] and height [H >= 1] and a positive
    tile size [(tw, th)], [create_task] queues exactly
    [ceil(W/tw) * ceil(H/th)] tiles in raster order; tile [(tx, ty)] is the
    rectangle at [(tx*tw, ty*th)] of size [tw x th] clipped to the image;
    every tile is a non-empty rectangle inside the image; every pixel of
    [[0,W) x [0,H)] lies in exactly one tile; and an image no larger than one
    tile gives the single tile [(0, 0, W, H)]. *)
Theorem create_task_tiling dn t :
  let W := width (image t) in
  let H := height (image t) in
  let tw := Denoiser.tile_size_x dn in
  let th := Denoiser.tile_size_y dn in
  let nx := divide_up W tw in
  let ny := divide_up H th in
  let ts := tiles (create_task dn t).2 in
  1 <= W <= Int32.max_signed -> 1 <= H <= Int32.max_signed ->
  1 <= tw <= Int32.max_signed -> 1 <= th <= Int32.max_signed ->
  ((nx - 1) * tw < W <= nx * tw /\ (ny - 1) * th < H <= ny * th) /\
  Z.of_nat (length ts) = nx * ny /\
  num_tiles (create_task dn t).2 = nx * ny /\
  (forall tx ty, 0 <= tx < nx -> 0 <= ty < ny ->
     let tl := load ts (ty * nx + tx) in
     RenderTile.x tl = tx * tw /\ RenderTile.y tl = ty * th /\
     RenderTile.w tl = Z.min (W - tx * tw) tw /\
     RenderTile.h tl = Z.min (H - ty * th) th) /\
  (forall n, 0 <= n < nx * ny ->
     let tl := load ts n in
     0 <= RenderTile.x tl /\ 1 <= RenderTile.w tl /\
     RenderTile.x tl + RenderTile.w tl <= W /\
     0 <= RenderTile.y tl /\ 1 <= RenderTile.h tl /\
     RenderTile.y tl + RenderTile.h tl <= H) /\
  (forall px py, 0 <= px < W -> 0 <= py < H ->
     exists n, 0 <= n < nx * ny /\ in_tile (load ts n) px py /\
       forall m, 0 <= m < nx * ny -> in_tile (load ts m) px py -> m = n) /\
  (W <= tw -> H <= th ->
     exists tl, ts = [tl] /\ RenderTile.x tl = 0 /\ RenderTile.y tl = 0 /\
       RenderTile.w tl = W /\ RenderTile.h tl = H).
Proof.
  intros W H tw th nx ny ts HW HH Htw Hth.
  pose proof (divide_up_ceil W tw ltac:(lia) ltac:(lia)) as HcW.
  pose proof (divide_up_ceil H th ltac:(lia) ltac:(lia)) as HcH.
  fold nx in HcW. fold ny in HcH.
  assert (Hnx : 1 <= nx) by nia.
  assert (Hny : 1 <= ny) by nia.
  destruct (create_tiles_table dn t ltac:(fold W tw nx; lia) ltac:(fold H th ny; lia))
    as [Hlen Htbl].
  fold W H tw th nx ny in Hlen, Htbl.
  assert (Hts : ts = create_tiles dn t) by reflexivity.
  rewrite <- Hts in Hlen, Htbl.
  assert (Hgeo : forall n, 0 <= n < nx * ny ->
            let tl := load ts n in
            RenderTile.x tl = (n mod nx) * tw /\
            RenderTile.y tl = (n / nx) * th /\
            RenderTile.w tl = Z.min (W - (n mod nx) * tw) tw /\
            RenderTile.h tl = Z.min (H - (n / nx) * th) th /\
            (n mod nx) * tw < W /\ (n / nx) * th < H /\
            0 <= n mod nx < nx /\ 0 <= n / nx < ny).
  { intros n Hn tl. unfold tl. rewrite Htbl by lia.
    pose proof (Z.mod_pos_bound n nx ltac:(lia)) as Hm.
    assert (Hd : 0 <= n / nx < ny).
    { split; [apply Z.div_pos; lia | apply Z.div_lt_upper_bound; lia]. }
    pose proof (new_tile_geometry dn t (n mod nx) (n / nx) HW HH Htw Hth
                  ltac:(fold W tw nx; lia) ltac:(fold H th ny; lia)) as Hg.
    cbv zeta in Hg. fold W H tw th nx in Hg. intuition lia. }
  split; [lia|]. split; [lia|].
  split; [unfold create_task; cbn [snd num_tiles]; rewrite <- Hts; lia|].
  split; [|split; [|split]].
  - intros tx ty Htx Hty tl.
    destruct (Hgeo (ty * nx + tx) ltac:(nia)) as (Hx & Hy & Hw & Hh & _).
    rewrite raster_mod in Hx, Hw by lia. rewrite raster_div in Hy, Hh by lia.
    unfold tl. auto.
  - intros n Hn tl.
    destruct (Hgeo n Hn) as (Hx & Hy & Hw & Hh & HxW & HyH & Hm & Hd).
    fold tl in Hx, Hy, Hw, Hh. nia.
  - intros px py Hpx Hpy.
    assert (Hqx : 0 <= px / tw < nx).
    { split; [apply Z.div_pos; lia | apply Z.div_lt_upper_bound; lia]. }
    assert (Hqy : 0 <= py / th < ny).
    { split; [apply Z.div_pos; lia | apply Z.div_lt_upper_bound; lia]. }
    pose proof (Z.div_mod px tw ltac:(lia)) as Hdx.
    pose proof (Z.mod_pos_bound px tw ltac:(lia)) as Hmx.
    pose proof (Z.div_mod py th ltac:(lia)) as Hdy.
    pose proof (Z.mod_pos_bound py th ltac:(lia)) as Hmy.
    exists (py / th * nx + px / tw). split; [nia|]. split.
    + destruct (Hgeo (py / th * nx + px / tw) ltac:(nia)) as (Hx & Hy & Hw & Hh & _).
      rewrite raster_mod in Hx, Hw by lia. rewrite raster_div in Hy, Hh by lia.
      unfold in_tile. rewrite Hx, Hy, Hw, Hh. lia.
    + intros m Hm [Hinx Hiny].
      destruct (Hgeo m Hm) as (Hx & Hy & Hw & Hh & HxW & HyH & Hmm & Hmd).
      rewrite Hx, Hw in Hinx. rewrite Hy, Hh in Hiny.
      assert (Hex : m mod nx = px / tw).
      { apply (Z.div_unique px tw (m mod nx) (px - m mod nx * tw)); lia. }
      assert (Hey : m / nx = py / th).
      { apply (Z.div_unique py th (m / nx) (py - m / nx * th)); lia. }
      rewrite <- Hex, <- Hey.
      pose proof (Z.div_mod m nx ltac:(lia)). lia.
  - intros HWle HHle.
    assert (Hnx1 : nx = 1) by (apply divide_up_one; lia).
    assert (Hny1 : ny = 1) by (apply divide_up_one; lia).
    destruct ts as [|tl [|tl' ts']]; simpl in Hlen; try lia.
    exists tl. split; [reflexivity|].
    destruct (Hgeo 0 ltac:(lia)) as (Hx & Hy & Hw & Hh & _).
    rewrite Hnx1 in Hx, Hy, Hw, Hh.
    change (0 mod 1) with 0 in Hx, Hw. change (0 / 1) with 0 in Hy, Hh.
    change (load [tl] 0) with tl in Hx, Hy, Hw, Hh. lia.
Qed.

End TileQueue.

(** ** Pixel addressing *)

(** Index in a flat pixel buffer of channel [c] of pixel [(px, py)]. *)
Definition pixel_index (W nc px py c : Z) : Z := (py * W + px) * nc + c.

(** The first [n] entries of a reshuffle table are channels of the file. *)
Definition channels_in_range (nc n : Z) (m : list Z) : Prop :=
  forall k, 0 <= k < n -> 0 <= load m k < nc.

Definition channels_distinct (n : Z) (m : list Z) : Prop :=
  forall k k', 0 <= k < n -> 0 <= k' < n -> load m k = load m k' -> k = k'.

Lemma euclid_unique (n q r q' r' : Z) :
  0 <= r < n -> 0 <= r' < n -> q * n + r = q' * n + r' -> q = q' /\ r = r'.
Proof.
  intros Hr Hr' Heq.
  assert (Hq : q = q').
  { rewrite (Z.div_unique (q * n + r) n q r) by lia.
    rewrite Heq. symmetry. apply (Z.div_unique _ n q' r'); lia. }
  subst q'. lia.
Qed.

Lemma pixel_index_bound W H nc px py c :
  0 <= px < W -> 0 <= py < H -> 0 <= c < nc ->
  0 <= pixel_index W nc px py c < W * H * nc.
Proof.
  intros Hx Hy Hc. unfold pixel_index.
  assert (Hp : 0 <= py * W + px <= W * H - 1) by nia.
  assert (Hq : 0 <= (py * W + px) * nc <= (W * H - 1) * nc) by nia.
  lia.
Qed.

Lemma pixel_index_inj W nc px py c px' py' c' :
  0 <= px < W -> 0 <= px' < W -> 0 <= c < nc -> 0 <= c' < nc ->
  pixel_index W nc px py c = pixel_index W nc px' py' c' ->
  px = px' /\ py = py' /\ c = c'.
Proof.
  intros Hx Hx' Hc Hc' Heq. unfold pixel_index in Heq.
  destruct (euclid_unique nc _ _ _ _ Hc Hc' Heq) as [Hp Hcc].
  destruct (euclid_unique W _ _ _ _ Hx Hx' Hp) as [Hy Hxx].
  auto.
Qed.

(** The address computed by the pixel loops, in [int] and pointer
    arithmetic, is the pixel index when the image buffer is addressable by
    [int]. *)
Lemma raster_addr W H nc cx cy px py c :
  0 <= W -> 0 <= H -> 1 <= nc -> W * H * nc <= Int32.max_signed ->
  0 <= cx -> 0 <= cy -> 0 <= px -> cx + px < W -> 0 <= py -> cy + py < H ->
  0 <= c < nc ->
  nc *i (cy *i W +i cx) + py * (nc *i W) + (nc *i px +i c)
  = pixel_index W nc (cx + px) (cy + py) c.
Proof.
  intros HW HH Hnc Hmax Hcx Hcy Hpx Hpx' Hpy Hpy' Hc.
  unfold Int32.max_signed in Hmax.
  assert (Hin : forall z, 0 <= z <= W * H * nc -> Int32.in_range z).
  { intros z Hz. int_range. }
  assert (HWH : 0 <= W * H) by nia.
  assert (HWle : W <= W * H) by nia.
  assert (Hscale : forall z, 0 <= z <= W * H -> 0 <= nc * z <= W * H * nc) by (intros; nia).
  assert (Hone : forall z, 0 <= z <= W * H -> 0 <= z <= W * H * nc) by (intros; nia).
  assert (H1 : 0 <= cy * W <= W * H) by nia.
  assert (H2 : 0 <= cy * W + cx <= W * H) by nia.
  assert (H3 : 0 <= nc * px + c <= nc * W) by nia.
  rewrite (Int32.mul_id cy W) by (apply Hin, Hone, H1).
  rewrite (Int32.add_id (cy * W) cx) by (apply Hin, Hone, H2).
  rewrite (Int32.mul_id nc (cy * W + cx)) by (apply Hin, Hscale, H2).
  rewrite (Int32.mul_id nc W) by (apply Hin, Hscale; lia).
  rewrite (Int32.mul_id nc px) by (apply Hin, Hscale; lia).
  rewrite (Int32.add_id (nc * px) c)
    by (apply Hin; pose proof (Hscale W ltac:(lia)); lia).
  unfold pixel_index. ring.
Qed.

Section Neighborhood.
Context {F : Type} `{!Inhabited F}.
Implicit Types (img : DenoiseImage F) (t : DenoiseTask F) (tl : RenderTile.t).

(** The image buffer holds [width * height * num_channels] floats and is
    addressable with [int] indices. *)
Definition image_wf img : Prop :=
  0 <= width img /\ 0 <= height img /\ 1 <= num_channels img /\
  width img * height img * num_channels img <= Int32.max_signed /\
  Z.of_nat (length (pixels img)) = width img * height img * num_channels img.

(** A tile rectangle that lies inside the image. *)
Definition tile_in_image img tl : Prop :=
  0 <= RenderTile.x tl /\ 0 <= RenderTile.w tl /\
  RenderTile.x tl + RenderTile.w tl <= width img /\
  0 <= RenderTile.y tl /\ 0 <= RenderTile.h tl /\
  RenderTile.y tl + RenderTile.h tl <= height img.

Lemma copy_denoised_pixels_written img oc (t9 : RenderTile.t) output_mem :
  image_wf img -> tile_in_image img t9 ->
  channels_in_range (num_channels img) OUTPUT_NUM_CHANNELS oc ->
  channels_distinct OUTPUT_NUM_CHANNELS oc ->
  written (RenderTile.w t9) OUTPUT_NUM_CHANNELS
    (fun y x k => pixel_index (width img) (num_channels img)
                    (RenderTile.x t9 + x) (RenderTile.y t9 + y) (load oc k))
    (fun y x k => load output_mem ((y * RenderTile.w t9 + x) * 3 + k))
    (pixels img) (RenderTile.h t9) 0 0
    (copy_denoised_pixels img oc t9 output_mem).
Proof.
  intros (HW & HH & Hnc & Hmax & Hlen) (Hcx & Hcw & Hxw & Hcy & Hch & Hyh) Hoc Hdist.
  unfold copy_denoised_pixels.
  set (W := width img) in *. set (H := height img) in *.
  set (nc := num_channels img) in *.
  set (cx := RenderTile.x t9) in *. set (cy := RenderTile.y t9) in *.
  set (cw := RenderTile.w t9) in *. set (ch := RenderTile.h t9) in *.
  set (addr := fun y x k => pixel_index W nc (cx + x) (cy + y) (load oc k)).
  set (val := fun y x k => load output_mem ((y * cw + x) * 3 + k)).
  set (out0 := nc *i (cy *i W +i cx)).
  assert (Hbound : forall y x k, in_rect ch cw OUTPUT_NUM_CHANNELS y x k ->
            0 <= addr y x k < Z.of_nat (length (pixels img))).
  { intros y x k (Hy & Hx & Hk). rewrite Hlen. unfold addr.
    apply pixel_index_bound; [lia | lia | apply Hoc, Hk]. }
  assert (Hinj : forall y x k y' x' k',
            in_rect ch cw OUTPUT_NUM_CHANNELS y x k ->
            in_rect ch cw OUTPUT_NUM_CHANNELS y' x' k' ->
            addr y x k = addr y' x' k' -> y = y' /\ x = x' /\ k = k').
  { intros y x k y' x' k' (Hy & Hx & Hk) (Hy' & Hx' & Hk') Heq. unfold addr in Heq.
    apply pixel_index_inj in Heq as (Hex & Hey & Hec);
      [| lia | lia | apply Hoc, Hk | apply Hoc, Hk'].
    apply Hdist in Hec; [lia | exact Hk | exact Hk']. }
  set (Wr := written cw OUTPUT_NUM_CHANNELS addr val (pixels img)).
  pose (Inv := fun (y : Z) (s : list F * Z * Z) =>
         Wr y 0 0 s.1.1 /\ s.1.2 = y * cw * 3 /\ s.2 = out0 + y * (nc *i W)).
  match goal with
  | |- context [for_range 0 ch ?body ?s0] =>
      assert (Hloop : Inv ch (for_range 0 ch body s0))
  end.
  { apply for_range_inv; [lia | |].
    - split; [apply written_init | split; cbn; lia].
    - intros y [[px result] out] Hy (Hwr & Hres & Hout). cbn in Hwr, Hres, Hout.
      pose (InvX := fun (x : Z) (s : list F * Z) =>
              Wr y x 0 s.1 /\ s.2 = (y * cw + x) * 3).
      match goal with
      | |- context [for_range 0 cw ?body ?s0] =>
          assert (HloopX : InvX cw (for_range 0 cw body s0))
      end.
      { apply for_range_inv; [lia | |].
        - split; [exact Hwr | cbn; lia].
        - intros x [px' result'] Hx (Hwr' & Hres'). cbn in Hwr', Hres'.
          split; [|cbn; unfold OUTPUT_NUM_CHANNELS; lia]. cbn [fst].
          apply written_next_x.
          apply (for_range_inv (fun k px'' => Wr y x k px''));
            [unfold OUTPUT_NUM_CHANNELS; lia | exact Hwr' |].
          intros k px'' Hk Hwr''.
          replace (out + (nc *i x +i load oc k)) with (addr y x k).
          + replace (load output_mem (result' + k)) with (val y x k)
              by (unfold val; f_equal; lia).
            apply (written_store ch); auto. unfold in_rect, OUTPUT_NUM_CHANNELS in *. lia.
          + unfold addr. rewrite Hout. unfold out0. symmetry.
            apply (raster_addr W H); try lia. apply Hoc, Hk. }
      destruct (for_range 0 cw _ _) as [px' result'].
      destruct HloopX as (HwrX & HresX). cbn in HwrX, HresX.
      split; [|split; cbn; lia]. cbn [fst].
      apply written_next_y. exact HwrX. }
  destruct (for_range 0 ch _ _) as [[px result] out].
  destruct Hloop as (Hwr & _). exact Hwr.
Qed.

Lemma fill_output_buffer_written img ic (t4 : RenderTile.t) (mem0 : list F) :
  image_wf img -> tile_in_image img t4 ->
  (forall k, 0 <= k < OUTPUT_NUM_CHANNELS ->
     0 <= load ic (INPUT_NOISY_IMAGE + k) < num_channels img) ->
  Z.of_nat (length mem0) = 3 * RenderTile.w t4 * RenderTile.h t4 ->
  written (RenderTile.w t4) OUTPUT_NUM_CHANNELS
    (fun y x k => (y * RenderTile.w t4 + x) * 3 + k)
    (fun y x k => load (pixels img)
                    (pixel_index (width img) (num_channels img)
                       (RenderTile.x t4 + x) (RenderTile.y t4 + y)
                       (load ic (INPUT_NOISY_IMAGE + k))))
    mem0 (RenderTile.h t4) 0 0
    (fill_output_buffer img ic t4 mem0).
Proof.
  intros (HW & HH & Hnc & Hmax & Hlen) (Hcx & Hcw & Hxw & Hcy & Hch & Hyh) Hic Hmem.
  unfold fill_output_buffer.
  set (W := width img) in *. set (H := height img) in *.
  set (nc := num_channels img) in *.
  set (cx := RenderTile.x t4) in *. set (cy := RenderTile.y t4) in *.
  set (cw := RenderTile.w t4) in *. set (ch := RenderTile.h t4) in *.
  set (addr := fun y x k : Z => (y * cw + x) * 3 + k).
  set (val := fun y x k => load (pixels img)
                (pixel_index W nc (cx + x) (cy + y) (load ic (INPUT_NOISY_IMAGE + k)))).
  set (in0 := nc *i (cy *i W +i cx)).
  assert (Hbound : forall y x k, in_rect ch cw OUTPUT_NUM_CHANNELS y x k ->
            0 <= addr y x k < Z.of_nat (length mem0)).
  { intros y x k (Hy & Hx & Hk). rewrite Hmem. unfold addr, OUTPUT_NUM_CHANNELS in *.
    assert (0 <= y * cw + x <= cw * ch - 1) by nia. lia. }
  assert (Hinj : forall y x k y' x' k',
            in_rect ch cw OUTPUT_NUM_CHANNELS y x k ->
            in_rect ch cw OUTPUT_NUM_CHANNELS y' x' k' ->
            addr y x k = addr y' x' k' -> y = y' /\ x = x' /\ k = k').
  { intros y x k y' x' k' (Hy & Hx & Hk) (Hy' & Hx' & Hk') Heq.
    unfold addr, OUTPUT_NUM_CHANNELS in *.
    destruct (euclid_unique 3 _ _ _ _ Hk Hk' Heq) as [Hp Hkk].
    destruct (euclid_unique cw _ _ _ _ Hx Hx' Hp) as [Hyy Hxx]. auto. }
  set (Wr := written cw OUTPUT_NUM_CHANNELS addr val mem0).
  pose (Inv := fun (y : Z) (s : list F * Z * Z) =>
         Wr y 0 0 s.1.1 /\ s.1.2 = y * cw * 3 /\ s.2 = in0 + y * (nc *i W)).
  match goal with
  | |- context [for_range 0 ch ?body ?s0] =>
      assert (Hloop : Inv ch (for_range 0 ch body s0))
  end.
  { apply for_range_inv; [lia | |].
    - split; [apply written_init | split; cbn; lia].
    - intros y [[mem result] in_] Hy (Hwr & Hres & Hin). cbn in Hwr, Hres, Hin.
      pose (InvX := fun (x : Z) (s : list F * Z) =>
              Wr y x 0 s.1 /\ s.2 = (y * cw + x) * 3).
      match goal with
      | |- context [for_range 0 cw ?body ?s0] =>
          assert (HloopX : InvX cw (for_range 0 cw body s0))
      end.
      { apply for_range_inv; [lia | |].
        - split; [exact Hwr | cbn; lia].
        - intros x [mem' result'] Hx (Hwr' & Hres'). cbn in Hwr', Hres'.
          split; [|cbn; unfold OUTPUT_NUM_CHANNELS; lia]. cbn [fst].
          apply written_next_x.
          apply (for_range_inv (fun k mem'' => Wr y x k mem''));
            [unfold OUTPUT_NUM_CHANNELS; lia | exact Hwr' |].
          intros k mem'' Hk Hwr''.
          replace (result' + k) with (addr y x k) by (unfold addr; lia).
          assert (Hk8 : INPUT_NOISY_IMAGE +i k = INPUT_NOISY_IMAGE + k).
          { apply Int32.add_id.
            unfold Int32.in_range, Int32.min_signed, Int32.max_signed,
              INPUT_NOISY_IMAGE, OUTPUT_NUM_CHANNELS in *. lia. }
          rewrite Hk8.
          replace (in_ + (nc *i x +i load ic (INPUT_NOISY_IMAGE + k)))
            with (pixel_index W nc (cx + x) (cy + y) (load ic (INPUT_NOISY_IMAGE + k))).
          + apply (written_store ch cw OUTPUT_NUM_CHANNELS addr val); auto.
            unfold in_rect, OUTPUT_NUM_CHANNELS in *. lia.
          + rewrite Hin. unfold in0. symmetry.
            apply (raster_addr W H); try lia. apply Hic, Hk. }
      destruct (for_range 0 cw _ _) as [mem' result'].
      destruct HloopX as (HwrX & HresX). cbn in HwrX, HresX.
      split; [|split; cbn; lia]. cbn [fst].
      apply written_next_y. exact HwrX. }
  destruct (for_range 0 ch _ _) as [[mem result] in_].
  destruct Hloop as (Hwr & _). exact Hwr.
Qed.

(** One axis of a neighbour rectangle: with [dx] in [{-1, 0, 1}] the [int]
    expressions of the geometry loop do not wrap. *)
Lemma neighbor_axis (c ts W dx : Z) :
  -1 <= dx <= 1 -> 0 <= W <= Int32.max_signed -> 0 <= c -> 0 <= ts ->
  c + 2 * ts <= Int32.max_signed ->
  clamp (c +i dx *i ts) 0 W = clamp (c + dx * ts) 0 W /\
  clamp (c +i (dx +i 1) *i ts) 0 W -i clamp (c +i dx *i ts) 0 W
  = clamp (c + (dx + 1) * ts) 0 W - clamp (c + dx * ts) 0 W.
Proof.
  intros Hdx HW Hc Hts Hmax. unfold Int32.max_signed in *.
  assert (Hin : forall z, -2147483648 <= z <= 2147483647 -> Int32.in_range z).
  { intros z Hz. int_range. }
  rewrite (Int32.add_id dx 1) by (apply Hin; lia).
  rewrite (Int32.mul_id dx ts) by (apply Hin; nia).
  rewrite (Int32.mul_id (dx + 1) ts) by (apply Hin; nia).
  rewrite (Int32.add_id c (dx * ts)) by (apply Hin; nia).
  rewrite (Int32.add_id c ((dx + 1) * ts)) by (apply Hin; nia).
  split; [reflexivity|].
  apply Int32.sub_id, Hin. unfold clamp. lia.
Qed.

(** The rectangle, buffer, offset and stride the geometry loop gives to
    neighbour [i] of the centre tile [c]. *)
Definition neighbor_of (W H tw th : Z) (c : RenderTile.t) (i : Z) (tl : RenderTile.t)
  : Prop :=
  let dx := i mod 3 - 1 in
  let dy := i / 3 - 1 in
  RenderTile.x tl = clamp (RenderTile.x c + dx * tw) 0 W /\
  RenderTile.w tl = clamp (RenderTile.x c + (dx + 1) * tw) 0 W - RenderTile.x tl /\
  RenderTile.y tl = clamp (RenderTile.y c + dy * th) 0 H /\
  RenderTile.h tl = clamp (RenderTile.y c + (dy + 1) * th) 0 H - RenderTile.y tl /\
  RenderTile.buffer tl = RenderTile.buffer c /\
  RenderTile.offset tl = RenderTile.offset c /\
  RenderTile.stride tl = W.

Lemma fill_tile_information_spec dn t (tiles : list RenderTile.t) :
  let W := width (image t) in
  let H := height (image t) in
  let tw := Denoiser.tile_size_x dn in
  let th := Denoiser.tile_size_y dn in
  let c := load tiles 4 in
  length tiles = 10%nat ->
  0 <= W <= Int32.max_signed -> 0 <= H <= Int32.max_signed ->
  0 <= RenderTile.x c -> 0 <= tw -> RenderTile.x c + 2 * tw <= Int32.max_signed ->
  0 <= RenderTile.y c -> 0 <= th -> RenderTile.y c + 2 * th <= Int32.max_signed ->
  let tiles' := fill_tile_information dn t tiles in
  length tiles' = 10%nat /\
  load tiles' 4 = c /\ load tiles' 9 = load tiles 9 /\
  forall i, 0 <= i < 9 -> i <> 4 -> neighbor_of W H tw th c i (load tiles' i).
Proof.
  intros W H tw th c Hlen HW HH Hcx Htw Hxmax Hcy Hth Hymax tiles'.
  pose (Inv := fun (i : Z) (ts : list RenderTile.t) =>
         length ts = 10%nat /\
         (forall j, j = 4 \/ i <= j -> load ts j = load tiles j) /\
         (forall j, 0 <= j < i -> j <> 4 -> neighbor_of W H tw th c j (load ts j))).
  assert (Hloop : Inv 9 tiles').
  { unfold tiles', fill_tile_information. apply for_range_inv; [lia | |].
    - split; [exact Hlen|]. split; [reflexivity | intros j Hj; lia].
    - intros i ts Hi (Hl & Hsame & Hdone).
      destruct (decide (i = 4)) as [->|Hne].
      + split; [exact Hl|]. split.
        * intros j Hj. apply Hsame. lia.
        * intros j Hj Hj4. apply Hdone; lia.
      + split; [rewrite length_store; exact Hl|]. split.
        * intros j Hj. rewrite load_store_ne by lia. apply Hsame. lia.
        * intros j Hj Hj4. destruct (Z.eq_dec j i) as [->|Hji].
          -- rewrite load_store_eq by lia.
             rewrite (Hsame 4) by lia. fold c W H tw th.
             assert (Hdx : (i %i 3) -i 1 = i mod 3 - 1).
             { unfold Int32.rem. rewrite Z.rem_mod_nonneg by lia.
               pose proof (Z.mod_pos_bound i 3 ltac:(lia)).
               apply Int32.sub_id.
               unfold Int32.in_range, Int32.min_signed, Int32.max_signed. lia. }
             assert (Hdy : (i /i 3) -i 1 = i / 3 - 1).
             { unfold Int32.div. rewrite Z.quot_div_nonneg by lia.
               assert (0 <= i / 3 < 3)
                 by (split; [apply Z.div_pos | apply Z.div_lt_upper_bound]; lia).
               rewrite (Int32.wrap_id (i / 3))
                 by int_range.
               apply Int32.sub_id.
               unfold Int32.in_range, Int32.min_signed, Int32.max_signed. lia. }
             rewrite Hdx, Hdy.
             assert (Rx : -1 <= i mod 3 - 1 <= 1)
               by (pose proof (Z.mod_pos_bound i 3 ltac:(lia)); lia).
             assert (Ry : -1 <= i / 3 - 1 <= 1).
             { assert (0 <= i / 3 < 3)
                 by (split; [apply Z.div_pos | apply Z.div_lt_upper_bound]; lia).
               lia. }
             destruct (neighbor_axis (RenderTile.x c) tw W _ Rx HW Hcx Htw Hxmax)
               as [Ex Ew].
             destruct (neighbor_axis (RenderTile.y c) th H _ Ry HH Hcy Hth Hymax)
               as [Ey Eh].
             unfold neighbor_of; cbn.
             rewrite Ew, Eh, Ex, Ey. repeat split; reflexivity.
          -- rewrite load_store_ne by lia. apply Hdone; lia. }
  destruct Hloop as (Hl & Hsame & Hdone).
  split; [exact Hl|]. split; [apply Hsame; lia|]. split; [apply Hsame; lia|].
  exact Hdone.
Qed.

(** What [unmap_neighboring_tiles] does to [image.pixels]. *)
Lemma unmap_neighboring_tiles_writes t (tiles : list RenderTile.t) out_buffer :
  let img := image t in
  let W := width img in
  let H := height img in
  let nc := num_channels img in
  let layer := load (layers img) (current_layer t) in
  let oc := DenoiseImageLayer.output_to_image_channel layer in
  let cx := RenderTile.x (load tiles 9) in
  let cy := RenderTile.y (load tiles 9) in
  let cw := RenderTile.w (load tiles 9) in
  let ch := RenderTile.h (load tiles 9) in
  image_wf img -> tile_in_image img (load tiles 9) ->
  channels_in_range nc OUTPUT_NUM_CHANNELS oc ->
  channels_distinct OUTPUT_NUM_CHANNELS oc ->
  RenderTile.tile_index (load tiles 4) = RenderTile.tile_index (load tiles 9) ->
  output_pixels t !! RenderTile.tile_index (load tiles 9) = Some out_buffer ->
  exists t',
    unmap_neighboring_tiles t tiles = Some t' /\
    length (pixels (image t')) = length (pixels img) /\
    (forall x y k, 0 <= x < cw -> 0 <= y < ch -> 0 <= k < 3 ->
       load (pixels (image t')) (((cy + y) * W + (cx + x)) * nc + load oc k)
       = load out_buffer ((y * cw + x) * 3 + k)) /\
    (forall j,
       (forall x y k, 0 <= x < cw -> 0 <= y < ch -> 0 <= k < 3 ->
          j <> ((cy + y) * W + (cx + x)) * nc + load oc k) ->
       load (pixels (image t')) j = load (pixels img) j) /\
    (forall px py c, 0 <= px < W -> 0 <= c < nc ->
       ~ (cx <= px < cx + cw /\ cy <= py < cy + ch) \/
       (forall k, 0 <= k < 3 -> c <> load oc k) ->
       load (pixels (image t')) ((py * W + px) * nc + c)
       = load (pixels img) ((py * W + px) * nc + c)) /\
    image t' = set_pixels img (pixels (image t')) /\
    output_pixels t' = delete (RenderTile.tile_index (load tiles 4)) (output_pixels t).
Proof.
  intros img W H nc layer oc cx cy cw ch Hwf Htile Hoc Hdist Hidx Hout.
  unfold unmap_neighboring_tiles. rewrite Hidx, Hout.
  eexists. split; [reflexivity|]. cbn [image pixels set_pixels].
  fold img layer oc.
  pose proof (copy_denoised_pixels_written img oc (load tiles 9) out_buffer
                Hwf Htile Hoc Hdist) as Hwr.
  fold W nc cx cy cw ch in Hwr.
  destruct Hwf as (HW & HH & Hnc & Hmax & Hlen).
  destruct Htile as (Hcx & Hcw & Hxw & Hcy & Hch & Hyh).
  fold W H nc in HW, HH, Hnc, Hmax, Hlen. fold cx cy cw ch in Hcx, Hcw, Hxw, Hcy, Hch, Hyh.
  apply written_final in Hwr. destruct Hwr as (Hlen' & Hin & Hframe).
  assert (Hother : forall j,
            (forall x y k, 0 <= x < cw -> 0 <= y < ch -> 0 <= k < 3 ->
               j <> ((cy + y) * W + (cx + x)) * nc + load oc k) ->
            load (copy_denoised_pixels img oc (load tiles 9) out_buffer) j
            = load (pixels img) j).
  { intros j Hj. apply Hframe. intros y x k (Hy & Hx & Hk).
    unfold pixel_index. apply Hj; unfold OUTPUT_NUM_CHANNELS in *; lia. }
  split; [exact Hlen'|]. split; [|split; [exact Hother|split; [|split]]].
  4: reflexivity.
  3: reflexivity.
  - intros x y k Hx Hy Hk.
    apply (Hin y x k). unfold in_rect, OUTPUT_NUM_CHANNELS. lia.
  - intros px py c Hpx Hc Hcase. apply Hother.
    intros x y k Hx Hy Hk Heq.
    pose proof (Hoc k ltac:(unfold OUTPUT_NUM_CHANNELS; lia)) as Hock. fold nc in Hock.
    apply (pixel_index_inj W nc px py c (cx + x) (cy + y) (load oc k)) in Heq
      as (Hex & Hey & Hec); [| lia | lia | lia | lia].
    destruct Hcase as [Hrect | Hchan].
    + apply Hrect. lia.
    + apply (Hchan k Hk Hec).
Qed.

(** C1: after [unmap_neighboring_tiles] for a centre tile at [(cx, cy)] of
    size [cw x ch], every combined channel of every pixel of the tile holds
    the matching float of the tile's output buffer, and every other float of
    [image.pixels] is what it was before the call: pixels outside the tile
    rectangle, and channels of pixels inside it that are not listed in
    [output_to_image_channel]. *)
Theorem unmap_neighboring_tiles_frame t (tiles : list RenderTile.t) out_buffer :
  let img := image t in
  let W := width img in
  let nc := num_channels img in
  let oc := DenoiseImageLayer.output_to_image_channel
              (load (layers img) (current_layer t)) in
  let cx := RenderTile.x (load tiles 9) in
  let cy := RenderTile.y (load tiles 9) in
  let cw := RenderTile.w (load tiles 9) in
  let ch := RenderTile.h (load tiles 9) in
  image_wf img -> tile_in_image img (load tiles 9) ->
  channels_in_range nc OUTPUT_NUM_CHANNELS oc ->
  channels_distinct OUTPUT_NUM_CHANNELS oc ->
  RenderTile.tile_index (load tiles 4) = RenderTile.tile_index (load tiles 9) ->
  output_pixels t !! RenderTile.tile_index (load tiles 9) = Some out_buffer ->
  exists t',
    unmap_neighboring_tiles t tiles = Some t' /\
    length (pixels (image t')) = length (pixels img) /\
    (forall x y k, 0 <= x < cw -> 0 <= y < ch -> 0 <= k < 3 ->
       load (pixels (image t')) (((cy + y) * W + (cx + x)) * nc + load oc k)
       = load out_buffer ((y * cw + x) * 3 + k)) /\
    (forall j,
       (forall x y k, 0 <= x < cw -> 0 <= y < ch -> 0 <= k < 3 ->
          j <> ((cy + y) * W + (cx + x)) * nc + load oc k) ->
       zlookup (pixels (image t')) j = zlookup (pixels img) j) /\
    (forall px py c, 0 <= px < W -> 0 <= c < nc ->
       ~ (cx <= px < cx + cw /\ cy <= py < cy + ch) \/
       (forall k, 0 <= k < 3 -> c <> load oc k) ->
       zlookup (pixels (image t')) ((py * W + px) * nc + c)
       = zlookup (pixels img) ((py * W + px) * nc + c)).
Proof.
  intros img W nc oc cx cy cw ch Hwf Htile Hoc Hdist Hidx Hout.
  destruct (unmap_neighboring_tiles_writes t tiles out_buffer
              Hwf Htile Hoc Hdist Hidx Hout)
    as (t' & Hrun & Hlen & Hin & Hother & Hrect & _).
  fold img W nc oc cx cy cw ch in Hlen, Hin, Hother, Hrect.
  assert (Hz : forall j, load (pixels (image t')) j = load (pixels img) j ->
                 zlookup (pixels (image t')) j = zlookup (pixels img) j).
  { intros j Hj. apply (same_length_zlookup _ _ j Hlen Hj). }
  exists t'. split; [exact Hrun|]. split; [exact Hlen|]. split; [exact Hin|].
  split.
  - intros j Hj. apply Hz, Hother, Hj.
  - intros px py c Hpx Hc Hcase. apply Hz, Hrect; assumption.
Qed.

(** The centre and output slots are not touched by the geometry loop. *)
Lemma fill_tile_information_center dn t (tiles : list RenderTile.t) :
  length tiles = 10%nat ->
  length (fill_tile_information dn t tiles) = 10%nat /\
  load (fill_tile_information dn t tiles) 4 = load tiles 4 /\
  load (fill_tile_information dn t tiles) 9 = load tiles 9.
Proof.
  intros Hlen.
  pose (Inv := fun (i : Z) (ts : list RenderTile.t) =>
         length ts = 10%nat /\
         (forall j, j = 4 \/ i <= j -> load ts j = load tiles j)).
  assert (Hloop : Inv 9 (fill_tile_information dn t tiles)).
  { unfold fill_tile_information. apply for_range_inv; [lia | |].
    - split; [exact Hlen | reflexivity].
    - intros i ts Hi (Hl & Hsame). destruct (decide (i = 4)) as [->|Hne].
      + split; [exact Hl|]. intros j Hj. apply Hsame. lia.
      + split; [rewrite length_store; exact Hl|].
        intros j Hj. rewrite load_store_ne by lia. apply Hsame. lia. }
  destruct Hloop as (Hl & Hsame).
  split; [exact Hl|]. split; apply Hsame; lia.
Qed.

(** C6: in [map_neighboring_tiles], neighbour [i] (for [i] in [0..8],
    [i <> 4], [dx = i%3 - 1], [dy = i/3 - 1]) gets
    [x = clamp(cx + dx*tw, 0, W)], [w = clamp(cx + (dx+1)*tw, 0, W) - x]
    (likewise [y], [h] with [th], [H]; [w] and [h] are not negative and may
    be 0), and the centre tile's buffer and offset with stride [W]; tile 9 is
    tile 4 with the new output buffer, stride [cw] and the offset decreased
    by [cx + cy*cw], so that pixel [(cx, cy)] addresses the start of the
    output buffer. *)
Theorem map_neighboring_tiles_geometry dn t (tiles : list RenderTile.t) :
  let W := width (image t) in
  let H := height (image t) in
  let tw := Denoiser.tile_size_x dn in
  let th := Denoiser.tile_size_y dn in
  let c := load tiles 4 in
  let cx := RenderTile.x c in
  let cy := RenderTile.y c in
  let cw := RenderTile.w c in
  let tiles' := (map_neighboring_tiles dn t tiles).1 in
  length tiles = 10%nat ->
  0 <= W <= Int32.max_signed -> 0 <= H <= Int32.max_signed ->
  0 <= cx -> 0 <= tw -> cx + 2 * tw <= Int32.max_signed ->
  0 <= cy -> 0 <= th -> cy + 2 * th <= Int32.max_signed ->
  0 <= cw -> cx + cy * cw <= Int32.max_signed ->
  Int32.in_range (RenderTile.offset c - (cx + cy * cw)) ->
  (forall i, 0 <= i < 9 -> i <> 4 ->
     let dx := i mod 3 - 1 in
     let dy := i / 3 - 1 in
     let tl := load tiles' i in
     RenderTile.x tl = clamp (cx + dx * tw) 0 W /\
     RenderTile.w tl = clamp (cx + (dx + 1) * tw) 0 W - RenderTile.x tl /\
     RenderTile.y tl = clamp (cy + dy * th) 0 H /\
     RenderTile.h tl = clamp (cy + (dy + 1) * th) 0 H - RenderTile.y tl /\
     0 <= RenderTile.w tl /\ 0 <= RenderTile.h tl /\
     RenderTile.buffer tl = RenderTile.buffer c /\
     RenderTile.offset tl = RenderTile.offset c /\
     RenderTile.stride tl = W) /\
  load tiles' 4 = c /\
  load tiles' 9 =
    {| RenderTile.x := cx; RenderTile.y := cy;
       RenderTile.w := cw; RenderTile.h := RenderTile.h c;
       RenderTile.start_sample := RenderTile.start_sample c;
       RenderTile.num_samples := RenderTile.num_samples c;
       RenderTile.sample := RenderTile.sample c;
       RenderTile.offset := RenderTile.offset c - (cx + cy * cw);
       RenderTile.stride := cw;
       RenderTile.tile_index := RenderTile.tile_index c;
       RenderTile.task := RenderTile.task c;
       RenderTile.buffer := output_mem_ptr (RenderTile.tile_index c) |} /\
  RenderTile.offset (load tiles' 9)
  + (cx + cy * RenderTile.stride (load tiles' 9)) = RenderTile.offset c.
Proof.
  intros W H tw th c cx cy cw tiles' Hlen HW HH Hcx Htw Hxmax Hcy Hth Hymax
    Hcw Hoff Hrange.
  destruct (fill_tile_information_spec dn t tiles Hlen HW HH Hcx Htw Hxmax
              Hcy Hth Hymax) as (Hl & H4 & H9 & Hnb).
  fold W H tw th c in Hnb, H4.
  assert (Hin : forall z, 0 <= z <= Int32.max_signed -> Int32.in_range z).
  { intros z Hz. int_range. }
  assert (Ht9 : load tiles' 9 =
            RenderTile.mk cx cy cw (RenderTile.h c) (RenderTile.start_sample c)
              (RenderTile.num_samples c) (RenderTile.sample c)
              (RenderTile.offset c - (cx + cy * cw)) cw (RenderTile.tile_index c)
              (RenderTile.task c) (output_mem_ptr (RenderTile.tile_index c))).
  { unfold tiles', map_neighboring_tiles. cbn [fst].
    rewrite load_store_eq by lia. rewrite H4.
    unfold RenderTile.set_offset, RenderTile.set_stride, RenderTile.set_buffer.
    cbn. fold cx cy cw.
    rewrite (Int32.mul_id cy cw) by (apply Hin; nia).
    rewrite (Int32.add_id cx (cy * cw)) by (apply Hin; nia).
    rewrite Int32.sub_id by exact Hrange. reflexivity. }
  split; [|split; [|split]].
  - intros i Hi Hne dx dy tl.
    assert (Etl : tl = load (fill_tile_information dn t tiles) i).
    { unfold tl, tiles', map_neighboring_tiles. cbn [fst].
      apply load_store_ne. lia. }
    destruct (Hnb i Hi Hne) as (Ex & Ew & Ey & Eh & Eb & Eo & Es).
    rewrite <- Etl in Ex, Ew, Ey, Eh, Eb, Eo, Es. fold cx cy dx dy in Ex, Ew, Ey, Eh.
    repeat split; try assumption.
    + rewrite Ew, Ex. unfold clamp. nia.
    + rewrite Eh, Ey. unfold clamp. nia.
  - unfold tiles', map_neighboring_tiles. cbn [fst].
    rewrite load_store_ne by lia. exact H4.
  - exact Ht9.
  - rewrite Ht9. cbn. lia.
Qed.

(** C5: for a centre tile, [map_neighboring_tiles] registers an output
    buffer of [3*cw*ch] floats whose entry [(y*cw+x)*3+k] is the centre
    image's value at file channel [input_to_image_channel[INPUT_NOISY_IMAGE+k]]
    of pixel [(cx+x, cy+y)]; hence, when the device leaves that buffer as it
    is, the following [unmap_neighboring_tiles] writes each tile pixel's
    original noisy-image value into its combined output channels. *)
Theorem map_neighboring_tiles_seeds_output dn t (tiles : list RenderTile.t) :
  let img := image t in
  let W := width img in
  let nc := num_channels img in
  let layer := load (layers img) (current_layer t) in
  let ic := DenoiseImageLayer.input_to_image_channel layer in
  let oc := DenoiseImageLayer.output_to_image_channel layer in
  let c := load tiles 4 in
  let cx := RenderTile.x c in
  let cy := RenderTile.y c in
  let cw := RenderTile.w c in
  let ch := RenderTile.h c in
  let noisy x y k :=
    load (pixels img) (((cy + y) * W + (cx + x)) * nc + load ic (INPUT_NOISY_IMAGE + k)) in
  length tiles = 10%nat ->
  image_wf img -> tile_in_image img c -> OUTPUT_NUM_CHANNELS <= nc ->
  (forall k, 0 <= k < OUTPUT_NUM_CHANNELS ->
     0 <= load ic (INPUT_NOISY_IMAGE + k) < nc) ->
  channels_in_range nc OUTPUT_NUM_CHANNELS oc ->
  channels_distinct OUTPUT_NUM_CHANNELS oc ->
  exists out_buffer,
    output_pixels (map_neighboring_tiles dn t tiles).2 !! RenderTile.tile_index c
    = Some out_buffer /\
    Z.of_nat (length out_buffer) = 3 * cw * ch /\
    (forall x y k, 0 <= x < cw -> 0 <= y < ch -> 0 <= k < 3 ->
       load out_buffer ((y * cw + x) * 3 + k) = noisy x y k) /\
    exists t',
      unmap_neighboring_tiles (map_neighboring_tiles dn t tiles).2
        (map_neighboring_tiles dn t tiles).1 = Some t' /\
      forall x y k, 0 <= x < cw -> 0 <= y < ch -> 0 <= k < 3 ->
        load (pixels (image t')) (((cy + y) * W + (cx + x)) * nc + load oc k)
        = noisy x y k.
Proof.
  intros img W nc layer ic oc c cx cy cw ch noisy Hlen Hwf Htile Hnc3 Hic Hoc Hdist.
  destruct (fill_tile_information_center dn t tiles Hlen) as (Hl & H4 & H9).
  fold c in H4.
  set (mem0 := replicate (Z.to_nat (OUTPUT_NUM_CHANNELS *i cw *i ch)) (inhabitant : F)).
  assert (Hsize : Z.of_nat (length mem0) = 3 * cw * ch).
  { unfold mem0. rewrite length_replicate.
    destruct Hwf as (HW & HH & _ & Hmax & _).
    destruct Htile as (Hcx & Hcw & Hxw & Hcy & Hch & Hyh).
    fold img W nc in HW, Hmax. fold cx cy cw ch in Hcx, Hcw, Hxw, Hcy, Hch, Hyh.
    unfold OUTPUT_NUM_CHANNELS, Int32.max_signed in *.
    destruct (Z.eq_dec ch 0) as [Hz|Hnz].
    { rewrite Hz. unfold Int32.mul at 1. rewrite Z.mul_0_r.
      change (Int32.wrap 0) with 0. lia. }
    assert (Hcwch : 0 <= cw * ch <= W * height img) by nia.
    assert (Hle : W * height img * 3 <= W * height img * nc) by nia.
    assert (Hcw3 : 0 <= 3 * cw <= 3 * (cw * ch)) by nia.
    rewrite (Int32.mul_id 3 cw)
      by int_range.
    rewrite (Int32.mul_id (3 * cw) ch)
      by int_range.
    lia. }
  pose proof (fill_output_buffer_written img ic c mem0 Hwf Htile Hic Hsize) as Hwr.
  apply written_final in Hwr. destruct Hwr as (Hlen' & Hin & _).
  set (out := fill_output_buffer img ic c mem0) in *.
  assert (Hseed : forall x y k, 0 <= x < cw -> 0 <= y < ch -> 0 <= k < 3 ->
            load out ((y * cw + x) * 3 + k) = noisy x y k).
  { intros x y k Hx Hy Hk. apply (Hin y x k).
    unfold in_rect, OUTPUT_NUM_CHANNELS. fold cw ch. lia. }
  (* the state and the tiles after the call *)
  assert (Hreg : output_pixels (map_neighboring_tiles dn t tiles).2
                   !! RenderTile.tile_index c = Some out).
  { unfold map_neighboring_tiles. cbn [snd output_pixels]. rewrite H4.
    cbn. apply lookup_insert_eq. }
  assert (Ht4 : load (map_neighboring_tiles dn t tiles).1 4 = c).
  { unfold map_neighboring_tiles. cbn [fst]. rewrite load_store_ne by lia. exact H4. }
  assert (Ht9 : exists o,
            load (map_neighboring_tiles dn t tiles).1 9 =
            RenderTile.mk cx cy cw ch (RenderTile.start_sample c)
              (RenderTile.num_samples c) (RenderTile.sample c) o cw
              (RenderTile.tile_index c) (RenderTile.task c)
              (output_mem_ptr (RenderTile.tile_index c))).
  { eexists. unfold map_neighboring_tiles. cbn [fst].
    rewrite load_store_eq by lia. rewrite H4. reflexivity. }
  destruct Ht9 as (o & Ht9).
  exists out. split; [exact Hreg|]. split; [lia|]. split; [exact Hseed|].
  destruct (unmap_neighboring_tiles_writes (map_neighboring_tiles dn t tiles).2
              (map_neighboring_tiles dn t tiles).1 out)
    as (t' & Hrun & _ & Hwrite & _).
  - exact Hwf.
  - rewrite Ht9. exact Htile.
  - exact Hoc.
  - exact Hdist.
  - rewrite Ht4, Ht9. reflexivity.
  - rewrite Ht9. exact Hreg.
  - exists t'. split; [exact Hrun|].
    intros x y k Hx Hy Hk. rewrite Ht9 in Hwrite. cbn in Hwrite.
    rewrite <- (Hseed x y k Hx Hy Hk). apply Hwrite; assumption.
Qed.

End Neighborhood.

(** ** Reading a frame into the device input buffer *)

Section Reshuffle.
Context {F : Type} `{!Inhabited F}.

(** The reshuffle loop copies [source] into the slab at [buffer_data]:
    float [j] of pixel [i] of the slab is the float of pixel [i] of the source
    at channel [table[j]]; nothing outside the slab changes. *)
Lemma reshuffle_pixels_spec (img : DenoiseImage F) (table : list Z) (source : list F)
  (input_pixels : list F) buffer_data :
  let W := width img in
  let H := height img in
  let out := reshuffle_pixels img table source input_pixels buffer_data in
  0 <= W -> 0 <= H -> INPUT_NUM_CHANNELS * (W * H) <= Int32.max_signed ->
  0 <= buffer_data ->
  buffer_data + INPUT_NUM_CHANNELS * (W * H) <= Z.of_nat (length input_pixels) ->
  length out = length input_pixels /\
  (forall i j, 0 <= i < W * H -> 0 <= j < INPUT_NUM_CHANNELS ->
     load out (buffer_data + (i * INPUT_NUM_CHANNELS + j))
     = load source (i * num_channels img + load table j)) /\
  (forall a,
     a < buffer_data \/ buffer_data + INPUT_NUM_CHANNELS * (W * H) <= a ->
     load out a = load input_pixels a).
Proof.
  intros W H out HW HH Hmax Hbase Hlen.
  unfold INPUT_NUM_CHANNELS in *.
  set (addr := fun i j (_ : Z) => buffer_data + (i * 15 + j)).
  set (val := fun i j (_ : Z) => load source (i * num_channels img + load table j)).
  assert (HWH : 0 <= W * H) by nia.
  assert (Hbound : forall i j k, in_rect (W * H) 15 1 i j k ->
            0 <= addr i j k < Z.of_nat (length input_pixels)).
  { intros i j k (Hi & Hj & Hk). unfold addr. lia. }
  assert (Hinj : forall i j k i' j' k',
            in_rect (W * H) 15 1 i j k -> in_rect (W * H) 15 1 i' j' k' ->
            addr i j k = addr i' j' k' -> i = i' /\ j = j' /\ k = k').
  { intros i j k i' j' k' (Hi & Hj & Hk) (Hi' & Hj' & Hk') Heq. unfold addr in Heq.
    destruct (euclid_unique 15 i j i' j' Hj Hj' ltac:(lia)). repeat split; lia. }
  set (Wr := written 15 1 addr val input_pixels).
  assert (Hloop : Wr (W * H) 0 0 out).
  { unfold out, reshuffle_pixels. fold W H.
    rewrite (Int32.mul_id W H) by int_range.
    apply for_range_inv; [lia | apply written_init |].
    intros i buf Hi Hwr_i. apply written_next_y.
    apply (for_range_inv (fun j buf' => Wr i j 0 buf'));
      [unfold INPUT_NUM_CHANNELS; lia | exact Hwr_i |].
    intros j buf' Hj Hwr_j. unfold INPUT_NUM_CHANNELS in *.
    rewrite (Int32.mul_id i 15) by int_range.
    rewrite (Int32.add_id (i * 15) j) by int_range.
    apply written_next_x.
    apply (written_store (W * H) 15 1 addr val input_pixels Hbound Hinj i j 0);
      [unfold in_rect; lia | exact Hwr_j]. }
  apply written_final in Hloop. destruct Hloop as (Hl & Hin & Hout).
  split; [exact Hl|]. split.
  - intros i j Hi Hj. apply (Hin i j 0). unfold in_rect. lia.
  - intros a Ha. apply Hout. intros i j k (Hi & Hj & Hk). unfold addr. lia.
Qed.

(** X6: [read_pixels] copies the centre frame into its slab with the
    channels reshuffled: float [j] of pixel [i] of the slab is the float of
    pixel [i] at file channel [input_to_image_channel[j]]; nothing outside
    the slab changes. *)
Lemma read_pixels_reshuffles (img : DenoiseImage F) layer (input_pixels : list F)
  buffer_data :
  let W := width img in
  let H := height img in
  let ic := DenoiseImageLayer.input_to_image_channel layer in
  let out := read_pixels img layer input_pixels buffer_data in
  0 <= W -> 0 <= H -> INPUT_NUM_CHANNELS * (W * H) <= Int32.max_signed ->
  0 <= buffer_data ->
  buffer_data + INPUT_NUM_CHANNELS * (W * H) <= Z.of_nat (length input_pixels) ->
  length out = length input_pixels /\
  (forall i j, 0 <= i < W * H -> 0 <= j < INPUT_NUM_CHANNELS ->
     load out (buffer_data + (i * INPUT_NUM_CHANNELS + j))
     = load (pixels img) (i * num_channels img + load ic j)) /\
  (forall a,
     a < buffer_data \/ buffer_data + INPUT_NUM_CHANNELS * (W * H) <= a ->
     load out a = load input_pixels a).
Proof.
  intros W H ic out. apply reshuffle_pixels_spec.
Qed.

End Reshuffle.

(** ** The box blur of the intensity channel *)

(** Whether an address is the intensity float of a pixel of the slab. *)
Lemma classic_intensity_address (w h data j : Z) :
  (exists px py, 0 <= px < w /\ 0 <= py < h /\
     j = data + INPUT_NUM_CHANNELS * (py * w + px)) \/
  (forall px py, 0 <= px < w -> 0 <= py < h ->
     j <> data + INPUT_NUM_CHANNELS * (py * w + px)).
Proof.
  unfold INPUT_NUM_CHANNELS.
  destruct (Z_le_gt_dec w 0) as [Hw|Hw]; [right; intros; lia|].
  set (p := (j - data) / 15).
  destruct (decide ((j - data) mod 15 = 0 /\ 0 <= p /\ p / w < h)) as [(Hm & Hp & Hq)|Hn].
  - left. exists (p mod w), (p / w).
    pose proof (Z.mod_pos_bound p w ltac:(lia)).
    pose proof (Z.div_mod p w ltac:(lia)).
    pose proof (Z.div_mod (j - data) 15 ltac:(lia)).
    assert (0 <= p / w) by (apply Z.div_pos; lia).
    fold p in H1. repeat split; try lia.
  - right. intros px py Hx Hy Heq. apply Hn.
    assert (Ep : p = py * w + px).
    { unfold p. symmetry. apply (Z.div_unique _ 15 _ 0); lia. }
    assert (Eq : p / w = py).
    { rewrite Ep. symmetry. apply (Z.div_unique _ w _ px); lia. }
    split; [|split].
    + symmetry. apply (Z.mod_unique _ 15 (py * w + px) 0); lia.
    + rewrite Ep. nia.
    + lia.
Qed.

Section BoxBlur.
Context {F : Type} `{!Inhabited F} `{!FloatOps F}.

(** The sample positions [lo, lo+1, ..., hi-1] of a window, their sum in
    the order the loop adds them, and their average. *)
Definition window (lo hi : Z) : list Z := seqZ lo (hi - lo).

Definition window_sum (g : Z -> F) (lo hi : Z) : F :=
  foldl (fun sum d => fadd sum (g d)) fzero (window lo hi).

Definition window_average (g : Z -> F) (lo hi : Z) : F :=
  fdiv (window_sum g lo hi) (float_of_int (Z.of_nat (length (window lo hi)))).

Lemma length_window lo hi : lo <= hi -> Z.of_nat (length (window lo hi)) = hi - lo.
Proof. intros Hle. unfold window. rewrite length_seqZ. lia. Qed.

Lemma accumulate_list (g : Z -> F) (l : list Z) :
  forall n0 s0,
    0 <= n0 -> n0 + Z.of_nat (length l) <= Int32.max_signed ->
    foldl (fun (t : Z * F) d => let '(n, sum) := t in (n +i 1, fadd sum (g d)))
          (n0, s0) l
    = (n0 + Z.of_nat (length l), foldl (fun sum d => fadd sum (g d)) s0 l).
Proof.
  induction l as [|d l IH]; intros n0 s0 Hn0 Hmax; simpl foldl.
  - simpl. f_equal. lia.
  - simpl length in *. rewrite (Int32.add_id n0 1)
      by int_range.
    rewrite IH by lia. f_equal. lia.
Qed.

(** The accumulation loop [for (d = lo; d < hi; d++, n++) sum += g(d)]. *)
Lemma accumulate_window (g : Z -> F) lo hi :
  lo <= hi -> hi - lo <= Int32.max_signed ->
  for_range lo hi (fun d '(n, sum) => (n +i 1, fadd sum (g d))) (0, fzero)
  = (Z.of_nat (length (window lo hi)), window_sum g lo hi).
Proof.
  intros Hle Hmax. rewrite for_range_foldl.
  rewrite (accumulate_list g (seqZ lo (hi - lo)) 0 fzero); [reflexivity | lia |].
  rewrite length_seqZ. lia.
Qed.

(** The slab is addressable with [int] indices and the window bounds do not
    wrap. *)
Definition blur_wf (r w h : Z) : Prop :=
  0 <= r /\ 0 <= w /\ 0 <= h /\
  INPUT_NUM_CHANNELS * (w * h) <= Int32.max_signed /\
  w + r + 1 <= Int32.max_signed /\ h + r + 1 <= Int32.max_signed.

Lemma slab_index r w h px py :
  blur_wf r w h -> 0 <= px < w -> 0 <= py < h ->
  py *i w +i px = py * w + px /\
  INPUT_NUM_CHANNELS *i (py *i w +i px) = INPUT_NUM_CHANNELS * (py * w + px) /\
  0 <= py * w + px < w * h.
Proof.
  intros (Hr & Hw & Hh & Hmax & _) Hx Hy.
  unfold INPUT_NUM_CHANNELS, Int32.max_signed in *.
  assert (Hp : 0 <= py * w + px <= w * h - 1) by nia.
  assert (Hyw : 0 <= py * w <= w * h) by nia.
  assert (Hin : forall z, 0 <= z <= 15 * (w * h) -> Int32.in_range z).
  { intros z Hz. int_range. }
  rewrite (Int32.mul_id py w) by (apply Hin; lia).
  rewrite (Int32.add_id (py * w) px) by (apply Hin; lia).
  rewrite (Int32.mul_id 15 (py * w + px)) by (apply Hin; lia).
  repeat split; lia.
Qed.

Lemma window_bounds r n c :
  0 <= r -> 0 <= c < n -> n + r + 1 <= Int32.max_signed ->
  Z.max (c -i r) 0 = Z.max (c - r) 0 /\
  Z.min (c +i r +i 1) n = Z.min (c + r + 1) n /\
  0 <= Z.max (c - r) 0 <= c /\ c < Z.min (c + r + 1) n <= n.
Proof.
  intros Hr Hc Hmax. unfold Int32.max_signed in *.
  assert (Hin : forall z, -2147483648 <= z <= 2147483647 -> Int32.in_range z).
  { intros z Hz. int_range. }
  rewrite (Int32.sub_id c r) by (apply Hin; lia).
  rewrite (Int32.add_id c r) by (apply Hin; lia).
  rewrite (Int32.add_id (c + r) 1) by (apply Hin; lia).
  repeat split; lia.
Qed.

(** The horizontal pass writes into [temp], for every pixel, the average of
    the intensity over the columns [max(x-r,0) .. min(x+r+1,w) - 1]. *)
Lemma box_blur_horizontal_spec r w h (input_pixels : list F) data (temp0 : list F) :
  blur_wf r w h -> Z.of_nat (length temp0) = w * h ->
  let temp := box_blur_horizontal r w h input_pixels data temp0 in
  length temp = length temp0 /\
  forall px py, 0 <= px < w -> 0 <= py < h ->
    load temp (py * w + px)
    = window_average
        (fun dx => load input_pixels (data + INPUT_NUM_CHANNELS * (py * w + dx)))
        (Z.max (px - r) 0) (Z.min (px + r + 1) w).
Proof.
  intros Hwf Hlen temp.
  set (addr := fun py px (_ : Z) => py * w + px).
  set (val := fun py px (_ : Z) =>
         window_average
           (fun dx => load input_pixels (data + INPUT_NUM_CHANNELS * (py * w + dx)))
           (Z.max (px - r) 0) (Z.min (px + r + 1) w)).
  assert (Hbound : forall py px k, in_rect h w 1 py px k ->
            0 <= addr py px k < Z.of_nat (length temp0)).
  { intros py px k (Hy & Hx & Hk). rewrite Hlen. unfold addr.
    apply (slab_index r w h px py Hwf Hx Hy). }
  assert (Hinj : forall py px k py' px' k',
            in_rect h w 1 py px k -> in_rect h w 1 py' px' k' ->
            addr py px k = addr py' px' k' -> py = py' /\ px = px' /\ k = k').
  { intros py px k py' px' k' (Hy & Hx & Hk) (Hy' & Hx' & Hk') Heq. unfold addr in Heq.
    destruct (euclid_unique w _ _ _ _ Hx Hx' Heq). repeat split; lia. }
  set (Wr := written w 1 addr val temp0).
  assert (Hloop : Wr h 0 0 temp).
  { pose proof Hwf as (Hr & Hw & Hh & Hmax & Hwr & Hhr).
    unfold temp, box_blur_horizontal. apply for_range_inv; [lia | apply written_init |].
    intros py tmp Hy Hwr_y. apply written_next_y.
    apply (for_range_inv (fun px tmp' => Wr py px 0 tmp')); [lia | exact Hwr_y |].
    intros px tmp' Hx Hwr_x.
    destruct (window_bounds r w px Hr Hx Hwr) as (Elo & Ehi & Hlo & Hhi).
    rewrite Elo, Ehi.
    set (g := fun dx => load input_pixels (data + INPUT_NUM_CHANNELS * (py * w + dx))).
    rewrite (for_range_ext _ _ _
               (fun dx '(n, sum) => (n +i 1, fadd sum (g dx)))); cycle 1.
    { intros dx [n sum] Hdx.
      destruct (slab_index r w h dx py Hwf ltac:(lia) Hy) as (E1 & E2 & _).
      rewrite E2. reflexivity. }
    rewrite (accumulate_window g) by (unfold Int32.max_signed in *; lia).
    destruct (slab_index r w h px py Hwf Hx Hy) as (E1 & _ & _). rewrite E1.
    apply written_next_x.
    apply (written_store h w 1 addr val temp0 Hbound Hinj py px 0);
      [unfold in_rect; lia | exact Hwr_x]. }
  apply written_final in Hloop. destruct Hloop as (Hl & Hin & _).
  split; [exact Hl|].
  intros px py Hx Hy. apply (Hin py px 0). unfold in_rect. lia.
Qed.

(** The vertical pass writes into the intensity channel, for every pixel,
    the average of [temp] over the rows [max(y-r,0) .. min(y+r+1,h) - 1],
    and nothing else. *)
Lemma box_blur_vertical_spec r w h (temp : list F) buffer_data (input_pixels : list F) :
  blur_wf r w h -> 0 <= buffer_data ->
  buffer_data + INPUT_NUM_CHANNELS * (w * h) <= Z.of_nat (length input_pixels) ->
  let data := buffer_data + 14 in
  let out := box_blur_vertical r w h temp data input_pixels in
  length out = length input_pixels /\
  (forall px py, 0 <= px < w -> 0 <= py < h ->
     load out (data + INPUT_NUM_CHANNELS * (py * w + px))
     = window_average (fun dy => load temp (dy * w + px))
         (Z.max (py - r) 0) (Z.min (py + r + 1) h)) /\
  (forall j,
     (forall px py, 0 <= px < w -> 0 <= py < h ->
        j <> data + INPUT_NUM_CHANNELS * (py * w + px)) ->
     load out j = load input_pixels j).
Proof.
  intros Hwf Hbase Hlen data out.
  set (addr := fun py px (_ : Z) => data + INPUT_NUM_CHANNELS * (py * w + px)).
  set (val := fun py px (_ : Z) =>
         window_average (fun dy => load temp (dy * w + px))
           (Z.max (py - r) 0) (Z.min (py + r + 1) h)).
  assert (Hbound : forall py px k, in_rect h w 1 py px k ->
            0 <= addr py px k < Z.of_nat (length input_pixels)).
  { intros py px k (Hy & Hx & Hk). unfold addr, data.
    destruct (slab_index r w h px py Hwf Hx Hy) as (_ & _ & Hp).
    unfold INPUT_NUM_CHANNELS in *. lia. }
  assert (Hinj : forall py px k py' px' k',
            in_rect h w 1 py px k -> in_rect h w 1 py' px' k' ->
            addr py px k = addr py' px' k' -> py = py' /\ px = px' /\ k = k').
  { intros py px k py' px' k' (Hy & Hx & Hk) (Hy' & Hx' & Hk') Heq.
    unfold addr, INPUT_NUM_CHANNELS in Heq.
    assert (Hp : py * w + px = py' * w + px') by lia.
    destruct (euclid_unique w _ _ _ _ Hx Hx' Hp). repeat split; lia. }
  set (Wr := written w 1 addr val input_pixels).
  assert (Hloop : Wr h 0 0 out).
  { pose proof Hwf as (Hr & Hw & Hh & Hmax & Hwr & Hhr).
    unfold out, box_blur_vertical. apply for_range_inv; [lia | apply written_init |].
    intros py buf Hy Hwr_y. apply written_next_y.
    apply (for_range_inv (fun px buf' => Wr py px 0 buf')); [lia | exact Hwr_y |].
    intros px buf' Hx Hwr_x.
    destruct (window_bounds r h py Hr Hy Hhr) as (Elo & Ehi & Hlo & Hhi).
    rewrite Elo, Ehi.
    set (g := fun dy => load temp (dy * w + px)).
    rewrite (for_range_ext _ _ _
               (fun dy '(n, sum) => (n +i 1, fadd sum (g dy)))); cycle 1.
    { intros dy [n sum] Hdy.
      destruct (slab_index r w h px dy Hwf Hx ltac:(lia)) as (E1 & _ & _).
      rewrite E1. reflexivity. }
    rewrite (accumulate_window g) by (unfold Int32.max_signed in *; lia).
    destruct (slab_index r w h px py Hwf Hx Hy) as (_ & E2 & _). rewrite E2.
    apply written_next_x.
    apply (written_store h w 1 addr val input_pixels Hbound Hinj py px 0);
      [unfold in_rect; lia | exact Hwr_x]. }
  apply written_final in Hloop. destruct Hloop as (Hl & Hin & Hout).
  split; [exact Hl|]. split.
  - intros px py Hx Hy. apply (Hin py px 0). unfold in_rect. lia.
  - intros j Hj. apply Hout. intros py px k (Hy & Hx & Hk). apply Hj; lia.
Qed.

(** The two passes as the specification words them, with the half-open
    windows [max(x-r,0) <= dx < min(x+r,W)] and
    [max(y-r,0) <= dy < min(y+r,H)]. *)
Definition spec_horizontal_average (r w : Z) (intensity : Z -> Z -> F) (px py : Z) : F :=
  window_average (fun dx => intensity dx py) (Z.max (px - r) 0) (Z.min (px + r) w).

Definition spec_vertical_average (r h : Z) (temp : Z -> Z -> F) (px py : Z) : F :=
  window_average (fun dy => temp px dy) (Z.max (py - r) 0) (Z.min (py + r) h).

(** A window of radius 0 holds the pixel itself and nothing else. *)
Lemma window_radius_zero n c :
  0 <= c < n -> window (Z.max (c - 0) 0) (Z.min (c + 0 + 1) n) = [c].
Proof.
  intros Hc. unfold window.
  replace (Z.max (c - 0) 0) with c by lia.
  replace (Z.min (c + 0 + 1) n) with (c + 1) by lia.
  replace (c + 1 - c) with 1 by lia. reflexivity.
Qed.

Lemma box_blur_unfold dn w h buffer_data (input_pixels : list F) :
  blur_wf (5 * Denoiser.radius dn) w h ->
  box_blur dn w h buffer_data input_pixels
  = box_blur_vertical (5 * Denoiser.radius dn) w h
      (box_blur_horizontal (5 * Denoiser.radius dn) w h input_pixels
         (buffer_data + 14) (replicate (Z.to_nat (w * h)) inhabitant))
      (buffer_data + 14) input_pixels.
Proof.
  intros (Hr & Hw & Hh & Hmax & Hwr & Hhr). unfold box_blur.
  unfold INPUT_NUM_CHANNELS, Int32.max_signed in *.
  rewrite (Int32.mul_id 5 (Denoiser.radius dn))
    by int_range.
  rewrite (Int32.mul_id w h)
    by int_range_nl.
  reflexivity.
Qed.

(** C2 (as the code has it): with [r = 5 * params.radius], the horizontal
    pass writes into the temporary buffer, for every pixel [(x, y)], the
    average of the intensity (input slot 14) over the columns
    [max(x-r,0) <= dx < min(x+r+1,W)], and the vertical pass writes back the
    average of the temporary values over the rows
    [max(y-r,0) <= dy < min(y+r+1,H)]: the window reaches [r] samples to
    either side and holds the pixel itself.  In each pass the divisor is the
    number of samples of that window. *)
Theorem box_blur_windows dn w h buffer_data (input_pixels : list F) :
  let r := 5 * Denoiser.radius dn in
  let data := buffer_data + INPUT_DENOISING_INTENSITY in
  let intensity px py :=
    load input_pixels (data + INPUT_NUM_CHANNELS * (py * w + px)) in
  let temp :=
    box_blur_horizontal r w h input_pixels data
      (replicate (Z.to_nat (w * h)) inhabitant) in
  let out := box_blur dn w h buffer_data input_pixels in
  blur_wf r w h -> 0 <= buffer_data ->
  buffer_data + INPUT_NUM_CHANNELS * (w * h) <= Z.of_nat (length input_pixels) ->
  forall px py, 0 <= px < w -> 0 <= py < h ->
    let lo_x := Z.max (px - r) 0 in
    let hi_x := Z.min (px + r + 1) w in
    let lo_y := Z.max (py - r) 0 in
    let hi_y := Z.min (py + r + 1) h in
    load temp (py * w + px)
    = fdiv (window_sum (fun dx => intensity dx py) lo_x hi_x)
           (float_of_int (hi_x - lo_x)) /\
    Z.of_nat (length (window lo_x hi_x)) = hi_x - lo_x /\
    load out (data + INPUT_NUM_CHANNELS * (py * w + px))
    = fdiv (window_sum (fun dy => load temp (dy * w + px)) lo_y hi_y)
           (float_of_int (hi_y - lo_y)) /\
    Z.of_nat (length (window lo_y hi_y)) = hi_y - lo_y /\
    In px (window lo_x hi_x) /\ In py (window lo_y hi_y).
Proof.
  intros r data intensity temp out Hwf Hbase Hlen px py Hx Hy lo_x hi_x lo_y hi_y.
  pose proof Hwf as (Hr & Hw & Hh & Hmax & Hwr & Hhr).
  assert (Htemp0 : Z.of_nat (length (replicate (Z.to_nat (w * h)) (inhabitant : F)))
                   = w * h) by (rewrite length_replicate; nia).
  destruct (box_blur_horizontal_spec r w h input_pixels data _ Hwf Htemp0)
    as (_ & Hhor).
  destruct (box_blur_vertical_spec r w h temp buffer_data input_pixels Hwf Hbase Hlen)
    as (_ & Hver & _).
  assert (Hcx : Z.of_nat (length (window lo_x hi_x)) = hi_x - lo_x)
    by (apply length_window; lia).
  assert (Hcy : Z.of_nat (length (window lo_y hi_y)) = hi_y - lo_y)
    by (apply length_window; lia).
  split; [|split; [exact Hcx | split; [|split; [exact Hcy|]]]].
  - fold temp in Hhor. rewrite (Hhor px py Hx Hy).
    unfold window_average. fold lo_x hi_x. rewrite Hcx. reflexivity.
  - unfold out. rewrite (box_blur_unfold dn w h buffer_data input_pixels Hwf).
    fold r. change (buffer_data + 14) with data. fold temp.
    change (buffer_data + 14) with data in Hver.
    rewrite (Hver px py Hx Hy).
    unfold window_average. fold lo_y hi_y. rewrite Hcy. reflexivity.
  - split; apply list_elem_of_In, elem_of_seqZ; lia.
Qed.

(** C7: with [params.radius = 0] both passes average, for every pixel, a
    window of exactly one sample, the pixel itself, and divide by 1; so the
    blur leaves the intensity channel, and the whole frame slab, as it was
    (given that adding to [0.0f] and dividing by [1] return the operand).
    Where these two operations return the operand only up to a transitive
    relation [same] (for [float]: up to the sign of a zero), the blur keeps
    the size of the buffer and every float outside the intensity channel,
    and the intensity of every pixel is the [same] as before. *)
Theorem box_blur_radius_zero dn w h buffer_data (input_pixels : list F) :
  let data := buffer_data + INPUT_DENOISING_INTENSITY in
  let intensity px py :=
    load input_pixels (data + INPUT_NUM_CHANNELS * (py * w + px)) in
  let temp :=
    box_blur_horizontal 0 w h input_pixels data
      (replicate (Z.to_nat (w * h)) inhabitant) in
  let out := box_blur dn w h buffer_data input_pixels in
  Denoiser.radius dn = 0 ->
  blur_wf 0 w h -> 0 <= buffer_data ->
  buffer_data + INPUT_NUM_CHANNELS * (w * h) <= Z.of_nat (length input_pixels) ->
  (forall px py, 0 <= px < w -> 0 <= py < h ->
     window (Z.max (px - 0) 0) (Z.min (px + 0 + 1) w) = [px] /\
     window (Z.max (py - 0) 0) (Z.min (py + 0 + 1) h) = [py] /\
     load temp (py * w + px)
     = fdiv (fadd fzero (intensity px py)) (float_of_int 1) /\
     load out (data + INPUT_NUM_CHANNELS * (py * w + px))
     = fdiv (fadd fzero (load temp (py * w + px))) (float_of_int 1)) /\
  ((forall v : F, fadd fzero v = v) ->
   (forall v : F, fdiv v (float_of_int 1) = v) ->
   out = input_pixels) /\
  (forall same : F -> F -> Prop,
     (forall a b c, same a b -> same b c -> same a c) ->
     (forall v : F, same (fadd fzero v) v) ->
     (forall v : F, same (fdiv v (float_of_int 1)) v) ->
     length out = length input_pixels /\
     (forall px py, 0 <= px < w -> 0 <= py < h ->
        same (load out (data + INPUT_NUM_CHANNELS * (py * w + px)))
             (intensity px py)) /\
     (forall j,
        (forall px py, 0 <= px < w -> 0 <= py < h ->
           j <> data + INPUT_NUM_CHANNELS * (py * w + px)) ->
        load out j = load input_pixels j)).
Proof.
  intros data intensity temp out Hrad Hwf Hbase Hlen.
  assert (Hwf5 : blur_wf (5 * Denoiser.radius dn) w h) by (rewrite Hrad; exact Hwf).
  pose proof Hwf as (Hr & Hw & Hh & Hmax & Hwr & Hhr).
  assert (Htemp0 : Z.of_nat (length (replicate (Z.to_nat (w * h)) (inhabitant : F)))
                   = w * h) by (rewrite length_replicate; nia).
  destruct (box_blur_horizontal_spec 0 w h input_pixels data _ Hwf Htemp0)
    as (_ & Hhor).
  destruct (box_blur_vertical_spec 0 w h temp buffer_data input_pixels Hwf Hbase Hlen)
    as (Hlen' & Hver & Hframe).
  assert (Hout : out = box_blur_vertical 0 w h temp (buffer_data + 14) input_pixels).
  { unfold out. rewrite (box_blur_unfold dn w h buffer_data input_pixels Hwf5).
    rewrite Hrad. reflexivity. }
  assert (Hpix : forall px py, 0 <= px < w -> 0 <= py < h ->
            load temp (py * w + px)
            = fdiv (fadd fzero (intensity px py)) (float_of_int 1) /\
            load out (data + INPUT_NUM_CHANNELS * (py * w + px))
            = fdiv (fadd fzero (load temp (py * w + px))) (float_of_int 1)).
  { intros px py Hx Hy. split.
    - fold temp in Hhor. rewrite (Hhor px py Hx Hy).
      unfold window_average, window_sum.
      rewrite (window_radius_zero w px Hx). reflexivity.
    - rewrite Hout. change (buffer_data + 14) with data in Hver |- *.
      rewrite (Hver px py Hx Hy).
      unfold window_average, window_sum.
      rewrite (window_radius_zero h py Hy). reflexivity. }
  split; [|split].
  - intros px py Hx Hy.
    split; [apply window_radius_zero; exact Hx|].
    split; [apply window_radius_zero; exact Hy|].
    apply Hpix; assumption.
  - intros Hadd Hdiv. apply load_ext.
    + rewrite Hout. exact Hlen'.
    + intros j.
      destruct (classic_intensity_address w h data j) as [(px & py & Hx & Hy & ->)|Hno].
      * destruct (Hpix px py Hx Hy) as (Et & Eo).
        rewrite Eo, Et, !Hadd, !Hdiv. reflexivity.
      * rewrite Hout. apply Hframe. exact Hno.
  - intros same Htrans Hadd Hdiv.
    split; [rewrite Hout; exact Hlen'|]. split.
    + intros px py Hx Hy. destruct (Hpix px py Hx Hy) as (Et & Eo).
      rewrite Eo, Et.
      apply (Htrans _ _ _ (Hdiv _)). apply (Htrans _ _ _ (Hadd _)).
      apply (Htrans _ _ _ (Hdiv _)). apply Hadd.
    + intros j Hno. rewrite Hout. apply Hframe. exact Hno.
Qed.

End BoxBlur.

(** ** Channel discovery: what [parse_channels] retains *)

(** The order of the keys of a [std::map<string, _>]. *)
Definition string_lt (a b : string) : Prop := String.compare a b = Lt.

Lemma string_lt_trans a b c : string_lt a b -> string_lt b c -> string_lt a c.
Proof.
  unfold string_lt. intros Hab Hbc.
  apply String_as_OT.cmp_lt. apply (String_as_OT.lt_trans a b c);
    apply String_as_OT.cmp_lt; assumption.
Qed.

Lemma string_lt_gt a b : String.compare a b = Gt -> string_lt b a.
Proof.
  unfold string_lt. intros Hgt. rewrite String.compare_antisym, Hgt. reflexivity.
Qed.

Lemma string_lt_irrefl a : ~ string_lt a a.
Proof.
  unfold string_lt. intros Hlt.
  pose proof (String.compare_antisym a a) as Ha. rewrite Hlt in Ha. discriminate.
Qed.

Definition keys_sorted (m : list (string * DenoiseImageLayer.t)) : Prop :=
  StronglySorted string_lt (map fst m).

Lemma map_update_Forall (P Q : string * DenoiseImageLayer.t -> Prop) key f m :
  Forall P m ->
  (forall kv, P kv -> Q kv) ->
  Q (key, f DenoiseImageLayer.empty) ->
  (forall v, P (key, v) -> Q (key, f v)) ->
  Forall Q (map_update key f m).
Proof.
  intros Hm Himp Hnew Hupd. induction m as [|[k v] m IH]; simpl.
  - constructor; [exact Hnew | constructor].
  - apply Forall_cons in Hm as [Hkv Hm].
    assert (Hrest : Forall Q m).
    { eapply List.Forall_impl; [|exact Hm]. exact Himp. }
    destruct (String.compare key k) eqn:Hcmp.
    + apply String.compare_eq_iff in Hcmp. subst k.
      constructor; [apply Hupd, Hkv | exact Hrest].
    + constructor; [exact Hnew | constructor; [apply Himp, Hkv | exact Hrest]].
    + constructor; [apply Himp, Hkv | apply IH, Hm].
Qed.

Lemma Forall_map_fst {A B : Type} (P : A -> Prop) (m : list (A * B)) :
  Forall P (map fst m) <-> Forall (fun kv => P kv.1) m.
Proof.
  induction m as [|kv m IH]; simpl.
  - split; constructor.
  - split; intros H; apply Forall_cons in H as [H1 H2];
      constructor; [exact H1 | apply IH, H2 | exact H1 | apply IH, H2].
Qed.

(** Inserting or updating a key keeps the map ordered. *)
Lemma map_update_sorted key f m : keys_sorted m -> keys_sorted (map_update key f m).
Proof.
  unfold keys_sorted. induction m as [|[k v] m IH]; simpl; intros Hs.
  - repeat constructor.
  - apply StronglySorted_inv in Hs as [Hs Hall].
    destruct (String.compare key k) eqn:Hcmp; simpl.
    + constructor; assumption.
    + constructor; [constructor; assumption|].
      constructor; [exact Hcmp|].
      eapply List.Forall_impl; [|exact Hall].
      intros a Ha. apply (string_lt_trans key k a); assumption.
    + constructor; [apply IH, Hs|].
      apply Forall_map_fst.
      apply (map_update_Forall (fun kv => string_lt k kv.1)
                               (fun kv => string_lt k kv.1)).
      * apply Forall_map_fst, Hall.
      * auto.
      * apply string_lt_gt, Hcmp.
      * intros v' Hv'. exact Hv'.
Qed.

(** A provisional layer whose channel indices are indices of the first [n]
    channel names of the file. *)
Definition layer_indexed (n : Z) (layer : DenoiseImageLayer.t) : Prop :=
  length (DenoiseImageLayer.channels layer)
  = length (DenoiseImageLayer.layer_to_image_channel layer) /\
  Forall (fun c => 0 <= c < n) (DenoiseImageLayer.layer_to_image_channel layer) /\
  StronglySorted Z.lt (DenoiseImageLayer.layer_to_image_channel layer).

Lemma layer_indexed_mono n n' layer :
  n <= n' -> layer_indexed n layer -> layer_indexed n' layer.
Proof.
  intros Hle (Hlen & Hall & Hs). split; [exact Hlen|]. split; [|exact Hs].
  eapply List.Forall_impl; [|exact Hall]. intros c Hc. cbn in Hc. lia.
Qed.

Lemma StronglySorted_snoc (l : list Z) (i : Z) :
  StronglySorted Z.lt l -> Forall (fun c => c < i) l -> StronglySorted Z.lt (l ++ [i]).
Proof.
  induction l as [|a l IH]; intros Hs Hall; simpl.
  - repeat constructor.
  - apply StronglySorted_inv in Hs as [Hs Ha].
    apply Forall_cons in Hall as [Hai Hall].
    constructor; [apply IH; assumption|].
    apply Forall_app. split; [exact Ha | constructor; [exact Hai | constructor]].
Qed.

Lemma add_channel_indexed i layer channel :
  0 <= i -> layer_indexed i layer -> layer_indexed (i + 1) (add_channel layer channel i).
Proof.
  intros Hi (Hlen & Hall & Hs). unfold layer_indexed, add_channel; cbn.
  split; [rewrite !length_app; simpl; lia|]. split.
  - apply Forall_app. split.
    + eapply List.Forall_impl; [|exact Hall]. intros c Hc. cbn in Hc. lia.
    + constructor; [lia | constructor].
  - apply StronglySorted_snoc; [exact Hs|].
    eapply List.Forall_impl; [|exact Hall]. intros c Hc. cbn in Hc. lia.
Qed.

Lemma empty_layer_indexed n : layer_indexed n DenoiseImageLayer.empty.
Proof. repeat split; constructor. Qed.

(** The grouping loop keeps the map ordered and every index in range. *)
Lemma group_channels_inv channels multiview :
  forall i file_layers,
    0 <= i ->
    keys_sorted file_layers ->
    Forall (fun kv => layer_indexed i kv.2) file_layers ->
    keys_sorted (group_channels channels i multiview file_layers) /\
    Forall (fun kv => layer_indexed (i + Z.of_nat (length channels)) kv.2)
           (group_channels channels i multiview file_layers).
Proof.
  induction channels as [|name channels IH]; intros i fl Hi Hs Hall; simpl.
  - split; [exact Hs|]. eapply List.Forall_impl; [|exact Hall].
    intros kv Hkv. apply (layer_indexed_mono i); [lia | exact Hkv].
  - replace (i + Z.of_nat (S (length channels)))
      with ((i + 1) + Z.of_nat (length channels)) by lia.
    apply IH; [lia | |].
    + destruct (parse_channel_name name multiview) as [[[layer pass] channel]|];
        [apply map_update_sorted, Hs | exact Hs].
    + destruct (parse_channel_name name multiview) as [[[layer pass] channel]|].
      * apply (map_update_Forall (fun kv => layer_indexed i kv.2)
                                 (fun kv => layer_indexed (i + 1) kv.2)).
        -- exact Hall.
        -- intros kv Hkv. apply (layer_indexed_mono i); [lia | exact Hkv].
        -- cbn. apply add_channel_indexed; [exact Hi | apply empty_layer_indexed].
        -- intros v Hv. cbn in *. apply add_channel_indexed; [exact Hi | exact Hv].
      * eapply List.Forall_impl; [|exact Hall].
        intros kv Hkv. apply (layer_indexed_mono i); [lia | exact Hkv].
Qed.

Lemma find_channel_range channels name i :
  find_channel channels name = Some i -> 0 <= i < Z.of_nat (length channels).
Proof.
  revert i. induction channels as [|c channels IH]; intros i; simpl; [discriminate|].
  destruct (decide (c = name)) as [_|_].
  - intros [= <-]. lia.
  - destruct (find_channel channels name) as [i'|]; [|discriminate].
    intros [= <-]. specialize (IH i' eq_refl). lia.
Qed.

Lemma Forall_load (P : Z -> Prop) (l : list Z) i :
  Forall P l -> 0 <= i < Z.of_nat (length l) -> P (load l i).
Proof.
  intros Hall Hi. rewrite List.Forall_forall in Hall. apply Hall.
  pose proof (zlookup_load l i Hi) as Hz. unfold zlookup in Hz.
  destruct (decide (0 <= i)); [|lia].
  apply list_elem_of_In. eapply list_elem_of_lookup_2. exact Hz.
Qed.

(** One mapping loop stores only channels of the file; a slot is in range
    afterwards if it was before or if it is the slot of one of the
    mappings. *)
Lemma map_to_image_channels_range n layer mappings :
  layer_indexed n layer ->
  forall table table',
    map_to_image_channels layer mappings table = Some table' ->
    length table' = length table /\
    forall j, 0 <= j < Z.of_nat (length table) ->
      0 <= load table j < n \/ In j (map ChannelMapping.channel mappings) ->
      0 <= load table' j < n.
Proof.
  intros (Hlen & Hall & _).
  induction mappings as [|m mappings IH]; intros table table'; simpl.
  - intros [= <-]. split; [reflexivity|]. intros j Hj [Hin|[]]. exact Hin.
  - destruct (find_channel (DenoiseImageLayer.channels layer) (ChannelMapping.name m))
      as [layer_channel|] eqn:Hfind; [|discriminate].
    intros Hrun. apply IH in Hrun as (Hl & Hrange).
    rewrite length_store in Hl, Hrange. split; [exact Hl|].
    intros j Hj Hcase. apply Hrange; [exact Hj|].
    apply find_channel_range in Hfind. rewrite Hlen in Hfind.
    destruct (Z.eq_dec (ChannelMapping.channel m) j) as [->|Hne].
    + left. rewrite load_store_eq by lia.
      apply (Forall_load (fun c => 0 <= c < n)); assumption.
    + rewrite load_store_ne by exact Hne.
      destruct Hcase as [Hin|[Heq|Hin]]; [left; exact Hin | contradiction | right; exact Hin].
Qed.

(** A layer that passes detection maps every input and output slot to a
    channel of the file. *)
Lemma detect_denoising_channels_range n layer layer' :
  layer_indexed n layer ->
  detect_denoising_channels layer = Some layer' ->
  length (DenoiseImageLayer.input_to_image_channel layer') = 15%nat /\
  length (DenoiseImageLayer.output_to_image_channel layer') = 3%nat /\
  channels_in_range n INPUT_NUM_CHANNELS
    (DenoiseImageLayer.input_to_image_channel layer') /\
  channels_in_range n OUTPUT_NUM_CHANNELS
    (DenoiseImageLayer.output_to_image_channel layer').
Proof.
  intros Hidx. unfold detect_denoising_channels.
  destruct (map_to_image_channels layer input_channels _) as [ic|] eqn:Hic;
    [|discriminate].
  destruct (map_to_image_channels layer output_channels _) as [oc|] eqn:Hoc;
    [|discriminate].
  intros [= <-]. cbn.
  apply (map_to_image_channels_range n layer _ Hidx) in Hic as (Hlic & Hric).
  apply (map_to_image_channels_range n layer _ Hidx) in Hoc as (Hloc & Hroc).
  rewrite length_replicate in Hlic, Hloc, Hric, Hroc.
  split; [exact Hlic|]. split; [exact Hloc|]. split.
  - intros k Hk. unfold INPUT_NUM_CHANNELS in *. apply Hric; [lia|]. right.
    change (map ChannelMapping.channel input_channels) with (seqZ 0 15).
    apply list_elem_of_In, elem_of_seqZ. lia.
  - intros k Hk. unfold OUTPUT_NUM_CHANNELS in *. apply Hroc; [lia|]. right.
    change (map ChannelMapping.channel output_channels) with (seqZ 0 3).
    apply list_elem_of_In, elem_of_seqZ. lia.
Qed.

Lemma resolve_samples_cases samples in_spec name :
  (exists n, resolve_samples samples in_spec name = Ok n) \/
  resolve_samples samples in_spec name
  = Error ("Failed to parse samples metadata: " ++
           get_string_attribute (ImageSpec.string_attributes in_spec)
             ("cycles." ++ name ++ ".samples"))%string.
Proof.
  unfold resolve_samples.
  destruct (decide (samples < 1)); [|left; eauto].
  destruct (decide (_ <> EmptyString)); [|left; eauto].
  cbv zeta. destruct (decide (sscanf_return _ = 0)); [right; reflexivity | left; eauto].
Qed.

(** The provisional layers that pass detection, in map order. *)
Definition detected (file_layers : list (string * DenoiseImageLayer.t))
  : list (string * DenoiseImageLayer.t) :=
  flat_map (fun kv => match detect_denoising_channels kv.2 with
                      | Some layer => [(kv.1, layer)]
                      | None => []
                      end) file_layers.

(** A retained layer: a detected layer with its name and resolved sample
    count. *)
Definition retained (samples : Z) (in_spec : ImageSpec.t)
  (kv : string * DenoiseImageLayer.t) (layer : DenoiseImageLayer.t) : Prop :=
  exists layer_samples,
    resolve_samples samples in_spec kv.1 = Ok layer_samples /\
    1 <= layer_samples /\
    layer = set_name_samples kv.2 kv.1 layer_samples.

Lemma collect_layers_Ok samples in_spec file_layers :
  forall acc layers,
    collect_layers samples in_spec file_layers acc = Ok layers ->
    exists new, layers = acc ++ new /\
      Forall2 (retained samples in_spec) (detected file_layers) new.
Proof.
  induction file_layers as [|[name layer] fl IH]; intros acc layers; simpl.
  - intros [= <-]. exists []. rewrite app_nil_r. split; [reflexivity | constructor].
  - destruct (detect_denoising_channels layer) as [layer'|] eqn:Hdet; simpl.
    + destruct (resolve_samples samples in_spec name) as [smp|e] eqn:Hres;
        [|discriminate].
      destruct (decide (smp < 1)) as [Hlt|Hge]; [discriminate|].
      intros Hrun. apply IH in Hrun as (new & -> & Hnew).
      exists (set_name_samples layer' name smp :: new).
      split; [rewrite <- app_assoc; reflexivity|].
      constructor; [|exact Hnew]. exists smp. cbn. repeat split; [exact Hres | lia].
    + apply IH.
Qed.

(** The two errors of the sample resolution. *)
Definition samples_error (in_spec : ImageSpec.t) (e : string) : Prop :=
  exists name,
    e = ("Failed to parse samples metadata: " ++
         get_string_attribute (ImageSpec.string_attributes in_spec)
           ("cycles." ++ name ++ ".samples"))%string \/
    e = ("No sample number specified in the file for layer " ++ name ++
         " or on the command line")%string.

Lemma collect_layers_Error samples in_spec file_layers :
  forall acc,
    (exists kv, In kv (detected file_layers) /\
       forall n, resolve_samples samples in_spec kv.1 = Ok n -> n < 1) ->
    exists e, collect_layers samples in_spec file_layers acc = Error e /\
              samples_error in_spec e.
Proof.
  induction file_layers as [|[name layer] fl IH]; intros acc (kv & Hin & Hbad);
    simpl in *; [contradiction|].
  destruct (detect_denoising_channels layer) as [layer'|] eqn:Hdet; simpl in Hin.
  - unfold resolve_samples in *.
    destruct (resolve_samples_cases samples in_spec name) as [(smp & Hres)|Hres].
    + unfold resolve_samples in Hres. rewrite Hres.
      destruct (decide (smp < 1)) as [Hlt|Hge].
      * eexists. split; [reflexivity|]. exists name. right. reflexivity.
      * apply IH. destruct Hin as [<-|Hin].
        -- cbn in Hbad. specialize (Hbad smp Hres). lia.
        -- exists kv. split; assumption.
    + unfold resolve_samples in Hres. rewrite Hres.
      eexists. split; [reflexivity|]. exists name. left. reflexivity.
  - apply IH. exists kv. split; assumption.
Qed.

Lemma parse_channels_Ok samples in_spec layers :
  parse_channels samples in_spec = Ok layers ->
  let file_layers :=
    group_channels (ImageSpec.channelnames in_spec) 0
      (multiview_channels_of in_spec) [] in
  keys_sorted file_layers /\
  Forall (fun kv => layer_indexed
                      (Z.of_nat (length (ImageSpec.channelnames in_spec))) kv.2)
         file_layers /\
  Forall2 (retained samples in_spec) (detected file_layers) layers.
Proof.
  intros Hrun file_layers.
  destruct (group_channels_inv (ImageSpec.channelnames in_spec)
              (multiview_channels_of in_spec) 0 [] ltac:(lia)
              ltac:(constructor) ltac:(constructor)) as (Hs & Hall).
  split; [exact Hs|]. split; [exact Hall|].
  apply collect_layers_Ok in Hrun as (new & -> & Hnew). exact Hnew.
Qed.

Lemma detected_Forall (P : string * DenoiseImageLayer.t -> Prop)
  (Q : string * DenoiseImageLayer.t -> Prop) file_layers :
  Forall P file_layers ->
  (forall name layer layer', P (name, layer) ->
     detect_denoising_channels layer = Some layer' -> Q (name, layer')) ->
  Forall Q (detected file_layers).
Proof.
  intros Hall Himp. induction file_layers as [|[name layer] fl IH]; simpl.
  - constructor.
  - apply Forall_cons in Hall as [Hkv Hall].
    destruct (detect_denoising_channels layer) as [layer'|] eqn:Hdet; simpl.
    + constructor; [eapply Himp; eauto | apply IH, Hall].
    + apply IH, Hall.
Qed.

Lemma Forall2_In_r {A B : Type} (R : A -> B -> Prop) (l : list A) (l' : list B) b :
  Forall2 R l l' -> In b l' -> exists a, In a l /\ R a b.
Proof.
  induction 1 as [|a b' l l' Hab _ IH]; intros Hin; [contradiction|].
  destruct Hin as [<-|Hin].
  - exists a. split; [left; reflexivity | exact Hab].
  - destruct (IH Hin) as (a' & Ha' & HR). exists a'. split; [right|]; assumption.
Qed.

Section Discovery.
Context {F : Type} `{!Inhabited F}.

(** C10: for every layer retained by [parse_channels], each of the 15
    entries of [input_to_image_channel] and of the 3 entries of
    [output_to_image_channel] is at least 0 and less than the channel count
    [num_channels] of the file (the length of its channel name list); so the
    index [p * num_channels + entry] used by [read_pixels], by the seeding
    of the output buffer and by the write-back stays within the
    [num_channels] floats of pixel [p]. *)
Theorem retained_tables_in_range samples path in_spec data (img : DenoiseImage F) :
  ImageSpec.nchannels in_spec = Z.of_nat (length (ImageSpec.channelnames in_spec)) ->
  image_load samples path (Opened in_spec data) = Ok img ->
  parse_channels samples in_spec = Ok (layers img) /\
  forall layer, In layer (layers img) ->
    let nc := num_channels img in
    let ic := DenoiseImageLayer.input_to_image_channel layer in
    let oc := DenoiseImageLayer.output_to_image_channel layer in
    length ic = 15%nat /\ length oc = 3%nat /\
    (forall j, 0 <= j < INPUT_NUM_CHANNELS -> 0 <= load ic j < nc) /\
    (forall k, 0 <= k < OUTPUT_NUM_CHANNELS -> 0 <= load oc k < nc) /\
    (forall p j, 0 <= j < INPUT_NUM_CHANNELS ->
       p * nc <= p * nc + load ic j < (p + 1) * nc) /\
    (forall p k, 0 <= k < OUTPUT_NUM_CHANNELS ->
       p * nc <= p * nc + load ic (INPUT_NOISY_IMAGE + k) < (p + 1) * nc) /\
    (forall p k, 0 <= k < OUTPUT_NUM_CHANNELS ->
       p * nc <= p * nc + load oc k < (p + 1) * nc).
Proof.
  intros Hnc Hload. unfold image_load in Hload.
  destruct (parse_channels samples in_spec) as [ls|e] eqn:Hparse; [|discriminate].
  destruct (decide (length ls = O)); [discriminate|].
  destruct data as [px|]; [|discriminate].
  injection Hload as <-. cbn [layers num_channels].
  split; [reflexivity|].
  intros layer Hin. cbv zeta.
  set (nc := ImageSpec.nchannels in_spec).
  destruct (parse_channels_Ok _ _ _ Hparse) as (_ & Hidx & Hret).
  destruct (Forall2_In_r _ _ _ _ Hret Hin) as ([name layer0] & Hdet & smp & _ & _ & Hl).
  assert (Hrange : length (DenoiseImageLayer.input_to_image_channel layer0) = 15%nat /\
            length (DenoiseImageLayer.output_to_image_channel layer0) = 3%nat /\
            channels_in_range nc INPUT_NUM_CHANNELS
              (DenoiseImageLayer.input_to_image_channel layer0) /\
            channels_in_range nc OUTPUT_NUM_CHANNELS
              (DenoiseImageLayer.output_to_image_channel layer0)).
  { pose proof (detected_Forall _
        (fun kv => length (DenoiseImageLayer.input_to_image_channel kv.2) = 15%nat /\
           length (DenoiseImageLayer.output_to_image_channel kv.2) = 3%nat /\
           channels_in_range nc INPUT_NUM_CHANNELS
             (DenoiseImageLayer.input_to_image_channel kv.2) /\
           channels_in_range nc OUTPUT_NUM_CHANNELS
             (DenoiseImageLayer.output_to_image_channel kv.2)) _ Hidx) as Hall.
    rewrite List.Forall_forall in Hall.
    apply (Hall ltac:(intros nm l l' Hi Hd; cbn in *; unfold nc; rewrite Hnc;
                      apply (detect_denoising_channels_range _ l l' Hi Hd))
                (name, layer0) Hdet). }
  cbn in Hl. subst layer. cbn.
  destruct Hrange as (Hlic & Hloc & Hic & Hoc).
  split; [exact Hlic|]. split; [exact Hloc|].
  split; [exact Hic|]. split; [exact Hoc|].
  split; [|split].
  - intros p j Hj. pose proof (Hic j Hj). lia.
  - intros p k Hk.
    pose proof (Hic (INPUT_NOISY_IMAGE + k)
                  ltac:(unfold INPUT_NOISY_IMAGE, INPUT_NUM_CHANNELS,
                          OUTPUT_NUM_CHANNELS in *; lia)). lia.
  - intros p k Hk. pose proof (Hoc k Hk). lia.
Qed.

End Discovery.

(** ** The output channels of a retained layer are distinct *)

Lemma find_channel_lookup channels name i :
  find_channel channels name = Some i -> zlookup channels i = Some name.
Proof.
  revert i. induction channels as [|c channels IH]; intros i; simpl; [discriminate|].
  destruct (decide (c = name)) as [->|Hne].
  - intros [= <-]. reflexivity.
  - destruct (find_channel channels name) as [i'|] eqn:Hfind; [|discriminate].
    intros [= <-]. specialize (IH i' eq_refl).
    pose proof (find_channel_range _ _ _ Hfind) as Hr.
    unfold zlookup in *. destruct (decide (0 <= i')); [|lia].
    destruct (decide (0 <= i' + 1)); [|lia].
    replace (Z.to_nat (i' + 1)) with (S (Z.to_nat i')) by lia. exact IH.
Qed.

Lemma load_cons (a : Z) (l : list Z) i : 1 <= i -> load (a :: l) i = load l (i - 1).
Proof.
  intros Hi. unfold load, zlookup.
  destruct (decide (0 <= i)); [|lia]. destruct (decide (0 <= i - 1)); [|lia].
  replace (Z.to_nat i) with (S (Z.to_nat (i - 1))) by lia. reflexivity.
Qed.

(** A strictly ascending table is strictly increasing in its index. *)
Lemma sorted_load_lt (l : list Z) :
  StronglySorted Z.lt l ->
  forall i j, 0 <= i < j -> j < Z.of_nat (length l) -> load l i < load l j.
Proof.
  induction 1 as [|a l Hs IH Hall]; intros i j Hij Hj; simpl in Hj; [lia|].
  rewrite (load_cons a l j) by lia.
  destruct (Z.eq_dec i 0) as [->|Hi].
  - change (load (a :: l) 0) with a.
    apply (Forall_load (fun c => a < c)); [exact Hall | lia].
  - rewrite (load_cons a l i) by lia. apply IH; lia.
Qed.

Lemma sorted_load_inj (l : list Z) i j :
  StronglySorted Z.lt l ->
  0 <= i < Z.of_nat (length l) -> 0 <= j < Z.of_nat (length l) ->
  load l i = load l j -> i = j.
Proof.
  intros Hs Hi Hj Heq.
  destruct (Z.lt_trichotomy i j) as [Hlt|[Heq'|Hgt]]; [|exact Heq'|].
  - pose proof (sorted_load_lt l Hs i j ltac:(lia) ltac:(lia)). lia.
  - pose proof (sorted_load_lt l Hs j i ltac:(lia) ltac:(lia)). lia.
Qed.

Lemma detect_output_distinct n layer layer' :
  layer_indexed n layer ->
  detect_denoising_channels layer = Some layer' ->
  channels_distinct OUTPUT_NUM_CHANNELS
    (DenoiseImageLayer.output_to_image_channel layer').
Proof.
  intros (Hlen & _ & Hs). unfold detect_denoising_channels.
  destruct (map_to_image_channels layer input_channels _) as [ic|]; [|discriminate].
  change output_channels
    with [ChannelMapping.mk 0 "Combined.R"; ChannelMapping.mk 1 "Combined.G";
          ChannelMapping.mk 2 "Combined.B"].
  cbn [map_to_image_channels ChannelMapping.name ChannelMapping.channel].
  destruct (find_channel _ "Combined.R") as [pr|] eqn:Hr; [|discriminate].
  destruct (find_channel _ "Combined.G") as [pg|] eqn:Hg; [|discriminate].
  destruct (find_channel _ "Combined.B") as [pb|] eqn:Hb; [|discriminate].
  intros [= <-]. cbn [DenoiseImageLayer.output_to_image_channel].
  set (l2i := DenoiseImageLayer.layer_to_image_channel layer) in *.
  change (store (store (store (replicate (Z.to_nat OUTPUT_NUM_CHANNELS) (-1)) 0
                          (load l2i pr)) 1 (load l2i pg)) 2 (load l2i pb))
    with [load l2i pr; load l2i pg; load l2i pb].
  change (store (store (store [-1; -1; -1] 0 (load l2i pr)) 1 (load l2i pg)) 2
            (load l2i pb))
    with [load l2i pr; load l2i pg; load l2i pb].
  pose proof (find_channel_range _ _ _ Hr) as Rr.
  pose proof (find_channel_range _ _ _ Hg) as Rg.
  pose proof (find_channel_range _ _ _ Hb) as Rb.
  rewrite Hlen in Rr, Rg, Rb. fold l2i in Rr, Rg, Rb.
  apply find_channel_lookup in Hr, Hg, Hb.
  assert (Hrg : load l2i pr <> load l2i pg).
  { intros E. apply (sorted_load_inj l2i) in E; [|assumption..]. subst pg.
    rewrite Hr in Hg. discriminate. }
  assert (Hrb : load l2i pr <> load l2i pb).
  { intros E. apply (sorted_load_inj l2i) in E; [|assumption..]. subst pb.
    rewrite Hr in Hb. discriminate. }
  assert (Hgb : load l2i pg <> load l2i pb).
  { intros E. apply (sorted_load_inj l2i) in E; [|assumption..]. subst pb.
    rewrite Hg in Hb. discriminate. }
  intros k k' Hk Hk'. unfold OUTPUT_NUM_CHANNELS in *.
  assert (Hc : k = 0 \/ k = 1 \/ k = 2) by lia.
  assert (Hc' : k' = 0 \/ k' = 1 \/ k' = 2) by lia.
  destruct Hc as [-> | [-> | ->]], Hc' as [-> | [-> | ->]];
    change (load [load l2i pr; load l2i pg; load l2i pb] 0) with (load l2i pr);
    change (load [load l2i pr; load l2i pg; load l2i pb] 1) with (load l2i pg);
    change (load [load l2i pr; load l2i pg; load l2i pb] 2) with (load l2i pb);
    intros E; first [reflexivity | congruence].
Qed.

(** X3: every layer that [parse_channels] retains satisfies what the
    write-back needs of its output table: three distinct channels of the
    file. *)
Lemma retained_output_channels samples in_spec layers layer :
  parse_channels samples in_spec = Ok layers -> In layer layers ->
  channels_in_range (Z.of_nat (length (ImageSpec.channelnames in_spec)))
    OUTPUT_NUM_CHANNELS (DenoiseImageLayer.output_to_image_channel layer) /\
  channels_distinct OUTPUT_NUM_CHANNELS
    (DenoiseImageLayer.output_to_image_channel layer).
Proof.
  intros Hparse Hin.
  destruct (parse_channels_Ok _ _ _ Hparse) as (_ & Hidx & Hret).
  destruct (Forall2_In_r _ _ _ _ Hret Hin) as ([name layer0] & Hdet & smp & _ & _ & ->).
  cbn [fst snd set_name_samples DenoiseImageLayer.output_to_image_channel].
  pose proof (detected_Forall _
    (fun kv => channels_in_range (Z.of_nat (length (ImageSpec.channelnames in_spec)))
                 OUTPUT_NUM_CHANNELS (DenoiseImageLayer.output_to_image_channel kv.2) /\
               channels_distinct OUTPUT_NUM_CHANNELS
                 (DenoiseImageLayer.output_to_image_channel kv.2)) _ Hidx) as Hall.
  rewrite List.Forall_forall in Hall.
  apply (Hall ltac:(intros nm l l' Hi Hd; cbn in *; split;
                    [apply (detect_denoising_channels_range _ l l' Hi Hd)
                    | apply (detect_output_distinct _ l l' Hi Hd)])
              (name, layer0) Hdet).
Qed.

(** ** The order in which layers are produced and processed *)

Lemma detected_keys_sorted file_layers :
  keys_sorted file_layers -> keys_sorted (detected file_layers).
Proof.
  unfold keys_sorted. induction file_layers as [|[name layer] fl IH]; simpl; intros Hs.
  - constructor.
  - apply StronglySorted_inv in Hs as [Hs Hall].
    destruct (detect_denoising_channels layer) as [layer'|] eqn:Hdet; simpl.
    + constructor; [apply IH, Hs|].
      apply Forall_map_fst.
      apply (detected_Forall (fun kv => string_lt name kv.1)).
      * apply Forall_map_fst, Hall.
      * intros nm l l' Hlt _. exact Hlt.
    + apply IH, Hs.
Qed.

Lemma retained_names samples in_spec kvs layers :
  Forall2 (retained samples in_spec) kvs layers ->
  map DenoiseImageLayer.name layers = map fst kvs.
Proof.
  induction 1 as [|kv layer kvs layers (smp & _ & _ & ->) _ IH]; simpl;
    [reflexivity|].
  rewrite IH. reflexivity.
Qed.

(** The order the specification words: the layer keys in the order in
    which each first occurs in the channel name list of the file. *)
Definition layer_keys (in_spec : ImageSpec.t) : list string :=
  omap (fun name =>
          match parse_channel_name name (multiview_channels_of in_spec) with
          | Some (layer, _, _) => Some layer
          | None => None
          end) (ImageSpec.channelnames in_spec).

Fixpoint first_occurrences (keys seen : list string) : list string :=
  match keys with
  | [] => []
  | k :: keys' =>
      if bool_decide (k ∈ seen) then first_occurrences keys' seen
      else k :: first_occurrences keys' (k :: seen)
  end.

Definition discovery_order (in_spec : ImageSpec.t) : list string :=
  first_occurrences (layer_keys in_spec) [].

Section ExecOrder.
Context {F : Type} `{!Inhabited F} `{!FloatOps F}.
Variable device_task : DeviceTask.t -> DenoiseTask F -> list F.

Lemma load_input_pixels_cursor dn (t t' : DenoiseTask F) layer :
  load_input_pixels dn t layer = Ok t' ->
  current_layer t' = current_layer t /\ image t' = image t.
Proof.
  unfold load_input_pixels.
  destruct (read_neighbors _ _ _ _ _ _ _) as [buf|]; [|discriminate].
  destruct (for_range _ _ _ _) as [buf' base]. intros [= <-]. split; reflexivity.
Qed.

(** [exec] runs one device task per layer, with the layer cursor going
    through [0, 1, 2, ...] until the end or the first failure. *)
Lemma exec_log dn (t : DenoiseTask F) :
  let n := Z.of_nat (length (layers (image t))) in
  (exists k, 0 <= k <= n /\ (exec device_task dn t).2 = seqZ 0 k) /\
  (forall t', (exec device_task dn t).1 = Ok t' ->
     (exec device_task dn t).2 = seqZ 0 n).
Proof.
  intros n. unfold exec. fold n.
  set (Inv := fun (i : Z) (s : result (DenoiseTask F) * list Z) =>
         match s.1 with
         | Ok _ => s.2 = seqZ 0 i
         | Error _ => exists k, 0 <= k <= i /\ s.2 = seqZ 0 k
         end).
  match goal with
  | |- context [for_range 0 n ?body ?s0] =>
      assert (Hloop : Inv n (for_range 0 n body s0))
  end.
  { apply for_range_inv; [lia | reflexivity |].
    intros i [[t0|e] log] Hi Hinv; unfold Inv in *; cbn [fst snd] in *.
    - destruct (decide (i > 0)) as [Hpos|Hzero].
      + destruct (load_input_pixels dn (set_current_layer t0 i) i) as [t1|e] eqn:Hload;
          cbn [fst snd].
        * apply load_input_pixels_cursor in Hload as [Hcur _].
          rewrite Hcur, Hinv. cbn [current_layer set_current_layer].
          rewrite (seqZ_app 0 i 1) by lia. reflexivity.
        * exists i. split; [lia | exact Hinv].
      + cbn [fst snd current_layer set_current_layer]. rewrite Hinv.
        rewrite (seqZ_app 0 i 1) by lia. reflexivity.
    - destruct Hinv as (k & Hk & Hlog). exists k. split; [lia | exact Hlog]. }
  destruct (for_range 0 n _ _) as [[t0|e] log]; unfold Inv in Hloop;
    cbn [fst snd] in *.
  - split; [exists n; split; [lia | exact Hloop]|]. intros t' _. exact Hloop.
  - split; [exact Hloop|]. intros t' [=].
Qed.

(** C3 (as the code has it): the layers retained by [parse_channels] are
    produced in the iteration order of the [std::map] they were grouped in,
    which is the ascending byte-wise order of their layer keys, and [exec]
    processes them in that order, first to last. *)
Theorem layers_in_key_order dn (t : DenoiseTask F) samples in_spec :
  parse_channels samples in_spec = Ok (layers (image t)) ->
  let file_layers :=
    group_channels (ImageSpec.channelnames in_spec) 0
      (multiview_channels_of in_spec) [] in
  let n := Z.of_nat (length (layers (image t))) in
  map DenoiseImageLayer.name (layers (image t)) = map fst (detected file_layers) /\
  StronglySorted string_lt (map DenoiseImageLayer.name (layers (image t))) /\
  (exists k, 0 <= k <= n /\ (exec device_task dn t).2 = seqZ 0 k) /\
  (forall t', (exec device_task dn t).1 = Ok t' ->
     (exec device_task dn t).2 = seqZ 0 n).
Proof.
  intros Hparse file_layers n.
  destruct (parse_channels_Ok _ _ _ Hparse) as (Hs & _ & Hret).
  fold file_layers in Hs, Hret.
  pose proof (retained_names _ _ _ _ Hret) as Hnames.
  split; [exact Hnames|]. split.
  - rewrite Hnames. apply detected_keys_sorted, Hs.
  - apply exec_log.
Qed.

End ExecOrder.

(** ** Saving through a temporary file *)

Lemma string_length_app (a b : string) :
  String.length (a ++ b) = (String.length a + String.length b)%nat.
Proof. induction a as [|c a IH]; simpl; [reflexivity | rewrite IH; reflexivity]. Qed.

Section SaveOutput.
Context {F : Type} `{!Inhabited F}.
Implicit Types (env : @save_env) (fs : gmap string (@file_content F))
  (img : DenoiseImage F).

Lemma tmp_filepath_fresh env out_filepath :
  tmp_filepath_of env out_filepath <> out_filepath.
Proof.
  unfold tmp_filepath_of. intros Heq. apply (f_equal String.length) in Heq.
  rewrite !string_length_app in Heq. simpl in Heq. lia.
Qed.

(** X2: when every container operation succeeds, [save_output] succeeds,
    the image with its sample attributes is at the target path and the
    temporary file is gone. *)
Lemma save_output_success env fs img out_filepath :
  create_ok env = true -> open_ok env = true -> write_ok env = true ->
  close_ok env = true -> rename_ok env = true ->
  let r := save_output env fs img out_filepath in
  r.1.1 = Ok () /\
  r.1.2 !! out_filepath
  = Some (ImageFile (with_sample_attributes (in_spec img) (layers img)) (pixels img)) /\
  r.1.2 !! tmp_filepath_of env out_filepath = None.
Proof.
  intros Hc Ho Hw Hcl Hr r. unfold r, save_output.
  rewrite Hc, Ho, Hw, Hcl, Hr. cbn.
  pose proof (tmp_filepath_fresh env out_filepath) as Hne.
  rewrite lookup_insert_eq. cbn.
  split; [reflexivity|]. split.
  - apply lookup_insert_eq.
  - rewrite lookup_insert_ne by congruence. apply lookup_delete_eq.
Qed.

(** X1: when the write, the close or the rename fails (after a successful
    open), [save_output] fails, the temporary file is removed and the rest
    of the file system, the target included, is as it was. *)
Lemma save_output_failure_cleanup env fs img out_filepath :
  create_ok env = true -> open_ok env = true ->
  write_ok env = false \/ close_ok env = false \/ rename_ok env = false ->
  let r := save_output env fs img out_filepath in
  (exists e, r.1.1 = Error e) /\
  r.1.2 = delete (tmp_filepath_of env out_filepath) fs /\
  r.1.2 !! tmp_filepath_of env out_filepath = None /\
  r.1.2 !! out_filepath = fs !! out_filepath.
Proof.
  intros Hc Ho Hfail r.
  pose proof (tmp_filepath_fresh env out_filepath) as Hne.
  assert (Hr : (exists e, r.1.1 = Error e) /\
               r.1.2 = delete (tmp_filepath_of env out_filepath) fs).
  { unfold r, save_output. rewrite Hc, Ho. cbn.
    destruct (write_ok env) eqn:Hw, (close_ok env) eqn:Hcl, (rename_ok env) eqn:Hrn;
      cbn; try (destruct Hfail as [?|[?|?]]; discriminate);
      (split; [eexists; reflexivity|]);
      rewrite ?delete_insert_eq; reflexivity. }
  destruct Hr as [He Hfs]. split; [exact He|]. split; [exact Hfs|].
  rewrite Hfs. split; [apply lookup_delete_eq | apply lookup_delete_ne; congruence].
Qed.

(** C9, where the code departs from it: when [open] fails after it has
    created the temporary file, [save_output] returns the failure without
    removing that file. *)
Theorem save_output_open_failure_keeps_temp
  fs img out_filepath unique w c r err rerr :
  let env := mkSaveEnv unique true false true w c r err rerr in
  let res := save_output env fs img out_filepath in
  res.1.1 = Error ("Failed to open file " ++ tmp_filepath_of env out_filepath
                   ++ " for writing: " ++ err)%string /\
  res.1.2 = <[tmp_filepath_of env out_filepath := PartialFile]> fs /\
  res.1.2 !! tmp_filepath_of env out_filepath = Some PartialFile.
Proof.
  intros env res. unfold res, save_output. cbn.
  split; [reflexivity|]. split; [reflexivity|]. apply lookup_insert_eq.
Qed.

End SaveOutput.

(** ** Channel names: what the split and the parse return *)

(** The character [c] occurs in [s]. *)
Definition occurs (c : ascii) (s : string) : Prop := In c (list_ascii_of_string s).

Definition has_dot (s : string) : Prop := occurs "." s.

Lemma string_app_nil (b : string) : ("" ++ b)%string = b.
Proof. reflexivity. Qed.

Lemma string_app_cons x (a b : string) : (String x a ++ b)%string = String x (a ++ b).
Proof. reflexivity. Qed.

Lemma string_app_assoc (a b c : string) : ((a ++ b) ++ c = a ++ b ++ c)%string.
Proof.
  induction a as [|x a IH]; [reflexivity|].
  rewrite !string_app_cons. f_equal. exact IH.
Qed.

Lemma substring_all s : substring 0 (String.length s) s = s.
Proof. induction s as [|x s IH]; simpl; [reflexivity | rewrite IH; reflexivity]. Qed.

Lemma substring_app_l (a b : string) : substring 0 (String.length a) (a ++ b) = a.
Proof.
  induction a as [|x a IH].
  - rewrite string_app_nil. destruct b; reflexivity.
  - rewrite string_app_cons. simpl. rewrite IH. reflexivity.
Qed.

Lemma substring_app_r (a b : string) c :
  substring (S (String.length a))
    (String.length (a ++ String c b) - S (String.length a)) (a ++ String c b) = b.
Proof.
  induction a as [|x a IH].
  - rewrite string_app_nil. simpl. rewrite Nat.sub_0_r. apply substring_all.
  - rewrite string_app_cons. simpl. exact IH.
Qed.

Lemma rfind_None c s : rfind c s = None <-> ~ occurs c s.
Proof.
  unfold occurs. induction s as [|a s IH]; simpl.
  - split; [intros _ [] | reflexivity].
  - destruct (rfind c s) as [n|].
    + split; [discriminate|]. intros Hn. exfalso.
      destruct (in_dec ascii_dec c (list_ascii_of_string s)) as [Hin|Hnin].
      * apply Hn. right. exact Hin.
      * apply IH in Hnin. discriminate.
    + destruct (Ascii.eqb a c) eqn:Heq.
      * apply Ascii.eqb_eq in Heq. split; [discriminate|].
        intros Hn. exfalso. apply Hn. left. exact Heq.
      * apply Ascii.eqb_neq in Heq. split; [|reflexivity].
        intros _ [Hac|Hin]; [contradiction|]. apply IH in Hin; [exact Hin | reflexivity].
Qed.

(** [rfind] splits the string around the last occurrence. *)
Lemma rfind_Some c s n :
  rfind c s = Some n ->
  s = (substring 0 n s ++
       String c (substring (S n) (String.length s - S n) s))%string /\
  ~ occurs c (substring (S n) (String.length s - S n) s).
Proof.
  revert n. induction s as [|a s IH]; intros n; simpl; [discriminate|].
  destruct (rfind c s) as [m|] eqn:Hr.
  - intros [= <-]. destruct (IH m eq_refl) as [Hs Hno]. simpl.
    split; [rewrite string_app_cons; f_equal; exact Hs | exact Hno].
  - destruct (Ascii.eqb a c) eqn:Heq; [|discriminate].
    apply Ascii.eqb_eq in Heq. subst a. intros [= <-]. simpl.
    rewrite Nat.sub_0_r, substring_all.
    split; [reflexivity | apply rfind_None, Hr].
Qed.

Lemma rfind_app c (a b : string) :
  ~ occurs c b -> rfind c (a ++ String c b) = Some (String.length a).
Proof.
  intros Hno. induction a as [|x a IH].
  - rewrite string_app_nil. simpl.
    apply rfind_None in Hno. rewrite Hno, Ascii.eqb_refl. reflexivity.
  - rewrite string_app_cons. simpl. rewrite IH. reflexivity.
Qed.

Lemma split_last_dot_None s : split_last_dot s = None <-> ~ has_dot s.
Proof.
  unfold split_last_dot, has_dot. rewrite <- rfind_None.
  destruct (rfind "." s); split; congruence.
Qed.

Lemma split_last_dot_Some s a b :
  split_last_dot s = Some (a, b) <-> s = (a ++ "." ++ b)%string /\ ~ has_dot b.
Proof.
  unfold split_last_dot, has_dot. split.
  - destruct (rfind "." s) as [pos|] eqn:Hr; [|discriminate].
    intros [= <- <-]. apply (rfind_Some _ _ _ Hr).
  - intros [-> Hno]. change ("." ++ b)%string with (String "." b).
    rewrite (rfind_app "." a b Hno), substring_app_l, substring_app_r.
    reflexivity.
Qed.

(** X7: [split_last_dot] fails exactly on the strings without a dot, and
    otherwise returns the one way of writing the string as [a.b] with no dot
    in [b]: it is the inverse of joining with a dot. *)
Theorem split_last_dot_spec s :
  (split_last_dot s = None <-> ~ has_dot s) /\
  (forall a b, split_last_dot s = Some (a, b) <->
     s = (a ++ "." ++ b)%string /\ ~ has_dot b).
Proof.
  split; [apply split_last_dot_None | intros a b; apply split_last_dot_Some].
Qed.

Lemma parse_channel_name_single name renderlayer pass channel :
  parse_channel_name name false = Some (renderlayer, pass, channel) <->
  name = (renderlayer ++ "." ++ pass ++ "." ++ channel)%string /\
  ~ has_dot pass /\ ~ has_dot channel.
Proof.
  unfold parse_channel_name. split.
  - destruct (split_last_dot name) as [[n1 ch]|] eqn:H1; [|discriminate].
    destruct (split_last_dot n1) as [[n2 ps]|] eqn:H2; [|discriminate].
    intros [= <- <- <-].
    apply split_last_dot_Some in H1 as [-> Hch].
    apply split_last_dot_Some in H2 as [-> Hps].
    rewrite string_app_assoc. auto.
  - intros (-> & Hps & Hch).
    assert (H1 : split_last_dot (renderlayer ++ "." ++ pass ++ "." ++ channel)
                 = Some ((renderlayer ++ "." ++ pass)%string, channel)).
    { apply split_last_dot_Some. rewrite string_app_assoc. auto. }
    assert (H2 : split_last_dot (renderlayer ++ "." ++ pass)
                 = Some (renderlayer, pass)).
    { apply split_last_dot_Some. auto. }
    rewrite H1, H2. reflexivity.
Qed.

Lemma parse_channel_name_multiview name renderlayer pass channel :
  parse_channel_name name true = Some (renderlayer, pass, channel) <->
  exists layer view,
    renderlayer = (layer ++ "." ++ view)%string /\
    name = (layer ++ "." ++ pass ++ "." ++ view ++ "." ++ channel)%string /\
    ~ has_dot pass /\ ~ has_dot view /\ ~ has_dot channel.
Proof.
  unfold parse_channel_name. split.
  - destruct (split_last_dot name) as [[n1 ch]|] eqn:H1; [|discriminate].
    destruct (split_last_dot n1) as [[n2 vw]|] eqn:H2; [|discriminate].
    destruct (split_last_dot n2) as [[n3 ps]|] eqn:H3; [|discriminate].
    intros [= <- <- <-].
    apply split_last_dot_Some in H1 as [-> Hch].
    apply split_last_dot_Some in H2 as [-> Hvw].
    apply split_last_dot_Some in H3 as [-> Hps].
    exists n3, vw. rewrite !string_app_assoc. auto.
  - intros (layer & view & -> & -> & Hps & Hvw & Hch).
    assert (H1 : split_last_dot (layer ++ "." ++ pass ++ "." ++ view ++ "." ++ channel)
                 = Some ((layer ++ "." ++ pass ++ "." ++ view)%string, channel)).
    { apply split_last_dot_Some. rewrite !string_app_assoc. auto. }
    assert (H2 : split_last_dot (layer ++ "." ++ pass ++ "." ++ view)
                 = Some ((layer ++ "." ++ pass)%string, view)).
    { apply split_last_dot_Some. rewrite !string_app_assoc. auto. }
    assert (H3 : split_last_dot (layer ++ "." ++ pass) = Some (layer, pass)).
    { apply split_last_dot_Some. auto. }
    rewrite H1, H2, H3. reflexivity.
Qed.

(** X8: [parse_channel_name] accepts exactly the names of the form
    [layer.pass.channel] (without views) or [layer.pass.view.channel] (with
    views), where only [layer] may contain dots; it returns the three parts,
    with the render layer [layer.view] when there are views. *)
Theorem parse_channel_name_spec name renderlayer pass channel :
  (parse_channel_name name false = Some (renderlayer, pass, channel) <->
   name = (renderlayer ++ "." ++ pass ++ "." ++ channel)%string /\
   ~ has_dot pass /\ ~ has_dot channel) /\
  (parse_channel_name name true = Some (renderlayer, pass, channel) <->
   exists layer view,
     renderlayer = (layer ++ "." ++ view)%string /\
     name = (layer ++ "." ++ pass ++ "." ++ view ++ "." ++ channel)%string /\
     ~ has_dot pass /\ ~ has_dot view /\ ~ has_dot channel).
Proof.
  split; [apply parse_channel_name_single | apply parse_channel_name_multiview].
Qed.


(** ** Grouping the channels of the file by render layer *)

(** The render layer under which a channel name is filed, and the
    "pass.channel" entry it contributes. *)
Definition channel_layer (multiview : bool) (name : string) : option string :=
  match parse_channel_name name multiview with
  | Some (layer, _, _) => Some layer
  | None => None
  end.

Definition pass_channel (multiview : bool) (name : string) : string :=
  match parse_channel_name name multiview with
  | Some (_, pass, channel) => (pass ++ "." ++ channel)%string
  | None => EmptyString
  end.

(** The indices, among the first [n] channels of the file, of the channels
    filed under render layer [key], in file order. *)
Definition layer_indices (multiview : bool) (names : list string) (key : string)
  (n : Z) : list Z :=
  List.filter (fun i => bool_decide (channel_layer multiview (load names i) = Some key))
              (seqZ 0 n).

Lemma seqZ_snoc (m n : Z) : 0 <= n -> seqZ m (n + 1) = seqZ m n ++ [m + n].
Proof.
  intros Hn. rewrite seqZ_app by lia.
  rewrite (seqZ_cons (m + n) 1) by lia. reflexivity.
Qed.

Lemma layer_indices_step multiview names key i :
  0 <= i ->
  layer_indices multiview names key (i + 1)
  = layer_indices multiview names key i ++
    (if bool_decide (channel_layer multiview (load names i) = Some key)
     then [i] else []).
Proof.
  intros Hi. unfold layer_indices.
  rewrite seqZ_snoc, List.filter_app by lia. simpl. reflexivity.
Qed.

Lemma map_update_keys key f m k :
  In k (map fst (map_update key f m)) <-> k = key \/ In k (map fst m).
Proof.
  induction m as [|[k' v] m IH]; simpl.
  - intuition congruence.
  - destruct (String.compare key k') eqn:Hcmp; simpl.
    + apply String.compare_eq_iff in Hcmp. subst k'. intuition congruence.
    + intuition congruence.
    + rewrite IH. intuition congruence.
Qed.

(** In an ordered map an update touches the entry of its key only; the
    default-constructed entry is used only when the key is new. *)
Lemma map_update_Forall_sorted (P Q : string * DenoiseImageLayer.t -> Prop) key f m :
  keys_sorted m ->
  Forall P m ->
  (forall kv, P kv -> kv.1 <> key -> Q kv) ->
  (~ In key (map fst m) -> Q (key, f DenoiseImageLayer.empty)) ->
  (forall v, P (key, v) -> Q (key, f v)) ->
  Forall Q (map_update key f m).
Proof.
  unfold keys_sorted. intros Hs Hm Himp Hnew Hupd.
  induction m as [|[k v] m IH]; simpl.
  - constructor; [apply Hnew; intros [] | constructor].
  - apply Forall_cons in Hm as [Hkv Hm].
    simpl in Hs. apply StronglySorted_inv in Hs as [Hs Hall].
    assert (Hrest : forall key', key' = k \/ string_lt key' k ->
              Forall (fun kv => kv.1 <> key') m).
    { intros key' Hk'. apply (Forall_map_fst (fun a => a <> key')).
      eapply List.Forall_impl; [|exact Hall]. intros a Ha Heq. subst a.
      destruct Hk' as [->|Hlt].
      - apply (string_lt_irrefl k), Ha.
      - apply (string_lt_irrefl k), (string_lt_trans k key' k); assumption. }
    assert (Hothers : forall key', key' = k \/ string_lt key' k ->
              key' = key -> Forall Q m).
    { intros key' Hk' ->. specialize (Hrest key Hk').
      rewrite List.Forall_forall in Hm, Hrest. apply List.Forall_forall.
      intros kv Hin. apply Himp; [apply Hm, Hin | apply Hrest, Hin]. }
    destruct (String.compare key k) eqn:Hcmp.
    + apply String.compare_eq_iff in Hcmp. subst k.
      constructor; [apply Hupd, Hkv | apply (Hothers key); auto].
    + assert (Hne : k <> key).
      { intros ->. apply (string_lt_irrefl key), Hcmp. }
      constructor.
      * apply Hnew. simpl. intros [Heq|Hin]; [congruence|].
        specialize (Hrest key (or_intror Hcmp)).
        apply (Forall_map_fst (fun a => a <> key)) in Hrest.
        rewrite List.Forall_forall in Hrest.
        apply (Hrest key Hin). reflexivity.
      * constructor; [apply Himp; [exact Hkv | exact Hne]|].
        apply (Hothers key); auto.
    + assert (Hne : k <> key).
      { intros ->. pose proof (String.compare_antisym key key) as Ha.
        rewrite Hcmp in Ha. discriminate. }
      constructor; [apply Himp; [exact Hkv | exact Hne]|].
      apply IH; [exact Hs | exact Hm |].
      intros Hnin. apply Hnew. simpl. intros [Heq|Hin]; [congruence | auto].
Qed.

(** What the grouping loop has built after the first [i] channels. *)
Definition grouped (multiview : bool) (names : list string) (i : Z)
  (file_layers : list (string * DenoiseImageLayer.t)) : Prop :=
  keys_sorted file_layers /\
  (forall key, In key (map fst file_layers) <->
               layer_indices multiview names key i <> []) /\
  Forall (fun kv =>
            DenoiseImageLayer.layer_to_image_channel kv.2
            = layer_indices multiview names kv.1 i /\
            DenoiseImageLayer.channels kv.2
            = map (fun j => pass_channel multiview (load names j))
                  (layer_indices multiview names kv.1 i))
         file_layers.


Lemma grouped_step multiview names i file_layers :
  0 <= i ->
  grouped multiview names i file_layers ->
  grouped multiview names (i + 1)
    (match parse_channel_name (load names i) multiview with
     | Some (layer, pass, channel) =>
         map_update layer
           (fun l => add_channel l (pass ++ "." ++ channel)%string i) file_layers
     | None => file_layers
     end).
Proof.
  intros Hi (Hs & Hkeys & Hall).
  pose proof (fun key => layer_indices_step multiview names key i Hi) as Hidx.
  assert (Hpc := eq_refl : pass_channel multiview (load names i)
                           = pass_channel multiview (load names i)).
  unfold channel_layer in Hidx. unfold pass_channel at 2 in Hpc.
  destruct (parse_channel_name (load names i) multiview)
    as [[[layer pass] channel]|].
  - split; [apply map_update_sorted, Hs|]. split.
    + intros key. rewrite map_update_keys, Hkeys, Hidx.
      case_bool_decide as Hk.
      * injection Hk as <-. split; [|auto].
        intros _ Happ. apply app_eq_nil in Happ as [_ Happ]. discriminate.
      * rewrite app_nil_r. split; [|auto].
        intros [->|Hne]; [congruence | exact Hne].
    + apply (map_update_Forall_sorted
               (fun kv =>
                  DenoiseImageLayer.layer_to_image_channel kv.2
                  = layer_indices multiview names kv.1 i /\
                  DenoiseImageLayer.channels kv.2
                  = map (fun j => pass_channel multiview (load names j))
                        (layer_indices multiview names kv.1 i))); [exact Hs | exact Hall | ..].
      * intros [k v] [Hl Hc] Hne. cbn [fst snd] in *. rewrite Hidx.
        rewrite bool_decide_false by congruence. rewrite app_nil_r. auto.
      * intros Hnew. cbn [fst snd add_channel DenoiseImageLayer.layer_to_image_channel
                          DenoiseImageLayer.channels DenoiseImageLayer.empty].
        assert (Hnil : layer_indices multiview names layer i = []).
        { destruct (layer_indices multiview names layer i) eqn:Hli; [reflexivity|].
          exfalso. apply Hnew, Hkeys. rewrite Hli. discriminate. }
        rewrite Hidx, bool_decide_true, Hnil by reflexivity.
        simpl. rewrite Hpc. auto.
      * intros v [Hl Hc]. cbn [fst snd add_channel
                               DenoiseImageLayer.layer_to_image_channel
                               DenoiseImageLayer.channels] in *.
        rewrite Hidx, bool_decide_true by reflexivity.
        rewrite Hl, Hc, map_app. simpl. rewrite Hpc. auto.
  - assert (Hsame : forall key, layer_indices multiview names key (i + 1)
                                = layer_indices multiview names key i).
    { intros key. rewrite Hidx, bool_decide_false by discriminate.
      apply app_nil_r. }
    split; [exact Hs|]. split.
    + intros key. rewrite Hsame. apply Hkeys.
    + eapply List.Forall_impl; [|exact Hall].
      intros kv Hkv. cbn beta in *. rewrite Hsame. exact Hkv.
Qed.

Lemma group_channels_grouped multiview names :
  forall rest done_ file_layers,
    names = done_ ++ rest ->
    grouped multiview names (Z.of_nat (length done_)) file_layers ->
    grouped multiview names (Z.of_nat (length names))
      (group_channels rest (Z.of_nat (length done_)) multiview file_layers).
Proof.
  induction rest as [|name rest IH]; intros done_ fl Hnames Hg; simpl.
  - rewrite app_nil_r in Hnames. subst names. exact Hg.
  - assert (Hload : load names (Z.of_nat (length done_)) = name).
    { subst names. unfold load, zlookup.
      destruct (decide (0 <= Z.of_nat (length done_))); [|lia].
      rewrite Nat2Z.id, list_lookup_middle by reflexivity. reflexivity. }
    assert (Hlen : Z.of_nat (length done_) + 1 = Z.of_nat (length (done_ ++ [name]))).
    { rewrite length_app. simpl. lia. }
    rewrite Hlen. apply IH.
    + subst names. rewrite <- app_assoc. reflexivity.
    + rewrite <- Hlen, <- Hload. apply grouped_step; [lia | exact Hg].
Qed.

Lemma layer_indices_In multiview names key n i :
  In i (layer_indices multiview names key n) <->
  0 <= i < n /\ channel_layer multiview (load names i) = Some key.
Proof.
  unfold layer_indices. rewrite filter_In, <- list_elem_of_In, elem_of_seqZ.
  rewrite bool_decide_eq_true. intuition lia.
Qed.

(** X9: the first loop of [parse_channels] files every channel whose name
    parses under its render layer, and no other channel anywhere: the map
    has one entry per render layer that occurs, in ascending key order; the
    entry of a layer lists, in file order, exactly the file indices of the
    channels of that layer, and beside each index its "pass.channel". *)
Theorem group_channels_by_layer in_spec :
  let names := ImageSpec.channelnames in_spec in
  let multiview := multiview_channels_of in_spec in
  let n := Z.of_nat (length names) in
  let file_layers := group_channels names 0 multiview [] in
  keys_sorted file_layers /\
  (forall key, In key (map fst file_layers) <->
     exists i, 0 <= i < n /\ channel_layer multiview (load names i) = Some key) /\
  (forall key layer, In (key, layer) file_layers ->
     DenoiseImageLayer.layer_to_image_channel layer
     = layer_indices multiview names key n /\
     DenoiseImageLayer.channels layer
     = map (fun i => pass_channel multiview (load names i))
           (layer_indices multiview names key n) /\
     StronglySorted Z.lt (DenoiseImageLayer.layer_to_image_channel layer) /\
     forall i, In i (DenoiseImageLayer.layer_to_image_channel layer) <->
       0 <= i < n /\ channel_layer multiview (load names i) = Some key).
Proof.
  intros names multiview n file_layers.
  assert (Hg : grouped multiview names n file_layers).
  { apply (group_channels_grouped multiview names names [] [] eq_refl).
    split; [constructor|]. split; [|constructor].
    intros key. split; [intros [] | intros Hne; apply Hne; reflexivity]. }
  destruct Hg as (Hs & Hkeys & Hall).
  destruct (group_channels_inv names multiview 0 [] ltac:(lia)
              ltac:(constructor) ltac:(constructor)) as (_ & Hidx).
  fold n file_layers in Hidx.
  split; [exact Hs|]. split.
  - intros key. rewrite Hkeys. split.
    + intros Hne. destruct (layer_indices multiview names key n) as [|i l] eqn:Hli;
        [congruence|].
      exists i. apply (layer_indices_In multiview names key n i).
      rewrite Hli. left. reflexivity.
    + intros (i & Hi) Hnil.
      apply (layer_indices_In multiview names key n i) in Hi.
      rewrite Hnil in Hi. exact Hi.
  - intros key layer Hin.
    rewrite List.Forall_forall in Hall, Hidx.
    destruct (Hall _ Hin) as [Hl Hc]. destruct (Hidx _ Hin) as (_ & _ & Hsorted).
    cbn [fst snd] in *.
    split; [exact Hl|]. split; [exact Hc|]. split; [exact Hsorted|].
    intros i. rewrite Hl. apply layer_indices_In.
Qed.


(** ** Detection of the denoising passes of a layer *)

Lemma find_channel_None channels name :
  find_channel channels name = None <-> ~ In name channels.
Proof.
  induction channels as [|c channels IH]; simpl.
  - split; [intros _ [] | reflexivity].
  - destruct (decide (c = name)) as [->|Hne].
    + split; [discriminate | intros Hn; exfalso; apply Hn; left; reflexivity].
    + destruct (find_channel channels name) as [i|].
      * split; [discriminate|]. intros Hn. exfalso.
        destruct IH as [_ IH].
        destruct (in_dec string_dec name channels) as [Hin|Hnin].
        -- apply Hn. right. exact Hin.
        -- specialize (IH Hnin). discriminate.
      * split; [|reflexivity]. intros _ [Heq|Hin]; [contradiction|].
        destruct IH as [IH _]. apply (IH eq_refl Hin).
Qed.

(** A mapping loop fails exactly when the layer lacks one of the names. *)
Lemma map_to_image_channels_None layer mappings :
  forall table,
    map_to_image_channels layer mappings table = None <->
    exists m, In m mappings /\
      ~ In (ChannelMapping.name m) (DenoiseImageLayer.channels layer).
Proof.
  induction mappings as [|m mappings IH]; intros table; simpl.
  - split; [discriminate | intros (m & [] & _)].
  - destruct (find_channel (DenoiseImageLayer.channels layer) (ChannelMapping.name m))
      as [k|] eqn:Hfind.
    + rewrite IH. split.
      * intros (m' & Hin & Hno). exists m'. auto.
      * intros (m' & [<-|Hin] & Hno).
        -- apply find_channel_None in Hno. congruence.
        -- exists m'. auto.
    + split; [|reflexivity]. intros _. exists m.
      split; [left; reflexivity | apply find_channel_None, Hfind].
Qed.

(** A mapping loop leaves the slots of other mappings alone. *)
Lemma map_to_image_channels_other layer mappings :
  forall table table',
    map_to_image_channels layer mappings table = Some table' ->
    length table' = length table /\
    forall j, ~ In j (map ChannelMapping.channel mappings) ->
      load table' j = load table j.
Proof.
  induction mappings as [|m mappings IH]; intros table table'; simpl.
  - intros [= <-]. auto.
  - destruct (find_channel (DenoiseImageLayer.channels layer) (ChannelMapping.name m))
      as [k|]; [|discriminate].
    intros Hrun. apply IH in Hrun as [Hlen Hother].
    rewrite length_store in Hlen. split; [exact Hlen|].
    intros j Hj. rewrite Hother by tauto. apply load_store_ne. tauto.
Qed.

(** After a mapping loop over distinct slots, the slot of each mapping
    holds the file index of the first channel of the layer with the
    mapping's name. *)
Lemma map_to_image_channels_slots layer mappings :
  List.NoDup (map ChannelMapping.channel mappings) ->
  forall table table',
    (forall m, In m mappings ->
       0 <= ChannelMapping.channel m < Z.of_nat (length table)) ->
    map_to_image_channels layer mappings table = Some table' ->
    forall m, In m mappings ->
      exists k,
        find_channel (DenoiseImageLayer.channels layer) (ChannelMapping.name m)
        = Some k /\
        load table' (ChannelMapping.channel m)
        = load (DenoiseImageLayer.layer_to_image_channel layer) k.
Proof.
  induction mappings as [|m0 mappings IH]; intros Hnd table table' Hslots;
    simpl; [intros _ m []|].
  apply List.NoDup_cons_iff in Hnd as [Hfresh Hnd].
  destruct (find_channel (DenoiseImageLayer.channels layer) (ChannelMapping.name m0))
    as [k|] eqn:Hfind; [|discriminate].
  intros Hrun m [<-|Hin].
  - exists k. split; [exact Hfind|].
    apply map_to_image_channels_other in Hrun as [_ Hother].
    rewrite Hother by exact Hfresh.
    apply load_store_eq. apply Hslots. left. reflexivity.
  - eapply (IH Hnd); [| exact Hrun | exact Hin].
    intros m' Hm'. rewrite length_store. apply Hslots. right. exact Hm'.
Qed.

Lemma input_channels_slots :
  List.NoDup (map ChannelMapping.channel input_channels) /\
  forall m, In m input_channels -> 0 <= ChannelMapping.channel m < 15.
Proof.
  change (map ChannelMapping.channel input_channels) with (seqZ 0 15).
  split; [apply NoDup_ListNoDup, NoDup_seqZ|].
  intros m Hin.
  apply (in_map ChannelMapping.channel) in Hin.
  change (map ChannelMapping.channel input_channels) with (seqZ 0 15) in Hin.
  apply list_elem_of_In, elem_of_seqZ in Hin. lia.
Qed.

Lemma output_channels_slots :
  List.NoDup (map ChannelMapping.channel output_channels) /\
  forall m, In m output_channels -> 0 <= ChannelMapping.channel m < 3.
Proof.
  change (map ChannelMapping.channel output_channels) with (seqZ 0 3).
  split; [apply NoDup_ListNoDup, NoDup_seqZ|].
  intros m Hin.
  apply (in_map ChannelMapping.channel) in Hin.
  change (map ChannelMapping.channel output_channels) with (seqZ 0 3) in Hin.
  apply list_elem_of_In, elem_of_seqZ in Hin. lia.
Qed.

(** What detection leaves in the two tables. *)
Lemma detect_denoising_channels_tables layer layer' :
  detect_denoising_channels layer = Some layer' ->
  (forall m, In m input_channels ->
     exists k,
       find_channel (DenoiseImageLayer.channels layer) (ChannelMapping.name m)
       = Some k /\
       load (DenoiseImageLayer.input_to_image_channel layer') (ChannelMapping.channel m)
       = load (DenoiseImageLayer.layer_to_image_channel layer) k) /\
  (forall m, In m output_channels ->
     exists k,
       find_channel (DenoiseImageLayer.channels layer) (ChannelMapping.name m)
       = Some k /\
       load (DenoiseImageLayer.output_to_image_channel layer') (ChannelMapping.channel m)
       = load (DenoiseImageLayer.layer_to_image_channel layer) k).
Proof.
  unfold detect_denoising_channels.
  destruct (map_to_image_channels layer input_channels _) as [ic|] eqn:Hic;
    [|discriminate].
  destruct (map_to_image_channels layer output_channels _) as [oc|] eqn:Hoc;
    [|discriminate].
  intros [= <-]. cbn [DenoiseImageLayer.input_to_image_channel
                      DenoiseImageLayer.output_to_image_channel].
  destruct input_channels_slots as [Hndi Hri].
  destruct output_channels_slots as [Hndo Hro].
  split.
  - intros m Hin.
    eapply (map_to_image_channels_slots layer input_channels Hndi);
      [| exact Hic | exact Hin].
    intros m' Hm'. rewrite length_replicate. specialize (Hri m' Hm').
    unfold INPUT_NUM_CHANNELS. lia.
  - intros m Hin.
    eapply (map_to_image_channels_slots layer output_channels Hndo);
      [| exact Hoc | exact Hin].
    intros m' Hm'. rewrite length_replicate. specialize (Hro m' Hm').
    unfold OUTPUT_NUM_CHANNELS. lia.
Qed.

(** X10: [detect_denoising_channels] rejects a layer exactly when one of
    the 15 input or 3 output channel names is not among the layer's
    channels.  When it accepts, it changes the two tables only, and the slot
    of each required name holds the file index that
    [layer_to_image_channel] records for the first channel of the layer with
    that name. *)
Theorem detect_denoising_channels_spec layer :
  (detect_denoising_channels layer = None <->
   exists m, In m (input_channels ++ output_channels) /\
     ~ In (ChannelMapping.name m) (DenoiseImageLayer.channels layer)) /\
  (forall layer', detect_denoising_channels layer = Some layer' ->
     DenoiseImageLayer.name layer' = DenoiseImageLayer.name layer /\
     DenoiseImageLayer.channels layer' = DenoiseImageLayer.channels layer /\
     DenoiseImageLayer.layer_to_image_channel layer'
     = DenoiseImageLayer.layer_to_image_channel layer /\
     DenoiseImageLayer.neighbor_input_to_image_channel layer'
     = DenoiseImageLayer.neighbor_input_to_image_channel layer /\
     DenoiseImageLayer.samples layer' = DenoiseImageLayer.samples layer /\
     (forall m, In m input_channels ->
        exists k,
          find_channel (DenoiseImageLayer.channels layer) (ChannelMapping.name m)
          = Some k /\
          load (DenoiseImageLayer.input_to_image_channel layer')
               (ChannelMapping.channel m)
          = load (DenoiseImageLayer.layer_to_image_channel layer) k) /\
     (forall m, In m output_channels ->
        exists k,
          find_channel (DenoiseImageLayer.channels layer) (ChannelMapping.name m)
          = Some k /\
          load (DenoiseImageLayer.output_to_image_channel layer')
               (ChannelMapping.channel m)
          = load (DenoiseImageLayer.layer_to_image_channel layer) k)).
Proof.
  split.
  - unfold detect_denoising_channels.
    destruct (map_to_image_channels layer input_channels _) as [ic|] eqn:Hic.
    + destruct (map_to_image_channels layer output_channels _) as [oc|] eqn:Hoc.
      * split; [discriminate|]. intros (m & Hin & Hno). exfalso.
        apply in_app_or in Hin as [Hin|Hin].
        -- assert (Hnone : map_to_image_channels layer input_channels
                             (replicate (Z.to_nat INPUT_NUM_CHANNELS) (-1)) = None)
             by (apply map_to_image_channels_None; eauto).
           congruence.
        -- assert (Hnone : map_to_image_channels layer output_channels
                             (replicate (Z.to_nat OUTPUT_NUM_CHANNELS) (-1)) = None)
             by (apply map_to_image_channels_None; eauto).
           congruence.
      * split; [|reflexivity]. intros _.
        apply map_to_image_channels_None in Hoc as (m & Hin & Hno).
        exists m. split; [apply in_or_app; right; exact Hin | exact Hno].
    + split; [|reflexivity]. intros _.
      apply map_to_image_channels_None in Hic as (m & Hin & Hno).
      exists m. split; [apply in_or_app; left; exact Hin | exact Hno].
  - intros layer' Hdet.
    destruct (detect_denoising_channels_tables layer layer' Hdet) as [Hi Ho].
    unfold detect_denoising_channels in Hdet.
    destruct (map_to_image_channels layer input_channels _); [|discriminate].
    destruct (map_to_image_channels layer output_channels _); [|discriminate].
    injection Hdet as <-. cbn. repeat (split; [reflexivity|]).
    split; assumption.
Qed.


Lemma detected_In key layer' file_layers :
  In (key, layer') (detected file_layers) ->
  exists layer, In (key, layer) file_layers /\
    detect_denoising_channels layer = Some layer'.
Proof.
  induction file_layers as [|[k l] fl IH]; simpl; [intros []|].
  destruct (detect_denoising_channels l) as [l'|] eqn:Hdet; simpl.
  - intros [[= <- <-]|Hin].
    + exists l. auto.
    + destruct (IH Hin) as (l0 & Hl0 & Hd). exists l0. auto.
  - intros Hin. destruct (IH Hin) as (l0 & Hl0 & Hd). exists l0. auto.
Qed.

Lemma lookup_map {A B : Type} (g : A -> B) (l : list A) (n : nat) (v : B) :
  map g l !! n = Some v -> exists a, l !! n = Some a /\ v = g a.
Proof.
  revert n. induction l as [|a l IH]; intros [|n]; simpl; try discriminate.
  - intros [= <-]. exists a. auto.
  - apply IH.
Qed.

(** The file channel that a table slot of a detected layer points to is a
    channel of that layer, and its "pass.channel" is the name the slot
    stands for. *)
Lemma detected_slot_name multiview names key layer m k n :
  DenoiseImageLayer.layer_to_image_channel layer
  = layer_indices multiview names key n ->
  DenoiseImageLayer.channels layer
  = map (fun i => pass_channel multiview (load names i))
        (layer_indices multiview names key n) ->
  find_channel (DenoiseImageLayer.channels layer) (ChannelMapping.name m) = Some k ->
  let c := load names (load (DenoiseImageLayer.layer_to_image_channel layer) k) in
  exists pass channel,
    parse_channel_name c multiview = Some (key, pass, channel) /\
    (pass ++ "." ++ channel)%string = ChannelMapping.name m.
Proof.
  intros Hl Hc Hfind c.
  pose proof (find_channel_range _ _ _ Hfind) as Hk.
  apply find_channel_lookup in Hfind. rewrite Hc in Hfind.
  unfold zlookup in Hfind. destruct (decide (0 <= k)); [|lia].
  apply lookup_map in Hfind as (i & Hi & Hname).
  assert (Hload : load (DenoiseImageLayer.layer_to_image_channel layer) k = i).
  { rewrite Hl. unfold load, zlookup. destruct (decide (0 <= k)); [|lia].
    rewrite Hi. reflexivity. }
  assert (Hin : In i (layer_indices multiview names key n)).
  { apply list_elem_of_In. eapply list_elem_of_lookup_2. exact Hi. }
  apply layer_indices_In in Hin as [_ Hlayer].
  unfold c. rewrite Hload.
  unfold channel_layer in Hlayer. unfold pass_channel in Hname.
  destruct (parse_channel_name (load names i) multiview)
    as [[[layer0 pass] channel]|]; [|discriminate].
  injection Hlayer as ->. exists pass, channel. auto.
Qed.

(** X11: in every layer retained by [parse_channels], each slot of the
    input and output tables points to a file channel whose name parses to
    the layer's own name and to the pass and channel that the slot stands
    for: slot 8 of a layer "L", say, is the index of a channel named
    "L.Noisy Image.R" (with views, "L'.Noisy Image.V.R" for the layer
    "L'.V"). *)
Theorem retained_tables_by_name samples in_spec layers layer :
  parse_channels samples in_spec = Ok layers -> In layer layers ->
  let names := ImageSpec.channelnames in_spec in
  let multiview := multiview_channels_of in_spec in
  (forall m, In m input_channels ->
     exists pass channel,
       parse_channel_name
         (load names (load (DenoiseImageLayer.input_to_image_channel layer)
                           (ChannelMapping.channel m))) multiview
       = Some (DenoiseImageLayer.name layer, pass, channel) /\
       (pass ++ "." ++ channel)%string = ChannelMapping.name m) /\
  (forall m, In m output_channels ->
     exists pass channel,
       parse_channel_name
         (load names (load (DenoiseImageLayer.output_to_image_channel layer)
                           (ChannelMapping.channel m))) multiview
       = Some (DenoiseImageLayer.name layer, pass, channel) /\
       (pass ++ "." ++ channel)%string = ChannelMapping.name m).
Proof.
  intros Hparse Hin names multiview.
  destruct (parse_channels_Ok _ _ _ Hparse) as (_ & _ & Hret).
  destruct (Forall2_In_r _ _ _ _ Hret Hin) as ([key layer1] & Hdet & smp & _ & _ & ->).
  apply detected_In in Hdet as (layer0 & Hfl & Hdet).
  cbn [fst snd set_name_samples DenoiseImageLayer.name
       DenoiseImageLayer.input_to_image_channel
       DenoiseImageLayer.output_to_image_channel].
  assert (Hg : grouped multiview names (Z.of_nat (length names))
                 (group_channels names 0 multiview [])).
  { apply (group_channels_grouped multiview names names [] [] eq_refl).
    split; [constructor|]. split; [|constructor].
    intros k. split; [intros [] | intros Hne; apply Hne; reflexivity]. }
  destruct Hg as (_ & _ & Hall). rewrite List.Forall_forall in Hall.
  destruct (Hall _ Hfl) as [Hl Hc]. cbn [fst snd] in Hl, Hc.
  destruct (detect_denoising_channels_tables layer0 layer1 Hdet) as [Hi Ho].
  split; intros m Hm.
  - destruct (Hi m Hm) as (k & Hfind & ->).
    apply (detected_slot_name multiview names key layer0 m k _ Hl Hc Hfind).
  - destruct (Ho m Hm) as (k & Hfind & ->).
    apply (detected_slot_name multiview names key layer0 m k _ Hl Hc Hfind).
Qed.


(** ** Neighbour frames

    *** [DenoiseImageLayer::match_channels] *)

(** The loop over the input slots; [None] is the early [return false]. *)
Fixpoint match_slots (channelnames neighbor_channelnames : list string)
  (input_to_image_channel : list Z) (count : nat) (i : Z) (mapping : list Z)
  : option (list Z) :=
  match count with
  | O => Some mapping
  | S count' =>
      let channel := load channelnames (load input_to_image_channel i) in
      match find_channel neighbor_channelnames channel with
      | None => None
      | Some frame_channel =>
          match_slots channelnames neighbor_channelnames input_to_image_channel
            count' (i + 1) (store mapping i frame_channel)
      end
  end.

Definition set_neighbor_input_to_image_channel (layer : DenoiseImageLayer.t)
  (tables : list (list Z)) : DenoiseImageLayer.t :=
  {| DenoiseImageLayer.name := DenoiseImageLayer.name layer;
     DenoiseImageLayer.channels := DenoiseImageLayer.channels layer;
     DenoiseImageLayer.layer_to_image_channel :=
       DenoiseImageLayer.layer_to_image_channel layer;
     DenoiseImageLayer.input_to_image_channel :=
       DenoiseImageLayer.input_to_image_channel layer;
     DenoiseImageLayer.output_to_image_channel :=
       DenoiseImageLayer.output_to_image_channel layer;
     DenoiseImageLayer.neighbor_input_to_image_channel := tables;
     DenoiseImageLayer.samples := DenoiseImageLayer.samples layer |}.

(** [Some layer'] when every input channel of the layer is found in the
    neighbour, with the table of the neighbour filled in.  The two [resize]
    calls are those of [std::vector]: they truncate, or pad with the given
    value.  (The source asserts that the table of the neighbour is empty
    before it is resized to the number of input slots.) *)
Definition match_channels (layer : DenoiseImageLayer.t) (neighbor : Z)
  (channelnames neighbor_channelnames : list string) : option DenoiseImageLayer.t :=
  let tables :=
    resize (Z.to_nat (neighbor +i 1)) []
           (DenoiseImageLayer.neighbor_input_to_image_channel layer) in
  let input_to_image_channel := DenoiseImageLayer.input_to_image_channel layer in
  let mapping := resize (length input_to_image_channel) (-1) (load tables neighbor) in
  match match_slots channelnames neighbor_channelnames input_to_image_channel
          (length input_to_image_channel) 0 mapping with
  | None => None
  | Some mapping =>
      Some (set_neighbor_input_to_image_channel layer (store tables neighbor mapping))
  end.

Lemma match_slots_None channelnames neighbor_channelnames ic :
  forall count i mapping,
    match_slots channelnames neighbor_channelnames ic count i mapping = None <->
    exists j, i <= j < i + Z.of_nat count /\
      ~ In (load channelnames (load ic j)) neighbor_channelnames.
Proof.
  induction count as [|count IH]; intros i mapping; simpl.
  - split; [discriminate | intros (j & Hj & _); lia].
  - destruct (find_channel neighbor_channelnames (load channelnames (load ic i)))
      as [fc|] eqn:Hfind.
    + rewrite IH. split.
      * intros (j & Hj & Hno). exists j. split; [lia | exact Hno].
      * intros (j & Hj & Hno). destruct (Z.eq_dec j i) as [->|Hne].
        -- apply find_channel_None in Hno. congruence.
        -- exists j. split; [lia | exact Hno].
    + split; [|reflexivity]. intros _. exists i.
      split; [lia | apply find_channel_None, Hfind].
Qed.

Lemma match_slots_Some channelnames neighbor_channelnames ic :
  forall count i mapping mapping',
    0 <= i -> i + Z.of_nat count <= Z.of_nat (length mapping) ->
    match_slots channelnames neighbor_channelnames ic count i mapping = Some mapping' ->
    length mapping' = length mapping /\
    (forall j, i <= j < i + Z.of_nat count ->
       find_channel neighbor_channelnames (load channelnames (load ic j))
       = Some (load mapping' j)) /\
    (forall j, ~ (i <= j < i + Z.of_nat count) -> load mapping' j = load mapping j).
Proof.
  induction count as [|count IH]; intros i mapping mapping' Hi Hlen; simpl.
  - intros [= <-]. split; [reflexivity|]. split; [intros j Hj; lia | reflexivity].
  - destruct (find_channel neighbor_channelnames (load channelnames (load ic i)))
      as [fc|] eqn:Hfind; [|discriminate].
    intros Hrun. apply IH in Hrun as (Hl & Hin & Hout);
      [| lia | rewrite length_store; lia].
    rewrite length_store in Hl. split; [exact Hl|]. split.
    + intros j Hj. destruct (Z.eq_dec j i) as [->|Hne].
      * rewrite Hout by lia. rewrite load_store_eq by lia. exact Hfind.
      * apply Hin. lia.
    + intros j Hj. rewrite Hout by lia. apply load_store_ne. lia.
Qed.

Lemma load_resize_old {A : Type} `{!Inhabited A} (l : list A) (n : nat) (x : A) i :
  0 <= i < Z.of_nat n -> i < Z.of_nat (length l) -> load (resize n x l) i = load l i.
Proof.
  intros Hi Hl. unfold load, zlookup. destruct (decide (0 <= i)); [|lia].
  rewrite lookup_resize by lia. reflexivity.
Qed.

Lemma match_channels_None layer neighbor channelnames neighbor_channelnames :
  let ic := DenoiseImageLayer.input_to_image_channel layer in
  match_channels layer neighbor channelnames neighbor_channelnames = None <->
  exists i, 0 <= i < Z.of_nat (length ic) /\
    ~ In (load channelnames (load ic i)) neighbor_channelnames.
Proof.
  intros ic. unfold match_channels. fold ic.
  set (mapping0 := resize (length ic) (-1) _).
  destruct (match_slots channelnames neighbor_channelnames ic (length ic) 0 mapping0)
    as [mapping|] eqn:Hrun.
  - split; [discriminate|]. intros Hex.
    apply (match_slots_None _ _ _ (length ic) 0 mapping0) in Hex. congruence.
  - split; [|reflexivity]. intros _.
    apply match_slots_None in Hrun. exact Hrun.
Qed.

Lemma match_channels_Some layer neighbor channelnames neighbor_channelnames layer' :
  let ic := DenoiseImageLayer.input_to_image_channel layer in
  let slots := Z.of_nat (length ic) in
  let tables := DenoiseImageLayer.neighbor_input_to_image_channel layer in
  let tables' := DenoiseImageLayer.neighbor_input_to_image_channel layer' in
  0 <= neighbor < Int32.max_signed ->
  match_channels layer neighbor channelnames neighbor_channelnames = Some layer' ->
  layer' = set_neighbor_input_to_image_channel layer tables' /\
  Z.of_nat (length tables') = neighbor + 1 /\
  (forall n, 0 <= n < neighbor -> n < Z.of_nat (length tables) ->
     load tables' n = load tables n) /\
  Z.of_nat (length (load tables' neighbor)) = slots /\
  (forall i, 0 <= i < slots ->
     find_channel neighbor_channelnames (load channelnames (load ic i))
     = Some (load (load tables' neighbor) i) /\
     zlookup neighbor_channelnames (load (load tables' neighbor) i)
     = Some (load channelnames (load ic i))).
Proof.
  intros ic slots tables tables' Hn. unfold tables'. clear tables'.
  unfold match_channels. fold ic tables.
  rewrite Int32.add_id by int_range.
  set (tables0 := resize (Z.to_nat (neighbor + 1)) [] tables).
  set (mapping0 := resize (length ic) (-1) (load tables0 neighbor)).
  destruct (match_slots channelnames neighbor_channelnames ic (length ic) 0 mapping0)
    as [mapping|] eqn:Hrun; [|discriminate].
  intros [= <-].
  cbn [set_neighbor_input_to_image_channel
       DenoiseImageLayer.neighbor_input_to_image_channel].
  apply match_slots_Some in Hrun as (Hl & Hin & _);
    [| lia | unfold mapping0; rewrite length_resize; lia].
  unfold mapping0 in Hl. rewrite length_resize in Hl.
  assert (Hlen0 : length tables0 = Z.to_nat (neighbor + 1))
    by apply length_resize.
  split; [reflexivity|].
  split; [rewrite length_store; lia|].
  split.
  { intros n Hn1 Hn2. rewrite load_store_ne by lia.
    apply load_resize_old; lia. }
  rewrite load_store_eq by lia.
  split; [unfold slots; lia|].
  intros i Hi. specialize (Hin i ltac:(unfold slots in Hi; lia)).
  split; [exact Hin | apply find_channel_lookup, Hin].
Qed.

(** X12: [match_channels] fails exactly when the neighbour frame lacks a
    channel with the name that the centre frame has at one of the layer's
    input slots.  When it succeeds, the layer has [neighbor + 1] neighbour
    tables; the tables of earlier neighbours are kept; the new table has one
    entry per input slot, and entry [i] is the index of the first channel of
    the neighbour with the name of the centre's channel
    [input_to_image_channel[i]]; nothing else of the layer changes. *)
Theorem match_channels_spec layer neighbor channelnames neighbor_channelnames :
  let ic := DenoiseImageLayer.input_to_image_channel layer in
  let slots := Z.of_nat (length ic) in
  0 <= neighbor < Int32.max_signed ->
  (match_channels layer neighbor channelnames neighbor_channelnames = None <->
   exists i, 0 <= i < slots /\
     ~ In (load channelnames (load ic i)) neighbor_channelnames) /\
  (forall layer',
     match_channels layer neighbor channelnames neighbor_channelnames = Some layer' ->
     let tables := DenoiseImageLayer.neighbor_input_to_image_channel layer in
     let tables' := DenoiseImageLayer.neighbor_input_to_image_channel layer' in
     layer' = set_neighbor_input_to_image_channel layer tables' /\
     Z.of_nat (length tables') = neighbor + 1 /\
     (forall n, 0 <= n < neighbor -> n < Z.of_nat (length tables) ->
        load tables' n = load tables n) /\
     Z.of_nat (length (load tables' neighbor)) = slots /\
     (forall i, 0 <= i < slots ->
        find_channel neighbor_channelnames (load channelnames (load ic i))
        = Some (load (load tables' neighbor) i) /\
        zlookup neighbor_channelnames (load (load tables' neighbor) i)
        = Some (load channelnames (load ic i)))).
Proof.
  intros ic slots Hn. split.
  - apply match_channels_None.
  - intros layer' Hrun. apply (match_channels_Some _ _ _ _ _ Hn Hrun).
Qed.

(** *** [DenoiseImage::load_neighbors] *)

Section Neighbors.
Context {F : Type} `{!Inhabited F}.
Implicit Types (img : DenoiseImage F) (layer : DenoiseImageLayer.t).

(** The compile-time constant of kernel/filter/filter_defines.h, the
    largest number of frames (centre included) the filter kernels take. *)
Variable DENOISE_MAX_FRAMES : Z.

(** [foreach (DenoiseImageLayer &layer, layers)]: [None] when a layer
    misses a pass in the neighbour. *)
Fixpoint match_layers (neighbor : Z) (channelnames neighbor_channelnames : list string)
  (layers : list DenoiseImageLayer.t) : option (list DenoiseImageLayer.t) :=
  match layers with
  | [] => Some []
  | layer :: layers' =>
      match match_channels layer neighbor channelnames neighbor_channelnames with
      | None => None
      | Some layer =>
          match match_layers neighbor channelnames neighbor_channelnames layers' with
          | None => None
          | Some layers' => Some (layer :: layers')
          end
      end
  end.

(** The image with its layers updated and one more open neighbour. *)
Definition push_neighbor img (layers' : list DenoiseImageLayer.t)
  (in_neighbor : ImageInput F) : DenoiseImage F :=
  mkImage (width img) (height img) (num_channels img) (samples img) (pixels img)
          (in_spec img) layers' (in_neighbors img ++ [in_neighbor]).

(** The loop over the neighbour frames; [files] is what the file system
    holds at each path. *)
Fixpoint load_neighbor_frames (files : string -> @file_status F)
  (filepaths : list string) (frames : list Z) (neighbor : Z) img
  : result (DenoiseImage F) :=
  match frames with
  | [] => Ok img
  | frame :: frames' =>
      let filepath := load filepaths frame in
      match files filepath with
      | NotRegular => Error ("Couldn't find neighbor frame: " ++ filepath)%string
      | CannotOpen => Error ("Couldn't open neighbor frame: " ++ filepath)%string
      | Opened neighbor_spec data =>
          if decide (ImageSpec.width neighbor_spec <> width img \/
                     ImageSpec.height neighbor_spec <> height img) then
            Error ("Neighbor frame has different dimensions: " ++ filepath)%string
          else
            match match_layers neighbor (ImageSpec.channelnames (in_spec img))
                    (ImageSpec.channelnames neighbor_spec) (layers img) with
            | None =>
                Error ("Neighbor frame misses denoising data passes: " ++ filepath)%string
            | Some layers' =>
                load_neighbor_frames files filepaths frames' (neighbor + 1)
                  (push_neighbor img layers' (mkImageInput neighbor_spec data))
            end
      end
  end.

Definition load_neighbors (files : string -> @file_status F) img
  (filepaths : list string) (frames : list Z) : result (DenoiseImage F) :=
  if decide (Z.of_nat (length frames) > DENOISE_MAX_FRAMES - 1) then
    Error ("Maximum number of neighbors (" ++ pretty (DENOISE_MAX_FRAMES - 1)
           ++ ") exceeded" ++ String "010" EmptyString)%string
  else load_neighbor_frames files filepaths frames 0 img.

End Neighbors.


Lemma load_cons_tail {A : Type} `{!Inhabited A} (a : A) (l : list A) i :
  1 <= i -> load (a :: l) i = load l (i - 1).
Proof.
  intros Hi. unfold load, zlookup.
  destruct (decide (0 <= i)); [|lia]. destruct (decide (0 <= i - 1)); [|lia].
  replace (Z.to_nat i) with (S (Z.to_nat (i - 1))) by lia. reflexivity.
Qed.

Lemma Forall2_compose {A B C : Type} (R : A -> B -> Prop) (S : B -> C -> Prop)
  (T : A -> C -> Prop) (l1 : list A) (l2 : list B) (l3 : list C) :
  (forall a b c, R a b -> S b c -> T a c) ->
  Forall2 R l1 l2 -> Forall2 S l2 l3 -> Forall2 T l1 l3.
Proof.
  intros Hcomp H12. revert l3.
  induction H12 as [|a b l1 l2 Hab _ IH]; intros l3 H23.
  - apply Forall2_nil_inv_l in H23. subst. constructor.
  - apply Forall2_cons_inv_l in H23 as (c & l3' & Hbc & H23 & ->).
    constructor; [eapply Hcomp; eauto | apply IH, H23].
Qed.

Section NeighborsSpec.
Context {F : Type} `{!Inhabited F}.
Implicit Types (img : DenoiseImage F) (layer : DenoiseImageLayer.t).
Variable DENOISE_MAX_FRAMES : Z.
Variable files : string -> @file_status F.
Variable filepaths : list string.

Lemma match_layers_Some neighbor channelnames neighbor_channelnames layers :
  forall layers',
    match_layers neighbor channelnames neighbor_channelnames layers = Some layers' ->
    Forall2 (fun layer layer' =>
               match_channels layer neighbor channelnames neighbor_channelnames
               = Some layer') layers layers'.
Proof.
  induction layers as [|layer layers IH]; intros layers'; simpl.
  - intros [= <-]. constructor.
  - destruct (match_channels layer neighbor channelnames neighbor_channelnames)
      as [layer1|] eqn:H1; [|discriminate].
    destruct (match_layers neighbor channelnames neighbor_channelnames layers)
      as [layers1|]; [|discriminate].
    intros [= <-]. constructor; [exact H1 | apply IH; reflexivity].
Qed.

Lemma match_layers_None neighbor channelnames neighbor_channelnames layers :
  match_layers neighbor channelnames neighbor_channelnames layers = None <->
  exists layer, In layer layers /\
    match_channels layer neighbor channelnames neighbor_channelnames = None.
Proof.
  induction layers as [|layer layers IH]; simpl.
  - split; [discriminate | intros (l & [] & _)].
  - destruct (match_channels layer neighbor channelnames neighbor_channelnames)
      as [layer1|] eqn:H1.
    + destruct (match_layers neighbor channelnames neighbor_channelnames layers)
        as [layers1|].
      * split; [discriminate|]. intros (l & [<-|Hin] & Hl); [congruence|].
        destruct IH as [_ IH]. discriminate IH. eauto.
      * split; [|reflexivity]. intros _.
        destruct IH as [IH _]. destruct (IH eq_refl) as (l & Hin & Hl). eauto.
    + split; [|reflexivity]. intros _. exists layer. auto.
Qed.

(** The neighbour opened for [frame]: the file at its path, with the
    dimensions of the centre frame. *)
Definition opened_for img (frame : Z) (in_neighbor : ImageInput F) : Prop :=
  files (load filepaths frame)
  = Opened (neighbor_spec in_neighbor) (read_image in_neighbor) /\
  ImageSpec.width (neighbor_spec in_neighbor) = width img /\
  ImageSpec.height (neighbor_spec in_neighbor) = height img.

(** [layer'] is [layer] with a table for each of the neighbours [new],
    which are the neighbours number [first], [first + 1], ...: entry [i] of
    the table of a neighbour is the index, in the neighbour, of the channel
    with the name of the centre's channel at input slot [i]. *)
Definition tables_match (channelnames : list string) (first : Z)
  (new : list (ImageInput F)) layer layer' : Prop :=
  let ic := DenoiseImageLayer.input_to_image_channel layer in
  let tables := DenoiseImageLayer.neighbor_input_to_image_channel layer in
  let tables' := DenoiseImageLayer.neighbor_input_to_image_channel layer' in
  layer' = set_neighbor_input_to_image_channel layer tables' /\
  (forall n, 0 <= n < first -> n < Z.of_nat (length tables) ->
     load tables' n = load tables n) /\
  (new = [] -> tables' = tables) /\
  (new <> [] -> Z.of_nat (length tables') = first + Z.of_nat (length new)) /\
  forall k, 0 <= k < Z.of_nat (length new) ->
    Z.of_nat (length (load tables' (first + k))) = Z.of_nat (length ic) /\
    forall i, 0 <= i < Z.of_nat (length ic) ->
      zlookup (ImageSpec.channelnames (neighbor_spec (load new k)))
              (load (load tables' (first + k)) i)
      = Some (load channelnames (load ic i)).

Lemma tables_match_step channelnames first in_neighbor new layer layer1 layer' :
  0 <= first < Int32.max_signed ->
  match_channels layer first channelnames
    (ImageSpec.channelnames (neighbor_spec in_neighbor)) = Some layer1 ->
  tables_match channelnames (first + 1) new layer1 layer' ->
  tables_match channelnames first (in_neighbor :: new) layer layer'.
Proof.
  intros Hfirst Hmatch (Heq & Hold & Hnil & Hlen & Hnew).
  apply match_channels_Some in Hmatch as (Heq1 & Hlen1 & Hold1 & Hslots1 & Hin1);
    [|exact Hfirst].
  set (tables := DenoiseImageLayer.neighbor_input_to_image_channel layer) in *.
  set (tables1 := DenoiseImageLayer.neighbor_input_to_image_channel layer1) in *.
  set (tables' := DenoiseImageLayer.neighbor_input_to_image_channel layer') in *.
  assert (Hic : DenoiseImageLayer.input_to_image_channel layer1
                = DenoiseImageLayer.input_to_image_channel layer)
    by (rewrite Heq1; reflexivity).
  rewrite Hic in Hnew.
  assert (Hkeep : forall n, 0 <= n <= first -> load tables' n = load tables1 n).
  { intros n Hn. destruct new as [|inp new].
    - rewrite Hnil by reflexivity. reflexivity.
    - apply Hold; lia. }
  unfold tables_match. fold tables tables'.
  split; [rewrite Heq, Heq1; reflexivity|].
  split; [intros n Hn1 Hn2; rewrite Hkeep by lia; apply Hold1; lia|].
  split; [discriminate|].
  split.
  { intros _. destruct new as [|inp new].
    - rewrite Hnil by reflexivity. simpl. lia.
    - rewrite Hlen by discriminate. simpl length. lia. }
  intros k Hk. simpl length in Hk.
  destruct (Z.eq_dec k 0) as [->|Hk0].
  - replace (first + 0) with first by lia. rewrite Hkeep by lia.
    split; [exact Hslots1|]. intros i Hi. apply Hin1, Hi.
  - rewrite load_cons_tail by lia.
    replace (first + k) with (first + 1 + (k - 1)) by lia.
    apply Hnew. lia.
Qed.

Lemma load_neighbor_frames_Ok :
  forall frames first img img',
    0 <= first -> first + Z.of_nat (length frames) <= Int32.max_signed ->
    load_neighbor_frames files filepaths frames first img = Ok img' ->
    (width img' = width img /\ height img' = height img /\
     num_channels img' = num_channels img /\ samples img' = samples img /\
     pixels img' = pixels img /\ in_spec img' = in_spec img) /\
    exists new,
      in_neighbors img' = in_neighbors img ++ new /\
      Forall2 (opened_for img) frames new /\
      Forall2 (tables_match (ImageSpec.channelnames (in_spec img)) first new)
              (layers img) (layers img').
Proof.
  induction frames as [|frame frames IH]; intros first img img' Hfirst Hmax; simpl.
  - intros [= <-]. split; [auto 10|]. exists [].
    rewrite app_nil_r. split; [reflexivity|]. split; [constructor|].
    apply Forall2_same_length_lookup_2; [reflexivity|].
    intros n l l' Hl Hl'. assert (l' = l) by congruence. subst l'.
    unfold tables_match.
    split; [destruct l; reflexivity|]. split; [reflexivity|].
    split; [reflexivity|]. split; [congruence|]. simpl. intros k Hk. lia.
  - destruct (files (load filepaths frame)) as [| |spec data] eqn:Hfile;
      [discriminate | discriminate |].
    destruct (decide (_ \/ _)) as [Hdim|Hdim]; [discriminate|].
    destruct (match_layers first _ _ (layers img)) as [layers1|] eqn:Hmatch;
      [|discriminate].
    intros Hrun. simpl length in Hmax.
    apply IH in Hrun as (Hsame & new & Hnb & Hopen & Htab); [| lia | lia].
    cbn [push_neighbor width height num_channels samples pixels in_spec layers
         in_neighbors] in *.
    split; [exact Hsame|].
    exists (mkImageInput spec data :: new).
    split; [rewrite Hnb, <- app_assoc; reflexivity|]. split.
    + constructor.
      * unfold opened_for. cbn [neighbor_spec read_image].
        split; [exact Hfile|]. split.
        -- destruct (Z.eq_dec (ImageSpec.width spec) (width img)); tauto.
        -- destruct (Z.eq_dec (ImageSpec.height spec) (height img)); tauto.
      * exact Hopen.
    + apply match_layers_Some in Hmatch.
      eapply Forall2_compose; [| exact Hmatch | exact Htab].
      intros layer layer1 layer' H1 H2.
      apply (tables_match_step _ first (mkImageInput spec data) new layer layer1 layer');
        [lia | exact H1 | exact H2].
Qed.

(** X13: when [load_neighbors] succeeds on an image without open
    neighbours, the number of neighbours is within the cap; the image keeps
    its dimensions, pixels and metadata; there is one open neighbour per
    listed frame, in order, each the file at the path of its frame and of
    the same width and height as the centre frame; and every layer has
    gained, and only gained, one table per neighbour, whose entry [i] is the
    index, in that neighbour, of a channel with the same name as the centre
    frame's channel at input slot [i]. *)
Theorem load_neighbors_spec img frames img' :
  in_neighbors img = [] ->
  Z.of_nat (length frames) <= Int32.max_signed ->
  load_neighbors DENOISE_MAX_FRAMES files img filepaths frames = Ok img' ->
  Z.of_nat (length frames) <= DENOISE_MAX_FRAMES - 1 /\
  (width img' = width img /\ height img' = height img /\
   num_channels img' = num_channels img /\ samples img' = samples img /\
   pixels img' = pixels img /\ in_spec img' = in_spec img) /\
  Forall2 (opened_for img) frames (in_neighbors img') /\
  Forall2 (fun layer layer' =>
             let ic := DenoiseImageLayer.input_to_image_channel layer in
             let tables' := DenoiseImageLayer.neighbor_input_to_image_channel layer' in
             layer' = set_neighbor_input_to_image_channel layer tables' /\
             forall n, 0 <= n < Z.of_nat (length frames) ->
               Z.of_nat (length (load tables' n)) = Z.of_nat (length ic) /\
               forall i, 0 <= i < Z.of_nat (length ic) ->
                 zlookup (ImageSpec.channelnames
                            (neighbor_spec (load (in_neighbors img') n)))
                         (load (load tables' n) i)
                 = Some (load (ImageSpec.channelnames (in_spec img)) (load ic i)))
          (layers img) (layers img').
Proof.
  intros Hnone Hmax. unfold load_neighbors.
  destruct (decide (_ > _)) as [Hcap|Hcap]; [discriminate|].
  intros Hrun.
  apply load_neighbor_frames_Ok in Hrun as (Hsame & new & Hnb & Hopen & Htab);
    [| lia | lia].
  rewrite Hnone in Hnb. simpl in Hnb. subst new.
  split; [lia|]. split; [exact Hsame|]. split; [exact Hopen|].
  pose proof (Forall2_length _ _ _ Hopen) as Hlen.
  eapply Forall2_impl; [exact Htab|].
  intros layer layer' (Heq & _ & _ & _ & Hnew). cbv zeta.
  split; [exact Heq|].
  intros n Hn. specialize (Hnew n ltac:(lia)).
  replace (0 + n) with n in Hnew by lia. exact Hnew.
Qed.

End NeighborsSpec.


Section NeighborsErrors.
Context {F : Type} `{!Inhabited F}.
Implicit Types (img : DenoiseImage F) (layer : DenoiseImageLayer.t).
Variable DENOISE_MAX_FRAMES : Z.
Variable files : string -> @file_status F.
Variable filepaths : list string.

(** The file of [frame] can serve as a neighbour of the image: it opens,
    has the dimensions of the centre frame, and has a channel of the same
    name for every input channel of every layer. *)
Definition usable_neighbor img (frame : Z) : Prop :=
  exists neighbor_spec data,
    files (load filepaths frame) = Opened neighbor_spec data /\
    ImageSpec.width neighbor_spec = width img /\
    ImageSpec.height neighbor_spec = height img /\
    forall ic, In ic (map DenoiseImageLayer.input_to_image_channel (layers img)) ->
      forall i, 0 <= i < Z.of_nat (length ic) ->
        In (load (ImageSpec.channelnames (in_spec img)) (load ic i))
           (ImageSpec.channelnames neighbor_spec).

Lemma match_channels_input layer neighbor channelnames neighbor_channelnames layer' :
  match_channels layer neighbor channelnames neighbor_channelnames = Some layer' ->
  DenoiseImageLayer.input_to_image_channel layer'
  = DenoiseImageLayer.input_to_image_channel layer.
Proof.
  unfold match_channels. destruct (match_slots _ _ _ _ _ _); [|discriminate].
  intros [= <-]. reflexivity.
Qed.

Lemma match_layers_input neighbor channelnames neighbor_channelnames layers layers' :
  match_layers neighbor channelnames neighbor_channelnames layers = Some layers' ->
  map DenoiseImageLayer.input_to_image_channel layers'
  = map DenoiseImageLayer.input_to_image_channel layers.
Proof.
  intros Hm. apply match_layers_Some in Hm.
  induction Hm as [|l l' ls ls' Hl _ IH]; simpl; [reflexivity|].
  rewrite IH, (match_channels_input _ _ _ _ _ Hl). reflexivity.
Qed.

Lemma load_neighbor_frames_succeeds :
  forall frames first img,
    (exists img', load_neighbor_frames files filepaths frames first img = Ok img') <->
    Forall (usable_neighbor img) frames.
Proof.
  induction frames as [|frame frames IH]; intros first img; simpl.
  - split; [constructor | eauto].
  - assert (Hpush : forall layers1 inp,
              map DenoiseImageLayer.input_to_image_channel layers1
              = map DenoiseImageLayer.input_to_image_channel (layers img) ->
              forall f, usable_neighbor (push_neighbor img layers1 inp) f <->
                        usable_neighbor img f).
    { intros layers1 inp Hic f. unfold usable_neighbor.
      cbn [push_neighbor width height in_spec layers]. rewrite Hic. reflexivity. }
    split.
    + intros (img' & Hrun).
      destruct (files (load filepaths frame)) as [| |spec data] eqn:Hfile;
        [discriminate | discriminate |].
      destruct (decide (_ \/ _)) as [Hdim|Hdim]; [discriminate|].
      destruct (match_layers first _ _ (layers img)) as [layers1|] eqn:Hmatch;
        [|discriminate].
      pose proof (match_layers_input _ _ _ _ _ Hmatch) as Hic.
      constructor.
      * exists spec, data. split; [exact Hfile|].
        split; [destruct (Z.eq_dec (ImageSpec.width spec) (width img)); tauto|].
        split; [destruct (Z.eq_dec (ImageSpec.height spec) (height img)); tauto|].
        intros ic Hin i Hi.
        apply in_map_iff in Hin as (layer & <- & Hin).
        destruct (in_dec string_dec
                    (load (ImageSpec.channelnames (in_spec img))
                       (load (DenoiseImageLayer.input_to_image_channel layer) i))
                    (ImageSpec.channelnames spec)) as [Hyes|Hno]; [exact Hyes|].
        exfalso.
        assert (Hnone : match_layers first (ImageSpec.channelnames (in_spec img))
                          (ImageSpec.channelnames spec) (layers img) = None).
        { apply match_layers_None. exists layer. split; [exact Hin|].
          apply match_channels_None. exists i. auto. }
        congruence.
      * assert (Hall : Forall (usable_neighbor
                                 (push_neighbor img layers1 (mkImageInput spec data)))
                              frames) by (apply (IH (first + 1)); eauto).
        eapply List.Forall_impl; [|exact Hall].
        intros f. apply Hpush, Hic.
    + intros Hall. apply Forall_cons in Hall as [(spec & data & Hfile & Hw & Hh & Hch) Hall].
      rewrite Hfile.
      destruct (decide (_ \/ _)) as [Hdim|Hdim]; [lia|].
      destruct (match_layers first _ _ (layers img)) as [layers1|] eqn:Hmatch.
      * pose proof (match_layers_input _ _ _ _ _ Hmatch) as Hic.
        apply IH. eapply List.Forall_impl; [|exact Hall].
        intros f. apply Hpush, Hic.
      * exfalso. apply match_layers_None in Hmatch as (layer & Hin & Hnone).
        apply match_channels_None in Hnone as (i & Hi & Hno).
        apply Hno, (Hch (DenoiseImageLayer.input_to_image_channel layer));
          [apply in_map; exact Hin | exact Hi].
Qed.

Lemma load_neighbor_frames_Error :
  forall frames first img e,
    load_neighbor_frames files filepaths frames first img = Error e ->
    exists frame, In frame frames /\
      let filepath := load filepaths frame in
      e = ("Couldn't find neighbor frame: " ++ filepath)%string \/
      e = ("Couldn't open neighbor frame: " ++ filepath)%string \/
      e = ("Neighbor frame has different dimensions: " ++ filepath)%string \/
      e = ("Neighbor frame misses denoising data passes: " ++ filepath)%string.
Proof.
  induction frames as [|frame frames IH]; intros first img e; simpl; [discriminate|].
  destruct (files (load filepaths frame)) as [| |spec data].
  - intros [= <-]. exists frame. auto.
  - intros [= <-]. exists frame. auto.
  - destruct (decide (_ \/ _)); [intros [= <-]; exists frame; auto|].
    destruct (match_layers first _ _ (layers img)) as [layers1|].
    + intros Hrun. apply IH in Hrun as (f & Hin & He). exists f. auto.
    + intros [= <-]. exists frame. auto 6.
Qed.

(** X14: [load_neighbors] succeeds exactly when the number of neighbour
    frames is within the cap [DENOISE_MAX_FRAMES - 1] and the file of every
    listed frame opens, has the width and height of the centre frame, and
    has a channel of the same name for every input channel of every layer.
    When it fails, the error is the message about the cap, or one of the
    four messages about a neighbour frame with the path of a listed
    frame. *)
Theorem load_neighbors_outcome img frames :
  ((exists img', load_neighbors DENOISE_MAX_FRAMES files img filepaths frames = Ok img')
   <-> Z.of_nat (length frames) <= DENOISE_MAX_FRAMES - 1 /\
       Forall (usable_neighbor img) frames) /\
  (forall e,
     load_neighbors DENOISE_MAX_FRAMES files img filepaths frames = Error e ->
     (Z.of_nat (length frames) > DENOISE_MAX_FRAMES - 1 /\
      e = ("Maximum number of neighbors (" ++ pretty (DENOISE_MAX_FRAMES - 1)
           ++ ") exceeded" ++ String "010" EmptyString)%string) \/
     exists frame, In frame frames /\
       let filepath := load filepaths frame in
       e = ("Couldn't find neighbor frame: " ++ filepath)%string \/
       e = ("Couldn't open neighbor frame: " ++ filepath)%string \/
       e = ("Neighbor frame has different dimensions: " ++ filepath)%string \/
       e = ("Neighbor frame misses denoising data passes: " ++ filepath)%string).
Proof.
  unfold load_neighbors. destruct (decide (_ > _)) as [Hcap|Hcap].
  - split.
    + split; [intros (img' & Hrun); discriminate | intros [Hle _]; lia].
    + intros e [= <-]. left. auto.
  - split.
    + rewrite load_neighbor_frames_succeeds. intuition lia.
    + intros e Hrun. right. apply (load_neighbor_frames_Error _ _ _ _ Hrun).
Qed.

End NeighborsErrors.


(** ** The frames of a run

    *** The neighbour frames chosen by [Denoiser::run] *)

(** "Determine neighbor frame numbers that should be used for filtering":
    the inner loop of [run], for the frame [frame]. *)
Definition neighbor_frames_of (dn : Denoiser.t) (frame : Z) : list Z :=
  for_range (frame -i Denoiser.neighbor_frames dn)
            ((frame +i Denoiser.neighbor_frames dn) + 1)
    (fun f neighbor_frames =>
       if decide (f >= 0 /\ f < Denoiser.num_frames dn /\ f <> frame)
       then neighbor_frames ++ [f] else neighbor_frames) [].

Lemma StronglySorted_filter {A : Type} (R : A -> A -> Prop) (f : A -> bool) (l : list A) :
  StronglySorted R l -> StronglySorted R (List.filter f l).
Proof.
  induction 1 as [|a l Hs IH Hall]; simpl; [constructor|].
  destruct (f a); [|exact IH].
  constructor; [exact IH|].
  rewrite List.Forall_forall in *. intros x Hx.
  apply filter_In in Hx as [Hx _]. apply Hall, Hx.
Qed.

Lemma StronglySorted_seqZ (m n : Z) : StronglySorted Z.lt (seqZ m n).
Proof.
  destruct (Z_le_gt_dec n 0) as [Hle|Hgt]; [rewrite seqZ_nil by lia; constructor|].
  rewrite <- (Z2Nat.id n) by lia. generalize (Z.to_nat n) as k. clear.
  intros k. revert m. induction k as [|k IH]; intros m; [constructor|].
  rewrite seqZ_cons by lia.
  replace (Z.pred (Z.of_nat (S k))) with (Z.of_nat k) by lia.
  constructor; [apply IH|].
  apply List.Forall_forall. intros x Hx.
  apply list_elem_of_In, elem_of_seqZ in Hx. lia.
Qed.

Lemma neighbor_frames_filter (dn : Denoiser.t) (frame : Z) :
  let nf := Denoiser.neighbor_frames dn in
  0 <= nf -> Int32.min_signed <= frame - nf -> frame + nf <= Int32.max_signed ->
  neighbor_frames_of dn frame
  = List.filter (fun f => bool_decide (0 <= f < Denoiser.num_frames dn /\ f <> frame))
                (seqZ (frame - nf) (2 * nf + 1)).
Proof.
  intros nf Hnf Hlo Hhi. unfold neighbor_frames_of. fold nf.
  rewrite Int32.sub_id, Int32.add_id by int_range.
  set (p := fun f => bool_decide (0 <= f < Denoiser.num_frames dn /\ f <> frame)).
  replace (2 * nf + 1) with ((frame + nf + 1) - (frame - nf)) by lia.
  apply (for_range_inv
           (fun f l => l = List.filter p (seqZ (frame - nf) (f - (frame - nf))))).
  - lia.
  - replace (frame - nf - (frame - nf)) with 0 by lia. reflexivity.
  - intros f l Hf ->.
    replace (f + 1 - (frame - nf)) with ((f - (frame - nf)) + 1) by lia.
    rewrite seqZ_snoc, List.filter_app by lia. simpl.
    replace (frame - nf + (f - (frame - nf))) with f by lia.
    destruct (decide (f >= 0 /\ f < Denoiser.num_frames dn /\ f <> frame)) as [Hyes|Hno].
    + replace (p f) with true; [reflexivity|].
      unfold p. rewrite bool_decide_true by lia. reflexivity.
    + replace (p f) with false; [rewrite app_nil_r; reflexivity|].
      unfold p. rewrite bool_decide_false by lia. reflexivity.
Qed.

Section RunFrames.
Context {F : Type} `{!Inhabited F}.

(** X15: for a frame of the run, the inner loop of [Denoiser::run] lists,
    in ascending order and without repetition, exactly the frames [f] of
    the run within [neighbor_frames] of [frame] other than [frame] itself:
    at most [2 * neighbor_frames] of them, and none when [neighbor_frames]
    is 0.  The offsets that [create_task] hands to the device for them are
    the differences [f - frame], nonzero and within
    [-neighbor_frames .. neighbor_frames]. *)
Theorem run_neighbor_frames (dn : Denoiser.t) (t : DenoiseTask F) :
  let nf := Denoiser.neighbor_frames dn in
  let n := Denoiser.num_frames dn in
  let l := neighbor_frames_of dn (frame t) in
  0 <= nf -> 0 <= frame t < n -> frame t + nf < Int32.max_signed ->
  neighbor_frames t = l ->
  StronglySorted Z.lt l /\
  (forall f, In f l <-> Z.abs (f - frame t) <= nf /\ 0 <= f < n /\ f <> frame t) /\
  Z.of_nat (length l) <= 2 * nf /\
  (nf = 0 -> l = []) /\
  DeviceTask.denoising_frames (create_task dn t).1 = map (fun f => f - frame t) l /\
  Forall (fun d => - nf <= d <= nf /\ d <> 0)
         (DeviceTask.denoising_frames (create_task dn t).1).
Proof.
  intros nf n l Hnf Hframe Hmax Hnb.
  assert (Hl : l = List.filter
                     (fun f => bool_decide (0 <= f < n /\ f <> frame t))
                     (seqZ (frame t - nf) (2 * nf + 1))).
  { apply neighbor_frames_filter; fold nf; unfold Int32.min_signed, Int32.max_signed in *;
      lia. }
  assert (Hin : forall f, In f l <->
                  Z.abs (f - frame t) <= nf /\ 0 <= f < n /\ f <> frame t).
  { intros f. rewrite Hl, filter_In, <- list_elem_of_In, elem_of_seqZ.
    rewrite bool_decide_eq_true. lia. }
  split; [rewrite Hl; apply StronglySorted_filter, StronglySorted_seqZ|].
  split; [exact Hin|].
  assert (Hlen : Z.of_nat (length l) <= 2 * nf).
  { rewrite Hl.
    replace (2 * nf + 1) with (nf + (1 + nf)) by lia.
    rewrite seqZ_app, (seqZ_app _ 1 nf) by lia.
    rewrite !List.filter_app, !length_app.
    replace (frame t - nf + nf) with (frame t) by lia.
    rewrite (seqZ_cons (frame t) 1) by lia. simpl List.filter.
    rewrite bool_decide_false by lia. simpl length.
    pose proof (List.filter_length_le
                  (fun f => bool_decide (0 <= f < n /\ f <> frame t))
                  (seqZ (frame t - nf) nf)) as H1.
    pose proof (List.filter_length_le
                  (fun f => bool_decide (0 <= f < n /\ f <> frame t))
                  (seqZ (frame t + 1) nf)) as H2.
    rewrite !length_seqZ in H1, H2. lia. }
  split; [exact Hlen|].
  split; [intros Hz; destruct l; [reflexivity | simpl in Hlen; lia]|].
  assert (Hoff : DeviceTask.denoising_frames (create_task dn t).1
                 = map (fun f => f - frame t) l).
  { unfold create_task. cbn [fst DeviceTask.denoising_frames]. rewrite Hnb.
    apply map_ext_in. intros f Hf. apply Hin in Hf.
    apply Int32.sub_id. unfold Int32.max_signed in *. int_range. }
  split; [exact Hoff|].
  rewrite Hoff. apply List.Forall_forall. intros d Hd.
  apply in_map_iff in Hd as (f & <- & Hf). apply Hin in Hf. lia.
Qed.

End RunFrames.


(** ** The device callbacks

    *** [DenoiseTask::acquire_tile] *)

Section Callbacks.
Context {F : Type} `{!Inhabited F}.
Implicit Types (dn : Denoiser.t) (t : DenoiseTask F).

(** [Device::map_tile], by which the device that takes a tile adjusts the
    tile's memory handles. *)
Variable map_tile : RenderTile.t -> RenderTile.t.

Definition set_tiles t (tiles' : list RenderTile.t) : DenoiseTask F :=
  mkTask (frame t) (neighbor_frames t) (image t) (current_layer t)
         (input_pixels t) (num_tiles t) tiles' (output_pixels t).

(** [None] is [return false].  Otherwise the tile handed out, the
    arguments [(num, total, frame, num_frames)] of the call of
    [print_progress], and the task with the tile popped. *)
Definition acquire_tile dn t : option (RenderTile.t * (Z * Z * Z * Z) * DenoiseTask F) :=
  match tiles t with
  | [] => None
  | tile :: tiles' =>
      let tile := map_tile tile in
      Some (tile,
            (Int32.wrap (num_tiles t - Z.of_nat (length tiles')), num_tiles t,
             frame t, Denoiser.num_frames dn),
            set_tiles t tiles')
  end.

(** The tiles and progress reports that up to [count] successive requests
    for a tile produce, and the task afterwards. *)
Fixpoint acquire_tiles (count : nat) dn t
  : list (RenderTile.t * (Z * Z * Z * Z)) * DenoiseTask F :=
  match count with
  | O => ([], t)
  | S count' =>
      match acquire_tile dn t with
      | None => ([], t)
      | Some (tile, progress, t) =>
          let '(acquired, t) := acquire_tiles count' dn t in
          ((tile, progress) :: acquired, t)
      end
  end.

Lemma acquire_tiles_queue dn :
  forall queue count t,
    tiles t = queue -> (length queue <= count)%nat ->
    Z.of_nat (length queue) <= num_tiles t <= Int32.max_signed ->
    acquire_tiles count dn t
    = (map (fun k =>
              (map_tile (load queue k),
               (num_tiles t - Z.of_nat (length queue) + k + 1, num_tiles t,
                frame t, Denoiser.num_frames dn)))
           (seqZ 0 (Z.of_nat (length queue))),
       set_tiles t []).
Proof.
  induction queue as [|tile queue IH]; intros count t Hq Hcount Hn.
  - destruct count as [|count]; simpl; unfold acquire_tile; rewrite ?Hq;
      destruct t; simpl in *; subst; reflexivity.
  - destruct count as [|count]; [simpl in Hcount; lia|].
    simpl acquire_tiles. unfold acquire_tile. rewrite Hq.
    simpl length in *.
    rewrite (IH count (set_tiles t queue) eq_refl);
      [| lia | change (num_tiles (set_tiles t queue)) with (num_tiles t); lia].
    change (num_tiles (set_tiles t queue)) with (num_tiles t).
    change (frame (set_tiles t queue)) with (frame t).
    rewrite (seqZ_cons 0 (Z.of_nat (S (length queue)))) by lia. simpl map. f_equal.
    f_equal.
    + rewrite Int32.wrap_id by int_range.
      replace (num_tiles t - Z.of_nat (S (length queue)) + 0 + 1)
        with (num_tiles t - Z.of_nat (length queue)) by lia.
      reflexivity.
    + replace (Z.pred (Z.of_nat (S (length queue)))) with (Z.of_nat (length queue))
        by lia.
      replace (seqZ (Z.succ 0) (Z.of_nat (length queue)))
        with (map (Z.add 1) (seqZ 0 (Z.of_nat (length queue))))
        by (apply (fmap_add_seqZ 1 0)).
      rewrite map_map. apply map_ext_in. intros k Hk.
      apply list_elem_of_In, elem_of_seqZ in Hk.
      rewrite load_cons_tail by lia.
      replace (1 + k - 1) with k by lia.
      replace (num_tiles t - Z.of_nat (S (length queue)) + (1 + k) + 1)
        with (num_tiles t - Z.of_nat (length queue) + k + 1) by lia.
      reflexivity.
Qed.

(** X16: after [create_task], successive calls of [acquire_tile] hand out
    the tiles of the queue one by one in queue (raster) order, each passed
    through the device's [map_tile], and report progress [1 of n],
    [2 of n], ..., [n of n]; when all [n] tiles have been handed out the
    queue is empty and every further call returns false. *)
Theorem acquire_tile_order dn t (count : nat) :
  let t0 := (create_task dn t).2 in
  let n := Z.of_nat (length (tiles t0)) in
  n <= Int32.max_signed -> (length (tiles t0) <= count)%nat ->
  (acquire_tiles count dn t0).1
  = map (fun k => (map_tile (load (tiles t0) k),
                   (k + 1, n, frame t, Denoiser.num_frames dn)))
        (seqZ 0 n) /\
  tiles (acquire_tiles count dn t0).2 = [] /\
  acquire_tile dn (acquire_tiles count dn t0).2 = None.
Proof.
  intros t0 n Hn Hcount.
  assert (Hnum : num_tiles t0 = n) by reflexivity.
  rewrite (acquire_tiles_queue dn (tiles t0) count t0 eq_refl Hcount)
    by (rewrite Hnum; fold n; lia).
  cbn [fst snd]. split; [|split; reflexivity].
  apply map_ext. intros k. rewrite Hnum. unfold n.
  repeat f_equal. lia.
Qed.

End Callbacks.


(** *** The registry of output buffers, and tiles released in any order *)

Lemma range_exists_dec (P : Z -> Prop) (n : Z) :
  (forall i, P i \/ ~ P i) ->
  (exists i, 0 <= i < n /\ P i) \/ (forall i, 0 <= i < n -> ~ P i).
Proof.
  intros Hdec. destruct (Z_le_gt_dec n 0) as [Hle|Hgt]; [right; intros i Hi; lia|].
  rewrite <- (Z2Nat.id n) by lia. generalize (Z.to_nat n) as m. clear Hgt.
  induction m as [|m IH]; [right; intros i Hi; lia|].
  destruct IH as [(i & Hi & HP)|Hnone].
  - left. exists i. split; [lia | exact HP].
  - destruct (Hdec (Z.of_nat m)) as [HP|HnP].
    + left. exists (Z.of_nat m). split; [lia | exact HP].
    + right. intros i Hi. destruct (Z.eq_dec i (Z.of_nat m)) as [->|Hne];
        [exact HnP | apply Hnone; lia].
Qed.

(** Whether an index of a flat buffer is among the addresses of a pixel
    loop nest can be decided. *)
Lemma in_rect_address_dec (ch cw nk : Z) (addr : Z -> Z -> Z -> Z) (j : Z) :
  (exists y x k, in_rect ch cw nk y x k /\ j = addr y x k) \/
  (forall y x k, in_rect ch cw nk y x k -> j <> addr y x k).
Proof.
  destruct (range_exists_dec
              (fun y => exists x, 0 <= x < cw /\
                 exists k, 0 <= k < nk /\ j = addr y x k) ch) as [Hyes|Hno].
  - intros y.
    destruct (range_exists_dec
                (fun x => exists k, 0 <= k < nk /\ j = addr y x k) cw) as [Hyes|Hno].
    + intros x.
      destruct (range_exists_dec (fun k => j = addr y x k) nk) as [Hyes|Hno].
      * intros k. destruct (Z.eq_dec j (addr y x k)); auto.
      * left. exact Hyes.
      * right. intros (k & Hk & He). exact (Hno k Hk He).
    + left. exact Hyes.
    + right. intros (x & Hx & Hk). exact (Hno x Hx Hk).
  - left. destruct Hyes as (y & Hy & x & Hx & k & Hk & He).
    exists y, x, k. unfold in_rect. auto.
  - right. intros y x k (Hy & Hx & Hk) He.
    apply (Hno y Hy). exists x. split; [exact Hx|]. exists k. auto.
Qed.

Section TileBuffers.
Context {F : Type} `{!Inhabited F}.
Implicit Types (img : DenoiseImage F) (t : DenoiseTask F) (tl : RenderTile.t).

Lemma unmap_neighboring_tiles_eq t (nb : list RenderTile.t) output_mem :
  RenderTile.tile_index (load nb 4) = RenderTile.tile_index (load nb 9) ->
  output_pixels t !! RenderTile.tile_index (load nb 9) = Some output_mem ->
  unmap_neighboring_tiles t nb
  = Some (mkTask (frame t) (neighbor_frames t)
            (set_pixels (image t)
               (copy_denoised_pixels (image t)
                  (DenoiseImageLayer.output_to_image_channel
                     (load (layers (image t)) (current_layer t)))
                  (load nb 9) output_mem))
            (current_layer t) (input_pixels t) (num_tiles t) (tiles t)
            (delete (RenderTile.tile_index (load nb 4)) (output_pixels t))).
Proof.
  intros Hidx Hout. unfold unmap_neighboring_tiles. rewrite Hidx, Hout. reflexivity.
Qed.

(** X17: [map_neighboring_tiles] registers one output buffer, under the
    tile index of the centre tile, and leaves the buffers of all other tiles
    alone; the [unmap_neighboring_tiles] that follows finds the buffer and
    removes it, so that the registry is again what it was before the tile
    was mapped.  Without a registered buffer, [unmap_neighboring_tiles]
    fails its assertion. *)
Theorem map_unmap_registry dn t (tiles : list RenderTile.t) :
  let idx := RenderTile.tile_index (load tiles 4) in
  let mapped := map_neighboring_tiles dn t tiles in
  length tiles = 10%nat ->
  output_pixels t !! idx = None ->
  unmap_neighboring_tiles t tiles = None /\
  (exists output_mem,
     output_pixels mapped.2 = <[idx := output_mem]> (output_pixels t)) /\
  (forall i, i <> idx -> output_pixels mapped.2 !! i = output_pixels t !! i) /\
  exists t',
    unmap_neighboring_tiles mapped.2 mapped.1 = Some t' /\
    output_pixels t' = output_pixels t.
Proof.
  intros idx mapped Hlen Hfree.
  destruct (fill_tile_information_center dn t tiles Hlen) as (Hl & H4 & H9).
  split; [unfold unmap_neighboring_tiles; fold idx; rewrite Hfree; reflexivity|].
  assert (Hreg : exists output_mem,
            output_pixels mapped.2 = <[idx := output_mem]> (output_pixels t)).
  { unfold mapped, map_neighboring_tiles. cbn [snd output_pixels]. rewrite H4.
    eexists. reflexivity. }
  assert (Ht4 : RenderTile.tile_index (load mapped.1 4) = idx).
  { unfold mapped, map_neighboring_tiles. cbn [fst].
    rewrite load_store_ne by lia. rewrite H4. reflexivity. }
  assert (Ht9 : RenderTile.tile_index (load mapped.1 9) = idx).
  { unfold mapped, map_neighboring_tiles. cbn [fst].
    rewrite load_store_eq by lia. rewrite H4. reflexivity. }
  destruct Hreg as (output_mem & Hreg).
  split; [exists output_mem; exact Hreg|].
  split; [intros i Hi; rewrite Hreg; apply lookup_insert_ne; congruence|].
  rewrite (unmap_neighboring_tiles_eq mapped.2 mapped.1 output_mem)
    by (rewrite ?Ht4, ?Ht9, ?Hreg; try reflexivity; apply lookup_insert_eq).
  eexists. split; [reflexivity|].
  cbn [output_pixels]. rewrite Ht4, Hreg. apply delete_insert_id, Hfree.
Qed.

(** Writing back two tiles with disjoint rectangles gives the same pixels
    in either order. *)
Lemma copy_denoised_pixels_commute img oc (a b : RenderTile.t) (out_a out_b : list F) :
  image_wf img -> tile_in_image img a -> tile_in_image img b ->
  channels_in_range (num_channels img) OUTPUT_NUM_CHANNELS oc ->
  channels_distinct OUTPUT_NUM_CHANNELS oc ->
  (forall px py, ~ (in_tile a px py /\ in_tile b px py)) ->
  copy_denoised_pixels (set_pixels img (copy_denoised_pixels img oc a out_a)) oc b out_b
  = copy_denoised_pixels (set_pixels img (copy_denoised_pixels img oc b out_b)) oc a out_a.
Proof.
  intros Hwf Ha Hb Hoc Hdist Hdisj.
  set (W := width img). set (nc := num_channels img).
  set (addr := fun (tl : RenderTile.t) y x k =>
         pixel_index W nc (RenderTile.x tl + x) (RenderTile.y tl + y) (load oc k)).
  set (val := fun (tl : RenderTile.t) (out : list F) y x k =>
         load out ((y * RenderTile.w tl + x) * 3 + k)).
  (* One write-back, on any pixel buffer of the image's size. *)
  assert (Hcopy : forall (tl : RenderTile.t) out px,
            tile_in_image img tl -> length px = length (pixels img) ->
            let px' := copy_denoised_pixels (set_pixels img px) oc tl out in
            length px' = length px /\
            (forall y x k, in_rect (RenderTile.h tl) (RenderTile.w tl) 3 y x k ->
               load px' (addr tl y x k) = val tl out y x k) /\
            (forall j, (forall y x k,
                          in_rect (RenderTile.h tl) (RenderTile.w tl) 3 y x k ->
                          j <> addr tl y x k) ->
               load px' j = load px j)).
  { intros tl out px Htl Hlen px'.
    assert (Hwf' : image_wf (set_pixels img px)).
    { destruct Hwf as (H1 & H2 & H3 & H4 & H5). unfold image_wf.
      cbn [set_pixels width height num_channels pixels]. rewrite Hlen. auto. }
    pose proof (copy_denoised_pixels_written (set_pixels img px) oc tl out
                  Hwf' Htl Hoc Hdist) as Hwr.
    apply written_final in Hwr. exact Hwr. }
  (* The addresses of the two tiles are disjoint. *)
  assert (Hsep : forall y x k y' x' k',
            in_rect (RenderTile.h a) (RenderTile.w a) 3 y x k ->
            in_rect (RenderTile.h b) (RenderTile.w b) 3 y' x' k' ->
            addr a y x k <> addr b y' x' k').
  { intros y x k y' x' k' (Hy & Hx & Hk) (Hy' & Hx' & Hk') Heq.
    destruct Ha as (Ha1 & Ha2 & Ha3 & Ha4 & Ha5 & Ha6).
    destruct Hb as (Hb1 & Hb2 & Hb3 & Hb4 & Hb5 & Hb6).
    fold W in Ha3, Hb3.
    pose proof (Hoc k ltac:(unfold OUTPUT_NUM_CHANNELS; lia)) as Hck.
    pose proof (Hoc k' ltac:(unfold OUTPUT_NUM_CHANNELS; lia)) as Hck'.
    fold nc in Hck, Hck'.
    apply pixel_index_inj in Heq as (Hpx & Hpy & _); [| lia..].
    apply (Hdisj (RenderTile.x a + x) (RenderTile.y a + y)).
    unfold in_tile. lia. }
  assert (Hset : forall px, set_pixels img px = set_pixels img px) by reflexivity.
  destruct (Hcopy a out_a (pixels img) Ha eq_refl) as (La & Ia & Oa).
  destruct (Hcopy b out_b (pixels img) Hb eq_refl) as (Lb & Ib & Ob).
  assert (Hself : set_pixels img (pixels img) = img) by (destruct img; reflexivity).
  rewrite Hself in La, Ia, Oa, Lb, Ib, Ob.
  set (pxa := copy_denoised_pixels img oc a out_a) in *.
  set (pxb := copy_denoised_pixels img oc b out_b) in *.
  destruct (Hcopy b out_b pxa Hb La) as (Lab & Iab & Oab).
  destruct (Hcopy a out_a pxb Ha Lb) as (Lba & Iba & Oba).
  apply load_ext; [congruence|]. intros j.
  destruct (in_rect_address_dec (RenderTile.h a) (RenderTile.w a) 3 (addr a) j)
    as [(y & x & k & Hr & ->)|Hna].
  - rewrite Oab by (intros y' x' k' Hr'; apply Hsep; assumption).
    rewrite Ia, Iba by exact Hr. reflexivity.
  - rewrite Oba by exact Hna.
    destruct (in_rect_address_dec (RenderTile.h b) (RenderTile.w b) 3 (addr b) j)
      as [(y & x & k & Hr & ->)|Hnb].
    + rewrite Iab, Ib by exact Hr. reflexivity.
    + rewrite Oab, Oa, Ob by assumption. reflexivity.
Qed.

(** X18: two centre tiles with disjoint rectangles and their own output
    buffers can be released in either order: both orders succeed and leave
    the same task, with the same image pixels and the same registry. *)
Theorem unmap_neighboring_tiles_commute t (tiles_a tiles_b : list RenderTile.t)
  (out_a out_b : list F) :
  let img := image t in
  let oc := DenoiseImageLayer.output_to_image_channel
              (load (layers img) (current_layer t)) in
  let a := load tiles_a 9 in
  let b := load tiles_b 9 in
  image_wf img -> tile_in_image img a -> tile_in_image img b ->
  channels_in_range (num_channels img) OUTPUT_NUM_CHANNELS oc ->
  channels_distinct OUTPUT_NUM_CHANNELS oc ->
  (forall px py, ~ (in_tile a px py /\ in_tile b px py)) ->
  RenderTile.tile_index (load tiles_a 4) = RenderTile.tile_index a ->
  RenderTile.tile_index (load tiles_b 4) = RenderTile.tile_index b ->
  RenderTile.tile_index a <> RenderTile.tile_index b ->
  output_pixels t !! RenderTile.tile_index a = Some out_a ->
  output_pixels t !! RenderTile.tile_index b = Some out_b ->
  exists t_a t_b t',
    unmap_neighboring_tiles t tiles_a = Some t_a /\
    unmap_neighboring_tiles t_a tiles_b = Some t' /\
    unmap_neighboring_tiles t tiles_b = Some t_b /\
    unmap_neighboring_tiles t_b tiles_a = Some t'.
Proof.
  intros img oc a b Hwf Ha Hb Hoc Hdist Hdisj Hia Hib Hne Houta Houtb.
  rewrite (unmap_neighboring_tiles_eq t tiles_a out_a Hia Houta).
  rewrite (unmap_neighboring_tiles_eq t tiles_b out_b Hib Houtb).
  eexists. eexists. eexists.
  split; [reflexivity|].
  rewrite (unmap_neighboring_tiles_eq _ tiles_b out_b Hib)
    by (cbn [output_pixels]; rewrite lookup_delete_ne by (rewrite Hia; exact Hne);
        exact Houtb).
  split; [reflexivity|]. split; [reflexivity|].
  rewrite (unmap_neighboring_tiles_eq _ tiles_a out_a Hia)
    by (cbn [output_pixels];
        rewrite lookup_delete_ne by (rewrite Hib; intros E; apply Hne; symmetry; exact E);
        exact Houta).
  cbn [frame neighbor_frames image current_layer input_pixels num_tiles tiles
       output_pixels set_pixels layers width height num_channels samples in_spec
       in_neighbors pixels].
  fold img oc a b.
  f_equal. f_equal.
  - f_equal. symmetry.
    apply (copy_denoised_pixels_commute img oc a b out_a out_b); assumption.
  - apply delete_delete.
Qed.

End TileBuffers.


(** ** What saving changes *)

Section SaveFootprint.
Context {F : Type} `{!Inhabited F}.
Implicit Types (env : @save_env) (fs : gmap string (@file_content F))
  (img : DenoiseImage F).

Lemma save_output_paths env fs img out_filepath :
  let r := save_output env fs img out_filepath in
  let tmp_filepath := tmp_filepath_of env out_filepath in
  (forall path, path <> tmp_filepath -> path <> out_filepath ->
     r.1.2 !! path = fs !! path) /\
  (forall e, r.1.1 = Error e -> r.1.2 !! out_filepath = fs !! out_filepath) /\
  r.2 = close_input img.
Proof.
  intros r tmp_filepath.
  pose proof (tmp_filepath_fresh env out_filepath) as Hne. fold tmp_filepath in Hne.
  unfold r, save_output. fold tmp_filepath.
  destruct (create_ok env), (open_ok env), (open_leaves_file env),
    (write_ok env), (close_ok env), (rename_ok env); cbn;
    rewrite ?lookup_insert_eq; cbn;
    (split; [|split; [|reflexivity]]);
    try (intros path Ht Ho);
    try (intros e He; try discriminate He);
    rewrite ?lookup_delete_ne, ?lookup_insert_ne, ?lookup_delete_ne,
            ?lookup_insert_ne, ?lookup_insert_ne by congruence;
    reflexivity.
Qed.

(** X19: whatever the container operations do, [save_output] changes no
    path of the file system other than the temporary path and the target
    path; when it fails, the target path holds what it held before, so a
    frame denoised in place is never destroyed by a failed save; and the
    image afterwards is the image with its neighbour inputs closed. *)
Theorem save_output_footprint env fs img out_filepath :
  let r := save_output env fs img out_filepath in
  let tmp_filepath := tmp_filepath_of env out_filepath in
  (forall path, path <> tmp_filepath -> path <> out_filepath ->
     r.1.2 !! path = fs !! path) /\
  (forall e, r.1.1 = Error e -> r.1.2 !! out_filepath = fs !! out_filepath) /\
  r.2 = close_input img.
Proof.
  intros r tmp_filepath.
  destruct (save_output_paths env fs img out_filepath) as (Hother & Hfail & Himg).
  split; [exact Hother|]. split; [exact Hfail | exact Himg].
Qed.

End SaveFootprint.

(** *** The sample attributes of the output *)

Definition samples_attribute (layer : DenoiseImageLayer.t) : string :=
  ("cycles." ++ DenoiseImageLayer.name layer ++ ".samples")%string.

Lemma has_string_attribute_app spec name value name' :
  has_string_attribute (add_string_attribute spec name value) name'
  = has_string_attribute spec name' || bool_decide (name = name').
Proof.
  unfold has_string_attribute, add_string_attribute. cbn.
  rewrite existsb_app. simpl. rewrite orb_false_r. reflexivity.
Qed.

Lemma get_string_attribute_app attributes extra name :
  existsb (fun kv => bool_decide (kv.1 = name)) attributes = true ->
  get_string_attribute (attributes ++ extra) name
  = get_string_attribute attributes name.
Proof.
  induction attributes as [|[k v] attributes IH]; simpl; [discriminate|].
  destruct (decide (k = name)) as [_|Hne]; [reflexivity|].
  rewrite bool_decide_false by exact Hne. exact IH.
Qed.

Lemma with_sample_attributes_step layers :
  forall spec,
    let out := with_sample_attributes spec layers in
    (ImageSpec.width out = ImageSpec.width spec /\
     ImageSpec.height out = ImageSpec.height spec /\
     ImageSpec.nchannels out = ImageSpec.nchannels spec /\
     ImageSpec.channelnames out = ImageSpec.channelnames spec /\
     ImageSpec.multiView out = ImageSpec.multiView spec) /\
    (exists added,
       ImageSpec.string_attributes out = ImageSpec.string_attributes spec ++ added /\
       Forall (fun kv =>
                 has_string_attribute spec kv.1 = false /\
                 exists layer, In layer layers /\
                   kv = (samples_attribute layer,
                         pretty (DenoiseImageLayer.samples layer))) added) /\
    (forall layer, In layer layers ->
       has_string_attribute out (samples_attribute layer) = true).
Proof.
  induction layers as [|layer layers IH]; intros spec out.
  - split; [auto 6|]. split; [|intros l []].
    exists []. rewrite app_nil_r. split; [reflexivity | constructor].
  - unfold out, with_sample_attributes. simpl foldl.
    fold (samples_attribute layer).
    set (spec1 := if has_string_attribute spec (samples_attribute layer) then spec
                  else add_string_attribute spec (samples_attribute layer)
                         (pretty (DenoiseImageLayer.samples layer))).
    fold (with_sample_attributes spec1 layers).
    destruct (IH spec1) as (Hsame & (added & Hattr & Hadded) & Hhas).
    assert (Hspec1 : (ImageSpec.width spec1 = ImageSpec.width spec /\
                      ImageSpec.height spec1 = ImageSpec.height spec /\
                      ImageSpec.nchannels spec1 = ImageSpec.nchannels spec /\
                      ImageSpec.channelnames spec1 = ImageSpec.channelnames spec /\
                      ImageSpec.multiView spec1 = ImageSpec.multiView spec) /\
                     has_string_attribute spec1 (samples_attribute layer) = true /\
                     (forall name, has_string_attribute spec1 name = false ->
                        has_string_attribute spec name = false) /\
                     exists first,
                       ImageSpec.string_attributes spec1
                       = ImageSpec.string_attributes spec ++ first /\
                       Forall (fun kv =>
                                 has_string_attribute spec kv.1 = false /\
                                 kv = (samples_attribute layer,
                                       pretty (DenoiseImageLayer.samples layer))) first).
    { unfold spec1.
      destruct (has_string_attribute spec (samples_attribute layer)) eqn:Hhave.
      - split; [auto 6|]. split; [exact Hhave|]. split; [auto|].
        exists []. rewrite app_nil_r. split; [reflexivity | constructor].
      - split; [cbn; auto 6|]. split.
        + rewrite has_string_attribute_app, bool_decide_true by reflexivity.
          apply orb_true_r.
        + split.
          * intros name. rewrite has_string_attribute_app.
            intros Hf. apply orb_false_elim in Hf as [Hf _]. exact Hf.
          * eexists. split; [reflexivity|]. constructor; [auto | constructor]. }
    destruct Hspec1 as (Hsame1 & Hhas1 & Hmono & first & Hfirst & Hfirst_ok).
    split; [intuition congruence|]. split.
    + exists (first ++ added). split; [rewrite Hattr, Hfirst, app_assoc; reflexivity|].
      apply Forall_app. split.
      * eapply List.Forall_impl; [|exact Hfirst_ok].
        intros kv [Hno ->]. split; [exact Hno|]. exists layer. split; [left|]; reflexivity.
      * eapply List.Forall_impl; [|exact Hadded].
        intros kv (Hno & l & Hl & ->). split; [apply Hmono, Hno|].
        exists l. split; [right; exact Hl | reflexivity].
    + intros l [<-|Hl]; [|apply Hhas, Hl].
      unfold has_string_attribute in *. rewrite Hattr, existsb_app, Hhas1. reflexivity.
Qed.

(** X20: the spec that [save_output] writes has the width, height and
    channels of the input spec; it keeps every attribute of the input, with
    its value, and appends only sample-count attributes
    [cycles.<layer>.samples] of layers for which the input had none, with
    the layer's sample count in decimal as value; afterwards every layer
    has its sample-count attribute. *)
Theorem with_sample_attributes_spec spec layers :
  let out := with_sample_attributes spec layers in
  (ImageSpec.width out = ImageSpec.width spec /\
   ImageSpec.height out = ImageSpec.height spec /\
   ImageSpec.nchannels out = ImageSpec.nchannels spec /\
   ImageSpec.channelnames out = ImageSpec.channelnames spec /\
   ImageSpec.multiView out = ImageSpec.multiView spec) /\
  (exists added,
     ImageSpec.string_attributes out = ImageSpec.string_attributes spec ++ added /\
     Forall (fun kv =>
               has_string_attribute spec kv.1 = false /\
               exists layer, In layer layers /\
                 kv = (samples_attribute layer,
                       pretty (DenoiseImageLayer.samples layer))) added) /\
  (forall layer, In layer layers ->
     has_string_attribute out (samples_attribute layer) = true) /\
  (forall name, has_string_attribute spec name = true ->
     get_string_attribute (ImageSpec.string_attributes out) name
     = get_string_attribute (ImageSpec.string_attributes spec) name).
Proof.
  intros out.
  destruct (with_sample_attributes_step layers spec) as (Hsame & Hadd & Hhas).
  split; [exact Hsame|]. split; [exact Hadd|]. split; [exact Hhas|].
  intros name Hname. destruct Hadd as (added & Hattr & _).
  fold out in Hattr. rewrite Hattr. apply get_string_attribute_app, Hname.
Qed.


(** *** The extension of the temporary path *)

Lemma occurs_app c (a b : string) : occurs c (a ++ b) <-> occurs c a \/ occurs c b.
Proof.
  unfold occurs. induction a as [|x a IH].
  - rewrite string_app_nil. simpl. tauto.
  - rewrite string_app_cons. simpl. rewrite IH. tauto.
Qed.

Lemma substring_from_app (a b : string) :
  substring (String.length a) (String.length (a ++ b) - String.length a) (a ++ b) = b.
Proof.
  induction a as [|x a IH].
  - rewrite string_app_nil. simpl. rewrite Nat.sub_0_r. apply substring_all.
  - rewrite string_app_cons. simpl. exact IH.
Qed.

(** A path that ends in a dot and a suffix free of dots and slashes has this
    dot and suffix as its extension. *)
Lemma extension_suffix (pre ext : string) :
  ~ occurs "." ext -> ~ occurs "/" ext ->
  extension (pre ++ "." ++ ext) = ("." ++ ext)%string.
Proof.
  intros Hdot Hslash.
  change ("." ++ ext)%string with (String "." ext).
  assert (Hbase : forall base,
            match rfind "." (base ++ String "." ext) with
            | Some pos =>
                substring pos (String.length (base ++ String "." ext) - pos)
                  (base ++ String "." ext)
            | None => EmptyString
            end = String "." ext).
  { intros base. rewrite (rfind_app "." base ext Hdot). apply substring_from_app. }
  assert (Hext : ~ occurs "/" (String "." ext)).
  { unfold occurs. simpl. intros [Heq|Hin]; [discriminate | exact (Hslash Hin)]. }
  unfold extension.
  destruct (rfind "/" pre) as [n|] eqn:Hpre.
  - destruct (rfind_Some _ _ _ Hpre) as [Hsplit Hno].
    set (p1 := substring 0 n pre) in *.
    set (p2 := substring (S n) (String.length pre - S n) pre) in *.
    clearbody p1 p2. subst pre. clear Hpre.
    rewrite string_app_assoc, string_app_cons.
    assert (Hno2 : ~ occurs "/" (p2 ++ String "." ext)).
    { rewrite occurs_app. tauto. }
    rewrite (rfind_app "/" p1 (p2 ++ String "." ext) Hno2).
    rewrite substring_app_r. apply Hbase.
  - apply rfind_None in Hpre.
    assert (Hnone : rfind "/" (pre ++ String "." ext) = None).
    { apply rfind_None. rewrite occurs_app. tauto. }
    rewrite Hnone. apply Hbase.
Qed.

Section TemporaryPath.
Context {F : Type} `{!Inhabited F}.
Implicit Types (env : @save_env) (fs : gmap string (@file_content F))
  (img : DenoiseImage F).

Lemma save_output_Ok_no_temp env fs img out_filepath :
  let r := save_output env fs img out_filepath in
  r.1.1 = Ok () -> r.1.2 !! tmp_filepath_of env out_filepath = None.
Proof.
  intros r. pose proof (tmp_filepath_fresh env out_filepath) as Hne.
  unfold r, save_output.
  destruct (create_ok env), (open_ok env), (open_leaves_file env),
    (write_ok env), (close_ok env), (rename_ok env); cbn;
    rewrite ?lookup_insert_eq; cbn; try discriminate;
    intros _; (rewrite lookup_insert_ne by congruence); apply lookup_delete_eq.
Qed.

(** X4: for a target path that ends in a file name with a stem and an
    extension, [...c.ext] with [c] a character other than a slash and [ext]
    a non-empty text without dot or slash, the temporary path of
    [save_output] is the target path followed by [.denoise-tmp-], the unique
    suffix and [.ext].  It has the extension [.ext] of the target, so the
    writer created for it is one for the target's format; it differs from
    the target; no other path besides the target is changed by
    [save_output]; and no file is left at it when [save_output]
    succeeds. *)
Theorem tmp_filepath_form env fs img (pre : string) (c : ascii) (ext : string) :
  c <> "/"%char -> ext <> EmptyString -> ~ occurs "." ext -> ~ occurs "/" ext ->
  let out_filepath := (pre ++ String c ("." ++ ext))%string in
  let tmp_filepath :=
    (out_filepath ++ ".denoise-tmp-" ++ unique_path env ++ "." ++ ext)%string in
  let r := save_output env fs img out_filepath in
  extension out_filepath = ("." ++ ext)%string /\
  tmp_filepath_of env out_filepath = tmp_filepath /\
  extension tmp_filepath = extension out_filepath /\
  tmp_filepath <> out_filepath /\
  (forall path, path <> tmp_filepath -> path <> out_filepath ->
     r.1.2 !! path = fs !! path) /\
  (r.1.1 = Ok () -> r.1.2 !! tmp_filepath = None).
Proof.
  intros _ _ Hdot Hslash out_filepath tmp_filepath r.
  assert (Hout : extension out_filepath = ("." ++ ext)%string).
  { unfold out_filepath.
    replace (pre ++ String c ("." ++ ext))%string
      with ((pre ++ String c "") ++ "." ++ ext)%string
      by (rewrite string_app_assoc; reflexivity).
    apply extension_suffix; assumption. }
  assert (Htmp : tmp_filepath_of env out_filepath = tmp_filepath).
  { unfold tmp_filepath_of. cbv zeta. rewrite Hout. reflexivity. }
  split; [exact Hout|]. split; [exact Htmp|]. split.
  - rewrite Hout. unfold tmp_filepath.
    rewrite <- (string_app_assoc _ (unique_path env)).
    rewrite <- (string_app_assoc out_filepath).
    apply extension_suffix; assumption.
  - rewrite <- Htmp. split; [apply tmp_filepath_fresh|]. split.
    + apply (save_output_paths env fs img out_filepath).
    + apply save_output_Ok_no_temp.
Qed.

End TemporaryPath.

(** ** The device input buffer after [load_input_pixels] *)

Section InputBuffer.
Context {F : Type} `{!Inhabited F} `{!FloatOps F}.
Implicit Types (img : DenoiseImage F) (t : DenoiseTask F) (buf : list F).










(** No step of [load_input_pixels] changes the size of the buffer. *)
Lemma length_reshuffle_pixels img (table : list Z) (source : list F) buf buffer_data :
  length (reshuffle_pixels img table source buf buffer_data) = length buf.
Proof.
  unfold reshuffle_pixels.
  apply (for_range_preserves (fun b => length b = length buf)); [reflexivity|].
  intros i b _ Hb.
  apply (for_range_preserves (fun b' => length b' = length buf)); [exact Hb|].
  intros j b' _ Hb'. rewrite length_store. exact Hb'.
Qed.

Lemma length_read_neighbors img layer :
  forall count i frame_stride buf buffer_data buf',
    read_neighbors img layer count i frame_stride buf buffer_data = Some buf' ->
    length buf' = length buf.
Proof.
  induction count as [|count IH]; intros i frame_stride buf buffer_data buf'; simpl.
  - intros [= <-]. reflexivity.
  - unfold read_neighbor_pixels.
    destruct (read_image (load (in_neighbors img) i)) as [px|]; [|discriminate].
    intros Hrun. apply IH in Hrun. rewrite Hrun. apply length_reshuffle_pixels.
Qed.

Lemma length_preprocess_slab dn (w h buffer_data : Z) buf :
  length (preprocess_slab dn w h buffer_data buf) = length buf.
Proof.
  unfold preprocess_slab, box_blur, box_blur_vertical.
  set (clamped := if Denoiser.clamp_input dn then _ else _).
  assert (Hc : length clamped = length buf).
  { unfold clamped. destruct (Denoiser.clamp_input dn); [|reflexivity].
    unfold clamp_slab.
    apply (for_range_preserves (fun b => length b = length buf)); [reflexivity|].
    intros i b _ Hb. rewrite length_store. exact Hb. }
  apply (for_range_preserves (fun b => length b = length buf)); [exact Hc|].
  intros y b _ Hb.
  apply (for_range_preserves (fun b' => length b' = length buf)); [exact Hb|].
  intros x b' _ Hb'. destruct (for_range _ _ _ _) as [cnt sum].
  rewrite length_store. exact Hb'.
Qed.

Lemma length_load_input_pixels dn t layer t' :
  load_input_pixels dn t layer = Ok t' ->
  length (input_pixels t') = length (input_pixels t).
Proof.
  unfold load_input_pixels.
  destruct (read_neighbors _ _ _ _ _ _ _) as [buf|] eqn:Hread; [|discriminate].
  apply length_read_neighbors in Hread.
  unfold read_pixels in Hread. rewrite length_reshuffle_pixels in Hread.
  set (body := fun (neighbor : Z) '(buf, buffer_data) => _).
  assert (Hloop : length (for_range 0 (Z.of_nat (length (in_neighbors (image t))) + 1)
                            body (buf, 0)).1 = length buf).
  { apply (for_range_preserves (fun st : list F * Z => length st.1 = length buf));
      [reflexivity|].
    intros s [b bd] _ Hb. unfold body. cbn [fst] in *.
    rewrite length_preprocess_slab. exact Hb. }
  destruct (for_range _ _ body _) as [buf' bd]. cbn [fst] in Hloop.
  intros [= <-]. cbn [set_input_pixels input_pixels]. congruence.
Qed.


End InputBuffer.


(** ** The stages of a task

    *** [DenoiseTask::DenoiseTask], [load], [save] and [free] *)

Section TaskStages.
Context {F : Type} `{!Inhabited F} `{!FloatOps F}.
Implicit Types (dn : Denoiser.t) (img : DenoiseImage F) (t : DenoiseTask F).
Variable DENOISE_MAX_FRAMES : Z.

(** [DenoiseImage::DenoiseImage], with the sample count that the
    constructor of the task stores into it. *)
Definition new_image (samples : Z) : DenoiseImage F :=
  mkImage 0 0 0 samples [] (ImageSpec.mk 0 0 0 [] None []) [] [].

Definition new_task dn (frame : Z) (neighbor_frames : list Z) : DenoiseTask F :=
  mkTask frame neighbor_frames (new_image (Denoiser.samples_override dn)) 0 [] 0 [] ∅.

(** Modelled from the spec: the input device buffer, of shape
    [width x (height x num_frames) x 15], as [alloc] and [zero_to_device]
    leave it: [data_width * data_height] floats, all zero. *)
Definition alloc_zero (data_width data_height : Z) : list F :=
  replicate (Z.to_nat (data_width * data_height)) fzero.

(** The task as [load] has it when it reads the pixels of the first
    layer: the image is loaded, the buffer allocated, the cursor at 0. *)
Definition with_input_buffer t img : DenoiseTask F :=
  let num_frames := Int32.wrap (Z.of_nat (length (in_neighbors img)) + 1) in
  let input_pixels :=
    alloc_zero (width img *i INPUT_NUM_CHANNELS) (height img *i num_frames) in
  mkTask (frame t) (neighbor_frames t) img 0 input_pixels (num_tiles t) (tiles t)
         (output_pixels t).

(** [input] is [denoiser->input]; [files] is what the file system holds at
    each path. *)
Definition task_load dn (input : list string) (files : string -> @file_status F) t
  : result (DenoiseTask F) :=
  let center_filepath := load input (frame t) in
  match image_load (samples (image t)) center_filepath (files center_filepath) with
  | Error e => Error e
  | Ok img =>
      match load_neighbors DENOISE_MAX_FRAMES files img input (neighbor_frames t) with
      | Error e => Error e
      | Ok img =>
          if decide (length (layers img) = O) then
            Error ("No image layers found to denoise in " ++ center_filepath)%string
          else
            (* Allocate device buffer, read pixels for first layer. *)
            load_input_pixels dn (with_input_buffer t img) 0
      end
  end.

(** [DenoiseImage::free] and [DenoiseTask::free]. *)
Definition image_free img : DenoiseImage F := set_pixels (close_input img) [].

Definition task_free t : DenoiseTask F :=
  mkTask (frame t) (neighbor_frames t) (image_free (image t)) (current_layer t) []
         (num_tiles t) (tiles t) (output_pixels t).

(** [output] is [denoiser->output]. *)
Definition task_save (env : @save_env) (fs : gmap string (@file_content F))
  (output : list string) t
  : result unit * gmap string (@file_content F) * DenoiseTask F :=
  let '(ok, fs, img) := save_output env fs (image t) (load output (frame t)) in
  (ok, fs,
   task_free (mkTask (frame t) (neighbor_frames t) img (current_layer t)
                     (input_pixels t) (num_tiles t) (tiles t) (output_pixels t))).

Lemma load_neighbor_frames_layers (files : string -> @file_status F) filepaths :
  forall frames first img img',
    load_neighbor_frames files filepaths frames first img = Ok img' ->
    length (layers img') = length (layers img).
Proof.
  induction frames as [|frame frames IH]; intros first img img'; simpl.
  - intros [= <-]. reflexivity.
  - destruct (files (load filepaths frame)) as [| |spec data]; try discriminate.
    destruct (decide (_ \/ _)); [discriminate|].
    destruct (match_layers first _ _ (layers img)) as [layers1|] eqn:Hmatch;
      [|discriminate].
    intros Hrun. apply IH in Hrun. cbn [push_neighbor layers] in Hrun.
    apply match_layers_Some, Forall2_length in Hmatch. congruence.
Qed.

(** X22: the check "No image layers found to denoise" of [DenoiseTask::load]
    never fires: whenever the centre frame and its neighbours load, the
    image has a layer, and [load] goes on to allocate the buffer and read
    the first layer.  When [load] succeeds for a frame of at least one pixel
    whose buffer is addressable with [int] indices, the task holds the
    centre frame with one open neighbour per neighbour frame, the layer
    cursor is 0, and the device input buffer has one slab of
    [15 * width * height] floats per frame. *)
Theorem task_load_stages dn input files t :
  let center_filepath := load input (frame t) in
  (forall img img',
     image_load (samples (image t)) center_filepath (files center_filepath) = Ok img ->
     load_neighbors DENOISE_MAX_FRAMES files img input (neighbor_frames t) = Ok img' ->
     layers img' <> [] /\
     task_load dn input files t = load_input_pixels dn (with_input_buffer t img') 0) /\
  (forall t',
     task_load dn input files t = Ok t' ->
     let img := image t' in
     let n := Z.of_nat (length (neighbor_frames t)) in
     blur_wf (5 * Denoiser.radius dn) (width img) (height img) ->
     1 <= height img ->
     height img * (n + 1) <= Int32.max_signed -> n < Int32.max_signed ->
     Z.of_nat (length (in_neighbors img)) = n /\
     layers img <> [] /\
     current_layer t' = 0 /\
     Z.of_nat (length (input_pixels t'))
     = (n + 1) * (INPUT_NUM_CHANNELS * (width img * height img))).
Proof.
  intros center_filepath.
  assert (Hlayers : forall img img',
            image_load (samples (image t)) center_filepath (files center_filepath)
            = Ok img ->
            load_neighbors DENOISE_MAX_FRAMES files img input (neighbor_frames t)
            = Ok img' ->
            length (layers img') <> O /\ in_neighbors img = []).
  { intros img img' Hload Hnb. unfold image_load in Hload.
    destruct (files center_filepath) as [| |spec data]; try discriminate.
    destruct (parse_channels _ spec) as [ls|]; [|discriminate].
    destruct (decide (length ls = O)) as [Hz|Hnz]; [discriminate|].
    destruct data as [px|]; [|discriminate].
    injection Hload as <-. unfold load_neighbors in Hnb.
    destruct (decide (_ > _)); [discriminate|].
    apply load_neighbor_frames_layers in Hnb. cbn [layers] in Hnb.
    split; [congruence | reflexivity]. }
  split.
  - intros img img' Hload Hnb. destruct (Hlayers img img' Hload Hnb) as [Hne _].
    split; [intros Hnil; rewrite Hnil in Hne; apply Hne; reflexivity|].
    unfold task_load. fold center_filepath. rewrite Hload, Hnb.
    destruct (decide (length (layers img') = O)); [contradiction | reflexivity].
  - intros t' Hrun img n Hwf Hh Hmax Hn.
    unfold task_load in Hrun. fold center_filepath in Hrun.
    destruct (image_load _ _ _) as [img0|] eqn:Hload; [|discriminate].
    destruct (load_neighbors _ _ _ _ _) as [img1|] eqn:Hnb; [|discriminate].
    destruct (Hlayers img0 img1 eq_refl Hnb) as [Hne Hnone].
    destruct (decide (length (layers img1) = O)); [contradiction|].
    destruct (load_input_pixels_cursor dn _ _ _ Hrun) as [Hcur Himg].
    apply length_load_input_pixels in Hrun.
    cbn [with_input_buffer image current_layer] in Hcur, Himg.
    fold img in Himg. subst img1.
    (* the neighbours that are open *)
    assert (Hopen : Z.of_nat (length (in_neighbors img)) = n).
    { unfold load_neighbors in Hnb.
      destruct (decide (_ > _)); [discriminate|].
      apply load_neighbor_frames_Ok in Hnb as (_ & new & Hnew & Hopen & _);
        [| lia | unfold Int32.max_signed in *; lia].
      rewrite Hnew, Hnone. simpl. apply Forall2_length in Hopen. unfold n. lia. }
    split; [exact Hopen|].
    split; [intros Hnil; rewrite Hnil in Hne; apply Hne; reflexivity|].
    split; [exact Hcur|].
    rewrite Hrun. unfold with_input_buffer, alloc_zero. cbn [input_pixels].
    rewrite length_replicate, Hopen.
    destruct Hwf as (_ & HW & HH & Hmax15 & _).
    unfold INPUT_NUM_CHANNELS, Int32.max_signed in *.
    assert (Hwh : width img <= width img * height img) by nia.
    assert (Hn0 : 0 <= n) by (unfold n; lia).
    rewrite Int32.wrap_id by int_range.
    rewrite (Int32.mul_id (width img) 15) by int_range.
    rewrite (Int32.mul_id (height img) (n + 1)) by int_range_nl.
    assert (H0 : 0 <= width img * 15 * (height img * (n + 1))) by nia.
    rewrite Z2Nat.id by exact H0. ring.
Qed.

End TaskStages.


(** ** [Denoiser::run] *)

Section Run.
Context {F : Type} `{!Inhabited F} `{!FloatOps F}.
Implicit Types (dn : Denoiser.t) (fs : gmap string (@file_content F)).
Variable DENOISE_MAX_FRAMES : Z.

(** The device: [task_add] followed by [task_wait], as in [exec]. *)
Variable device_task : DeviceTask.t -> DenoiseTask F -> list F.

(** How a path of the file system reads: what [Filesystem::is_regular],
    [ImageInput::open] and [read_image] make of it. *)
Variable read_file : gmap string (@file_content F) -> string -> @file_status F.

(** The outcomes of the container operations when a frame is saved. *)
Variable save_envs : Z -> @save_env.

Definition set_num_frames dn (num_frames : Z) : Denoiser.t :=
  Denoiser.mk (Denoiser.samples_override dn) (Denoiser.tile_size_x dn)
    (Denoiser.tile_size_y dn) (Denoiser.radius dn) (Denoiser.clamp_input dn)
    (Denoiser.neighbor_frames dn) num_frames.

(** The body of the loop over the frames: the result of the frame and the
    file system after it.  [input] and [output] are the path lists of the
    denoiser. *)
Definition run_frame dn (input output : list string) (frame : Z) fs
  : result unit * gmap string (@file_content F) :=
  (* Skip empty output paths. *)
  if decide (load output frame = EmptyString) then (Ok (), fs)
  else
    (* Determine neighbor frame numbers that should be used for filtering. *)
    let neighbor_frames := neighbor_frames_of dn frame in
    (* Execute task. *)
    let task := new_task dn frame neighbor_frames in
    match task_load DENOISE_MAX_FRAMES dn input (read_file fs) task with
    | Error e => (Error e, fs)
    | Ok task =>
        match (exec device_task dn task).1 with
        | Error e => (Error e, fs)
        | Ok task =>
            let '(ok, fs, task) := task_save (save_envs frame) fs output task in
            (ok, fs)
        end
    end.

Definition run dn (input output : list string) fs
  : result unit * gmap string (@file_content F) :=
  let dn := set_num_frames dn (Int32.wrap (Z.of_nat (length output))) in
  for_range 0 (Denoiser.num_frames dn)
    (fun frame '(st, fs) =>
       match st with
       | Error e => (Error e, fs)
       | Ok _ => run_frame dn input output frame fs
       end)
    (Ok (), fs).

Lemma load_input_pixels_frame dn (t t' : DenoiseTask F) layer :
  load_input_pixels dn t layer = Ok t' -> frame t' = frame t.
Proof.
  unfold load_input_pixels.
  destruct (read_neighbors _ _ _ _ _ _ _) as [buf|]; [|discriminate].
  destruct (for_range _ _ _ _) as [buf' base]. intros [= <-]. reflexivity.
Qed.

Lemma task_load_frame dn input files (t t' : DenoiseTask F) :
  task_load DENOISE_MAX_FRAMES dn input files t = Ok t' -> frame t' = frame t.
Proof.
  unfold task_load.
  destruct (image_load _ _ _) as [img0|]; [|discriminate].
  destruct (load_neighbors _ _ _ _ _) as [img1|]; [|discriminate].
  destruct (decide (length (layers img1) = O)); [discriminate|].
  intros Hrun. apply load_input_pixels_frame in Hrun. exact Hrun.
Qed.

Lemma exec_frame dn (t t' : DenoiseTask F) :
  (exec device_task dn t).1 = Ok t' -> frame t' = frame t.
Proof.
  unfold exec. cbv zeta.
  match goal with
  | |- context [for_range 0 ?n ?body ?s0] =>
      assert (Hloop : forall t0, (for_range 0 n body s0).1 = Ok t0 -> frame t0 = frame t);
        [|destruct (for_range 0 n body s0) as [[t0|e] log]; cbn [fst snd] in *;
          [intros [= <-]; cbn [frame set_current_layer]; apply Hloop; reflexivity
          |discriminate]]
  end.
  apply (for_range_preserves
           (fun st : result (DenoiseTask F) * list Z =>
              forall t', st.1 = Ok t' -> frame t' = frame t)).
  - cbn. intros t0 [= <-]. reflexivity.
  - intros layer [st log] _ Hst. cbn [fst] in *.
    destruct st as [t0|e]; [|cbn; discriminate].
    specialize (Hst t0 eq_refl).
    destruct (decide (layer > 0)).
    + destruct (load_input_pixels dn (set_current_layer t0 layer) layer)
        as [t1|] eqn:Hload; [|cbn; discriminate].
      apply load_input_pixels_frame in Hload.
      unfold set_current_layer in Hload. cbn [frame] in Hload.
      cbn. intros t2 [= <-]. unfold run_device. cbn. congruence.
    + cbn. intros t2 [= <-]. unfold run_device. cbn. exact Hst.
Qed.

Lemma run_frame_paths dn input output (f : Z) fs path :
  path <> load output f ->
  path <> tmp_filepath_of (save_envs f) (load output f) ->
  (run_frame dn input output f fs).2 !! path = fs !! path.
Proof.
  intros Hout Htmp. unfold run_frame.
  destruct (decide (load output f = EmptyString)); [reflexivity|].
  destruct (task_load _ _ _ _ _) as [task|] eqn:Hload; [|reflexivity].
  destruct (exec device_task dn task).1 as [task'|] eqn:Hexec; [|reflexivity].
  apply task_load_frame in Hload. apply exec_frame in Hexec.
  unfold new_task in Hload. cbn [frame] in Hload.
  assert (Hframe : frame task' = f) by congruence.
  unfold task_save. rewrite Hframe.
  destruct (save_output_paths (save_envs f) fs (image task') (load output f))
    as (Hother & _).
  destruct (save_output _ _ _ _) as [[ok fs'] img]. cbn [fst snd] in *.
  apply Hother; assumption.
Qed.

(** X23: a run changes no path of the file system other than the output
    paths of its frames and the temporary paths beside them: an input file
    that is not also an output is left as it is.  And a run whose output
    paths are all empty does nothing and succeeds. *)
Theorem run_footprint dn input output fs :
  let n := Int32.wrap (Z.of_nat (length output)) in
  (forall path,
     (forall frame, 0 <= frame < n ->
        path <> load output frame /\
        path <> tmp_filepath_of (save_envs frame) (load output frame)) ->
     (run dn input output fs).2 !! path = fs !! path) /\
  ((forall frame, 0 <= frame < n -> load output frame = EmptyString) ->
   run dn input output fs = (Ok (), fs)).
Proof.
  intros n. unfold run. cbn [set_num_frames Denoiser.num_frames]. fold n.
  set (dn' := set_num_frames dn n).
  split.
  - intros path Hpath.
    apply (for_range_preserves
             (fun st : result unit * gmap string (@file_content F) =>
                st.2 !! path = fs !! path)); [reflexivity|].
    intros frame [st fs'] Hframe Hfs. cbn [snd] in Hfs.
    destruct st as [[]|e]; [|exact Hfs].
    destruct (Hpath frame Hframe) as [Hout Htmp].
    rewrite run_frame_paths by assumption. exact Hfs.
  - intros Hempty.
    apply (for_range_preserves
             (fun st : result unit * gmap string (@file_content F) =>
                st = (Ok (), fs))); [reflexivity|].
    intros frame st Hframe ->. unfold run_frame.
    rewrite (Hempty frame Hframe).
    destruct (decide (EmptyString = EmptyString)); [reflexivity | contradiction].
Qed.

End Run.


(** ** The neighbourhood of a queued tile *)

Lemma axis_neighbor (W tw tx dx : Z) :
  let nx := divide_up W tw in
  1 <= W -> 1 <= tw -> 0 <= tx < nx -> -1 <= dx <= 1 ->
  let lo := clamp (tx * tw + dx * tw) 0 W in
  let hi := clamp (tx * tw + (dx + 1) * tw) 0 W in
  (0 <= tx + dx < nx ->
     lo = (tx + dx) * tw /\ hi - lo = Z.min (W - (tx + dx) * tw) tw) /\
  (~ 0 <= tx + dx < nx -> hi - lo = 0).
Proof.
  intros nx HW Htw Htx Hdx lo hi.
  pose proof (divide_up_ceil W tw HW Htw) as Hceil. fold nx in Hceil.
  unfold lo, hi, clamp.
  replace (tx * tw + dx * tw) with ((tx + dx) * tw) by ring.
  replace (tx * tw + (dx + 1) * tw) with ((tx + dx) * tw + tw) by ring.
  split.
  - intros Hin.
    assert (H1 : 0 <= (tx + dx) * tw) by nia.
    assert (H2 : (tx + dx) * tw <= (nx - 1) * tw) by nia.
    lia.
  - intros Hout.
    assert (Hcase : tx + dx = -1 \/ tx + dx = nx) by lia.
    destruct Hcase as [E|E]; rewrite E.
    + lia.
    + lia.
Qed.

Section NeighbourhoodTiles.
Context {F : Type} `{!Inhabited F}.
Implicit Types (dn : Denoiser.t) (t : DenoiseTask F).

(** X24: when the centre tile is tile [(tx, ty)] of the queue built by
    [create_task], the rectangle that [map_neighboring_tiles] gives to
    neighbour [i] (at offset [(dx, dy)] in the 3x3 neighbourhood) is the
    rectangle of the queued tile [(tx + dx, ty + dy)] when there is such a
    tile, and has width 0 (height 0) when the column (row) lies outside the
    grid of tiles. *)
Theorem map_neighboring_tiles_adjacent dn t (nb : list RenderTile.t) tx ty :
  let W := width (image t) in
  let H := height (image t) in
  let tw := Denoiser.tile_size_x dn in
  let th := Denoiser.tile_size_y dn in
  let nx := divide_up W tw in
  let ny := divide_up H th in
  let queue := tiles (create_task dn t).2 in
  1 <= W -> 1 <= H -> 1 <= tw -> 1 <= th ->
  W + 2 * tw <= Int32.max_signed -> H + 2 * th <= Int32.max_signed ->
  0 <= tx < nx -> 0 <= ty < ny ->
  length nb = 10%nat -> load nb 4 = load queue (ty * nx + tx) ->
  forall i, 0 <= i < 9 -> i <> 4 ->
    let dx := i mod 3 - 1 in
    let dy := i / 3 - 1 in
    let tile := load (map_neighboring_tiles dn t nb).1 i in
    (0 <= tx + dx < nx -> 0 <= ty + dy < ny ->
       let queued := load queue ((ty + dy) * nx + (tx + dx)) in
       RenderTile.x tile = RenderTile.x queued /\
       RenderTile.y tile = RenderTile.y queued /\
       RenderTile.w tile = RenderTile.w queued /\
       RenderTile.h tile = RenderTile.h queued) /\
    (~ 0 <= tx + dx < nx -> RenderTile.w tile = 0) /\
    (~ 0 <= ty + dy < ny -> RenderTile.h tile = 0).
Proof.
  intros W H tw th nx ny queue HW HH Htw Hth HmaxW HmaxH Htx Hty Hlen Hcentre
         i Hi Hi4 dx dy tile.
  pose proof (divide_up_ceil W tw HW Htw) as HcW. fold nx in HcW.
  pose proof (divide_up_ceil H th HH Hth) as HcH. fold ny in HcH.
  assert (Hnx : 1 <= nx) by nia. assert (Hny : 1 <= ny) by nia.
  (* the tiles of the queue *)
  destruct (create_tiles_table dn t ltac:(fold W tw nx; lia) ltac:(fold H th ny; lia))
    as [_ Htbl].
  fold W H tw th nx ny in Htbl.
  assert (Hqueue : forall tx' ty', 0 <= tx' < nx -> 0 <= ty' < ny ->
            let q := load queue (ty' * nx + tx') in
            RenderTile.x q = tx' * tw /\ RenderTile.y q = ty' * th /\
            RenderTile.w q = Z.min (W - tx' * tw) tw /\
            RenderTile.h q = Z.min (H - ty' * th) th).
  { intros tx' ty' Htx' Hty' q. unfold q, queue, create_task. cbn [snd tiles].
    rewrite Htbl by nia. rewrite raster_mod, raster_div by lia.
    pose proof (new_tile_geometry dn t tx' ty'
                  ltac:(fold W; unfold Int32.max_signed in *; lia)
                  ltac:(fold H; unfold Int32.max_signed in *; lia)
                  ltac:(fold tw; unfold Int32.max_signed in *; lia)
                  ltac:(fold th; unfold Int32.max_signed in *; lia)
                  ltac:(fold W tw nx; lia) ltac:(fold H th ny; lia)) as Hg.
    cbv zeta in Hg. fold W H tw th nx in Hg. intuition lia. }
  destruct (Hqueue tx ty Htx Hty) as (Hcx & Hcy & _). cbv zeta in Hcx, Hcy.
  rewrite <- Hcentre in Hcx, Hcy.
  (* what the geometry loop computes *)
  assert (Hxr : 0 <= tx * tw < W) by nia.
  assert (Hyr : 0 <= ty * th < H) by nia.
  destruct (fill_tile_information_spec dn t nb Hlen
              ltac:(fold W; unfold Int32.max_signed in *; lia)
              ltac:(fold H; unfold Int32.max_signed in *; lia)
              ltac:(rewrite Hcx; lia) ltac:(fold tw; lia)
              ltac:(rewrite Hcx; fold tw; lia)
              ltac:(rewrite Hcy; lia) ltac:(fold th; lia)
              ltac:(rewrite Hcy; fold th; lia)) as (Hl & _ & _ & Hnb).
  fold W H tw th in Hnb.
  assert (Htile : tile = load (fill_tile_information dn t nb) i).
  { unfold tile, map_neighboring_tiles. cbn [fst]. apply load_store_ne. lia. }
  destruct (Hnb i Hi Hi4) as (Hx & Hw & Hy & Hh & _).
  rewrite <- Htile in Hx, Hw, Hy, Hh. fold dx dy in Hx, Hw, Hy, Hh.
  rewrite Hcx in Hx, Hw. rewrite Hcy in Hy, Hh. rewrite Hx in Hw. rewrite Hy in Hh.
  assert (Hdx : -1 <= dx <= 1).
  { unfold dx. pose proof (Z.mod_pos_bound i 3 ltac:(lia)). lia. }
  assert (Hdy : -1 <= dy <= 1).
  { unfold dy. assert (0 <= i / 3) by (apply Z.div_pos; lia).
    assert (i / 3 < 3) by (apply Z.div_lt_upper_bound; lia). lia. }
  destruct (axis_neighbor W tw tx dx HW Htw Htx Hdx) as (Hxin & Hxout).
  destruct (axis_neighbor H th ty dy HH Hth Hty Hdy) as (Hyin & Hyout).
  cbv zeta in Hxin, Hxout, Hyin, Hyout. fold nx in Hxin, Hxout. fold ny in Hyin, Hyout.
  split; [|split].
  - intros Hgx Hgy queued.
    destruct (Hqueue (tx + dx) (ty + dy) Hgx Hgy) as (Qx & Qy & Qw & Qh).
    cbv zeta in Qx, Qy, Qw, Qh. fold queued in Qx, Qy, Qw, Qh.
    destruct (Hxin Hgx) as (Ex & Ew). destruct (Hyin Hgy) as (Ey & Eh).
    rewrite Qx, Qy, Qw, Qh, Hx, Hy, Hw, Hh. auto.
  - intros Hgx. rewrite Hw. apply Hxout, Hgx.
  - intros Hgy. rewrite Hh. apply Hyout, Hgy.
Qed.

End NeighbourhoodTiles.


(** ** Progress reporting: [print_progress] *)

(** [for (int x = total; x > 9; x /= 10) len++]: the value of [len] when
    the loop ends. *)
Function count_digits (x len : Z) {measure Z.to_nat x} : Z :=
  if Z_gt_dec x 9 then count_digits (x /i 10) (len +i 1) else len.
Proof.
  intros x len Hgt _. unfold Int32.div, Int32.wrap.
  pose proof (Z.quot_lt x 10 ltac:(lia) ltac:(lia)) as Hlt.
  pose proof (Z.quot_pos x 10 ltac:(lia) ltac:(lia)) as Hpos.
  pose proof (Z.mod_pos_bound (x ÷ 10 + 2147483648) 4294967296 ltac:(lia)) as Hm.
  pose proof (Z.mod_le (x ÷ 10 + 2147483648) 4294967296 ltac:(lia) ltac:(lia)) as Hle.
  lia.
Defined.

(** [printf("%*d", width, value)] for a width that is not negative: the
    decimal digits of [value], padded with spaces on the left. *)
Definition printf_width_d (width value : Z) : string :=
  let digits := pretty value in
  (String.string_of_list_ascii
     (replicate (Z.to_nat width - String.length digits) " "%char) ++ digits)%string.

Section Progress.

(** [system_console_width()]. *)
Variable console_width : Z.

(** [int(float(num) * bars / total)]. *)
Variable bar_fill : Z -> Z -> Z -> Z.

Definition label : string := "Denoise Frame ".

(** The characters that [print_progress] writes to the console. *)
Definition print_progress (num total frame num_frames : Z) : string :=
  let cols := console_width in
  let cols := Int32.wrap (cols - Z.of_nat (String.length label)) in
  let len := count_digits total 1 in
  let bars := cols -i 2 *i len -i 6 in
  let out := (String "013" EmptyString ++ label)%string in
  let '(bars, out) :=
    if decide (num_frames > 1) then
      let frame_len := count_digits (num_frames -i 1) 1 in
      (bars -i (frame_len +i 2), (out ++ printf_width_d frame_len frame ++ " ")%string)
    else (bars, out) in
  let v := bar_fill num bars total in
  let out := (out ++ "[")%string in
  let out := for_range 0 v (fun i out => (out ++ "=")%string) out in
  let out := if decide (v < bars) then (out ++ ">")%string else out in
  let out := for_range (v +i 1) bars (fun i out => (out ++ " ")%string) out in
  (out ++ "] " ++ printf_width_d len num ++ " / " ++ pretty total)%string.

End Progress.


(** The number of decimal digits that [pretty] prints. *)
Lemma length_pretty_N_go (x : N) :
  forall s, String.length (pretty_N_go x s)
            = (String.length (pretty_N_go x "") + String.length s)%nat.
Proof.
  induction x as [x IH] using (well_founded_induction N.lt_wf_0). intros s.
  destruct (decide (0 < x)%N) as [Hpos|Hzero].
  - rewrite !(pretty_N_go_step x) by exact Hpos.
    rewrite (IH (x `div` 10)%N) by (apply N.div_lt; lia).
    rewrite (IH (x `div` 10)%N ltac:(apply N.div_lt; lia) (String _ "")).
    simpl. lia.
  - replace x with 0%N by lia. rewrite !pretty_N_go_0. reflexivity.
Qed.

Lemma length_pretty_N_go_pos (x : N) :
  (0 < x)%N ->
  String.length (pretty_N_go x "")
  = S (String.length (pretty_N_go (x `div` 10) "")).
Proof.
  intros Hpos. rewrite pretty_N_go_step by exact Hpos.
  rewrite length_pretty_N_go. simpl. lia.
Qed.

Lemma pretty_Z_pos (x : Z) : 1 <= x -> pretty x = pretty_N_go (Z.to_N x) "".
Proof.
  intros Hx. destruct x as [|p|p]; try lia.
  change (pretty (Z.pos p)) with (pretty (N.pos p)). unfold pretty, pretty_N.
  destruct (decide (N.pos p = 0%N)); [discriminate | reflexivity].
Qed.

Lemma length_pretty_digit (x : Z) : 0 <= x <= 9 -> String.length (pretty x) = 1%nat.
Proof.
  intros Hx. destruct (Z.eq_dec x 0) as [->|Hne]; [reflexivity|].
  rewrite pretty_Z_pos by lia.
  rewrite length_pretty_N_go_pos by lia.
  replace (Z.to_N x `div` 10)%N with 0%N; [reflexivity|].
  symmetry. apply N.div_small. lia.
Qed.

Lemma length_pretty_step (x : Z) :
  10 <= x -> String.length (pretty x) = S (String.length (pretty (x / 10))).
Proof.
  intros Hx. assert (1 <= x / 10) by (apply Z.div_le_lower_bound; lia).
  rewrite !pretty_Z_pos by lia.
  rewrite length_pretty_N_go_pos by lia.
  rewrite Z2N.inj_div by lia. reflexivity.
Qed.

Lemma length_pretty_mono (a b : Z) :
  0 <= a <= b -> (String.length (pretty a) <= String.length (pretty b))%nat.
Proof.
  intros [Ha Hab]. revert a Ha Hab.
  induction b as [b IH] using (well_founded_induction (Z.lt_wf 0)).
  intros a Ha Hab.
  destruct (Z_le_gt_dec a 9) as [Hsmall|Hbig].
  - rewrite (length_pretty_digit a) by lia.
    destruct (Z_le_gt_dec b 9) as [Hb|Hb].
    + rewrite (length_pretty_digit b) by lia. lia.
    + rewrite (length_pretty_step b) by lia. lia.
  - rewrite (length_pretty_step a), (length_pretty_step b) by lia.
    apply le_n_S. apply IH.
    + split; [apply Z.div_pos; lia | apply Z.div_lt; lia].
    + apply Z.div_pos; lia.
    + apply Z.div_le_mono; lia.
Qed.

(** The loop counts the decimal digits. *)
Lemma count_digits_pretty (x len : Z) :
  0 <= x -> 0 <= len -> len + x <= Int32.max_signed ->
  count_digits x len = len - 1 + Z.of_nat (String.length (pretty x)).
Proof.
  revert len. induction x as [x IH] using (well_founded_induction (Z.lt_wf 0)).
  intros len Hx Hlen Hmax. rewrite count_digits_equation.
  unfold Int32.max_signed in *.
  destruct (Z_gt_dec x 9) as [Hbig|Hsmall].
  - assert (Hq : x /i 10 = x / 10).
    { unfold Int32.div. rewrite Z.quot_div_nonneg by lia.
      assert (0 <= x / 10 < x) by (split; [apply Z.div_pos; lia | apply Z.div_lt; lia]).
      apply Int32.wrap_id. int_range. }
    assert (Hd : 0 <= x / 10 < x /\ x / 10 + 1 <= x).
    { assert (0 <= x / 10) by (apply Z.div_pos; lia).
      assert (x / 10 < x) by (apply Z.div_lt; lia). lia. }
    rewrite Hq, (Int32.add_id len 1) by int_range.
    rewrite IH by lia.
    rewrite (length_pretty_step x) by lia. lia.
  - rewrite length_pretty_digit by lia. lia.
Qed.

Lemma length_printf_width_d (width value : Z) :
  (String.length (pretty value) <= Z.to_nat width)%nat ->
  String.length (printf_width_d width value) = Z.to_nat width.
Proof.
  intros Hfit. unfold printf_width_d. cbv zeta.
  rewrite string_length_app.
  assert (Hpad : forall n, String.length (string_of_list_ascii (replicate n " "%char)) = n).
  { induction n as [|n IHn]; simpl; [reflexivity | rewrite IHn; reflexivity]. }
  rewrite Hpad. lia.
Qed.

Lemma length_for_range_append (lo hi : Z) (c out : string) :
  String.length (for_range lo hi (fun i out => (out ++ c)%string) out)
  = (String.length out + Z.to_nat (hi - lo) * String.length c)%nat.
Proof.
  unfold for_range. generalize (Z.to_nat (hi - lo)) as n. intros n.
  revert lo out. induction n as [|n IH]; intros lo out; simpl; [lia|].
  rewrite IH, string_length_app. lia.
Qed.

Section ProgressWidth.
Variable console_width : Z.
Variable bar_fill : Z -> Z -> Z -> Z.

(** X25: the first loop of [print_progress] leaves in [len] the number of
    decimal digits of [total].  When the console is wide enough for the bar
    not to be negative and the fill [v] lies within the bar, the line
    written after the carriage return has exactly as many characters as the
    console is wide (one fewer when the frame number is shown): the label,
    the brackets, the bar of [bars] characters and the two numbers fill the
    line. *)
Theorem print_progress_width (num total frame num_frames : Z) :
  let len := count_digits total 1 in
  let frame_len := count_digits (num_frames - 1) 1 in
  let framed := bool_decide (num_frames > 1) in
  let bars :=
    console_width - 14 - 2 * len - 6 - (if framed then frame_len + 2 else 0) in
  0 <= num <= total -> total < Int32.max_signed ->
  (num_frames > 1 -> 0 <= frame < num_frames /\ num_frames <= Int32.max_signed) ->
  console_width <= Int32.max_signed -> 0 <= bars ->
  0 <= bar_fill num bars total <= bars ->
  len = Z.of_nat (String.length (pretty total)) /\
  Z.of_nat (String.length (print_progress console_width bar_fill num total frame
                             num_frames))
  = 1 + console_width - (if framed then 1 else 0).
Proof.
  intros len frame_len framed bars Hnum Htotal Hframe Hcols Hbars Hfill.
  assert (Hb : bars = console_width - 14 - 2 * len - 6
                      - (if framed then frame_len + 2 else 0)) by reflexivity.
  clearbody bars.
  unfold Int32.max_signed in *.
  assert (Hlen : len = Z.of_nat (String.length (pretty total))).
  { unfold len. rewrite count_digits_pretty by (unfold Int32.max_signed; lia). lia. }
  assert (Hlen1 : 1 <= len).
  { rewrite Hlen. destruct (Z_le_gt_dec total 9).
    - rewrite length_pretty_digit by lia. lia.
    - rewrite length_pretty_step by lia. lia. }
  assert (Hnumfit : (String.length (pretty num) <= Z.to_nat len)%nat).
  { rewrite Hlen, Nat2Z.id. apply length_pretty_mono. lia. }
  split; [exact Hlen|].
  unfold print_progress. fold len.
  change (Z.of_nat (String.length label)) with 14.
  destruct (decide (num_frames > 1)) as [Hmany|Hone].
  - (* with the frame number *)
    destruct (Hframe Hmany) as [Hfr Hnf].
    assert (Hframed : framed = true) by (unfold framed; apply bool_decide_eq_true; lia).
    rewrite Hframed in *.
    assert (Hfl : frame_len = Z.of_nat (String.length (pretty (num_frames - 1)))).
    { unfold frame_len. rewrite count_digits_pretty by (unfold Int32.max_signed; lia).
      lia. }
    assert (Hfl1 : 1 <= frame_len).
    { rewrite Hfl. destruct (Z_le_gt_dec (num_frames - 1) 9).
      - rewrite length_pretty_digit by lia. lia.
      - rewrite length_pretty_step by lia. lia. }
    assert (Hframefit : (String.length (pretty frame) <= Z.to_nat frame_len)%nat).
    { rewrite Hfl, Nat2Z.id. apply length_pretty_mono. lia. }
    rewrite (Int32.sub_id num_frames 1) by int_range. fold frame_len.
    rewrite (Int32.wrap_id (console_width - 14)) by int_range.
    rewrite (Int32.mul_id 2 len) by int_range.
    rewrite (Int32.sub_id (console_width - 14) (2 * len)) by int_range.
    rewrite (Int32.sub_id (console_width - 14 - 2 * len) 6) by int_range.
    rewrite (Int32.add_id frame_len 2) by int_range.
    rewrite (Int32.sub_id (console_width - 14 - 2 * len - 6) (frame_len + 2))
      by int_range.
    rewrite <- Hb. set (v := bar_fill num bars total) in *.
    rewrite (Int32.add_id v 1) by int_range.
    destruct (decide (v < bars));
      repeat (rewrite string_length_app || rewrite length_for_range_append);
      rewrite (length_printf_width_d len num) by exact Hnumfit;
      rewrite (length_printf_width_d frame_len frame) by exact Hframefit;
      simpl String.length; lia.
  - (* without *)
    assert (Hframed : framed = false) by (unfold framed; apply bool_decide_eq_false; lia).
    rewrite Hframed in *.
    rewrite (Int32.wrap_id (console_width - 14)) by int_range.
    rewrite (Int32.mul_id 2 len) by int_range.
    rewrite (Int32.sub_id (console_width - 14) (2 * len)) by int_range.
    rewrite (Int32.sub_id (console_width - 14 - 2 * len) 6) by int_range.
    replace (console_width - 14 - 2 * len - 6) with bars by lia.
    set (v := bar_fill num bars total) in *.
    rewrite (Int32.add_id v 1) by int_range.
    destruct (decide (v < bars));
      repeat (rewrite string_length_app || rewrite length_for_range_append);
      rewrite (length_printf_width_d len num) by exact Hnumfit;
      simpl String.length; lia.
Qed.

End ProgressWidth.


(** ** Sample counts: the override and the metadata

    *** Decimal text

    The rest of a text after a number: it does not go on with a digit. *)
Definition no_digit_ahead (rest : string) : Prop :=
  match rest with
  | String c _ => digit_of c = None
  | EmptyString => True
  end.

(** [text] holds white space only; the empty text is blank. *)
Definition blank (text : string) : Prop :=
  Forall (fun c => isspace c = true) (list_ascii_of_string text).

(** [text] starts with the number [n] in decimal: after white space, if
    any, come the decimal digits of [n], behind a minus sign when [n] is
    negative and possibly behind a plus sign otherwise, and no further
    digit follows. *)
Definition decimal_text (text : string) (n : Z) : Prop :=
  exists space sign rest,
    blank space /\
    (sign = EmptyString \/ (sign = "+"%string /\ 0 <= n)) /\
    text = (space ++ sign ++ pretty n ++ rest)%string /\
    no_digit_ahead rest.

(** [text] does not start with a number: after white space, if any, comes a
    character that is neither a sign nor a digit. *)
Definition not_a_number (text : string) : Prop :=
  exists space c rest,
    blank space /\ text = (space ++ String c rest)%string /\
    isspace c = false /\ digit_of c = None /\ c <> "-"%char /\ c <> "+"%char.

(** *** [sscanf_d] on decimal text *)

Lemma digit_of_pretty_N_char (d : N) :
  (d < 10)%N -> digit_of (pretty_N_char d) = Some (Z.of_N d).
Proof.
  intros Hd.
  assert (Hc : (d = 0 \/ d = 1 \/ d = 2 \/ d = 3 \/ d = 4 \/ d = 5 \/ d = 6 \/ d = 7
               \/ d = 8 \/ d = 9)%N) by lia.
  repeat (destruct Hc as [-> | Hc]; [reflexivity|]). subst d. reflexivity.
Qed.

Lemma pretty_N_go_app (x : N) :
  forall s rest, (pretty_N_go x s ++ rest)%string = pretty_N_go x (s ++ rest).
Proof.
  induction x as [x IH] using (well_founded_induction N.lt_wf_0). intros s rest.
  destruct (decide (0 < x)%N) as [Hpos|Hzero].
  - rewrite !(pretty_N_go_step x) by exact Hpos.
    rewrite IH by (apply N.div_lt; lia). rewrite string_app_cons. reflexivity.
  - replace x with 0%N by lia. rewrite !pretty_N_go_0. reflexivity.
Qed.

Lemma scan_digits_pretty_N_go (x : N) :
  forall s, (0 < x)%N ->
    scan_digits (pretty_N_go x s) None = scan_digits s (Some (Z.of_N x)).
Proof.
  induction x as [x IH] using (well_founded_induction N.lt_wf_0). intros s Hx.
  rewrite pretty_N_go_step by exact Hx.
  pose proof (N.div_mod x 10 ltac:(lia)) as Hdm.
  pose proof (N.mod_lt x 10 ltac:(lia)) as Hm.
  destruct (decide (0 < x `div` 10)%N) as [Hq|Hq].
  - rewrite IH by (try apply N.div_lt; lia).
    cbn [scan_digits]. rewrite digit_of_pretty_N_char by exact Hm.
    cbn. f_equal. f_equal. lia.
  - replace (x `div` 10)%N with 0%N in * by lia. rewrite pretty_N_go_0.
    cbn [scan_digits]. rewrite digit_of_pretty_N_char by exact Hm.
    cbn. f_equal. f_equal. lia.
Qed.

Lemma scan_digits_stop rest acc : no_digit_ahead rest -> scan_digits rest acc = acc.
Proof. destruct rest as [|c rest]; simpl; [reflexivity|]. intros ->. reflexivity. Qed.

Lemma scan_digits_pretty (n : Z) rest :
  0 <= n -> no_digit_ahead rest -> scan_digits (pretty n ++ rest) None = Some n.
Proof.
  intros Hn Hrest. destruct (Z.eq_dec n 0) as [->|Hne].
  - change (pretty 0) with "0"%string. rewrite string_app_cons, string_app_nil.
    cbn [scan_digits]. change (digit_of "0") with (Some 0). cbn.
    apply scan_digits_stop, Hrest.
  - rewrite pretty_Z_pos by lia. rewrite pretty_N_go_app, string_app_nil.
    rewrite scan_digits_pretty_N_go by lia.
    rewrite scan_digits_stop by exact Hrest. f_equal. lia.
Qed.

Lemma digit_not_space c d : digit_of c = Some d ->
  isspace c = false /\ Ascii.eqb c "-" = false /\ Ascii.eqb c "+" = false.
Proof.
  unfold digit_of, isspace. cbv zeta.
  destruct (decide (48 <= Z.of_nat (nat_of_ascii c) <= 57)) as [Hr|]; [|discriminate].
  intros _. split; [|split].
  - destruct (Nat.eqb_spec (nat_of_ascii c) 32); [lia|].
    destruct (Nat.leb_spec 9 (nat_of_ascii c)), (Nat.leb_spec (nat_of_ascii c) 13);
      simpl; try reflexivity; lia.
  - apply Ascii.eqb_neq. intros ->. vm_compute in Hr. destruct Hr as [H _].
    exact (H eq_refl).
  - apply Ascii.eqb_neq. intros ->. vm_compute in Hr. destruct Hr as [H _].
    exact (H eq_refl).
Qed.

Lemma sscanf_d_digits s v :
  scan_digits s None = Some v -> sscanf_d s = ScanInt (store_long_as_int v).
Proof.
  destruct s as [|c s]; [discriminate|]. intros Hscan.
  assert (Hd : exists d, digit_of c = Some d).
  { simpl in Hscan. destruct (digit_of c) as [d|]; [eauto | discriminate]. }
  destruct Hd as (d & Hd). destruct (digit_not_space c d Hd) as (Hsp & Hm & Hp).
  unfold sscanf_d. cbn [skip_space]. rewrite Hsp, Hm, Hp. rewrite Hscan. reflexivity.
Qed.

Lemma store_long_as_int_id v :
  Int32.min_signed <= v <= Int32.max_signed -> store_long_as_int v = v.
Proof.
  intros Hv. unfold store_long_as_int.
  unfold Int32.min_signed, Int32.max_signed in Hv.
  rewrite Z.min_l, Z.max_r by lia. apply Int32.wrap_id. int_range.
Qed.

Lemma skip_space_blank text : blank text -> skip_space text = EmptyString.
Proof.
  unfold blank. induction text as [|c text IH]; simpl; [reflexivity|].
  intros Hall. apply Forall_cons in Hall as [Hc Hall]. rewrite Hc. apply IH, Hall.
Qed.

Lemma skip_space_app space text :
  blank space -> skip_space (space ++ text) = skip_space text.
Proof.
  unfold blank. induction space as [|c space IH]; intros Hall.
  - rewrite string_app_nil. reflexivity.
  - rewrite string_app_cons. simpl in *.
    apply Forall_cons in Hall as [Hc Hall]. rewrite Hc. apply IH, Hall.
Qed.

(** White space before the number is skipped. *)
Lemma sscanf_d_skip space text :
  blank space -> sscanf_d (space ++ text) = sscanf_d text.
Proof. intros Hb. unfold sscanf_d. rewrite skip_space_app by exact Hb. reflexivity. Qed.

Lemma sscanf_d_decimal text n :
  Int32.min_signed <= n <= Int32.max_signed -> decimal_text text n ->
  sscanf_d text = ScanInt n.
Proof.
  intros Hn (space & sign & rest & Hblank & Hsign & -> & Hrest).
  rewrite sscanf_d_skip by exact Hblank.
  destruct Hsign as [-> | [-> Hpos]].
  - rewrite string_app_nil. destruct (Z_le_gt_dec 0 n) as [Hpos|Hneg].
    + rewrite (sscanf_d_digits _ n (scan_digits_pretty n rest Hpos Hrest)).
      rewrite store_long_as_int_id by exact Hn. reflexivity.
    + destruct n as [|p|p]; try lia.
      change (pretty (Z.neg p)) with ("-" ++ pretty (Z.pos p))%string.
      rewrite string_app_assoc.
      change ("-" ++ pretty (Z.pos p) ++ rest)%string
        with (String "-" (pretty (Z.pos p) ++ rest)).
      unfold sscanf_d. cbn [skip_space]. change (isspace "-") with false. cbv iota.
      change (Ascii.eqb "-" "-") with true. cbv iota beta.
      rewrite (scan_digits_pretty (Z.pos p) rest ltac:(lia) Hrest).
      change (- Z.pos p) with (Z.neg p).
      rewrite store_long_as_int_id by exact Hn. reflexivity.
  - change ("+" ++ pretty n ++ rest)%string with (String "+" (pretty n ++ rest)).
    unfold sscanf_d. cbn [skip_space]. change (isspace "+") with false. cbv iota.
    change (Ascii.eqb "+" "-") with false. change (Ascii.eqb "+" "+") with true.
    cbv iota beta.
    rewrite (scan_digits_pretty n rest Hpos Hrest).
    rewrite store_long_as_int_id by exact Hn. reflexivity.
Qed.

Lemma sscanf_d_blank text : blank text -> sscanf_d text = ScanEOF.
Proof. intros Hb. unfold sscanf_d. rewrite skip_space_blank by exact Hb. reflexivity. Qed.

Lemma sscanf_d_not_a_number text : not_a_number text -> sscanf_d text = ScanNoMatch.
Proof.
  intros (space & c & rest & Hblank & -> & Hsp & Hd & Hm & Hp).
  rewrite sscanf_d_skip by exact Hblank.
  unfold sscanf_d. cbn [skip_space]. rewrite Hsp.
  apply Ascii.eqb_neq in Hm, Hp. rewrite Hm, Hp. cbn [scan_digits]. rewrite Hd.
  reflexivity.
Qed.

(** What [resolve_samples] returns, by the text of the attribute. *)
Lemma resolve_samples_override samples in_spec name :
  1 <= samples -> resolve_samples samples in_spec name = Ok samples.
Proof.
  intros Hs. unfold resolve_samples. destruct (decide (samples < 1)); [lia | reflexivity].
Qed.

Lemma resolve_samples_decimal samples in_spec name n :
  samples < 1 -> Int32.min_signed <= n <= Int32.max_signed ->
  decimal_text (get_string_attribute (ImageSpec.string_attributes in_spec)
                  ("cycles." ++ name ++ ".samples")) n ->
  resolve_samples samples in_spec name = Ok n.
Proof.
  intros Hs Hn Hdec. pose proof (sscanf_d_decimal _ n Hn Hdec) as Hscan.
  unfold resolve_samples. destruct (decide (samples < 1)); [|lia].
  cbv zeta. rewrite Hscan.
  destruct (decide (_ <> EmptyString)) as [_|He].
  - cbn. reflexivity.
  - exfalso. apply He. intros Hempty. rewrite Hempty in Hscan. discriminate.
Qed.

Lemma resolve_samples_blank samples in_spec name :
  samples < 1 ->
  blank (get_string_attribute (ImageSpec.string_attributes in_spec)
           ("cycles." ++ name ++ ".samples")) ->
  resolve_samples samples in_spec name = Ok samples.
Proof.
  intros Hs Hb. unfold resolve_samples. destruct (decide (samples < 1)); [|lia].
  cbv zeta. rewrite (sscanf_d_blank _ Hb).
  destruct (decide (_ <> EmptyString)); reflexivity.
Qed.

Lemma resolve_samples_not_a_number samples in_spec name :
  samples < 1 ->
  not_a_number (get_string_attribute (ImageSpec.string_attributes in_spec)
                  ("cycles." ++ name ++ ".samples")) ->
  resolve_samples samples in_spec name
  = Error ("Failed to parse samples metadata: " ++
           get_string_attribute (ImageSpec.string_attributes in_spec)
             ("cycles." ++ name ++ ".samples"))%string.
Proof.
  intros Hs Hnan. unfold resolve_samples. destruct (decide (samples < 1)); [|lia].
  cbv zeta. rewrite (sscanf_d_not_a_number _ Hnan).
  destruct (decide (_ <> EmptyString)) as [_|He]; [reflexivity|].
  exfalso. apply He. destruct Hnan as (space & c & rest & _ & -> & _).
  destruct space; discriminate.
Qed.

(** The layers with their sample counts. *)
Definition with_samples (count : string -> Z)
  (detected_layers : list (string * DenoiseImageLayer.t)) : list DenoiseImageLayer.t :=
  map (fun kv => set_name_samples kv.2 kv.1 (count kv.1)) detected_layers.

Lemma collect_layers_all_Ok samples in_spec (count : string -> Z) file_layers :
  forall acc,
    (forall kv, In kv (detected file_layers) ->
       resolve_samples samples in_spec kv.1 = Ok (count kv.1) /\ 1 <= count kv.1) ->
    collect_layers samples in_spec file_layers acc
    = Ok (acc ++ with_samples count (detected file_layers)).
Proof.
  induction file_layers as [|[name layer] fl IH]; intros acc Hgood; simpl.
  - rewrite app_nil_r. reflexivity.
  - simpl in Hgood.
    destruct (detect_denoising_channels layer) as [layer'|] eqn:Hdet; simpl in *.
    + destruct (Hgood (name, layer') ltac:(left; reflexivity)) as [Hres Hn].
      cbn [fst snd] in Hres, Hn. rewrite Hres.
      destruct (decide (count name < 1)); [lia|].
      rewrite IH by (intros kv Hin; apply Hgood; right; exact Hin).
      rewrite <- app_assoc. reflexivity.
    + apply IH, Hgood.
Qed.

Lemma collect_layers_first_bad samples in_spec (count : string -> Z) file_layers :
  forall acc before kv after,
    detected file_layers = before ++ kv :: after ->
    (forall kv', In kv' before ->
       resolve_samples samples in_spec kv'.1 = Ok (count kv'.1) /\ 1 <= count kv'.1) ->
    (forall e, resolve_samples samples in_spec kv.1 = Error e ->
       collect_layers samples in_spec file_layers acc = Error e) /\
    (forall n, resolve_samples samples in_spec kv.1 = Ok n -> n < 1 ->
       collect_layers samples in_spec file_layers acc
       = Error ("No sample number specified in the file for layer " ++ kv.1
                ++ " or on the command line")%string).
Proof.
  induction file_layers as [|[name layer] fl IH]; intros acc before kv after Hsplit Hgood;
    simpl in *.
  - destruct before; discriminate.
  - destruct (detect_denoising_channels layer) as [layer'|] eqn:Hdet; simpl in *.
    + destruct before as [|b before]; simpl in Hsplit.
      * injection Hsplit as <- _. cbn [fst]. split.
        -- intros e ->. reflexivity.
        -- intros n -> Hn. destruct (decide (n < 1)); [reflexivity | lia].
      * injection Hsplit as <- Hsplit.
        destruct (Hgood (name, layer') ltac:(left; reflexivity)) as [Hres Hn].
        cbn [fst snd] in Hres, Hn. rewrite Hres.
        destruct (decide (count name < 1)); [lia|].
        apply (IH _ before kv after Hsplit).
        intros kv' Hin. apply Hgood. right. exact Hin.
    + apply (IH _ before kv after Hsplit Hgood).
Qed.

Section SampleCounts.
Context {F : Type} `{!Inhabited F}.

(** C8: for the layers that pass channel detection, in the order of the
    map.  With a positive task-level override every such layer gets the
    override as its sample count and [parse_channels] succeeds.  Otherwise
    the count of a layer is the decimal integer at the head of its
    attribute [cycles.<layer>.samples]: when every layer has one between 1
    and the largest [int], [parse_channels] succeeds with these counts.  At
    the first layer whose attribute does not start with a number
    [parse_channels] fails with "Failed to parse samples metadata: ..."; at
    the first layer whose attribute is missing, blank or a number below 1
    it fails with "No sample number specified in the file for layer ...";
    and the load of the frame fails with the same error.  Conversely every
    success gives each layer a count of at least 1 which is the override
    or the integer scanned from the attribute, and a detected layer
    without a count makes the parse fail: it is never dropped. *)
Theorem parse_channels_samples samples in_spec :
  let file_layers :=
    group_channels (ImageSpec.channelnames in_spec) 0
      (multiview_channels_of in_spec) [] in
  let attr name :=
    get_string_attribute (ImageSpec.string_attributes in_spec)
      ("cycles." ++ name ++ ".samples")%string in
  let fails e :=
    parse_channels samples in_spec = Error e /\
    forall path data, @image_load F samples path (Opened in_spec data) = Error e in
  (* the positive override *)
  (1 <= samples ->
   parse_channels samples in_spec
   = Ok (with_samples (fun _ => samples) (detected file_layers))) /\
  (* the attribute, read as a decimal integer *)
  (samples < 1 -> forall count : string -> Z,
     (forall kv, In kv (detected file_layers) ->
        1 <= count kv.1 <= Int32.max_signed /\ decimal_text (attr kv.1) (count kv.1)) ->
     parse_channels samples in_spec = Ok (with_samples count (detected file_layers))) /\
  (* the first layer whose count is missing or unparsable *)
  (samples < 1 -> forall (count : string -> Z) before kv after,
     detected file_layers = before ++ kv :: after ->
     (forall kv', In kv' before ->
        1 <= count kv'.1 <= Int32.max_signed /\
        decimal_text (attr kv'.1) (count kv'.1)) ->
     (not_a_number (attr kv.1) ->
        fails ("Failed to parse samples metadata: " ++ attr kv.1)%string) /\
     (blank (attr kv.1) \/
      (exists n, Int32.min_signed <= n < 1 /\ decimal_text (attr kv.1) n) ->
        fails ("No sample number specified in the file for layer " ++ kv.1
               ++ " or on the command line")%string)) /\
  (* every success is one of these *)
  (forall layers, parse_channels samples in_spec = Ok layers ->
     Forall2 (fun kv layer =>
                layer = set_name_samples kv.2 kv.1 (DenoiseImageLayer.samples layer) /\
                1 <= DenoiseImageLayer.samples layer /\
                (1 <= samples -> DenoiseImageLayer.samples layer = samples) /\
                (samples < 1 ->
                   attr kv.1 <> EmptyString /\
                   sscanf_d (attr kv.1) = ScanInt (DenoiseImageLayer.samples layer)))
             (detected file_layers) layers) /\
  (* and a layer without a count is never dropped *)
  (forall kv, In kv (detected file_layers) -> samples < 1 ->
     attr kv.1 = EmptyString \/
     (forall n, sscanf_d (attr kv.1) = ScanInt n -> n < 1) ->
     exists e, fails e /\ samples_error in_spec e).
Proof.
  intros file_layers attr fails.
  assert (Hfails : forall e, parse_channels samples in_spec = Error e -> fails e).
  { intros e Hrun. split; [exact Hrun|]. intros path data.
    unfold image_load. rewrite Hrun. reflexivity. }
  assert (Hgood : forall (count : string -> Z) (kv : string * DenoiseImageLayer.t),
            samples < 1 ->
            1 <= count kv.1 <= Int32.max_signed /\ decimal_text (attr kv.1) (count kv.1) ->
            resolve_samples samples in_spec kv.1 = Ok (count kv.1) /\ 1 <= count kv.1).
  { intros count kv Hs [Hc Hdec]. split; [|lia].
    apply resolve_samples_decimal; [exact Hs | unfold Int32.min_signed; lia | exact Hdec]. }
  split; [|split; [|split; [|split]]].
  - intros Hs. unfold parse_channels. fold file_layers.
    rewrite (collect_layers_all_Ok samples in_spec (fun _ => samples)); [reflexivity|].
    intros kv _. split; [apply resolve_samples_override, Hs | exact Hs].
  - intros Hs count Hall. unfold parse_channels. fold file_layers.
    rewrite (collect_layers_all_Ok samples in_spec count); [reflexivity|].
    intros kv Hin. apply Hgood; [exact Hs | apply Hall, Hin].
  - intros Hs count before kv after Hsplit Hbefore.
    destruct (collect_layers_first_bad samples in_spec count file_layers [] before kv after
                Hsplit) as [Herr Hlow].
    { intros kv' Hin. apply Hgood; [exact Hs | apply Hbefore, Hin]. }
    split.
    + intros Hnan. apply Hfails. unfold parse_channels. fold file_layers.
      apply Herr. apply resolve_samples_not_a_number; assumption.
    + intros [Hblank | (n & Hn & Hdec)]; apply Hfails; unfold parse_channels;
        fold file_layers.
      * apply (Hlow samples); [apply resolve_samples_blank; assumption | exact Hs].
      * apply (Hlow n); [|lia].
        apply resolve_samples_decimal;
          [exact Hs | unfold Int32.max_signed; lia | exact Hdec].
  - intros layers Hrun.
    destruct (parse_channels_Ok _ _ _ Hrun) as (_ & _ & Hret).
    fold file_layers in Hret.
    eapply Forall2_impl; [exact Hret|].
    intros [name layer0] layer (smp & Hres & Hsmp & ->). cbn [fst snd] in *.
    cbn [DenoiseImageLayer.samples set_name_samples].
    split; [reflexivity|]. split; [exact Hsmp|].
    unfold resolve_samples in Hres. fold (attr name) in Hres.
    destruct (decide (samples < 1)) as [Hlt|Hge].
    + split; [lia|]. intros _.
      destruct (decide (attr name <> EmptyString)) as [Hne|He];
        [|injection Hres as <-; lia].
      split; [exact Hne|]. cbv zeta in Hres.
      destruct (decide (sscanf_return (sscanf_d (attr name)) = 0)) as [Hz|Hnz];
        [discriminate|].
      destruct (sscanf_d (attr name)) as [| |m];
        [injection Hres as <-; lia | contradiction | injection Hres as <-; reflexivity].
    + injection Hres as <-. split; [reflexivity | lia].
  - intros kv Hin Hlt Hcase.
    assert (Hbad : forall n, resolve_samples samples in_spec kv.1 = Ok n -> n < 1).
    { intros n Hres. unfold resolve_samples in Hres. fold (attr kv.1) in Hres.
      destruct (decide (samples < 1)); [|lia].
      destruct (decide (attr kv.1 <> EmptyString)) as [Hne|He];
        [|injection Hres as <-; lia].
      destruct Hcase as [He|Hscan]; [contradiction|]. cbv zeta in Hres.
      destruct (decide (sscanf_return (sscanf_d (attr kv.1)) = 0)) as [Hz|Hnz];
        [discriminate|].
      destruct (sscanf_d (attr kv.1)) as [| |m];
        [injection Hres as <-; lia | contradiction |].
      injection Hres as <-. apply Hscan. reflexivity. }
    destruct (collect_layers_Error samples in_spec file_layers []
                (ex_intro _ kv (conj Hin Hbad))) as (e & Hrun & Herr).
    exists e. split; [apply Hfails, Hrun | exact Herr].
Qed.

End SampleCounts.

(** ** The viewport parameters

    [BlenderViewportParameters] is the snapshot of the shading settings of a
    3D viewport.  The viewport [b_v3d] may be absent; its shading is read
    through the accessors of [BL::View3DShading]. *)

Module View3DShading.
Record t (F : Type) := mk {
  type : Z;
  use_scene_world_render : bool;
  use_scene_lights_render : bool;
  studiolight_rotate_z : F;
  studiolight_intensity : F;
  studiolight_background_alpha : F;
  selected_studio_light_path : string
}.
Arguments mk {F}.
Arguments type {F}.
Arguments use_scene_world_render {F}.
Arguments use_scene_lights_render {F}.
Arguments studiolight_rotate_z {F}.
Arguments studiolight_intensity {F}.
Arguments studiolight_background_alpha {F}.
Arguments selected_studio_light_path {F}.
End View3DShading.

Module BlenderViewportParameters.
Record t (F : Type) := mk {
  use_scene_world : bool;
  use_scene_lights : bool;
  studiolight_rotate_z : F;
  studiolight_intensity : F;
  studiolight_background_alpha : F;
  studiolight_path : string
}.
Arguments mk {F}.
Arguments use_scene_world {F}.
Arguments use_scene_lights {F}.
Arguments studiolight_rotate_z {F}.
Arguments studiolight_intensity {F}.
Arguments studiolight_background_alpha {F}.
Arguments studiolight_path {F}.
End BlenderViewportParameters.

Section ViewportParameters.
Context {F : Type}.
(** The literals [0.0f] and [1.0f], [!=] on [float], and the enumerator
    [BL::View3DShading::type_RENDERED]. *)
Variables f0 f1 : F.
Variable fneq : F -> F -> bool.
Variable type_RENDERED : Z.

(** [BlenderViewportParameters::BlenderViewportParameters()] *)
Definition default_parameters : BlenderViewportParameters.t F :=
  BlenderViewportParameters.mk true true f0 f1 f1 "".

(** [BlenderViewportParameters::BlenderViewportParameters(b_v3d)] *)
Definition parameters_of_view (b_v3d : option (View3DShading.t F))
  : BlenderViewportParameters.t F :=
  let this := default_parameters in
  match b_v3d with
  | None => this
  | Some shading =>
    if negb (View3DShading.type shading =? type_RENDERED) then this
    else
      let use_scene_world := View3DShading.use_scene_world_render shading in
      let use_scene_lights := View3DShading.use_scene_lights_render shading in
      if negb use_scene_world then
        BlenderViewportParameters.mk use_scene_world use_scene_lights
          (View3DShading.studiolight_rotate_z shading)
          (View3DShading.studiolight_intensity shading)
          (View3DShading.studiolight_background_alpha shading)
          (View3DShading.selected_studio_light_path shading)
      else
        BlenderViewportParameters.mk use_scene_world use_scene_lights
          (BlenderViewportParameters.studiolight_rotate_z this)
          (BlenderViewportParameters.studiolight_intensity this)
          (BlenderViewportParameters.studiolight_background_alpha this)
          (BlenderViewportParameters.studiolight_path this)
  end.

(** [BlenderViewportParameters::shader_modified] *)
Definition shader_modified (this other : BlenderViewportParameters.t F) : bool :=
  negb (Bool.eqb (BlenderViewportParameters.use_scene_world this)
                 (BlenderViewportParameters.use_scene_world other))
  || negb (Bool.eqb (BlenderViewportParameters.use_scene_lights this)
                    (BlenderViewportParameters.use_scene_lights other))
  || fneq (BlenderViewportParameters.studiolight_rotate_z this)
          (BlenderViewportParameters.studiolight_rotate_z other)
  || fneq (BlenderViewportParameters.studiolight_intensity this)
          (BlenderViewportParameters.studiolight_intensity other)
  || fneq (BlenderViewportParameters.studiolight_background_alpha this)
          (BlenderViewportParameters.studiolight_background_alpha other)
  || negb (String.eqb (BlenderViewportParameters.studiolight_path this)
                      (BlenderViewportParameters.studiolight_path other)).

(** [BlenderViewportParameters::use_custom_shader] *)
Definition use_custom_shader (this : BlenderViewportParameters.t F) : bool :=
  negb (BlenderViewportParameters.use_scene_world this
        && BlenderViewportParameters.use_scene_lights this).

Lemma parameters_of_view_default (b_v3d : option (View3DShading.t F)) :
  use_custom_shader (parameters_of_view b_v3d) = false ->
  parameters_of_view b_v3d = default_parameters.
Proof.
  unfold parameters_of_view, use_custom_shader.
  destruct b_v3d as [shading|]; [|reflexivity].
  destruct (negb (View3DShading.type shading =? type_RENDERED)); [reflexivity|].
  destruct (View3DShading.use_scene_world_render shading),
           (View3DShading.use_scene_lights_render shading);
    cbn; intros Hc; first [discriminate | reflexivity].
Qed.

(** X26: a snapshot needs no custom shader exactly when it is the default
    snapshot.  A missing viewport and a viewport that is not in rendered mode
    give the default snapshot, and while the scene world is used the studio
    light settings of the viewport are not copied: they keep their
    defaults. *)
Theorem viewport_parameters_custom_shader (b_v3d : option (View3DShading.t F)) :
  let p := parameters_of_view b_v3d in
  (use_custom_shader p = false <-> p = default_parameters) /\
  (forall shading, b_v3d = Some shading ->
     View3DShading.type shading <> type_RENDERED -> p = default_parameters) /\
  (forall shading, b_v3d = Some shading ->
     View3DShading.type shading = type_RENDERED ->
     BlenderViewportParameters.use_scene_world p
     = View3DShading.use_scene_world_render shading /\
     BlenderViewportParameters.use_scene_lights p
     = View3DShading.use_scene_lights_render shading) /\
  (BlenderViewportParameters.use_scene_world p = true ->
     BlenderViewportParameters.studiolight_rotate_z p = f0 /\
     BlenderViewportParameters.studiolight_intensity p = f1 /\
     BlenderViewportParameters.studiolight_background_alpha p = f1 /\
     BlenderViewportParameters.studiolight_path p = ""%string).
Proof.
  intros p. split; [|split; [|split]].
  - split; [apply parameters_of_view_default|].
    intros Hp. rewrite Hp. reflexivity.
  - intros shading -> Hty. unfold p, parameters_of_view.
    apply Z.eqb_neq in Hty. rewrite Hty. reflexivity.
  - intros shading -> Hty. unfold p, parameters_of_view.
    apply Z.eqb_eq in Hty. rewrite Hty. cbn [negb].
    destruct (View3DShading.use_scene_world_render shading); cbn; auto.
  - unfold p, parameters_of_view. destruct b_v3d as [shading|]; [|cbn; auto].
    destruct (negb (View3DShading.type shading =? type_RENDERED)); [cbn; auto|].
    destruct (View3DShading.use_scene_world_render shading); cbn; auto.
    discriminate.
Qed.

(** X27: when [0.0f != 0.0f] and [1.0f != 1.0f] are false, two snapshots
    that need no custom shader are never reported as a modified shader,
    whatever the studio light settings of their viewports; and a snapshot
    that needs a custom shader is always reported as modified against one
    that does not. *)
Theorem shader_modified_custom (a b : option (View3DShading.t F)) :
  fneq f0 f0 = false -> fneq f1 f1 = false ->
  use_custom_shader (parameters_of_view b) = false ->
  shader_modified (parameters_of_view a) (parameters_of_view b)
  = use_custom_shader (parameters_of_view a).
Proof.
  intros H0 H1 Hb. rewrite (parameters_of_view_default b Hb).
  destruct (use_custom_shader (parameters_of_view a)) eqn:Ha.
  - unfold use_custom_shader in Ha. unfold shader_modified.
    cbn [default_parameters BlenderViewportParameters.use_scene_world
         BlenderViewportParameters.use_scene_lights].
    destruct (BlenderViewportParameters.use_scene_world (parameters_of_view a)),
             (BlenderViewportParameters.use_scene_lights (parameters_of_view a));
      first [discriminate | reflexivity].
  - rewrite (parameters_of_view_default a Ha). unfold shader_modified. cbn.
    rewrite H0, H1. reflexivity.
Qed.

End ViewportParameters.


(** ** The claims on concrete frames

    The interpretation of [float] used for concrete runs is exact rational
    arithmetic; the values below are small integers, on which binary
    floating point computes the same results. *)

#[global] Instance Q_inhabited : Inhabited Q := populate 0%Q.

#[global] Instance Q_float : FloatOps Q :=
  {| fzero := 0%Q;
     fadd := Qplus;
     fdiv := Qdiv;
     float_of_int := inject_Z;
     fclamp := fun q => if Qle_bool q (-100000000) then (-100000000)%Q
                        else if Qle_bool 100000000 q then 100000000%Q else q |}.

Lemma Q_add_zero (v : Q) : fadd fzero v = v.
Proof.
  destruct v as [a b]. cbn. unfold Qplus. cbn. f_equal. lia.
Qed.

Lemma Q_div_one (v : Q) : fdiv v (float_of_int 1) = v.
Proof.
  destruct v as [a b]. cbn. unfold Qdiv, Qmult, Qinv. cbn.
  f_equal; [lia | apply Pos.mul_1_r].
Qed.

(** The 18 channel names of a complete layer [l]. *)
Definition full_layer (l : string) : list string :=
  map (fun m => (l ++ "." ++ ChannelMapping.name m)%string)
      (output_channels ++ input_channels).

(** A 3x2 frame with one complete layer "L" of 16 samples; float [i] of the
    pixel buffer holds the number [i]. *)
Definition ex_spec : ImageSpec.t :=
  ImageSpec.mk 3 2 18 (full_layer "L") None [("cycles.L.samples", "16")%string].

Definition ex_pixels : list Q := map inject_Z (seqZ 0 108).

Definition ex_layer : DenoiseImageLayer.t :=
  {| DenoiseImageLayer.name := "L";
     DenoiseImageLayer.channels := map ChannelMapping.name (output_channels ++ input_channels);
     DenoiseImageLayer.layer_to_image_channel := seqZ 0 18;
     DenoiseImageLayer.input_to_image_channel := seqZ 3 15;
     DenoiseImageLayer.output_to_image_channel := seqZ 0 3;
     DenoiseImageLayer.neighbor_input_to_image_channel := [];
     DenoiseImageLayer.samples := 16 |}.

Definition ex_image : DenoiseImage Q :=
  mkImage 3 2 18 0 ex_pixels ex_spec [ex_layer] [].

Example ex_image_loaded :
  image_load 0 "in.exr" (Opened ex_spec (Some ex_pixels)) = Ok ex_image.
Proof. vm_compute. reflexivity. Qed.

(** 2x2 tiles, blur radius 1, no clamping, samples from the metadata. *)
Definition ex_denoiser : Denoiser.t := Denoiser.mk 0 2 2 1 false 0 1.

Definition ex_task : DenoiseTask Q := mkTask 0 [] ex_image 0 [] 0 [] ∅.

(** The second tile of the frame, [(2, 0)] of size [1 x 2]. *)
Definition ex_center : RenderTile.t :=
  RenderTile.mk 2 0 1 2 0 16 0 0 3 1 DENOISE input_pixels_ptr.

Definition ex_tiles : list RenderTile.t :=
  store (replicate 10 inhabitant) 4 ex_center.

Example ex_center_created :
  load (tiles (create_task ex_denoiser ex_task).2) 1 = ex_center.
Proof. vm_compute. reflexivity. Qed.

Lemma ex_image_wf : image_wf ex_image.
Proof.
  unfold image_wf, Int32.max_signed. cbn [width height num_channels pixels ex_image].
  repeat split; lia.
Qed.

Lemma ex_center_in_image : tile_in_image ex_image ex_center.
Proof. unfold tile_in_image. cbn. lia. Qed.

Lemma ex_output_in_range :
  channels_in_range 18 OUTPUT_NUM_CHANNELS (seqZ 0 3).
Proof.
  intros k Hk. unfold OUTPUT_NUM_CHANNELS in Hk.
  assert (Hc : k = 0 \/ k = 1 \/ k = 2) by lia.
  destruct Hc as [-> | [-> | ->]]; (vm_compute; split; [discriminate | reflexivity]).
Qed.

Lemma ex_output_distinct : channels_distinct OUTPUT_NUM_CHANNELS (seqZ 0 3).
Proof.
  intros k k' Hk Hk'. unfold OUTPUT_NUM_CHANNELS in *.
  assert (Hc : k = 0 \/ k = 1 \/ k = 2) by lia.
  assert (Hc' : k' = 0 \/ k' = 1 \/ k' = 2) by lia.
  destruct Hc as [-> | [-> | ->]], Hc' as [-> | [-> | ->]]; vm_compute; auto.
Qed.

Lemma ex_noisy_in_range :
  forall k, 0 <= k < OUTPUT_NUM_CHANNELS ->
    0 <= load (seqZ 3 15) (INPUT_NOISY_IMAGE + k) < 18.
Proof.
  intros k Hk. unfold OUTPUT_NUM_CHANNELS in Hk.
  assert (Hc : k = 0 \/ k = 1 \/ k = 2) by lia.
  destruct Hc as [-> | [-> | ->]]; (vm_compute; split; [discriminate | reflexivity]).
Qed.

(** Closed numeric side conditions. *)
Ltac by_computation :=
  vm_compute; repeat split; first [reflexivity | discriminate].

(** *** Tiling of the 3x2 frame with 2x2 tiles *)

Lemma create_task_tiling_witness :
  (1 <= width (image ex_task) <= Int32.max_signed /\
   1 <= height (image ex_task) <= Int32.max_signed /\
   1 <= Denoiser.tile_size_x ex_denoiser <= Int32.max_signed /\
   1 <= Denoiser.tile_size_y ex_denoiser <= Int32.max_signed) /\
  Z.of_nat (length (tiles (create_task ex_denoiser ex_task).2)) = 2 * 1 /\
  (forall px py, 0 <= px < 3 -> 0 <= py < 2 ->
     exists n, 0 <= n < 2 * 1 /\
       in_tile (load (tiles (create_task ex_denoiser ex_task).2) n) px py /\
       forall m, 0 <= m < 2 * 1 ->
         in_tile (load (tiles (create_task ex_denoiser ex_task).2) m) px py -> m = n).
Proof.
  assert (HW : 1 <= width (image ex_task) <= Int32.max_signed)
    by (unfold Int32.max_signed; cbn; lia).
  assert (HH : 1 <= height (image ex_task) <= Int32.max_signed)
    by (unfold Int32.max_signed; cbn; lia).
  assert (Htw : 1 <= Denoiser.tile_size_x ex_denoiser <= Int32.max_signed)
    by (unfold Int32.max_signed; cbn; lia).
  assert (Hth : 1 <= Denoiser.tile_size_y ex_denoiser <= Int32.max_signed)
    by (unfold Int32.max_signed; cbn; lia).
  destruct (create_task_tiling ex_denoiser ex_task HW HH Htw Hth)
    as (_ & Hlen & _ & _ & _ & Hcover & _).
  split; [exact (conj HW (conj HH (conj Htw Hth)))|].
  split; [exact Hlen | exact Hcover].
Defined.

(** *** Unmapping the tile [(2, 0)] of size [1 x 2] *)

Definition ex_out_buffer : list Q := map inject_Z (seqZ 100 6).

Definition ex_unmap_task : DenoiseTask Q :=
  mkTask 0 [] ex_image 0 [] 2 [] {[ 1 := ex_out_buffer ]}.

Definition ex_unmap_tiles : list RenderTile.t := store ex_tiles 9 ex_center.

Lemma unmap_neighboring_tiles_frame_witness :
  (image_wf ex_image /\ tile_in_image ex_image ex_center /\
   output_pixels ex_unmap_task !! 1 = Some ex_out_buffer) /\
  exists t',
    unmap_neighboring_tiles ex_unmap_task ex_unmap_tiles = Some t' /\
    (* pixel (2, 1), slot 2 *)
    load (pixels (image t')) (((0 + 1) * 3 + (2 + 0)) * 18 + load (seqZ 0 3) 2)
    = load ex_out_buffer ((1 * 1 + 0) * 3 + 2) /\
    (* pixel (0, 0), outside the tile *)
    zlookup (pixels (image t')) ((0 * 3 + 0) * 18 + 1)
    = zlookup ex_pixels ((0 * 3 + 0) * 18 + 1) /\
    (* pixel (2, 1), a channel that is not an output channel *)
    zlookup (pixels (image t')) ((1 * 3 + 2) * 18 + 7)
    = zlookup ex_pixels ((1 * 3 + 2) * 18 + 7).
Proof.
  assert (Hreg : output_pixels ex_unmap_task !! RenderTile.tile_index (load ex_unmap_tiles 9)
                 = Some ex_out_buffer) by (vm_compute; reflexivity).
  destruct (unmap_neighboring_tiles_frame ex_unmap_task ex_unmap_tiles ex_out_buffer
              ex_image_wf ex_center_in_image ex_output_in_range ex_output_distinct
              eq_refl Hreg)
    as (t' & Hrun & _ & Hin & _ & Hrect).
  split; [split; [exact ex_image_wf | split; [exact ex_center_in_image | exact Hreg]]|].
  exists t'. split; [exact Hrun|]. split; [|split].
  - apply (Hin 0 1 2); by_computation.
  - apply (Hrect 0 0 1); [by_computation | by_computation |].
    left. intros [Hx _]. revert Hx. vm_compute. intros [H _]. apply H. reflexivity.
  - apply (Hrect 2 1 7); [by_computation | by_computation |].
    right. intros k Hk. assert (Hc : k = 0 \/ k = 1 \/ k = 2) by lia.
    destruct Hc as [-> | [-> | ->]]; vm_compute; discriminate.
Defined.

(** *** Mapping the same tile: geometry and seeding *)

Lemma map_neighboring_tiles_geometry_witness :
  (length ex_tiles = 10%nat /\
   RenderTile.x ex_center + 2 * Denoiser.tile_size_x ex_denoiser <= Int32.max_signed /\
   RenderTile.y ex_center + 2 * Denoiser.tile_size_y ex_denoiser <= Int32.max_signed) /\
  (* the neighbour to the right is off-image: x = W, w = 0 *)
  RenderTile.x (load (map_neighboring_tiles ex_denoiser ex_task ex_tiles).1 5) = 3 /\
  RenderTile.w (load (map_neighboring_tiles ex_denoiser ex_task ex_tiles).1 5) = 0 /\
  (* the neighbour to the left is the first tile of the frame *)
  RenderTile.x (load (map_neighboring_tiles ex_denoiser ex_task ex_tiles).1 3) = 0 /\
  RenderTile.w (load (map_neighboring_tiles ex_denoiser ex_task ex_tiles).1 3) = 2 /\
  RenderTile.stride (load (map_neighboring_tiles ex_denoiser ex_task ex_tiles).1 9) = 1 /\
  RenderTile.offset (load (map_neighboring_tiles ex_denoiser ex_task ex_tiles).1 9) = -2.
Proof.
  assert (Hlen : length ex_tiles = 10%nat) by reflexivity.
  assert (Hx : RenderTile.x (load ex_tiles 4) + 2 * Denoiser.tile_size_x ex_denoiser
               <= Int32.max_signed) by by_computation.
  assert (Hy : RenderTile.y (load ex_tiles 4) + 2 * Denoiser.tile_size_y ex_denoiser
               <= Int32.max_signed) by by_computation.
  destruct (map_neighboring_tiles_geometry ex_denoiser ex_task ex_tiles Hlen
              ltac:(by_computation) ltac:(by_computation)
              ltac:(by_computation) ltac:(by_computation) Hx
              ltac:(by_computation) ltac:(by_computation) Hy
              ltac:(by_computation) ltac:(by_computation) ltac:(by_computation))
    as (Hnb & _ & H9 & _).
  split; [exact (conj Hlen (conj Hx Hy))|].
  destruct (Hnb 5 ltac:(lia) ltac:(lia)) as (Ex5 & Ew5 & _).
  destruct (Hnb 3 ltac:(lia) ltac:(lia)) as (Ex3 & Ew3 & _).
  rewrite Ew5, Ex5, Ew3, Ex3, H9. by_computation.
Defined.

Lemma map_neighboring_tiles_seeds_output_witness :
  (length ex_tiles = 10%nat /\ image_wf ex_image /\ tile_in_image ex_image ex_center) /\
  exists out_buffer,
    output_pixels (map_neighboring_tiles ex_denoiser ex_task ex_tiles).2 !! 1
    = Some out_buffer /\
    Z.of_nat (length out_buffer) = 3 * 1 * 2 /\
    exists t',
      unmap_neighboring_tiles (map_neighboring_tiles ex_denoiser ex_task ex_tiles).2
        (map_neighboring_tiles ex_denoiser ex_task ex_tiles).1 = Some t' /\
      (* pixel (2, 1): combined B receives noisy image B *)
      load (pixels (image t')) (((0 + 1) * 3 + (2 + 0)) * 18 + load (seqZ 0 3) 2)
      = load ex_pixels (((0 + 1) * 3 + (2 + 0)) * 18
                        + load (seqZ 3 15) (INPUT_NOISY_IMAGE + 2)).
Proof.
  assert (Hlen : length ex_tiles = 10%nat) by reflexivity.
  destruct (map_neighboring_tiles_seeds_output ex_denoiser ex_task ex_tiles Hlen
              ex_image_wf ex_center_in_image ltac:(by_computation)
              ex_noisy_in_range ex_output_in_range ex_output_distinct)
    as (out & Hreg & Hsize & _ & t' & Hrun & Hback).
  split; [exact (conj Hlen (conj ex_image_wf ex_center_in_image))|].
  exists out. split; [exact Hreg|]. split; [exact Hsize|].
  exists t'. split; [exact Hrun|].
  apply (Hback 0 1 2); by_computation.
Defined.

(** *** The blur on a one-row slab *)

(** Six pixels in a row; the intensity is 6 at the last pixel and 0
    elsewhere. *)
Definition ex_slab : list Q :=
  map (fun i => if decide (i = 89) then 6%Q else 0%Q) (seqZ 0 90).

Lemma ex_blur_wf : blur_wf (5 * Denoiser.radius ex_denoiser) 6 1.
Proof. unfold blur_wf, INPUT_NUM_CHANNELS, Int32.max_signed. cbn. lia. Qed.

Lemma box_blur_windows_witness :
  (blur_wf (5 * Denoiser.radius ex_denoiser) 6 1 /\
   0 + INPUT_NUM_CHANNELS * (6 * 1) <= Z.of_nat (length ex_slab)) /\
  (* the window of pixel (0, 0) holds the columns 0 .. 5 *)
  window (Z.max (0 - 5) 0) (Z.min (0 + 5 + 1) 6) = [0; 1; 2; 3; 4; 5] /\
  Z.of_nat (length (window (Z.max (0 - 5) 0) (Z.min (0 + 5 + 1) 6))) = 6 - 0 /\
  Qeq_bool (load (box_blur ex_denoiser 6 1 0 ex_slab)
              (0 + INPUT_DENOISING_INTENSITY + INPUT_NUM_CHANNELS * (0 * 6 + 0)))
           1 = true.
Proof.
  assert (Hlen : 0 + INPUT_NUM_CHANNELS * (6 * 1) <= Z.of_nat (length ex_slab))
    by by_computation.
  destruct (box_blur_windows ex_denoiser 6 1 0 ex_slab ex_blur_wf
              ltac:(lia) Hlen 0 0 ltac:(lia) ltac:(lia))
    as (_ & Hcx & Hout & _).
  split; [exact (conj ex_blur_wf Hlen)|].
  split; [reflexivity|]. split; [exact Hcx|].
  rewrite Hout. vm_compute. reflexivity.
Defined.

(** A frame slab of 3x2 pixels, radius 0. *)
Definition ex_sharp_denoiser : Denoiser.t := Denoiser.mk 0 2 2 0 false 0 1.

Definition ex_input : list Q := map inject_Z (seqZ 0 90).

Lemma box_blur_radius_zero_witness :
  (Denoiser.radius ex_sharp_denoiser = 0 /\ blur_wf 0 3 2 /\
   0 + INPUT_NUM_CHANNELS * (3 * 2) <= Z.of_nat (length ex_input)) /\
  window (Z.max (1 - 0) 0) (Z.min (1 + 0 + 1) 3) = [1] /\
  box_blur ex_sharp_denoiser 3 2 0 ex_input = ex_input.
Proof.
  assert (Hwf : blur_wf 0 3 2)
    by (unfold blur_wf, INPUT_NUM_CHANNELS, Int32.max_signed; lia).
  assert (Hlen : 0 + INPUT_NUM_CHANNELS * (3 * 2) <= Z.of_nat (length ex_input))
    by by_computation.
  destruct (box_blur_radius_zero ex_sharp_denoiser 3 2 0 ex_input eq_refl Hwf
              ltac:(lia) Hlen) as (Hone & Hid & _).
  split; [exact (conj eq_refl (conj Hwf Hlen))|].
  split; [exact (proj1 (Hone 1 0 ltac:(lia) ltac:(lia)))|].
  exact (Hid Q_add_zero Q_div_one).
Defined.

(** C2 as stated fails: on the one-row slab with [r = 5] the horizontal
    pass gives pixel 0 the average [6/6] of the six columns [0 .. 5], where
    the half-open window [[0, 5)] of the claim has five columns and the
    average [0/5]; and with [r = 0] the claimed window is empty. *)
Lemma box_blur_window_counterexample :
  let intensity px py := load ex_slab (14 + 15 * (py * 6 + px)) in
  let temp := box_blur_horizontal 5 6 1 ex_slab 14 (replicate 6 0%Q) in
  Qeq_bool (load temp 0) 1 = true /\
  Qeq_bool (spec_horizontal_average 5 6 intensity 0 0) 0 = true /\
  Qeq_bool (load temp 0) (spec_horizontal_average 5 6 intensity 0 0) = false /\
  Qeq_bool (load (box_blur ex_denoiser 6 1 0 ex_slab) 14)
           (spec_vertical_average 5 1
              (fun px py => spec_horizontal_average 5 6 intensity px py) 0 0) = false /\
  length (window (Z.max (0 - 5) 0) (Z.min (0 + 5 + 1) 6)) = 6%nat /\
  length (window (Z.max (0 - 5) 0) (Z.min (0 + 5) 6)) = 5%nat /\
  window (Z.max (2 - 0) 0) (Z.min (2 + 0) 6) = [].
Proof. vm_compute. repeat split; reflexivity. Qed.

(** *** Two layers, "B" before "A" in the file *)

Definition ex_spec_BA : ImageSpec.t :=
  ImageSpec.mk 1 1 36 (full_layer "B" ++ full_layer "A") None [].

Definition ex_layers_BA : list DenoiseImageLayer.t :=
  match parse_channels 7 ex_spec_BA with
  | Ok layers => layers
  | Error _ => []
  end.

Definition ex_task_BA : DenoiseTask Q :=
  mkTask 0 []
    (mkImage 1 1 36 7 (map inject_Z (seqZ 0 36)) ex_spec_BA ex_layers_BA [])
    0 (replicate 15 0%Q) 0 [] ∅.

(** A device that leaves the image as it is. *)
Definition ex_device (task : DeviceTask.t) (t : DenoiseTask Q) : list Q :=
  pixels (image t).

(** C3 as stated fails: both layers are retained, "B" is discovered first,
    and [parse_channels] produces "A" before "B". *)
Lemma layers_not_in_discovery_order :
  exists layers,
    parse_channels 7 ex_spec_BA = Ok layers /\
    map DenoiseImageLayer.name layers = ["A"; "B"]%string /\
    discovery_order ex_spec_BA = ["B"; "A"]%string /\
    map DenoiseImageLayer.name layers <> discovery_order ex_spec_BA.
Proof.
  exists ex_layers_BA. vm_compute. repeat split; try reflexivity. discriminate.
Qed.

Lemma layers_in_key_order_witness :
  parse_channels 7 ex_spec_BA = Ok (layers (image ex_task_BA)) /\
  map DenoiseImageLayer.name (layers (image ex_task_BA)) = ["A"; "B"]%string /\
  StronglySorted string_lt (map DenoiseImageLayer.name (layers (image ex_task_BA))) /\
  (exec ex_device ex_denoiser ex_task_BA).2 = seqZ 0 2.
Proof.
  assert (Hparse : parse_channels 7 ex_spec_BA = Ok (layers (image ex_task_BA)))
    by (vm_compute; reflexivity).
  destruct (layers_in_key_order ex_device ex_denoiser ex_task_BA 7 ex_spec_BA Hparse)
    as (_ & Hsorted & _ & Hlog).
  split; [exact Hparse|]. split; [vm_compute; reflexivity|].
  split; [exact Hsorted|].
  destruct (exec ex_device ex_denoiser ex_task_BA).1 as [t'|e] eqn:Hexec.
  - exact (Hlog t' eq_refl).
  - exfalso. revert Hexec. vm_compute. discriminate.
Defined.

(** *** Sample counts *)

(** The frame of [ex_spec] without its samples attribute. *)
Definition ex_spec_no_samples : ImageSpec.t :=
  ImageSpec.mk 3 2 18 (full_layer "L") None [].

(** Its only layer, as detection leaves it. *)
Definition ex_layer_detected : DenoiseImageLayer.t :=
  {| DenoiseImageLayer.name := "";
     DenoiseImageLayer.channels := map ChannelMapping.name (output_channels ++ input_channels);
     DenoiseImageLayer.layer_to_image_channel := seqZ 0 18;
     DenoiseImageLayer.input_to_image_channel := seqZ 3 15;
     DenoiseImageLayer.output_to_image_channel := seqZ 0 3;
     DenoiseImageLayer.neighbor_input_to_image_channel := [];
     DenoiseImageLayer.samples := 0 |}.

Example ex_detected_no_samples :
  detected (group_channels (ImageSpec.channelnames ex_spec_no_samples) 0
              (multiview_channels_of ex_spec_no_samples) [])
  = [("L"%string, ex_layer_detected)].
Proof. vm_compute. reflexivity. Qed.

Example ex_detected :
  detected (group_channels (ImageSpec.channelnames ex_spec) 0
              (multiview_channels_of ex_spec) [])
  = [("L"%string, ex_layer_detected)].
Proof. vm_compute. reflexivity. Qed.

(** The frame of [ex_spec] with a samples attribute that is no number. *)
Definition ex_spec_bad_samples : ImageSpec.t :=
  ImageSpec.mk 3 2 18 (full_layer "L") None [("cycles.L.samples", "many")%string].

Example ex_detected_bad_samples :
  detected (group_channels (ImageSpec.channelnames ex_spec_bad_samples) 0
              (multiview_channels_of ex_spec_bad_samples) [])
  = [("L"%string, ex_layer_detected)].
Proof. vm_compute. reflexivity. Qed.

Lemma parse_channels_samples_witness :
  parse_channels 0 ex_spec = Ok [set_name_samples ex_layer_detected "L" 16] /\
  parse_channels 7 ex_spec = Ok [set_name_samples ex_layer_detected "L" 7] /\
  (parse_channels 0 ex_spec_no_samples
   = Error "No sample number specified in the file for layer L or on the command line" /\
   @image_load Q 0 "in.exr" (Opened ex_spec_no_samples (Some ex_pixels))
   = Error "No sample number specified in the file for layer L or on the command line") /\
  parse_channels 0 ex_spec_bad_samples
  = Error "Failed to parse samples metadata: many".
Proof.
  pose proof (@parse_channels_samples Q 0 ex_spec) as H16.
  pose proof (@parse_channels_samples Q 7 ex_spec) as H7.
  pose proof (@parse_channels_samples Q 0 ex_spec_no_samples) as Hnone.
  pose proof (@parse_channels_samples Q 0 ex_spec_bad_samples) as Hbad.
  cbv zeta in H16, H7, Hnone, Hbad.
  rewrite ex_detected in H16, H7. rewrite ex_detected_no_samples in Hnone.
  rewrite ex_detected_bad_samples in Hbad.
  destruct H16 as (_ & H16 & _). destruct H7 as (H7 & _).
  destruct Hnone as (_ & _ & Hnone & _). destruct Hbad as (_ & _ & Hbad & _).
  split; [|split; [|split]].
  - rewrite (H16 ltac:(lia) (fun _ => 16)); [reflexivity|].
    intros kv [<- | []]. split; [by_computation|].
    exists EmptyString, EmptyString, EmptyString.
    split; [constructor|]. split; [left; reflexivity|].
    split; [vm_compute; reflexivity | exact I].
  - rewrite (H7 ltac:(lia)). reflexivity.
  - destruct (Hnone ltac:(lia) (fun _ => 0) [] ("L"%string, ex_layer_detected) []
                eq_refl ltac:(intros kv' []))
      as [_ Hlow].
    destruct Hlow as [Hrun Hload].
    { left. unfold blank. vm_compute. constructor. }
    split; [rewrite Hrun | rewrite (Hload "in.exr"%string (Some ex_pixels))];
      vm_compute; reflexivity.
  - destruct (Hbad ltac:(lia) (fun _ => 0) [] ("L"%string, ex_layer_detected) []
                eq_refl ltac:(intros kv' []))
      as [Hnan _].
    destruct Hnan as [Hrun _].
    { exists EmptyString, "m"%char, "any"%string.
      split; [constructor|]. split; [vm_compute; reflexivity|].
      split; [reflexivity|]. split; [reflexivity|]. split; discriminate. }
    rewrite Hrun. vm_compute. reflexivity.
Defined.

(** *** Reshuffle tables of the loaded frame *)

Lemma retained_tables_in_range_witness :
  (ImageSpec.nchannels ex_spec = Z.of_nat (length (ImageSpec.channelnames ex_spec)) /\
   image_load 0 "in.exr" (Opened ex_spec (Some ex_pixels)) = Ok ex_image) /\
  (forall j, 0 <= j < INPUT_NUM_CHANNELS ->
     0 <= load (DenoiseImageLayer.input_to_image_channel ex_layer) j
     < num_channels ex_image) /\
  (forall k, 0 <= k < OUTPUT_NUM_CHANNELS ->
     0 <= load (DenoiseImageLayer.output_to_image_channel ex_layer) k
     < num_channels ex_image).
Proof.
  assert (Hnc : ImageSpec.nchannels ex_spec
                = Z.of_nat (length (ImageSpec.channelnames ex_spec)))
    by (vm_compute; reflexivity).
  destruct (retained_tables_in_range 0 "in.exr" ex_spec (Some ex_pixels) ex_image
              Hnc ex_image_loaded) as (_ & Hall).
  destruct (Hall ex_layer ltac:(left; reflexivity)) as (_ & _ & Hic & Hoc & _).
  split; [exact (conj Hnc ex_image_loaded)|].
  split; [exact Hic | exact Hoc].
Defined.

(** *** Saving the frame *)

Definition ex_save_env (write close rename : bool) : @save_env :=
  mkSaveEnv "0a1b" true true true write close rename "disk full" "busy".

(** The target exists before the save. *)
Definition ex_fs : gmap string (@file_content Q) :=
  {[ "out.exr"%string := ImageFile ex_spec ex_pixels ]}.

Lemma save_output_success_witness :
  tmp_filepath_of (ex_save_env true true true) "out.exr" = "out.exr.denoise-tmp-0a1b.exr"%string /\
  (save_output (ex_save_env true true true) ex_fs ex_image "out.exr").1.1 = Ok () /\
  (save_output (ex_save_env true true true) ex_fs ex_image "out.exr").1.2 !! "out.exr"%string
  = Some (ImageFile (with_sample_attributes (in_spec ex_image) (layers ex_image))
            (pixels ex_image)) /\
  (save_output (ex_save_env true true true) ex_fs ex_image "out.exr").1.2
    !! "out.exr.denoise-tmp-0a1b.exr"%string = None.
Proof.
  destruct (save_output_success (ex_save_env true true true) ex_fs ex_image "out.exr"
              eq_refl eq_refl eq_refl eq_refl eq_refl) as (Hok & Hout & Htmp).
  split; [reflexivity|]. split; [exact Hok|]. split; [exact Hout | exact Htmp].
Defined.

Lemma save_output_failure_cleanup_witness :
  write_ok (ex_save_env false true true) = false /\
  (exists e, (save_output (ex_save_env false true true) ex_fs ex_image "out.exr").1.1
             = Error e) /\
  (save_output (ex_save_env false true true) ex_fs ex_image "out.exr").1.2
    !! "out.exr.denoise-tmp-0a1b.exr"%string = None /\
  (save_output (ex_save_env false true true) ex_fs ex_image "out.exr").1.2 !! "out.exr"%string
  = ex_fs !! "out.exr"%string.
Proof.
  destruct (save_output_failure_cleanup (ex_save_env false true true) ex_fs ex_image
              "out.exr" eq_refl eq_refl (or_introl eq_refl))
    as (He & _ & Htmp & Hout).
  split; [reflexivity|]. split; [exact He|]. split; [exact Htmp | exact Hout].
Defined.

Lemma retained_output_channels_witness :
  (parse_channels 0 ex_spec = Ok [ex_layer] /\ In ex_layer [ex_layer]) /\
  channels_distinct OUTPUT_NUM_CHANNELS
    (DenoiseImageLayer.output_to_image_channel ex_layer).
Proof.
  assert (Hparse : parse_channels 0 ex_spec = Ok [ex_layer]) by (vm_compute; reflexivity).
  assert (Hin : In ex_layer [ex_layer]) by (left; reflexivity).
  destruct (retained_output_channels 0 ex_spec [ex_layer] ex_layer Hparse Hin)
    as (_ & Hdist).
  split; [exact (conj Hparse Hin) | exact Hdist].
Defined.

(** *** The queue and the input buffer of the 3x2 frame *)

Lemma create_task_tile_fields_witness :
  divide_up 3 2 * divide_up 2 2 <= Int32.max_signed /\
  RenderTile.tile_index (load (tiles (create_task ex_denoiser ex_task).2) 1) = 1 /\
  RenderTile.num_samples (load (tiles (create_task ex_denoiser ex_task).2) 1) = 16 /\
  RenderTile.stride (load (tiles (create_task ex_denoiser ex_task).2) 1) = 3.
Proof.
  assert (Hmax : divide_up 3 2 * divide_up 2 2 <= Int32.max_signed) by by_computation.
  destruct (create_task_tile_fields ex_denoiser ex_task 1
              ltac:(by_computation) ltac:(by_computation)
              ltac:(by_computation) ltac:(by_computation) Hmax ltac:(by_computation))
    as (Hidx & Hsamples & _ & _ & _ & Hstride & _).
  split; [exact Hmax|]. split; [exact Hidx|]. split; [exact Hsamples | exact Hstride].
Defined.

Lemma read_pixels_reshuffles_witness :
  INPUT_NUM_CHANNELS * (3 * 2) <= Z.of_nat (length (replicate 90 0%Q)) /\
  (* slot 14 of pixel 5 comes from file channel 17 of pixel 5 *)
  load (read_pixels ex_image ex_layer (replicate 90 0%Q) 0) (0 + (5 * 15 + 14))
  = load ex_pixels (5 * 18 + load (seqZ 3 15) 14).
Proof.
  assert (Hlen : 0 + INPUT_NUM_CHANNELS * (3 * 2) <= Z.of_nat (length (replicate 90 0%Q)))
    by by_computation.
  destruct (read_pixels_reshuffles ex_image ex_layer (replicate 90 0%Q) 0
              ltac:(by_computation) ltac:(by_computation) ltac:(by_computation)
              ltac:(lia) Hlen) as (_ & Hin & _).
  split; [exact Hlen|].
  apply (Hin 5 14); by_computation.
Defined.

(** ** The further properties on concrete frames *)

(** *** Tables of the layer "L" *)

Example ex_parsed : parse_channels 0 ex_spec = Ok [ex_layer].
Proof. vm_compute. reflexivity. Qed.

Example ex_noisy_R_mapping :
  In (ChannelMapping.mk 8 "Noisy Image.R") input_channels.
Proof. vm_compute. do 8 right. left. reflexivity. Qed.

Lemma retained_tables_by_name_witness :
  (parse_channels 0 ex_spec = Ok [ex_layer] /\ In ex_layer [ex_layer]) /\
  exists pass channel,
    parse_channel_name
      (load (ImageSpec.channelnames ex_spec)
         (load (DenoiseImageLayer.input_to_image_channel ex_layer)
               (ChannelMapping.channel (ChannelMapping.mk 8 "Noisy Image.R"))))
      (multiview_channels_of ex_spec)
    = Some (DenoiseImageLayer.name ex_layer, pass, channel) /\
    (pass ++ "." ++ channel)%string
    = ChannelMapping.name (ChannelMapping.mk 8 "Noisy Image.R").
Proof.
  assert (Hin : In ex_layer [ex_layer]) by (left; reflexivity).
  destruct (retained_tables_by_name 0 ex_spec [ex_layer] ex_layer ex_parsed Hin)
    as (Hinput & _).
  split; [exact (conj ex_parsed Hin)|].
  exact (Hinput _ ex_noisy_R_mapping).
Defined.

(** *** A second frame as neighbour *)

(** Two frames on disk, both with the channels and pixels of the example
    frame. *)
Definition ex_frame_paths : list string := ["frame0.exr"; "frame1.exr"]%string.

Definition ex_files (path : string) : @file_status Q :=
  if bool_decide (path ∈ ex_frame_paths) then Opened ex_spec (Some ex_pixels)
  else NotRegular.

Definition ex_layer_matched : DenoiseImageLayer.t :=
  set_neighbor_input_to_image_channel ex_layer [seqZ 3 15].

Example ex_match_channels :
  match_channels ex_layer 0 (ImageSpec.channelnames ex_spec)
    (ImageSpec.channelnames ex_spec) = Some ex_layer_matched.
Proof. vm_compute. reflexivity. Qed.

Lemma match_channels_spec_witness :
  0 <= 0 < Int32.max_signed /\
  Z.of_nat (length (DenoiseImageLayer.neighbor_input_to_image_channel ex_layer_matched))
  = 0 + 1.
Proof.
  assert (Hn : 0 <= 0 < Int32.max_signed) by by_computation.
  destruct (match_channels_spec ex_layer 0 (ImageSpec.channelnames ex_spec)
              (ImageSpec.channelnames ex_spec) Hn) as (_ & Hsome).
  destruct (Hsome ex_layer_matched ex_match_channels) as (_ & Hlen & _).
  split; [exact Hn | exact Hlen].
Defined.

Definition ex_image_neighbors : DenoiseImage Q :=
  mkImage 3 2 18 0 ex_pixels ex_spec [ex_layer_matched]
          [mkImageInput ex_spec (Some ex_pixels)].

Example ex_load_neighbors :
  load_neighbors 16 ex_files ex_image ex_frame_paths [1] = Ok ex_image_neighbors.
Proof. vm_compute. reflexivity. Qed.

Lemma load_neighbors_spec_witness :
  (in_neighbors ex_image = [] /\
   Z.of_nat (length [1]) <= Int32.max_signed /\
   load_neighbors 16 ex_files ex_image ex_frame_paths [1] = Ok ex_image_neighbors) /\
  Z.of_nat (length [1]) <= 16 - 1 /\
  Forall2 (opened_for ex_files ex_frame_paths ex_image) [1] (in_neighbors ex_image_neighbors).
Proof.
  assert (Hnone : in_neighbors ex_image = []) by reflexivity.
  assert (Hmax : Z.of_nat (length [1]) <= Int32.max_signed) by by_computation.
  destruct (load_neighbors_spec 16 ex_files ex_frame_paths ex_image [1] ex_image_neighbors
              Hnone Hmax ex_load_neighbors) as (Hcap & _ & Hopen & _).
  split; [exact (conj Hnone (conj Hmax ex_load_neighbors))|].
  split; [exact Hcap | exact Hopen].
Defined.


(** *** The middle frame of a run of three *)

(** Temporal half-window 1, three frames. *)
Definition ex_temporal_denoiser : Denoiser.t := Denoiser.mk 0 2 2 1 false 1 3.

Definition ex_middle_task : DenoiseTask Q := mkTask 1 [0; 2] ex_image 0 [] 0 [] ∅.

Lemma run_neighbor_frames_witness :
  (0 <= Denoiser.neighbor_frames ex_temporal_denoiser /\
   0 <= frame ex_middle_task < Denoiser.num_frames ex_temporal_denoiser /\
   frame ex_middle_task + Denoiser.neighbor_frames ex_temporal_denoiser
   < Int32.max_signed /\
   neighbor_frames ex_middle_task
   = neighbor_frames_of ex_temporal_denoiser (frame ex_middle_task)) /\
  DeviceTask.denoising_frames (create_task ex_temporal_denoiser ex_middle_task).1
  = map (fun f => f - frame ex_middle_task)
        (neighbor_frames_of ex_temporal_denoiser (frame ex_middle_task)).
Proof.
  assert (H1 : 0 <= Denoiser.neighbor_frames ex_temporal_denoiser) by by_computation.
  assert (H2 : 0 <= frame ex_middle_task < Denoiser.num_frames ex_temporal_denoiser)
    by by_computation.
  assert (H3 : frame ex_middle_task + Denoiser.neighbor_frames ex_temporal_denoiser
               < Int32.max_signed) by by_computation.
  assert (H4 : neighbor_frames ex_middle_task
               = neighbor_frames_of ex_temporal_denoiser (frame ex_middle_task))
    by (vm_compute; reflexivity).
  destruct (run_neighbor_frames ex_temporal_denoiser ex_middle_task H1 H2 H3 H4)
    as (_ & _ & _ & _ & Hoff & _).
  split; [exact (conj H1 (conj H2 (conj H3 H4))) | exact Hoff].
Defined.

(** *** Handing out the two tiles of the 3x2 frame *)

Lemma acquire_tile_order_witness :
  (Z.of_nat (length (tiles (create_task ex_denoiser ex_task).2)) <= Int32.max_signed /\
   (length (tiles (create_task ex_denoiser ex_task).2) <= 2)%nat) /\
  acquire_tile (fun tile => tile) ex_denoiser
    (acquire_tiles (fun tile => tile) 2 ex_denoiser (create_task ex_denoiser ex_task).2).2
  = None.
Proof.
  assert (H1 : Z.of_nat (length (tiles (create_task ex_denoiser ex_task).2))
               <= Int32.max_signed) by by_computation.
  assert (H2 : (length (tiles (create_task ex_denoiser ex_task).2) <= 2)%nat)
    by (vm_compute; lia).
  destruct (acquire_tile_order (fun tile => tile) ex_denoiser ex_task 2 H1 H2)
    as (_ & _ & Hnone).
  split; [exact (conj H1 H2) | exact Hnone].
Defined.

(** *** Mapping and releasing the second tile *)

Lemma map_unmap_registry_witness :
  (length ex_tiles = 10%nat /\
   output_pixels ex_task !! RenderTile.tile_index (load ex_tiles 4) = None) /\
  unmap_neighboring_tiles ex_task ex_tiles = None /\
  exists t',
    unmap_neighboring_tiles (map_neighboring_tiles ex_denoiser ex_task ex_tiles).2
      (map_neighboring_tiles ex_denoiser ex_task ex_tiles).1 = Some t' /\
    output_pixels t' = output_pixels ex_task.
Proof.
  assert (H1 : length ex_tiles = 10%nat) by reflexivity.
  assert (H2 : output_pixels ex_task !! RenderTile.tile_index (load ex_tiles 4) = None)
    by reflexivity.
  destruct (map_unmap_registry ex_denoiser ex_task ex_tiles H1 H2)
    as (Hfail & _ & _ & Hback).
  split; [exact (conj H1 H2)|]. split; [exact Hfail | exact Hback].
Defined.

(** *** Releasing the two tiles of the frame in either order *)

(** The first tile of the frame, [(0, 0)] of size [2 x 2]. *)
Definition ex_first : RenderTile.t :=
  RenderTile.mk 0 0 2 2 0 16 0 0 3 0 DENOISE input_pixels_ptr.

Definition ex_first_tiles : list RenderTile.t :=
  store (store (replicate 10 inhabitant) 4 ex_first) 9 ex_first.

Definition ex_first_buffer : list Q := map inject_Z (seqZ 200 12).

Definition ex_two_tiles_task : DenoiseTask Q :=
  mkTask 0 [] ex_image 0 [] 2 [] {[ 0 := ex_first_buffer; 1 := ex_out_buffer ]}.

Lemma unmap_neighboring_tiles_commute_witness :
  (tile_in_image ex_image (load ex_first_tiles 9) /\
   tile_in_image ex_image (load ex_unmap_tiles 9) /\
   (forall px py, ~ (in_tile (load ex_first_tiles 9) px py /\
                     in_tile (load ex_unmap_tiles 9) px py)) /\
   output_pixels ex_two_tiles_task !! RenderTile.tile_index (load ex_first_tiles 9)
   = Some ex_first_buffer /\
   output_pixels ex_two_tiles_task !! RenderTile.tile_index (load ex_unmap_tiles 9)
   = Some ex_out_buffer) /\
  exists t_a t_b t',
    unmap_neighboring_tiles ex_two_tiles_task ex_first_tiles = Some t_a /\
    unmap_neighboring_tiles t_a ex_unmap_tiles = Some t' /\
    unmap_neighboring_tiles ex_two_tiles_task ex_unmap_tiles = Some t_b /\
    unmap_neighboring_tiles t_b ex_first_tiles = Some t'.
Proof.
  assert (Ea : load ex_first_tiles 9 = ex_first) by (vm_compute; reflexivity).
  assert (Eb : load ex_unmap_tiles 9 = ex_center) by (vm_compute; reflexivity).
  assert (Ha : tile_in_image ex_image (load ex_first_tiles 9))
    by (rewrite Ea; unfold tile_in_image; cbn; lia).
  assert (Hb : tile_in_image ex_image (load ex_unmap_tiles 9))
    by (rewrite Eb; exact ex_center_in_image).
  assert (Hdisj : forall px py, ~ (in_tile (load ex_first_tiles 9) px py /\
                                   in_tile (load ex_unmap_tiles 9) px py))
    by (intros px py; rewrite Ea, Eb; unfold in_tile; cbn; lia).
  assert (Hia : RenderTile.tile_index (load ex_first_tiles 4)
                = RenderTile.tile_index (load ex_first_tiles 9)) by reflexivity.
  assert (Hib : RenderTile.tile_index (load ex_unmap_tiles 4)
                = RenderTile.tile_index (load ex_unmap_tiles 9)) by reflexivity.
  assert (Hne : RenderTile.tile_index (load ex_first_tiles 9)
                <> RenderTile.tile_index (load ex_unmap_tiles 9))
    by (vm_compute; discriminate).
  assert (Houta : output_pixels ex_two_tiles_task
                    !! RenderTile.tile_index (load ex_first_tiles 9)
                  = Some ex_first_buffer) by reflexivity.
  assert (Houtb : output_pixels ex_two_tiles_task
                    !! RenderTile.tile_index (load ex_unmap_tiles 9)
                  = Some ex_out_buffer) by reflexivity.
  split; [exact (conj Ha (conj Hb (conj Hdisj (conj Houta Houtb))))|].
  exact (unmap_neighboring_tiles_commute ex_two_tiles_task ex_first_tiles
           ex_unmap_tiles ex_first_buffer ex_out_buffer ex_image_wf Ha Hb
           ex_output_in_range ex_output_distinct Hdisj Hia Hib Hne Houta Houtb).
Defined.


(** *** Loading the frame and its neighbour into the device buffer *)




(** *** Loading frame 0 of two frames *)

Definition ex_loaded_task : DenoiseTask Q :=
  match task_load 16 ex_temporal_denoiser ex_frame_paths ex_files
          (new_task ex_temporal_denoiser 0 [1]) with
  | Ok t => t
  | Error _ => new_task ex_temporal_denoiser 0 [1]
  end.

Example ex_task_loaded :
  task_load 16 ex_temporal_denoiser ex_frame_paths ex_files
    (new_task ex_temporal_denoiser 0 [1]) = Ok ex_loaded_task.
Proof. vm_compute. reflexivity. Qed.

Lemma task_load_stages_witness :
  task_load 16 ex_temporal_denoiser ex_frame_paths ex_files
    (new_task ex_temporal_denoiser 0 [1]) = Ok ex_loaded_task /\
  Z.of_nat (length (in_neighbors (image ex_loaded_task))) = 1 /\
  current_layer ex_loaded_task = 0 /\
  Z.of_nat (length (input_pixels ex_loaded_task)) = 180.
Proof.
  destruct (task_load_stages 16 ex_temporal_denoiser ex_frame_paths ex_files
              (new_task ex_temporal_denoiser 0 [1])) as (_ & Hok).
  destruct (Hok ex_loaded_task ex_task_loaded) as (Hopen & _ & Hcur & Hbuf).
  - unfold blur_wf. by_computation.
  - by_computation.
  - by_computation.
  - by_computation.
  - split; [exact ex_task_loaded|]. split; [exact Hopen|]. split; [exact Hcur|].
    etransitivity; [exact Hbuf|]. vm_compute. reflexivity.
Defined.



(** *** The neighbours of the second tile of the 3x2 frame *)

Lemma map_neighboring_tiles_adjacent_witness :
  (1 <= width (image ex_task) /\ 1 <= height (image ex_task) /\
   1 <= Denoiser.tile_size_x ex_denoiser /\ 1 <= Denoiser.tile_size_y ex_denoiser /\
   width (image ex_task) + 2 * Denoiser.tile_size_x ex_denoiser <= Int32.max_signed /\
   height (image ex_task) + 2 * Denoiser.tile_size_y ex_denoiser <= Int32.max_signed /\
   length ex_tiles = 10%nat /\
   load ex_tiles 4 = load (tiles (create_task ex_denoiser ex_task).2) (0 * 2 + 1)) /\
  (let left_tile := load (map_neighboring_tiles ex_denoiser ex_task ex_tiles).1 3 in
   let first := load (tiles (create_task ex_denoiser ex_task).2) 0 in
   RenderTile.x left_tile = RenderTile.x first /\
   RenderTile.y left_tile = RenderTile.y first /\
   RenderTile.w left_tile = RenderTile.w first /\
   RenderTile.h left_tile = RenderTile.h first) /\
  RenderTile.w (load (map_neighboring_tiles ex_denoiser ex_task ex_tiles).1 5) = 0.
Proof.
  assert (HW : 1 <= width (image ex_task)) by by_computation.
  assert (HH : 1 <= height (image ex_task)) by by_computation.
  assert (Htw : 1 <= Denoiser.tile_size_x ex_denoiser) by by_computation.
  assert (Hth : 1 <= Denoiser.tile_size_y ex_denoiser) by by_computation.
  assert (HmW : width (image ex_task) + 2 * Denoiser.tile_size_x ex_denoiser
                <= Int32.max_signed) by by_computation.
  assert (HmH : height (image ex_task) + 2 * Denoiser.tile_size_y ex_denoiser
                <= Int32.max_signed) by by_computation.
  assert (Hlen : length ex_tiles = 10%nat) by reflexivity.
  assert (Hnx : divide_up (width (image ex_task)) (Denoiser.tile_size_x ex_denoiser) = 2)
    by (vm_compute; reflexivity).
  assert (Hny : divide_up (height (image ex_task)) (Denoiser.tile_size_y ex_denoiser) = 1)
    by (vm_compute; reflexivity).
  assert (Hc : load ex_tiles 4
               = load (tiles (create_task ex_denoiser ex_task).2) (0 * 2 + 1))
    by (vm_compute; reflexivity).
  pose proof (map_neighboring_tiles_adjacent ex_denoiser ex_task ex_tiles 1 0) as Hadj.
  cbv zeta in Hadj. rewrite Hnx, Hny in Hadj.
  specialize (Hadj HW HH Htw Hth HmW HmH ltac:(lia) ltac:(lia) Hlen Hc).
  split; [exact (conj HW (conj HH (conj Htw (conj Hth
                   (conj HmW (conj HmH (conj Hlen Hc))))))) |].
  split.
  - destruct (Hadj 3 ltac:(lia) ltac:(lia)) as (Hin & _ & _).
    change (3 mod 3 - 1) with (-1) in Hin. change (3 / 3 - 1) with 0 in Hin.
    exact (Hin ltac:(lia) ltac:(lia)).
  - destruct (Hadj 5 ltac:(lia) ltac:(lia)) as (_ & Hout & _).
    change (5 mod 3 - 1) with 1 in Hout.
    apply Hout. lia.
Defined.

(** *** The progress line of the fourth of twelve frames on an 80-column
    console, with the fill computed in exact arithmetic *)

Definition ex_bar_fill (num bars total : Z) : Z := num * bars / total.

Lemma print_progress_width_witness :
  (0 <= 3 <= 10 /\ 10 < Int32.max_signed /\
   (0 <= 3 < 12 /\ 12 <= Int32.max_signed) /\ 80 <= Int32.max_signed) /\
  count_digits 10 1 = 2 /\
  Z.of_nat (String.length (print_progress 80 ex_bar_fill 3 10 3 12)) = 80.
Proof.
  assert (H1 : 0 <= 3 <= 10) by lia.
  assert (H2 : 10 < Int32.max_signed) by by_computation.
  assert (H3 : 0 <= 3 < 12 /\ 12 <= Int32.max_signed) by by_computation.
  assert (H4 : 80 <= Int32.max_signed) by by_computation.
  assert (Hd : count_digits 10 1 = 2)
    by (rewrite count_digits_pretty by by_computation; reflexivity).
  assert (Hf : count_digits (12 - 1) 1 = 2)
    by (rewrite count_digits_pretty by by_computation; reflexivity).
  pose proof (print_progress_width 80 ex_bar_fill 3 10 3 12) as Hw.
  cbv zeta in Hw. rewrite Hd, Hf in Hw.
  destruct (Hw H1 H2 (fun _ => H3) H4 ltac:(by_computation) ltac:(by_computation))
    as [_ Hlen].
  split; [exact (conj H1 (conj H2 (conj H3 H4))) |].
  split; [exact Hd | exact Hlen].
Defined.


(** *** A look-dev viewport against a missing one, with rational numbers for
    the floats *)

Definition ex_fneq (a b : Q) : bool := negb (Qeq_bool a b).

Definition ex_shading : View3DShading.t Q :=
  View3DShading.mk 5 false true (1 # 2) (2 # 1) (0 # 1) "studio.exr".

Lemma shader_modified_custom_witness :
  (ex_fneq 0 0 = false /\ ex_fneq 1 1 = false /\
   use_custom_shader (parameters_of_view 0%Q 1%Q 5 None) = false) /\
  shader_modified ex_fneq (parameters_of_view 0%Q 1%Q 5 (Some ex_shading))
                  (parameters_of_view 0%Q 1%Q 5 None) = true.
Proof.
  assert (H0 : ex_fneq 0 0 = false) by reflexivity.
  assert (H1 : ex_fneq 1 1 = false) by reflexivity.
  assert (Hb : use_custom_shader (parameters_of_view 0%Q 1%Q 5 (@None (View3DShading.t Q)))
               = false) by reflexivity.
  split; [exact (conj H0 (conj H1 Hb)) |].
  rewrite (shader_modified_custom 0%Q 1%Q ex_fneq 5 (Some ex_shading) None H0 H1 Hb).
  reflexivity.
Defined.


(** *** The temporary path of a target in a directory *)

Lemma tmp_filepath_form_witness :
  (forall c, In c (list_ascii_of_string "exr") -> c <> "."%char /\ c <> "/"%char) /\
  extension "frames/out.exr" = ".exr"%string /\
  tmp_filepath_of (ex_save_env true true true) "frames/out.exr"
  = "frames/out.exr.denoise-tmp-0a1b.exr"%string /\
  extension "frames/out.exr.denoise-tmp-0a1b.exr" = ".exr"%string /\
  (save_output (ex_save_env true true true) ex_fs ex_image "frames/out.exr").1.2
    !! "frames/out.exr.denoise-tmp-0a1b.exr"%string = None.
Proof.
  assert (Hchars : forall c, In c (list_ascii_of_string "exr") ->
                     c <> "."%char /\ c <> "/"%char).
  { intros c [<- | [<- | [<- | []]]]; split; discriminate. }
  assert (Hdot : ~ occurs "." "exr")
    by (intros Hin; destruct (Hchars _ Hin) as [H _]; auto).
  assert (Hslash : ~ occurs "/" "exr")
    by (intros Hin; destruct (Hchars _ Hin) as [_ H]; auto).
  destruct (tmp_filepath_form (ex_save_env true true true) ex_fs ex_image
              "frames/ou" "t" "exr" ltac:(discriminate) ltac:(discriminate)
              Hdot Hslash) as (Hout & Htmp & Hext & _ & _ & Hgone).
  split; [exact Hchars|]. split; [exact Hout|]. split; [exact Htmp|]. split.
  - etransitivity; [exact Hext|]. exact Hout.
  - apply Hgone. vm_compute. reflexivity.
Defined.
